(* ===== verification/_CoqProject ===== *)
-Q . S2P
Prelude.v
KList.v
KListRepr.v
KListOps.v
KListSort.v
KListSpec.v
Bitmap.v
Hash.v
HashSpec.v
FixedPoint.v
Thread.v
Synch.v
Timer.v
KernelInv.v
KernelOps.v
KernelSafety.v
KernelProps.v
KernelFair.v
KernelLocks.v
Arith64.v
Memory.v
CString.v
CStringSpec.v
StdlibC.v
StdlibSpec.v
Stdio.v
Console.v
StdioSpec.v
Bytes.v
Block.v
BlockSpec.v
Inode.v
InodeSpec.v
Directory.v
DirectorySpec.v
Fd.v
FdSpec.v
Palloc.v
Pagedir.v
PagedirSpec.v
Malloc.v
MallocSpec.v
Random.v
Rtc.v
Vga.v
VgaSpec.v
Kbd.v
KbdSpec.v
Intq.v
IntqSpec.v
Exec.v
ExecSpec.v
Swap.v
SwapSpec.v
Vm.v
VmMach.v
VmSpec.v
