(* ===== verification/Prelude.v ===== *)
(** * Verification of the Pintos kernel

    The program is the Pintos teaching kernel under src/src/: a library shared
    by kernel and user programs (lib/), kernel threads, interrupts and memory
    allocation (threads/), drivers (devices/), a file system (filesys/), user
    processes and system calls (userprog/) and virtual memory (vm/).  This
    library translates it, component by component, into executable functions and
    proves what the components promise.

    ** How C is modelled

    A function is a function of the state of its component, in the monad [M] of
    this file.  Its outcome is [Ret], [Panic] (a failed ASSERT, a PANIC, the
    dereference of a bad pointer, a trap) or [NoFuel].  Integers are [Z] with
    their wrap-around written out ([u32], [i32], ...).  A call that may end the
    process returns an option and is sequenced with [may].  [zoom] runs a
    component on its part of a larger state.  What the compiler and the machine
    leave open is an argument: the success of allocations, the contents of fresh
    memory ("junk"), the registers of devices.  Locks are left out where a
    component is modelled one call at a time (but for [page_fault_lock], which
    can stay held); the header of the file says so.

    ** Files

    - KList, KListRepr, KListOps, KListSort, KListSpec: lib/kernel/list.c on a
      heap of links.  [list_repr] relates the heap to a sequence; every
      operation refines the one on sequences, and [list_sort] sorts.
    - Bitmap: lib/kernel/bitmap.c on arrays of words.  Scanning finds the first
      run.
    - Hash, HashSpec: lib/kernel/hash.c.  Any sequence of operations refines a
      finite map, with rehashing and failing allocations; iteration visits every
      element once.
    - FixedPoint, Arith64, Random: threads/fixed-point.h, lib/arithmetic.c and
      lib/random.c.  Error bounds, 64-bit division, the permutation invariant.
    - Thread, Synch, Timer: threads/thread.c, interrupt.c, synch.c and
      devices/timer.c as one kernel state.  The saved stack of a thread is the
      list of kernel instructions it still has to run, so a context switch
      happens in the middle of functions as it does in the code.
    - KernelInv, KernelOps, KernelSafety, KernelProps, KernelFair, KernelLocks:
      the scheduler invariant in all reachable states, the wake-up of sleepers, a
      bound in timer interrupts on the time a ready thread waits in any run,
      mutual exclusion of locks, and how waiting for a lock destroys the list of
      locks that its holder has.
    - Memory, CString, CStringSpec: lib/string.c on byte memory, in which an
      access to an unmapped address panics.
    - StdlibC, StdlibSpec: lib/stdlib.c, heap sort and binary search.
    - Stdio, Console, StdioSpec: lib/stdio.c, lib/kernel/console.c and
      lib/user/console.c.  Formatting, truncation, and the round trip with atoi.
    - Bytes, Block, BlockSpec: sequences of bytes; devices/block.c and
      partition.c.  Reading returns what was written; the partition scan diverges
      on an extended partition.
    - Inode, InodeSpec: filesys/inode.c, file.c and free-map.c.  A write changes
      exactly the bytes it says.
    - Directory, DirectorySpec: filesys/directory.c and filesys.c.  A directory
      refines a finite map from names to sectors.
    - Fd, FdSpec: the system calls on files of userprog/syscall.c.  An invariant
      types the descriptors.
    - Palloc, Pagedir, PagedirSpec: threads/palloc.c, vaddr.h, pte.h and
      userprog/pagedir.c with the processor's translation lookaside buffer.
    - Malloc, MallocSpec: threads/malloc.c over the page allocator.  Blocks are
      disjoint and come back when they are freed.
    - Rtc, Vga, VgaSpec, Kbd, KbdSpec: devices/rtc.c, vga.c and kbd.c.
    - Intq, IntqSpec: devices/intq.c as steps of threads and interrupt handlers;
      a bounded queue in every interleaving.
    - Exec, ExecSpec: the command line of userprog/process.c; the stack that a
      program finds, and the byte that is written behind an array.
    - Swap, SwapSpec: vm/swap.c over the class [Storage], which a block device
      implements; a map from pages to their contents.
    - Vm, VmMach, VmSpec: vm/frame.c, vm/page.c, the page fault handler of
      userprog/exception.c, and the parts of process.c that map pages, over
      Palloc, Pagedir, Swap, KList, Hash and Inode.  Paging refines one flat
      memory of all processes, until a stack page would have to be evicted.

    A file without "Spec" (and its kin) holds the definitions; the theorems
    are in the other one.  Small components have both in one file.

    ** Bounds and fuel

    Loops that are not structural take fuel.  Running out of it is [NoFuel],
    never a result, so a theorem that a call is [Ret] also says that the fuel was
    enough.  Lists run on a budget of one step per cell of the heap, which
    [list_repr_budget] bounds; [power_of_2_loop] has one step per bit; inode and
    directory loops have one step per byte; the handler of page faults needs two
    rounds to choose a frame, and an access two tries.  [read_partition_table]
    has no sufficient fuel, which is the theorem about it.

    ** Not modelled

    - Hardware access and assembly: devices/ide.c, serial.c, pit.c, speaker.c,
      shutdown.c, threads/start.S, loader.S, switch.S, intr-stubs.S and the
      set-up of the interrupt controller, userprog/gdt.c and tss.c.  They are
      sequences of port accesses or tables in the processor's format.
    - The life cycle of processes: process_execute after the command name,
      start_process, process_wait, process_exit, the ELF loader, and in syscall.c
      the dispatch of calls, exec, wait, exit, mmap and munmap.  They join the
      states of the scheduler, the file system and virtual memory, which this
      library keeps apart.
    - Of virtual memory, the theorem covers pages that are in frames or on the
      swap device.  The growth of the stack, the loading of pages from files and
      the search for another frame when the first one holds a stack page are
      definitions without a theorem.
    - threads/init.c, lib/ustar.c, filesys/fsutil.c, devices/input.c, the
      functions that only print (statistics, dumps), lib/user/ but for
      console.c, the example programs and the host tools.

    ** This file

    Outcomes, the monad and its notations, machine integers, the hint database
    [pintos], and facts on lists and options that the components share. *)

From stdpp Require Import base numbers list gmap sorting.

(** ** Outcomes

    A kernel function either returns ([Ret]), stops the machine through a
    failed [ASSERT], a [PANIC] or the dereference of a bad pointer ([Panic]),
    or, for the loops that are run with a step budget, uses the budget up
    ([NoFuel]).  The last two are kept apart, so that a theorem that a call is
    [Ret] also says that its loops terminate. *)
Inductive outcome (A : Type) : Type :=
  | Ret (a : A)
  | Panic
  | NoFuel.
Arguments Ret {A} a.
Arguments Panic {A}.
Arguments NoFuel {A}.

Definition obind {A B} (m : outcome A) (f : A → outcome B) : outcome B :=
  match m with
  | Ret a => f a
  | Panic => Panic
  | NoFuel => NoFuel
  end.

(** A stateful kernel function: explicit state passing over outcomes. *)
Definition M (S A : Type) : Type := S → outcome (A * S).

Definition retM {S A} (a : A) : M S A := λ s, Ret (a, s).
Definition panicM {S A} : M S A := λ _, Panic.
Definition bindM {S A B} (m : M S A) (f : A → M S B) : M S B :=
  λ s, match m s with
       | Ret (a, s') => f a s'
       | Panic => Panic
       | NoFuel => NoFuel
       end.
Definition getM {S} : M S S := λ s, Ret (s, s).
Definition putM {S} (s : S) : M S unit := λ _, Ret (tt, s).
Definition modifyM {S} (f : S → S) : M S unit := λ s, Ret (tt, f s).
(** [ASSERT (b)] of debug.h. *)
Definition assertM {S} (b : bool) : M S unit :=
  λ s, if b then Ret (tt, s) else Panic.
Definition assertO (b : bool) : outcome unit := if b then Ret tt else Panic.
Definition liftO {S A} (o : outcome A) : M S A :=
  λ s, match o with
       | Ret a => Ret (a, s)
       | Panic => Panic
       | NoFuel => NoFuel
       end.

(** A function of one component run on its part of a larger state. *)
Definition zoom {S T A} (get : S → T) (put : T → S → S) (m : M T A) : M S A :=
  λ s, match m (get s) with
       | Ret (a, t) => Ret (a, put t s)
       | Panic => Panic
       | NoFuel => NoFuel
       end.

Declare Scope pintos_scope.
Delimit Scope pintos_scope with pintos.
Notation "'do' x <- m ; k" := (bindM m (λ x, k))
  (at level 10, x name, m at level 100, k at level 200)
  : pintos_scope.
Notation "'do' ' p <- m ; k" := (bindM m (λ x, match x with p => k end))
  (at level 10, p pattern, m at level 100, k at level 200)
  : pintos_scope.
Notation "'run' m ; k" := (bindM m (λ _, k))
  (at level 10, m at level 100, k at level 200)
  : pintos_scope.
(** Calls that may end the process that makes them ([None]). *)
Definition bindE {S A B} (m : M S (option A)) (f : A → M S (option B)) : M S (option B) :=
  bindM m (λ r, match r with Some a => f a | None => retM None end).
Notation "'may' x <- m ; k" := (bindE m (λ x, k))
  (at level 10, x name, m at level 100, k at level 200) : pintos_scope.
Notation "'may' ' p <- m ; k" := (bindE m (λ x, match x with p => k end))
  (at level 10, p pattern, m at level 100, k at level 200) : pintos_scope.
Notation "'try' x <- m ; k" := (obind m (λ x, k))
  (at level 10, x name, m at level 100, k at level 200)
  : pintos_scope.
Notation "'try' ' p <- m ; k" := (obind m (λ x, match x with p => k end))
  (at level 10, p pattern, m at level 100, k at level 200)
  : pintos_scope.
Notation "'check' b ; k" := (obind (assertO b) (λ _, k))
  (at level 10, b at level 100, k at level 200)
  : pintos_scope.
Open Scope pintos_scope.

Lemma bindM_Ret {S A B} (m : M S A) (f : A → M S B) s a s' :
  m s = Ret (a, s') → bindM m f s = f a s'.
Proof. unfold bindM. by intros ->. Qed.

Lemma bindE_Ret {S A B} (m : M S (option A)) (f : A → M S (option B)) s a s' :
  m s = Ret (Some a, s') → bindE m f s = f a s'.
Proof. unfold bindE, bindM. by intros ->. Qed.
Lemma zoom_Ret {S T A} (get : S → T) (put : T → S → S) (m : M T A) s a t :
  m (get s) = Ret (a, t) → zoom get put m s = Ret (a, put t s).
Proof. unfold zoom. by intros ->. Qed.

Lemma bindM_inv {S A B} (m : M S A) (f : A → M S B) s r :
  bindM m f s = Ret r → ∃ a s', m s = Ret (a, s') ∧ f a s' = Ret r.
Proof. unfold bindM. destruct (m s) as [[a s']| |]; naive_solver. Qed.

Lemma bindM_assoc {S A B C} (m : M S A) (f : A → M S B) (g : B → M S C) s :
  bindM (bindM m f) g s = bindM m (λ a, bindM (f a) g) s.
Proof. unfold bindM. by destruct (m s) as [[]| |]. Qed.

Lemma obind_Ret_inv {A B} (m : outcome A) (f : A → outcome B) r :
  obind m f = Ret r → ∃ a, m = Ret a ∧ f a = Ret r.
Proof. destruct m; naive_solver. Qed.

Lemma assertM_true {S} (b : bool) (s : S) : b = true → assertM b s = Ret (tt, s).
Proof. by intros ->. Qed.

Lemma assertM_inv {S} (b : bool) (s : S) r :
  assertM b s = Ret r → b = true ∧ r = (tt, s).
Proof. destruct b; cbn; naive_solver. Qed.

(** Partial correctness: [wp m Q s] says that if [m] returns from [s], the
    result satisfies [Q].  Used for safety invariants, where a machine that
    stops in an assertion takes no further step. *)
Definition wp {S A} (m : M S A) (Q : A → S → Prop) (s : S) : Prop :=
  match m s with Ret (a, s') => Q a s' | _ => True end.
Section wp.
  Context {S A : Type}.
  Implicit Types (m : M S A) (s : S).
Lemma wp_bind {B} m (f : A → M S B) Q s : wp m (λ a, wp (f a) Q) s → wp (bindM m f) Q s.
Proof. unfold wp, bindM. by destruct (m s) as [[a s']| |]. Qed.
Lemma wp_ret (a : A) (Q : A → S → Prop) s : Q a s → wp (retM a) Q s.
Proof. done. Qed.
Lemma wp_panic (Q : A → S → Prop) s : wp panicM Q s.
Proof. done. Qed.
Lemma wp_mono m (Q Q' : A → S → Prop) s : wp m Q s → (∀ a s', Q a s' → Q' a s') → wp m Q' s.
Proof. unfold wp. destruct (m s) as [[a s']| |]; auto. Qed.
Lemma wp_run m Q s a s' : wp m Q s → m s = Ret (a, s') → Q a s'.
Proof. unfold wp. intros H E. by rewrite E in H. Qed.
End wp.
Lemma wp_get {S} (Q : S → S → Prop) s : Q s s → wp getM Q s.
Proof. done. Qed.
Lemma wp_modify {S} (f : S → S) (Q : unit → S → Prop) s : Q tt (f s) → wp (modifyM f) Q s.
Proof. done. Qed.
Lemma wp_assert {S} b (Q : unit → S → Prop) s : (b = true → Q tt s) → wp (assertM b) Q s.
Proof. destruct b; unfold wp; simpl; auto. Qed.

(** ** Machine integers

    A w-bit C integer is a [Z]; the wrap-around of its type is written out. *)
Definition u8 (z : Z) : Z := z `mod` 2 ^ 8.
Definition u16 (z : Z) : Z := z `mod` 2 ^ 16.
Definition u32 (z : Z) : Z := z `mod` 2 ^ 32.
Definition u64 (z : Z) : Z := z `mod` 2 ^ 64.
Definition i32 (z : Z) : Z := (z + 2 ^ 31) `mod` 2 ^ 32 - 2 ^ 31.
Definition i64 (z : Z) : Z := (z + 2 ^ 63) `mod` 2 ^ 64 - 2 ^ 63.

Lemma u32_range z : (0 ≤ u32 z < 2 ^ 32)%Z.
Proof. apply Z.mod_pos_bound. lia. Qed.
Lemma u64_range z : (0 ≤ u64 z < 2 ^ 64)%Z.
Proof. apply Z.mod_pos_bound. lia. Qed.
Lemma u32_small z : (0 ≤ z < 2 ^ 32)%Z → u32 z = z.
Proof. apply Z.mod_small. Qed.
Lemma u64_small z : (0 ≤ z < 2 ^ 64)%Z → u64 z = z.
Proof. apply Z.mod_small. Qed.
Lemma u32_add_l a b : u32 (u32 a + b) = u32 (a + b).
Proof. unfold u32. by rewrite Zplus_mod_idemp_l. Qed.

Section signed.
  Local Open Scope Z_scope.
Lemma i32_small z : (- 2 ^ 31 ≤ z < 2 ^ 31)%Z → i32 z = z.
Proof. intros H. unfold i32. rewrite Z.mod_small; lia. Qed.
Lemma i64_small z : (- 2 ^ 63 ≤ z < 2 ^ 63)%Z → i64 z = z.
Proof. intros H. unfold i64. rewrite Z.mod_small; lia. Qed.
Lemma i64_eqm z : ∃ k, i64 z = z + k * 2 ^ 64.
Proof. exists (- ((z + 2 ^ 63) `div` 2 ^ 64)). unfold i64. pose proof (Z.div_mod (z + 2 ^ 63) (2 ^ 64)). lia. Qed.
Lemma i64_add_mult z k : i64 (z + k * 2 ^ 64) = i64 z.
Proof.
  unfold i64. replace (z + k * 2 ^ 64 + 2 ^ 63) with (z + 2 ^ 63 + k * 2 ^ 64) by ring. by rewrite Z_mod_plus_full.
Qed.
Lemma i32_eqm z : ∃ k, i32 z = z + k * 2 ^ 32.
Proof. exists (- ((z + 2 ^ 31) `div` 2 ^ 32)). unfold i32. pose proof (Z.div_mod (z + 2 ^ 31) (2 ^ 32)). lia. Qed.
Lemma i32_add_mult z k : i32 (z + k * 2 ^ 32) = i32 z.
Proof.
  unfold i32. replace (z + k * 2 ^ 32 + 2 ^ 31) with (z + 2 ^ 31 + k * 2 ^ 32) by ring. by rewrite Z_mod_plus_full.
Qed.
End signed.

(** ** Lists *)
Lemma elem_of_concat {A} (x : A) (ls : list (list A)) : x ∈ concat ls ↔ ∃ l, l ∈ ls ∧ x ∈ l.
Proof.
  induction ls as [|l ls IH]; simpl; [by setoid_rewrite elem_of_nil; naive_solver|].
  rewrite elem_of_app, IH. setoid_rewrite elem_of_cons. naive_solver.
Qed.
Lemma elem_of_concat_lookup {A} (x : A) (ls : list (list A)) :
  x ∈ concat ls ↔ ∃ i l, ls !! i = Some l ∧ x ∈ l.
Proof. rewrite elem_of_concat. setoid_rewrite list_elem_of_lookup. naive_solver. Qed.

Lemma filter_all {A} (P : A → Prop) `{!∀ x, Decision (P x)} (l : list A) :
  (∀ x, x ∈ l → P x) → filter P l = l.
Proof.
  induction l as [|x l IH]; intros HP; [done|].
  rewrite filter_cons_True by (apply HP; by left). f_equal. apply IH. intros y Hy. apply HP. by right.
Qed.

Lemma filter_none {A} (P : A → Prop) `{!∀ x, Decision (P x)} (l : list A) :
  (∀ x, x ∈ l → ¬ P x) → filter P l = [].
Proof.
  induction l as [|x l IH]; intros HP; [done|].
  rewrite filter_cons_False by (apply HP; by left). apply IH. intros y Hy. apply HP. by right.
Qed.
Lemma filter_iff_elem {A} (P Q : A → Prop) `{!∀ x, Decision (P x), !∀ x, Decision (Q x)} (l : list A) :
  (∀ x, x ∈ l → P x ↔ Q x) → filter P l = filter Q l.
Proof.
  induction l as [|y l IH]; intros Heq; [done|]. rewrite !filter_cons. rewrite IH by (intros; apply Heq; by right).
  pose proof (Heq y ltac:(by left)). repeat case_decide; tauto.
Qed.
Lemma StronglySorted_ext_in {A} (R R' : A → A → Prop) l :
  (∀ a b, a ∈ l → b ∈ l → R a b → R' a b) → StronglySorted R l → StronglySorted R' l.
Proof.
  intros HR HS. induction HS as [|a l HS IH Hf]; constructor.
  - apply IH. intros x y Hx Hy. apply HR; by right.
  - apply Forall_forall. intros y Hy. apply HR; [by left|by right|].
    by eapply Forall_forall in Hf.
Qed.

Lemma StronglySorted_filter {A} (R : A → A → Prop) (P : A → Prop) `{!∀ x, Decision (P x)} l :
  StronglySorted R l → StronglySorted R (filter P l).
Proof.
  induction 1 as [|a l HS IH Hf]; [constructor|]. rewrite filter_cons. case_decide; [|done].
  constructor; [done|]. apply Forall_forall. intros x [_ Hx]%list_elem_of_filter.
  by eapply Forall_forall in Hf.
Qed.

(** Case analysis on the integer comparisons of the goal. *)
Ltac zcases :=
  repeat match goal with
  | |- context [Z.leb ?a ?b] => destruct (Z.leb_spec a b)
  | |- context [Z.ltb ?a ?b] => destruct (Z.ltb_spec a b)
  | |- context [Z.eqb ?a ?b] => destruct (Z.eqb_spec a b)
  end; simpl; try done; try lia.

Create HintDb pintos.
#[export] Hint Resolve u32_range u64_range : pintos.
