(* ===== verification/KList.v ===== *)
(** * lib/kernel/list.c: doubly linked lists with two sentinels

    The heap maps the address of a [struct list_elem] to its two links.  A
    [struct list] at address [l] is its head element at [l] followed by its
    tail element at [l + 8].  Every function of list.c is translated as it is
    written, on the heap; an [ASSERT] that fails and the dereference of a null
    or unmapped pointer are [Panic].  Loops run on a budget of one step per
    element of the heap. *)

From stdpp Require Import base numbers list gmap.
From S2P Require Import Prelude.
Local Open Scope N_scope.

Abbreviation loc := N.
Definition NULL : loc := 0.

Record list_elem := ListElem { prev : loc; next : loc }.

Abbreviation heap := (gmap loc list_elem).

(** The head and tail elements inside a [struct list]. *)
Definition head (l : loc) : loc := l.
Definition tail (l : loc) : loc := l + 8.

(** ** Memory accesses *)
Definition load (a : loc) : M heap list_elem := λ h,
  if a =? NULL then Panic
  else match h !! a with Some n => Ret (n, h) | None => Panic end.
Definition store (a : loc) (n : list_elem) : M heap unit := λ h,
  if a =? NULL then Panic
  else match h !! a with Some _ => Ret (tt, <[a := n]> h) | None => Panic end.
Definition get_prev (a : loc) : M heap loc := do n <- load a; retM (prev n).
Definition get_next (a : loc) : M heap loc := do n <- load a; retM (next n).
Definition set_prev (a p : loc) : M heap unit :=
  do n <- load a; store a (ListElem p (next n)).
Definition set_next (a p : loc) : M heap unit :=
  do n <- load a; store a (ListElem (prev n) p).

(** ** Element classification *)
Definition is_head (elem : loc) : M heap bool :=
  if elem =? NULL then retM false
  else do n <- load elem; retM ((prev n =? NULL) && negb (next n =? NULL)).
Definition is_interior (elem : loc) : M heap bool :=
  if elem =? NULL then retM false
  else do n <- load elem; retM (negb (prev n =? NULL) && negb (next n =? NULL)).
Definition is_tail (elem : loc) : M heap bool :=
  if elem =? NULL then retM false
  else do n <- load elem; retM (negb (prev n =? NULL) && (next n =? NULL)).

(** ** Initialisation and traversal *)
Definition list_init (l : loc) : M heap unit :=
  run assertM (negb (l =? NULL));
  run set_prev (head l) NULL;
  run set_next (head l) (tail l);
  run set_prev (tail l) (head l);
  set_next (tail l) NULL.

Definition list_begin (l : loc) : M heap loc :=
  run assertM (negb (l =? NULL)); get_next (head l).
Definition list_next (elem : loc) : M heap loc :=
  do a <- is_head elem; do b <- is_interior elem;
  run assertM (a || b); get_next elem.
Definition list_end (l : loc) : M heap loc :=
  run assertM (negb (l =? NULL)); retM (tail l).
Definition list_rbegin (l : loc) : M heap loc :=
  run assertM (negb (l =? NULL)); get_prev (tail l).
Definition list_prev (elem : loc) : M heap loc :=
  do a <- is_interior elem; do b <- is_tail elem;
  run assertM (a || b); get_prev elem.
Definition list_rend (l : loc) : M heap loc :=
  run assertM (negb (l =? NULL)); retM (head l).
Definition list_head (l : loc) : M heap loc :=
  run assertM (negb (l =? NULL)); retM (head l).
Definition list_tail (l : loc) : M heap loc :=
  run assertM (negb (l =? NULL)); retM (tail l).

(** ** Insertion *)
Definition list_insert (before elem : loc) : M heap unit :=
  do a <- is_interior before; do b <- is_tail before;
  run assertM (a || b);
  run assertM (negb (elem =? NULL));
  do p <- get_prev before; run set_prev elem p;
  run set_next elem before;
  do p <- get_prev before; run set_next p elem;
  set_prev before elem.

Definition list_splice (before first last : loc) : M heap unit :=
  do a <- is_interior before; do b <- is_tail before;
  run assertM (a || b);
  if first =? last then retM tt
  else
    do last <- list_prev last;
    do a <- is_interior first; run assertM a;
    do a <- is_interior last; run assertM a;
    (* Cleanly remove FIRST...LAST from its current list. *)
    do fp <- get_prev first; do ln <- get_next last; run set_next fp ln;
    do ln <- get_next last; do fp <- get_prev first; run set_prev ln fp;
    (* Splice FIRST...LAST into new list. *)
    do bp <- get_prev before; run set_prev first bp;
    run set_next last before;
    do bp <- get_prev before; run set_next bp first;
    set_prev before last.

Definition list_push_front (l elem : loc) : M heap unit :=
  do b <- list_begin l; list_insert b elem.
Definition list_push_back (l elem : loc) : M heap unit :=
  do e <- list_end l; list_insert e elem.

(** ** Removal *)
Definition list_remove (elem : loc) : M heap loc :=
  do a <- is_interior elem; run assertM a;
  do p <- get_prev elem; do n <- get_next elem; run set_next p n;
  do n <- get_next elem; do p <- get_prev elem; run set_prev n p;
  get_next elem.

Definition list_empty (l : loc) : M heap bool :=
  do b <- list_begin l; do e <- list_end l; retM (b =? e).
Definition list_front (l : loc) : M heap loc :=
  do e <- list_empty l; run assertM (negb e); get_next (head l).
Definition list_back (l : loc) : M heap loc :=
  do e <- list_empty l; run assertM (negb e); get_prev (tail l).
Definition list_pop_front (l : loc) : M heap loc :=
  do front <- list_front l; run list_remove front; retM front.
Definition list_pop_back (l : loc) : M heap loc :=
  do back <- list_back l; run list_remove back; retM back.

(** ** Whole-list operations *)

(** The step budget of the loops below. *)
Definition budget (h : heap) : nat := S (size h).

Fixpoint list_size_loop (fuel : nat) (l e : loc) (cnt : Z) : M heap Z :=
  match fuel with
  | O => λ _, NoFuel
  | S fuel =>
      do t <- list_end l;
      if e =? t then retM cnt
      else do e <- list_next e; list_size_loop fuel l e (u32 (cnt + 1))
  end.
Definition list_size (l : loc) : M heap Z :=
  do e <- list_begin l; do h <- getM; list_size_loop (budget h) l e 0.

(** [swap (&e->prev, &e->next)]. *)
Definition swap_links (e : loc) : M heap unit :=
  do n <- load e; store e (ListElem (next n) (prev n)).
Fixpoint list_reverse_loop (fuel : nat) (l e : loc) : M heap unit :=
  match fuel with
  | O => λ _, NoFuel
  | S fuel =>
      do t <- list_end l;
      if e =? t then retM tt
      else run swap_links e; do e <- get_prev e; list_reverse_loop fuel l e
  end.
Definition list_reverse (l : loc) : M heap unit :=
  do b <- list_empty l;
  if b then retM tt
  else
    do e <- list_begin l; do h <- getM;
    run list_reverse_loop (budget h) l e;
    (* swap (&list->head.next, &list->tail.prev) *)
    do hn <- get_next (head l); do tp <- get_prev (tail l);
    run set_next (head l) tp; run set_prev (tail l) hn;
    (* swap (&list->head.next->prev, &list->tail.prev->next) *)
    do f <- get_next (head l); do b <- get_prev (tail l);
    do fp <- get_prev f; do bn <- get_next b;
    run set_prev f bn; set_next b fp.

(** ** Operations on ordered elements

    [less a b] is the client's comparison with its auxiliary data. *)
Section ordered.
  Variable less : loc → loc → bool.

Fixpoint is_sorted_loop (fuel : nat) (a b : loc) : M heap bool :=
  match fuel with
  | O => λ _, NoFuel
  | S fuel =>
      do a <- list_next a;
      if a =? b then retM true
      else do p <- list_prev a;
           if less a p then retM false else is_sorted_loop fuel a b
  end.
Definition is_sorted (a b : loc) : M heap bool :=
  if a =? b then retM true else do h <- getM; is_sorted_loop (budget h) a b.

Fixpoint find_end_of_run_loop (fuel : nat) (a b : loc) : M heap loc :=
  match fuel with
  | O => λ _, NoFuel
  | S fuel =>
      do a <- list_next a;
      if a =? b then retM a
      else do p <- list_prev a;
           if less a p then retM a else find_end_of_run_loop fuel a b
  end.
Definition find_end_of_run (a b : loc) : M heap loc :=
  run assertM (negb (a =? NULL));
  run assertM (negb (b =? NULL));
  run assertM (negb (a =? b));
  do h <- getM; find_end_of_run_loop (budget h) a b.

Fixpoint inplace_merge_loop (fuel : nat) (a0 a1b0 b1 : loc) : M heap unit :=
  match fuel with
  | O => λ _, NoFuel
  | S fuel =>
      if (a0 =? a1b0) || (a1b0 =? b1) then retM tt
      else if negb (less a1b0 a0) then
        do a0 <- list_next a0; inplace_merge_loop fuel a0 a1b0 b1
      else
        do a1b0 <- list_next a1b0;
        do p <- list_prev a1b0;
        run list_splice a0 p a1b0;
        inplace_merge_loop fuel a0 a1b0 b1
  end.
Definition inplace_merge (a0 a1b0 b1 : loc) : M heap unit :=
  run assertM (negb (a0 =? NULL));
  run assertM (negb (a1b0 =? NULL));
  run assertM (negb (b1 =? NULL));
  do s <- is_sorted a0 a1b0; run assertM s;
  do s <- is_sorted a1b0 b1; run assertM s;
  do h <- getM; inplace_merge_loop (budget h) a0 a1b0 b1.

(** The inner [for] of [list_sort]: one pass over the list, returning the
    number of runs output. *)
Fixpoint list_sort_pass (fuel : nat) (l a0 : loc) (cnt : Z) : M heap Z :=
  match fuel with
  | O => λ _, NoFuel
  | S fuel =>
      do t <- list_end l;
      if a0 =? t then retM cnt
      else
        let cnt := u32 (cnt + 1) in
        do a1b0 <- find_end_of_run a0 t;
        if a1b0 =? t then retM cnt
        else
          do b1 <- find_end_of_run a1b0 t;
          run inplace_merge a0 a1b0 b1;
          list_sort_pass fuel l b1 cnt
  end.
Fixpoint list_sort_loop (fuel : nat) (l : loc) : M heap unit :=
  match fuel with
  | O => λ _, NoFuel
  | S fuel =>
      do a0 <- list_begin l; do h <- getM;
      do cnt <- list_sort_pass (budget h) l a0 0;
      if (1 <? cnt)%Z then list_sort_loop fuel l else retM tt
  end.
Definition list_sort (l : loc) : M heap unit :=
  run assertM (negb (l =? NULL));
  do h <- getM; run list_sort_loop (budget h) l;
  do b <- list_begin l; do e <- list_end l;
  do s <- is_sorted b e; assertM s.

Fixpoint list_insert_ordered_loop (fuel : nat) (l elem e : loc) : M heap loc :=
  match fuel with
  | O => λ _, NoFuel
  | S fuel =>
      do t <- list_end l;
      if e =? t then retM e
      else if less elem e then retM e
      else do e <- list_next e; list_insert_ordered_loop fuel l elem e
  end.
Definition list_insert_ordered (l elem : loc) : M heap unit :=
  run assertM (negb (l =? NULL));
  run assertM (negb (elem =? NULL));
  do e <- list_begin l; do h <- getM;
  do e <- list_insert_ordered_loop (budget h) l elem e;
  list_insert e elem.

Fixpoint list_unique_loop (fuel : nat) (l duplicates elem : loc) : M heap unit :=
  match fuel with
  | O => λ _, NoFuel
  | S fuel =>
      do nxt <- list_next elem; do t <- list_end l;
      if nxt =? t then retM tt
      else if negb (less elem nxt) && negb (less nxt elem) then
        run list_remove nxt;
        run (if duplicates =? NULL then retM tt
             else list_push_back duplicates nxt);
        list_unique_loop fuel l duplicates elem
      else list_unique_loop fuel l duplicates nxt
  end.
Definition list_unique (l duplicates : loc) : M heap unit :=
  run assertM (negb (l =? NULL));
  do b <- list_empty l;
  if b then retM tt
  else do elem <- list_begin l; do h <- getM;
       list_unique_loop (budget h) l duplicates elem.

Fixpoint list_max_loop (fuel : nat) (l max e : loc) : M heap loc :=
  match fuel with
  | O => λ _, NoFuel
  | S fuel =>
      do t <- list_end l;
      if e =? t then retM max
      else
        let max := if less max e then e else max in
        do e <- list_next e; list_max_loop fuel l max e
  end.
Definition list_max (l : loc) : M heap loc :=
  do max <- list_begin l; do t <- list_end l;
  if max =? t then retM max
  else do e <- list_next max; do h <- getM; list_max_loop (budget h) l max e.

Fixpoint list_min_loop (fuel : nat) (l min e : loc) : M heap loc :=
  match fuel with
  | O => λ _, NoFuel
  | S fuel =>
      do t <- list_end l;
      if e =? t then retM min
      else
        let min := if less e min then e else min in
        do e <- list_next e; list_min_loop fuel l min e
  end.
Definition list_min (l : loc) : M heap loc :=
  do min <- list_begin l; do t <- list_end l;
  if min =? t then retM min
  else do e <- list_next min; do h <- getM; list_min_loop (budget h) l min e.
End ordered.
