(* ===== verification/KListRepr.v ===== *)
(** * Representation of lists in the heap, and the basic operations of list.c

    [list_repr h l xs] says that the [struct list] at [l] holds exactly the
    elements [xs], in order.  The file proves that insertion, removal, splicing
    and traversal refine the corresponding operations on [xs], and that they
    change nothing outside the nodes of the lists they work on. *)

From stdpp Require Import base numbers list gmap.
From S2P Require Import Prelude KList.
Local Open Scope N_scope.

(** ** Segments *)
Definition first_of (ns : list loc) (q : loc) : loc :=
  match ns with [] => q | a :: _ => a end.
Fixpoint last_of (p : loc) (ns : list loc) : loc :=
  match ns with [] => p | a :: rest => last_of a rest end.

(** [linked h p ns q]: the nodes [ns] are linked both ways, the first one back
    to [p] and the last one forward to [q]. *)
Fixpoint linked (h : heap) (p : loc) (ns : list loc) (q : loc) : Prop :=
  match ns with
  | [] => True
  | a :: rest =>
      a ≠ NULL ∧ h !! a = Some (ListElem p (first_of rest q)) ∧ linked h a rest q
  end.

Definition nodes (l : loc) (xs : list loc) : list loc := head l :: xs ++ [tail l].

Definition list_repr (h : heap) (l : loc) (xs : list loc) : Prop :=
  NoDup (nodes l xs) ∧ linked h NULL (nodes l xs) NULL.

Lemma first_of_app A B q : first_of (A ++ B) q = first_of A (first_of B q).
Proof. by destruct A. Qed.
Lemma last_of_app p A B : last_of p (A ++ B) = last_of (last_of p A) B.
Proof. revert p. induction A; intros p; simpl; auto. Qed.
Lemma last_of_elem p A : A ≠ [] → last_of p A ∈ A.
Proof.
  revert p. induction A as [|a [|b A] IH]; intros p Hne; [done|set_solver|].
  apply elem_of_cons. right. by apply (IH a).
Qed.
Lemma last_of_indep p p' A : A ≠ [] → last_of p A = last_of p' A.
Proof. by destruct A. Qed.
Lemma first_of_indep A q q' : A ≠ [] → first_of A q = first_of A q'.
Proof. by destruct A. Qed.
Lemma first_of_app_ne A B q : A ≠ [] → first_of (A ++ B) q = first_of A q.
Proof. by destruct A. Qed.
Lemma first_of_elem A q : A ≠ [] → first_of A q ∈ A.
Proof. destruct A; [done|set_solver]. Qed.

Lemma linked_app h p A B q :
  linked h p (A ++ B) q ↔
  linked h p A (first_of B q) ∧ linked h (last_of p A) B q.
Proof.
  revert p. induction A as [|a A IH]; intros p; simpl; [naive_solver|].
  rewrite IH, first_of_app. naive_solver.
Qed.

Lemma linked_not_null h p ns q a : linked h p ns q → a ∈ ns → a ≠ NULL.
Proof.
  revert p. induction ns as [|b ns IH]; intros p; simpl; set_solver.
Qed.

Lemma linked_lookup h p A a B q :
  linked h p (A ++ a :: B) q →
  a ≠ NULL ∧ h !! a = Some (ListElem (last_of p A) (first_of B q)).
Proof. rewrite linked_app. simpl. naive_solver. Qed.

Lemma linked_is_Some h p ns q a : linked h p ns q → a ∈ ns → is_Some (h !! a).
Proof.
  intros H (A & B & ->)%list_elem_of_split.
  apply linked_lookup in H as [_ ->]. eauto.
Qed.

Lemma linked_frame h h' p ns q :
  (∀ a, a ∈ ns → h' !! a = h !! a) → linked h p ns q → linked h' p ns q.
Proof.
  revert p. induction ns as [|a ns IH]; intros p Heq; simpl; [done|].
  intros (? & ? & ?). rewrite Heq by set_solver. split_and!; auto.
  apply IH; set_solver.
Qed.

(** ** Field updates *)
Definition upd_next (a v : loc) (h : heap) : heap :=
  alter (λ n, ListElem (prev n) v) a h.
Definition upd_prev (a v : loc) (h : heap) : heap :=
  alter (λ n, ListElem v (next n)) a h.

Lemma upd_next_ne a v h b : b ≠ a → upd_next a v h !! b = h !! b.
Proof. intros. by apply lookup_alter_ne. Qed.
Lemma upd_prev_ne a v h b : b ≠ a → upd_prev a v h !! b = h !! b.
Proof. intros. by apply lookup_alter_ne. Qed.
Lemma upd_next_eq a v h : upd_next a v h !! a = (λ n, ListElem (prev n) v) <$> h !! a.
Proof. apply lookup_alter_eq. Qed.
Lemma upd_prev_eq a v h : upd_prev a v h !! a = (λ n, ListElem v (next n)) <$> h !! a.
Proof. apply lookup_alter_eq. Qed.

Lemma linked_upd_next h p A q q' :
  A ≠ [] → NoDup A → linked h p A q →
  linked (upd_next (last_of p A) q' h) p A q'.
Proof.
  revert p. induction A as [|a [|b A] IH]; intros p Hne Hnd; [done| |].
  - simpl. intros (? & Ha & _). by rewrite upd_next_eq, Ha.
  - intros (Hz & Ha & HA). apply NoDup_cons in Hnd as [Hin Hnd].
    split_and!; [done| |apply IH; auto].
    rewrite upd_next_ne; [done|]. intros Heq. apply Hin. rewrite Heq.
    by apply (last_of_elem a (b :: A)).
Qed.

Lemma linked_upd_prev h p A q p' :
  A ≠ [] → NoDup A → linked h p A q →
  linked (upd_prev (first_of A q) p' h) p' A q.
Proof.
  destruct A as [|a A]; [done|]. intros _ [Hin _]%NoDup_cons (? & Ha & HA). simpl.
  rewrite upd_prev_eq, Ha. split_and!; [done..|].
  eapply linked_frame; [|done]. intros b Hb. apply upd_prev_ne. set_solver.
Qed.

Lemma linked_upd_next' h p A q q' p' :
  A ≠ [] → NoDup A → linked h p A q →
  linked (upd_next (last_of p' A) q' h) p A q'.
Proof. intros HA. rewrite (last_of_indep p' p A HA). by apply linked_upd_next. Qed.
Lemma linked_upd_prev' h p A q p' q' :
  A ≠ [] → NoDup A → linked h p A q →
  linked (upd_prev (first_of A q') p' h) p' A q.
Proof. intros HA. rewrite (first_of_indep A q' q HA). by apply linked_upd_prev. Qed.

Lemma linked_upd_next_frame h p A q a v :
  a ∉ A → linked h p A q → linked (upd_next a v h) p A q.
Proof. intros ?. apply linked_frame. intros b ?. apply upd_next_ne. set_solver. Qed.
Lemma linked_upd_prev_frame h p A q a v :
  a ∉ A → linked h p A q → linked (upd_prev a v h) p A q.
Proof. intros ?. apply linked_frame. intros b ?. apply upd_prev_ne. set_solver. Qed.

(** ** Running the memory accesses *)
Lemma load_Ret h a n : a ≠ NULL → h !! a = Some n → load a h = Ret (n, h).
Proof. intros ? Ha. unfold load. rewrite (proj2 (N.eqb_neq _ _)), Ha; done. Qed.
Lemma get_prev_Ret h a n : a ≠ NULL → h !! a = Some n → get_prev a h = Ret (prev n, h).
Proof. intros. unfold get_prev, bindM. by erewrite load_Ret. Qed.
Lemma get_next_Ret h a n : a ≠ NULL → h !! a = Some n → get_next a h = Ret (next n, h).
Proof. intros. unfold get_next, bindM. by erewrite load_Ret. Qed.

Lemma store_alter h a n f :
  a ≠ NULL → h !! a = Some n → store a (f n) h = Ret (tt, alter f a h).
Proof.
  intros ? Ha. unfold store. rewrite (proj2 (N.eqb_neq _ _)), Ha by done.
  do 2 f_equal. apply map_eq. intros b. destruct (decide (a = b)) as [->|].
  - by rewrite lookup_insert_eq, lookup_alter_eq, Ha.
  - by rewrite lookup_insert_ne, lookup_alter_ne.
Qed.
Lemma set_next_Ret h a v :
  a ≠ NULL → is_Some (h !! a) → set_next a v h = Ret (tt, upd_next a v h).
Proof.
  intros ? [n Ha]. unfold set_next, bindM. erewrite load_Ret by done.
  by apply (store_alter _ _ _ (λ n, ListElem (prev n) v)).
Qed.
Lemma set_prev_Ret h a v :
  a ≠ NULL → is_Some (h !! a) → set_prev a v h = Ret (tt, upd_prev a v h).
Proof.
  intros ? [n Ha]. unfold set_prev, bindM. erewrite load_Ret by done.
  by apply (store_alter _ _ _ (λ n, ListElem v (next n))).
Qed.

Lemma upd_next_is_Some a v h b : is_Some (upd_next a v h !! b) ↔ is_Some (h !! b).
Proof. unfold upd_next. by rewrite lookup_alter_is_Some. Qed.
Lemma upd_prev_is_Some a v h b : is_Some (upd_prev a v h !! b) ↔ is_Some (h !! b).
Proof. unfold upd_prev. by rewrite lookup_alter_is_Some. Qed.

(** Reading one field after a write to the other. *)
Lemma fmap_prev_upd_next a v h b : prev <$> upd_next a v h !! b = prev <$> h !! b.
Proof.
  destruct (decide (b = a)) as [->|]; [|by rewrite upd_next_ne].
  rewrite upd_next_eq. by destruct (h !! a).
Qed.
Lemma fmap_next_upd_prev a v h b : next <$> upd_prev a v h !! b = next <$> h !! b.
Proof.
  destruct (decide (b = a)) as [->|]; [|by rewrite upd_prev_ne].
  rewrite upd_prev_eq. by destruct (h !! a).
Qed.
Lemma fmap_next_upd_next a v h b :
  b ≠ a → next <$> upd_next a v h !! b = next <$> h !! b.
Proof. intros. by rewrite upd_next_ne. Qed.
Lemma fmap_prev_upd_prev a v h b :
  b ≠ a → prev <$> upd_prev a v h !! b = prev <$> h !! b.
Proof. intros. by rewrite upd_prev_ne. Qed.

Lemma get_prev_field h a p : a ≠ NULL → prev <$> h !! a = Some p → get_prev a h = Ret (p, h).
Proof. intros ? (n & ? & ->)%fmap_Some. by apply get_prev_Ret. Qed.
Lemma get_next_field h a p : a ≠ NULL → next <$> h !! a = Some p → get_next a h = Ret (p, h).
Proof. intros ? (n & ? & ->)%fmap_Some. by apply get_next_Ret. Qed.

(** ** Running the operations on single nodes *)

(** Runs the first call of a [bindM] by one of the lemmas above. *)
Ltac mrun H := rewrite (bindM_Ret _ _ _ _ _ H); cbn beta.
(** Closes [x ∉ ns] from the disjointness facts of the context. *)
Ltac sep :=
  let H := fresh in
  intros H; try (apply list_elem_of_singleton in H; subst);
  solve [ eauto 4 | congruence ].
Ltac unframe :=
  repeat first [ apply linked_upd_next_frame; [sep|]
               | apply linked_upd_prev_frame; [sep|] ].
Ltac mexec tac :=
  erewrite bindM_Ret; [|solve [tac]]; cbn beta.

Lemma is_head_Ret h a n : a ≠ NULL → h !! a = Some n →
  is_head a h = Ret ((prev n =? NULL) && negb (next n =? NULL), h).
Proof.
  intros ? Ha. unfold is_head. rewrite (proj2 (N.eqb_neq _ _)) by done.
  by mrun (load_Ret h a n ltac:(done) Ha).
Qed.
Lemma is_interior_Ret h a n : a ≠ NULL → h !! a = Some n →
  is_interior a h = Ret (negb (prev n =? NULL) && negb (next n =? NULL), h).
Proof.
  intros ? Ha. unfold is_interior. rewrite (proj2 (N.eqb_neq _ _)) by done.
  by mrun (load_Ret h a n ltac:(done) Ha).
Qed.
Lemma is_tail_Ret h a n : a ≠ NULL → h !! a = Some n →
  is_tail a h = Ret (negb (prev n =? NULL) && (next n =? NULL), h).
Proof.
  intros ? Ha. unfold is_tail. rewrite (proj2 (N.eqb_neq _ _)) by done.
  by mrun (load_Ret h a n ltac:(done) Ha).
Qed.

Lemma list_next_Ret h a p n : a ≠ NULL → h !! a = Some (ListElem p n) → n ≠ NULL →
  list_next a h = Ret (n, h).
Proof.
  intros ? Ha Hn. apply N.eqb_neq in Hn. unfold list_next.
  mrun (is_head_Ret h a _ ltac:(done) Ha). mrun (is_interior_Ret h a _ ltac:(done) Ha).
  simpl. rewrite Hn. destruct (p =? NULL); cbn; by apply (get_next_Ret _ _ _ ltac:(done) Ha).
Qed.
Lemma list_prev_Ret h a p n : a ≠ NULL → h !! a = Some (ListElem p n) → p ≠ NULL →
  list_prev a h = Ret (p, h).
Proof.
  intros ? Ha Hp. apply N.eqb_neq in Hp. unfold list_prev.
  mrun (is_interior_Ret h a _ ltac:(done) Ha). mrun (is_tail_Ret h a _ ltac:(done) Ha).
  simpl. rewrite Hp. destruct (n =? NULL); cbn; by apply (get_prev_Ret _ _ _ ltac:(done) Ha).
Qed.

(** The assertion [is_interior (before) || is_tail (before)]. *)
Lemma before_ok {A} h b p n (k : M heap A) :
  b ≠ NULL → h !! b = Some (ListElem p n) → p ≠ NULL →
  bindM (is_interior b) (λ x, bindM (is_tail b) (λ y, bindM (assertM (x || y)) (λ _, k))) h
  = k h.
Proof.
  intros ? Hb Hp. apply N.eqb_neq in Hp.
  mrun (is_interior_Ret h b _ ltac:(done) Hb). mrun (is_tail_Ret h b _ ltac:(done) Hb).
  simpl. rewrite Hp. by destruct (n =? NULL).
Qed.
Lemma interior_ok {A} h b p n (k : M heap A) :
  b ≠ NULL → h !! b = Some (ListElem p n) → p ≠ NULL → n ≠ NULL →
  bindM (is_interior b) (λ x, bindM (assertM x) (λ _, k)) h = k h.
Proof.
  intros ? Hb Hp%N.eqb_neq Hn%N.eqb_neq.
  mrun (is_interior_Ret h b _ ltac:(done) Hb). simpl. by rewrite Hp, Hn.
Qed.
Lemma nonnull_ok {A} (h : heap) a (k : M heap A) :
  a ≠ NULL → bindM (assertM (negb (a =? NULL))) (λ _, k) h = k h.
Proof. intros ?%N.eqb_neq. unfold bindM, assertM. by rewrite H. Qed.


Ltac field :=
  repeat first [ rewrite fmap_prev_upd_next | rewrite fmap_next_upd_prev
               | rewrite fmap_next_upd_next by congruence
               | rewrite fmap_prev_upd_prev by congruence ].
Ltac is_some := repeat first [ rewrite upd_next_is_Some | rewrite upd_prev_is_Some ]; eauto.
Ltac read_prev := mexec ltac:(apply get_prev_field; [congruence|field; eassumption]).
Ltac read_next := mexec ltac:(apply get_next_field; [congruence|field; eassumption]).
Ltac write_prev := mexec ltac:(apply set_prev_Ret; [congruence|is_some]).
Ltac write_next := mexec ltac:(apply set_next_Ret; [congruence|is_some]).

Lemma list_insert_Ret h before elem p n :
  before ≠ NULL → h !! before = Some (ListElem p n) → p ≠ NULL → is_Some (h !! p) →
  elem ≠ NULL → is_Some (h !! elem) → before ≠ elem →
  list_insert before elem h =
  Ret (tt, upd_prev before elem (upd_next p elem
             (upd_next elem before (upd_prev elem p h)))).
Proof.
  intros Hb Hbl Hp Hps He Hes Hne. unfold list_insert.
  erewrite before_ok by done. rewrite nonnull_ok by done.
  assert (prev <$> h !! before = Some p) as Hbp by by rewrite Hbl.
  read_prev. write_prev. write_next. read_prev. write_next.
  apply set_prev_Ret; [done|]. is_some.
Qed.

Lemma list_remove_Ret h elem p n :
  elem ≠ NULL → h !! elem = Some (ListElem p n) →
  p ≠ NULL → is_Some (h !! p) → n ≠ NULL → is_Some (h !! n) → elem ≠ p →
  list_remove elem h = Ret (n, upd_prev n p (upd_next p n h)).
Proof.
  intros He Hel Hp Hps Hn Hns Hne. unfold list_remove.
  erewrite interior_ok by done.
  assert (prev <$> h !! elem = Some p) as Hep by by rewrite Hel.
  assert (next <$> h !! elem = Some n) as Hen by by rewrite Hel.
  read_prev. read_next. write_next. read_next. read_prev. write_prev.
  apply get_next_field; [done|]. by field.
Qed.

Lemma list_splice_Ret h before first last bp bn fp fn lp ln lq :
  before ≠ NULL → h !! before = Some (ListElem bp bn) → bp ≠ NULL → is_Some (h !! bp) →
  first ≠ last →
  last ≠ NULL → h !! last = Some (ListElem lp lq) →
  first ≠ NULL → h !! first = Some (ListElem fp fn) → fp ≠ NULL → is_Some (h !! fp) →
  lp ≠ NULL → h !! lp = Some (ListElem ln last) → ln ≠ NULL → fn ≠ NULL →
  fp ≠ lp → last ≠ before → first ≠ before → 
  list_splice before first last h =
  Ret (tt, upd_prev before lp (upd_next bp first (upd_next lp before
             (upd_prev first bp (upd_prev last fp (upd_next fp last h)))))).
Proof.
  intros Hb Hbl Hbp Hbps Hfl Hl Hll Hf Hfe Hfp Hfps Hlp Hlpl Hln Hfn Hfplp Hlb Hfb.
  unfold list_splice. erewrite before_ok by done.
  rewrite (proj2 (N.eqb_neq first last)) by done.
  mexec ltac:(by eapply list_prev_Ret).
  erewrite interior_ok by done. erewrite interior_ok by done.
  assert (prev <$> h !! first = Some fp) as E1 by by rewrite Hfe.
  assert (next <$> h !! lp = Some last) as E2 by by rewrite Hlpl.
  assert (prev <$> h !! before = Some bp) as E3 by by rewrite Hbl.
  read_prev. read_next. write_next. read_next. read_prev. write_prev.
  read_prev. write_prev. write_next. read_prev. write_next.
  apply set_prev_Ret; [done|]. is_some.
Qed.

(** ** Operations on whole lists *)

(** [frame ns h h']: the heaps have the same cells and agree outside [ns]. *)
Definition frame (ns : list loc) (h h' : heap) : Prop :=
  dom h' = dom h ∧ ∀ a, a ∉ ns → h' !! a = h !! a.

Lemma frame_refl ns h : frame ns h h.
Proof. done. Qed.
Lemma frame_trans ns h1 h2 h3 : frame ns h1 h2 → frame ns h2 h3 → frame ns h1 h3.
Proof. intros [? H1] [? H2]. split; [congruence|]. intros. by rewrite H2, H1. Qed.
Lemma frame_mono ns ns' h h' : (∀ a, a ∈ ns → a ∈ ns') → frame ns h h' → frame ns' h h'.
Proof. intros Hsub [? H]. split; [done|]. intros a Ha. apply H. auto. Qed.
Lemma frame_budget ns h h' : frame ns h h' → budget h' = budget h.
Proof. intros [Hd _]. unfold budget. by rewrite <-!size_dom, Hd. Qed.
Lemma frame_is_Some ns h h' a : frame ns h h' → is_Some (h !! a) → is_Some (h' !! a).
Proof. intros [Hd _]. by rewrite <-!elem_of_dom, Hd. Qed.
Lemma frame_upd_next ns h h' a v :
  a ∈ ns → frame ns h h' → frame ns h (upd_next a v h').
Proof.
  intros Ha [Hd H]. split.
  - rewrite <-Hd. apply dom_alter_L.
  - intros b Hb. rewrite upd_next_ne by set_solver. auto.
Qed.
Lemma frame_upd_prev ns h h' a v :
  a ∈ ns → frame ns h h' → frame ns h (upd_prev a v h').
Proof.
  intros Ha [Hd H]. split.
  - rewrite <-Hd. apply dom_alter_L.
  - intros b Hb. rewrite upd_prev_ne by set_solver. auto.
Qed.

Ltac frame_upd :=
  repeat first [ apply frame_upd_next; [set_solver|]
               | apply frame_upd_prev; [set_solver|] ]; apply frame_refl.

Lemma list_repr_frame h h' l xs ns :
  frame ns h h' → (∀ a, a ∈ nodes l xs → a ∉ ns) → list_repr h l xs → list_repr h' l xs.
Proof.
  intros [_ Hf] Hd [Hnd Hl]. split; [done|].
  eapply linked_frame; [|done]. intros a Ha. apply Hf. auto.
Qed.

Lemma nodes_app l A B : nodes l (A ++ B) = (head l :: A) ++ (B ++ [tail l]).
Proof. unfold nodes. simpl. by rewrite <-(assoc_L (++)). Qed.
Lemma elem_of_nodes l xs a : a ∈ nodes l xs ↔ a = head l ∨ a ∈ xs ∨ a = tail l.
Proof. unfold nodes. set_solver. Qed.
Lemma nodes_mono l xs ys a :
  (∀ x, x ∈ xs → x ∈ ys) → a ∈ nodes l xs → a ∈ nodes l ys.
Proof. rewrite !elem_of_nodes. naive_solver. Qed.
Lemma snoc_ne {A} (xs : list A) x : xs ++ [x] ≠ [].
Proof. by destruct xs. Qed.
#[export] Hint Resolve snoc_ne : pintos.

Lemma list_repr_not_null h l xs a : list_repr h l xs → a ∈ nodes l xs → a ≠ NULL.
Proof. intros [_ H]. by eapply linked_not_null. Qed.
Lemma list_repr_is_Some h l xs a : list_repr h l xs → a ∈ nodes l xs → is_Some (h !! a).
Proof. intros [_ H]. by eapply linked_is_Some. Qed.
Lemma list_repr_head h l xs : list_repr h l xs → l ≠ NULL.
Proof. intros H. eapply list_repr_not_null; [done|]. unfold nodes, head. set_solver. Qed.
Lemma list_repr_tail h l xs : list_repr h l xs → tail l ≠ NULL.
Proof. intros H. eapply list_repr_not_null; [done|]. unfold nodes. set_solver. Qed.

(** The two sides of a position of a list. *)
Lemma list_repr_split h l A B :
  list_repr h l (A ++ B) ↔
  NoDup (head l :: A) ∧ NoDup (B ++ [tail l]) ∧
  (∀ a, a ∈ head l :: A → a ∈ B ++ [tail l] → False) ∧
  linked h NULL (head l :: A) (first_of (B ++ [tail l]) NULL) ∧
  linked h (last_of NULL (head l :: A)) (B ++ [tail l]) NULL.
Proof.
  unfold list_repr. rewrite nodes_app, NoDup_app, linked_app. naive_solver.
Qed.

Lemma list_repr_init h l :
  l ≠ NULL → is_Some (h !! head l) → is_Some (h !! tail l) →
  ∃ h', list_init l h = Ret (tt, h') ∧ list_repr h' l [] ∧ frame [head l; tail l] h h'.
Proof.
  intros Hl Hh Ht. unfold list_init. rewrite nonnull_ok by done.
  assert (head l ≠ NULL) by done. assert (tail l ≠ NULL) by (unfold tail, NULL; lia).
  assert (head l ≠ tail l) by (unfold head, tail; lia).
  write_prev. write_next. write_prev.
  eexists; split_and!; [apply set_next_Ret; [done|]; is_some|..].
  - destruct Hh as [n1 Hn1], Ht as [n2 Hn2]. split.
    + unfold nodes. simpl. repeat constructor; set_solver.
    + simpl. split_and!; [done|..|done| |done].
      * rewrite upd_next_ne, upd_prev_ne, upd_next_eq, upd_prev_eq, Hn1 by done. done.
      * rewrite upd_next_eq, upd_prev_eq, upd_next_ne, upd_prev_ne, Hn2 by done. done.
  - frame_upd.
Qed.

Lemma list_end_Ret h l xs : list_repr h l xs → list_end l h = Ret (tail l, h).
Proof.
  intros H. unfold list_end. rewrite nonnull_ok; [done|]. by eapply list_repr_head.
Qed.
Lemma list_begin_Ret h l xs :
  list_repr h l xs → list_begin l h = Ret (first_of (xs ++ [tail l]) NULL, h).
Proof.
  intros H. unfold list_begin. rewrite nonnull_ok by (by eapply list_repr_head).
  destruct H as [_ H]. apply (linked_lookup _ _ [] _ _ _) in H as [? ?].
  by eapply (get_next_Ret _ _ (ListElem _ _)).
Qed.

(** ** The pointer surgery, on segments *)
Lemma linked_insert h p P e Q q :
  P ≠ [] → Q ≠ [] → NoDup P → NoDup Q → (∀ a, a ∈ P → a ∈ Q → False) →
  e ∉ P → e ∉ Q → e ≠ NULL → is_Some (h !! e) →
  linked h p (P ++ Q) q →
  linked (upd_prev (first_of Q q) e (upd_next (last_of p P) e
            (upd_next e (first_of Q q) (upd_prev e (last_of p P) h)))) p (P ++ e :: Q) q.
Proof.
  intros HP HQ ND1 ND2 Hd HeP HeQ He [[p0 q0] Hes] [LP LQ]%linked_app.
  pose proof (last_of_elem p P HP) as EP. pose proof (first_of_elem Q q HQ) as EQ.
  assert (linked h p0 [e] q0) as Le by done.
  assert (NoDup [e]) by apply NoDup_singleton.
  apply linked_app; split; [|apply (linked_app _ _ [e] Q); split].
  - unframe. eapply linked_upd_next; [done..|]. unframe. exact LP.
  - unframe. eapply (linked_upd_next _ _ [e]); [done..|].
    by eapply (linked_upd_prev _ _ [e] q0).
  - eapply linked_upd_prev; [done..|]. unframe. exact LQ.
Qed.

Lemma linked_remove h p P e Q q :
  P ≠ [] → Q ≠ [] → NoDup P → NoDup Q → (∀ a, a ∈ P → a ∈ Q → False) →
  linked h p (P ++ e :: Q) q →
  linked (upd_prev (first_of Q q) (last_of p P)
            (upd_next (last_of p P) (first_of Q q) h)) p (P ++ Q) q.
Proof.
  intros HP HQ ND1 ND2 Hd [LP (_ & _ & LQ)]%linked_app.
  pose proof (last_of_elem p P HP) as EP. pose proof (first_of_elem Q q HQ) as EQ.
  apply linked_app; split.
  - unframe. by eapply linked_upd_next.
  - eapply linked_upd_prev; [done..|]. unframe. exact LQ.
Qed.

(** Moving the segment [S] in front of [N]. *)
Lemma linked_splice h p P N S Q q :
  P ≠ [] → N ≠ [] → S ≠ [] → Q ≠ [] → NoDup (P ++ N ++ S ++ Q) →
  linked h p (P ++ N ++ S ++ Q) q →
  linked (upd_prev (first_of N q) (last_of p S)
           (upd_next (last_of p P) (first_of S q)
           (upd_next (last_of p S) (first_of N q)
           (upd_prev (first_of S q) (last_of p P)
           (upd_prev (first_of Q q) (last_of p N)
           (upd_next (last_of p N) (first_of Q q) h))))))
    p (P ++ S ++ N ++ Q) q.
Proof.
  intros HP HN HS HQ ND L.
  rewrite !NoDup_app in ND. destruct ND as (NP & D1 & NN & D2 & NS & D3 & NQ).
  setoid_rewrite not_elem_of_app in D1. setoid_rewrite not_elem_of_app in D1.
  setoid_rewrite not_elem_of_app in D2.
  assert (∀ a, a ∈ P → a ∈ N → False) by naive_solver.
  assert (∀ a, a ∈ P → a ∈ S → False) by naive_solver.
  assert (∀ a, a ∈ P → a ∈ Q → False) by naive_solver.
  assert (∀ a, a ∈ N → a ∈ S → False) by naive_solver.
  assert (∀ a, a ∈ N → a ∈ Q → False) by naive_solver.
  assert (∀ a, a ∈ S → a ∈ Q → False) by naive_solver.
  clear D1 D2 D3.
  apply linked_app in L as [LP L]. apply linked_app in L as [LN L].
  apply linked_app in L as [LS LQ].
  pose proof (last_of_elem p P HP). pose proof (last_of_elem p N HN).
  pose proof (last_of_elem p S HS). pose proof (first_of_elem S q HS).
  pose proof (first_of_elem N q HN). pose proof (first_of_elem Q q HQ).
  apply linked_app; split; [|apply linked_app; split; [|apply linked_app; split]];
    rewrite ?first_of_app_ne by done.
  - unframe. eapply linked_upd_next'; [done..|]. unframe. exact LP.
  - unframe. eapply linked_upd_next'; [done..|]. eapply linked_upd_prev'; [done..|].
    unframe. exact LS.
  - rewrite (last_of_indep (last_of p P) p S) by done.
    eapply linked_upd_prev'; [done..|]. unframe. eapply linked_upd_next'; [done..|].
    exact LN.
  - rewrite (last_of_indep (last_of (last_of p P) S) p N) by done.
    unframe. eapply linked_upd_prev'; [done..|]. unframe. exact LQ.
Qed.

(** Insertion before the first element of [B] (or the tail). *)
Lemma list_insert_repr h l A B e :
  list_repr h l (A ++ B) → e ≠ NULL → is_Some (h !! e) → e ∉ nodes l (A ++ B) →
  ∃ h', list_insert (first_of (B ++ [tail l]) NULL) e h = Ret (tt, h') ∧
        list_repr h' l (A ++ e :: B) ∧ frame (e :: nodes l (A ++ B)) h h'.
Proof.
  unfold list_repr. rewrite !nodes_app. intros [ND L] He Hes Hni.
  pose proof ND as ND'. rewrite NoDup_app in ND'. destruct ND' as (ND1 & D & ND2).
  assert (head l :: A ≠ []) as HP by done. pose proof (snoc_ne B (tail l)) as HQ.
  change ((e :: B) ++ [tail l]) with (e :: (B ++ [tail l])) in *.
  revert ND L Hni ND1 D ND2 HP HQ.
  generalize (head l :: A) as P, (B ++ [tail l]) as Q. intros P Q ND L Hni ND1 D ND2 HP HQ.
  apply not_elem_of_app in Hni as [HeP HeQ].
  pose proof (last_of_elem NULL P HP) as EP. pose proof (first_of_elem Q NULL HQ) as EQ.
  assert (∃ n, first_of Q NULL ≠ NULL ∧
               h !! first_of Q NULL = Some (ListElem (last_of NULL P) n)) as (n & ? & ?).
  { destruct Q; [done|]. apply linked_lookup in L. eauto. }
  eexists; split_and!.
  - eapply list_insert_Ret; try done.
    + eapply linked_not_null; [done|set_solver].
    + eapply linked_is_Some; [done|set_solver].
    + intros <-. done.
  - apply NoDup_app. split_and!; [done| |apply NoDup_cons; done]. set_solver.
  - apply linked_insert; try done.
  - frame_upd.
Qed.

Lemma list_remove_repr h l A e B :
  list_repr h l (A ++ e :: B) →
  ∃ h', list_remove e h = Ret (first_of (B ++ [tail l]) NULL, h') ∧
        list_repr h' l (A ++ B) ∧ frame (nodes l (A ++ B)) h h'.
Proof.
  unfold list_repr. rewrite !nodes_app. intros [ND L].
  assert (head l :: A ≠ []) as HP by done. pose proof (snoc_ne B (tail l)) as HQ.
  change ((e :: B) ++ [tail l]) with (e :: (B ++ [tail l])) in *.
  revert ND L HP HQ. generalize (head l :: A) as P, (B ++ [tail l]) as Q.
  intros P Q ND L HP HQ.
  pose proof (last_of_elem NULL P HP) as EP. pose proof (first_of_elem Q NULL HQ) as EQ.
  destruct (linked_lookup _ _ _ _ _ _ L) as [He Hel].
  rewrite NoDup_app, NoDup_cons in ND. destruct ND as (ND1 & D & HeQ & ND2).
  eexists; split_and!.
  - eapply list_remove_Ret; try done;
      try (eapply linked_not_null; [done|set_solver]);
      try (eapply linked_is_Some; [done|set_solver]).
    intros Heq. apply (D e); [|set_solver]. rewrite Heq. done.
  - apply NoDup_app. set_solver.
  - eapply linked_remove; [done..| |done]. set_solver.
  - frame_upd.
Qed.

(** ** Cursors: traversal of a list *)

(** The position in front of [B] when the list is [A ++ B]. *)
Definition cursor (l : loc) (B : list loc) : loc := first_of (B ++ [tail l]) NULL.

Lemma cursor_cons l b B : cursor l (b :: B) = b.
Proof. done. Qed.

Lemma list_repr_budget h l xs : list_repr h l xs → (length xs + 2 < budget h)%nat.
Proof.
  intros Hr. destruct Hr as [ND L]. unfold budget.
  assert (length (nodes l xs) ≤ size h)%nat; [|unfold nodes in *; simpl in *; rewrite length_app in *; simpl in *; lia].
  rewrite <-size_dom, <-(size_list_to_set (C := gset loc)) by done.
  apply subseteq_size. intros a Ha%elem_of_list_to_set.
  apply elem_of_dom. by eapply linked_is_Some.
Qed.

Lemma cursor_end h l A B :
  list_repr h l (A ++ B) →
  (cursor l B =? tail l) = match B with [] => true | _ => false end.
Proof.
  intros [ND _]. destruct B as [|b B]; [by apply N.eqb_refl|].
  apply N.eqb_neq. intros E. change (b = tail l) in E. subst b.
  rewrite nodes_app, NoDup_app in ND. destruct ND as (_ & _ & ND).
  apply NoDup_cons in ND. set_solver.
Qed.

Lemma cursor_begin h l xs : list_repr h l xs → list_begin l h = Ret (cursor l xs, h).
Proof. apply list_begin_Ret. Qed.

Lemma list_next_nodes h l xs A a B :
  list_repr h l xs → nodes l xs = A ++ a :: B → B ≠ [] →
  list_next a h = Ret (first_of B NULL, h).
Proof.
  intros [_ L] E HB. rewrite E in L. destruct (linked_lookup _ _ _ _ _ _ L) as [Ha Hal].
  eapply list_next_Ret; [done..|]. eapply linked_not_null; [done|].
  pose proof (first_of_elem B NULL HB). set_solver.
Qed.
Lemma list_prev_nodes h l xs A a B :
  list_repr h l xs → nodes l xs = A ++ a :: B → A ≠ [] →
  list_prev a h = Ret (last_of NULL A, h).
Proof.
  intros [_ L] E HB. rewrite E in L. destruct (linked_lookup _ _ _ _ _ _ L) as [Ha Hal].
  eapply list_prev_Ret; [done..|]. eapply linked_not_null; [done|].
  pose proof (last_of_elem NULL A HB). set_solver.
Qed.

Lemma cursor_next h l A b B :
  list_repr h l (A ++ b :: B) → list_next b h = Ret (cursor l B, h).
Proof.
  intros Hr. eapply (list_next_nodes h l _ (head l :: A)); [done| |apply snoc_ne].
  by rewrite nodes_app.
Qed.

(** ** Queue operations *)
Section queue_ops.
  Context (h : heap) (l : loc) (xs : list loc) (Hr : list_repr h l xs).

Lemma list_empty_repr : list_empty l h = Ret (bool_decide (xs = []), h).
Proof.
  unfold list_empty. mrun (cursor_begin h l xs Hr). mrun (list_end_Ret h l xs Hr).
  unfold retM. rewrite (cursor_end h l [] xs Hr). by destruct xs.
Qed.

Lemma list_push_back_repr e :
  e ≠ NULL → is_Some (h !! e) → e ∉ nodes l xs →
  ∃ h', list_push_back l e h = Ret (tt, h') ∧ list_repr h' l (xs ++ [e]) ∧
        frame (e :: nodes l xs) h h'.
Proof.
  intros He Hes Hni. unfold list_push_back. mrun (list_end_Ret h l xs Hr).
  pose proof (list_insert_repr h l xs [] e) as H. rewrite app_nil_r in H. auto.
Qed.

Lemma list_push_front_repr e :
  e ≠ NULL → is_Some (h !! e) → e ∉ nodes l xs →
  ∃ h', list_push_front l e h = Ret (tt, h') ∧ list_repr h' l (e :: xs) ∧
        frame (e :: nodes l xs) h h'.
Proof.
  intros He Hes Hni. unfold list_push_front. mrun (cursor_begin h l xs Hr).
  by apply (list_insert_repr h l [] xs).
Qed.
End queue_ops.

Lemma list_front_repr h l x xs : list_repr h l (x :: xs) → list_front l h = Ret (x, h).
Proof.
  intros Hr. unfold list_front. mrun (list_empty_repr h l _ Hr).
  rewrite bool_decide_eq_false_2 by done. mexec ltac:(by apply assertM_true).
  destruct Hr as [_ L]. destruct (linked_lookup _ _ [] _ _ _ L) as [Hh Hhl].
  by erewrite get_next_Ret by done.
Qed.
Lemma list_back_repr h l xs x : list_repr h l (xs ++ [x]) → list_back l h = Ret (x, h).
Proof.
  intros Hr. unfold list_back. mrun (list_empty_repr h l _ Hr).
  rewrite bool_decide_eq_false_2 by apply snoc_ne. mexec ltac:(by apply assertM_true).
  destruct Hr as [_ L]. unfold nodes in L. rewrite app_comm_cons in L.
  destruct (linked_lookup _ _ _ _ _ _ L) as [Hh Hhl].
  erewrite get_prev_Ret by done. simpl. by rewrite last_of_app.
Qed.

Lemma list_pop_front_repr h l x xs :
  list_repr h l (x :: xs) →
  ∃ h', list_pop_front l h = Ret (x, h') ∧ list_repr h' l xs ∧ frame (nodes l xs) h h'.
Proof.
  intros Hr. destruct (list_remove_repr h l [] x xs Hr) as (h' & E & Hr' & Hf).
  exists h'. split_and!; [|done..]. unfold list_pop_front.
  mrun (list_front_repr h l x xs Hr). by mrun E.
Qed.

Lemma list_pop_back_repr h l xs x :
  list_repr h l (xs ++ [x]) →
  ∃ h', list_pop_back l h = Ret (x, h') ∧ list_repr h' l xs ∧ frame (nodes l xs) h h'.
Proof.
  intros Hr. destruct (list_remove_repr h l xs x [] Hr) as (h' & E & Hr' & Hf).
  rewrite app_nil_r in Hr', Hf. exists h'. split_and!; [|done..]. unfold list_pop_back.
  mrun (list_back_repr h l xs x Hr). by mrun E.
Qed.

(** An assertion stops a pop from an empty list. *)
Lemma list_pop_front_empty h l : list_repr h l [] → list_pop_front l h = Panic.
Proof.
  intros Hr. unfold list_pop_front, list_front.
  rewrite bindM_assoc. by mrun (list_empty_repr h l _ Hr).
Qed.
