(* ===== verification/KListOps.v ===== *)
(** * list.c: size, ordered insertion, reversal, duplicates, maximum

    The loops of list.c refine functions on the list of elements, on every
    list of the heap, and terminate within the step budget. *)

From stdpp Require Import base numbers list gmap sorting.
From S2P Require Import Prelude KList KListRepr.
Local Open Scope N_scope.

(** ** list_size *)
Lemma list_size_loop_repr h l A B fuel cnt :
  list_repr h l (A ++ B) → (length B < fuel)%nat → u32 cnt = cnt →
  list_size_loop fuel l (cursor l B) cnt h = Ret (u32 (cnt + Z.of_nat (length B)), h).
Proof.
  revert A fuel cnt. induction B as [|b B IH]; intros A fuel cnt Hr Hf Hc;
    (destruct fuel as [|fuel]; [simpl in Hf; lia|]); cbn [list_size_loop];
    mrun (list_end_Ret h l _ Hr); rewrite (cursor_end h l A _ Hr).
  - simpl. by rewrite Z.add_0_r, Hc.
  - mrun (cursor_next h l A b B Hr). rewrite (IH (A ++ [b])).
    + rewrite u32_add_l. do 3 f_equal. simpl length. lia.
    + by rewrite <-(assoc_L (++)).
    + simpl in Hf. lia.
    + unfold u32. by rewrite Z.mod_mod.
Qed.

(** [list_size] counts the elements (in a [size_t]). *)
Theorem list_size_repr h l xs :
  list_repr h l xs → list_size l h = Ret (u32 (Z.of_nat (length xs)), h).
Proof.
  intros Hr. unfold list_size. mrun (cursor_begin h l xs Hr).
  mexec ltac:(unfold getM; done). pose proof (list_repr_budget h l xs Hr).
  rewrite (list_size_loop_repr h l [] xs); [|done|lia|done].
  by rewrite Z.add_0_l.
Qed.

(** ** list_insert_ordered *)
Section insert_ordered.
  Context (less : loc → loc → bool).

(** Reference definition: insertion in front of the first greater element. *)
Fixpoint insert_ordered (e : loc) (xs : list loc) : list loc :=
  match xs with
  | [] => [e]
  | x :: xs' => if less e x then e :: xs else x :: insert_ordered e xs'
  end.

Lemma insert_ordered_loop_repr h l A B e fuel :
  list_repr h l (A ++ B) → (length B < fuel)%nat →
  ∃ B1 B2, B = B1 ++ B2 ∧ insert_ordered e B = B1 ++ e :: B2 ∧
    list_insert_ordered_loop less fuel l e (cursor l B) h = Ret (cursor l B2, h).
Proof.
  revert A fuel. induction B as [|b B IH]; intros A fuel Hr Hf;
    (destruct fuel as [|fuel]; [simpl in Hf; lia|]); cbn [list_insert_ordered_loop];
    mrun (list_end_Ret h l _ Hr); rewrite (cursor_end h l A _ Hr).
  - by exists [], [].
  - rewrite cursor_cons. simpl. destruct (less e b).
    + by exists [], (b :: B).
    + mrun (cursor_next h l A b B Hr).
      destruct (IH (A ++ [b]) fuel) as (B1 & B2 & -> & E & ->).
      * by rewrite <-(assoc_L (++)).
      * simpl in Hf. lia.
      * exists (b :: B1), B2. simpl. by rewrite E.
Qed.

Lemma list_insert_ordered_repr h l xs e :
  list_repr h l xs → e ≠ NULL → is_Some (h !! e) → e ∉ nodes l xs →
  ∃ h', list_insert_ordered less l e h = Ret (tt, h') ∧
        list_repr h' l (insert_ordered e xs) ∧ frame (e :: nodes l xs) h h'.
Proof.
  intros Hr He Hes Hni. unfold list_insert_ordered.
  rewrite nonnull_ok by (by eapply list_repr_head). rewrite nonnull_ok by done.
  mrun (cursor_begin h l xs Hr). mexec ltac:(unfold getM; done).
  destruct (insert_ordered_loop_repr h l [] xs e (budget h)) as (B1 & B2 & -> & E & E').
  - done.
  - pose proof (list_repr_budget h l _ Hr). lia.
  - mrun E'. rewrite E. by apply list_insert_repr.
Qed.

(** [ordered xs]: no element is less than one before it. *)
Definition ordered (xs : list loc) : Prop := StronglySorted (λ a b, less b a = false) xs.

Lemma insert_ordered_perm e xs : insert_ordered e xs ≡ₚ e :: xs.
Proof.
  induction xs as [|x xs IH]; simpl; [done|]. destruct (less e x); [done|].
  rewrite IH. constructor.
Qed.

Lemma insert_ordered_ordered e xs :
  (∀ a b c, less b a = false → less c b = false → less c a = false) →
  (∀ a b, less a b = true → less b a = false) →
  ordered xs → ordered (insert_ordered e xs).
Proof.
  intros Htr Has. induction xs as [|x xs IH]; intros Ho; simpl.
  - repeat constructor.
  - inversion_clear Ho as [|? ? Hxs Hx]. destruct (less e x) eqn:Hl.
    + constructor; [by constructor|]. constructor; [by apply Has|].
      eapply Forall_impl; [exact Hx|]. intros y Hy. simpl in *. eapply Htr; [|exact Hy]. by apply Has.
    + constructor; [by apply IH|]. rewrite insert_ordered_perm. by constructor.
Qed.
End insert_ordered.
(** Only the comparisons of the new element with the list matter. *)
Lemma insert_ordered_ext (less less' : loc → loc → bool) e xs :
  (∀ x, x ∈ xs → less e x = less' e x) → insert_ordered less e xs = insert_ordered less' e xs.
Proof.
  induction xs as [|x xs IH]; intros H; simpl; [done|]. rewrite H by (by left).
  destruct (less' e x); [done|]. f_equal. apply IH. intros y Hy. apply H. by right.
Qed.

(** ** list_reverse *)
Definition swap_node (n : list_elem) : list_elem := ListElem (next n) (prev n).
Definition swap_all (xs : list loc) (h : heap) : heap :=
  foldl (λ h a, alter swap_node a h) h xs.

Lemma swap_all_ne xs h a : a ∉ xs → swap_all xs h !! a = h !! a.
Proof.
  revert h. induction xs as [|x xs IH]; intros h Hni; simpl; [done|].
  apply not_elem_of_cons in Hni as [? ?].
  unfold swap_all in *. simpl. rewrite IH by done. by apply lookup_alter_ne.
Qed.
Lemma swap_all_dom xs h : dom (swap_all xs h) = dom h.
Proof.
  revert h. induction xs as [|x xs IH]; intros h; [done|].
  unfold swap_all in *. simpl. rewrite IH. apply dom_alter_L.
Qed.

Lemma last_of_reverse p xs q : xs ≠ [] → last_of p (reverse xs) = first_of xs q.
Proof. destruct xs; [done|]. intros _. by rewrite reverse_cons, last_of_app. Qed.
Lemma first_of_reverse p xs q : xs ≠ [] → first_of (reverse xs) q = last_of p xs.
Proof.
  destruct xs as [|x xs _] using rev_ind; [done|]. intros _.
  by rewrite reverse_snoc, last_of_app.
Qed.

Lemma linked_swap_all h p xs q :
  NoDup xs → linked h p xs q → linked (swap_all xs h) q (reverse xs) p.
Proof.
  revert h p. induction xs as [|a xs IH]; intros h p; [done|].
  intros [Ha ND]%NoDup_cons (Hz & Hal & L). rewrite reverse_cons. apply linked_app. split.
  - simpl. apply IH; [done|]. eapply linked_frame; [|done].
    intros b Hb. apply lookup_alter_ne. set_solver.
  - simpl. split_and!; [done| |done]. unfold swap_all in *. simpl.
    fold (swap_all xs (alter swap_node a h)). rewrite swap_all_ne by done.
    rewrite lookup_alter_eq, Hal. simpl. unfold swap_node. simpl. do 2 f_equal.
    destruct xs as [|b xs]; [done|]. symmetry. by apply last_of_reverse.
Qed.

Lemma list_reverse_loop_run h l p xs fuel :
  l ≠ NULL → NoDup xs → tail l ∉ xs → linked h p xs (tail l) → (length xs < fuel)%nat →
  list_reverse_loop fuel l (first_of xs (tail l)) h = Ret (tt, swap_all xs h).
Proof.
  intros Hl. revert h p fuel. induction xs as [|a xs IH]; intros h p fuel ND Ht L Hf;
    (destruct fuel as [|fuel]; [simpl in Hf; lia|]); cbn [list_reverse_loop];
    unfold list_end; rewrite bindM_assoc, nonnull_ok by done; unfold bindM at 1; cbn.
  - by rewrite N.eqb_refl.
  - apply not_elem_of_cons in Ht as [Hta Ht]. apply NoDup_cons in ND as [Ha ND].
    destruct L as (Hz & Hal & L). rewrite (proj2 (N.eqb_neq _ _)) by done.
    unfold swap_links. rewrite bindM_assoc. mexec ltac:(by apply load_Ret).
    mexec ltac:(by apply (store_alter _ _ _ swap_node)).
    mexec ltac:(apply get_prev_Ret; [done|by rewrite lookup_alter_eq, Hal]). simpl.
    eapply (IH _ a); [done..| |simpl in Hf; lia].
    eapply linked_frame; [|done]. intros b Hb. apply lookup_alter_ne. set_solver.
Qed.

(** The three segments of a list: its head, its elements, its tail. *)
Lemma list_repr_segments h l xs :
  xs ≠ [] →
  list_repr h l xs ↔
  NoDup (nodes l xs) ∧ linked h NULL [head l] (first_of xs NULL) ∧
  linked h (head l) xs (tail l) ∧ linked h (last_of NULL xs) [tail l] NULL.
Proof.
  intros Hne. unfold list_repr. change (nodes l xs) with ([head l] ++ xs ++ [tail l]).
  rewrite !linked_app, first_of_app_ne by done.
  rewrite (last_of_indep (last_of NULL [head l]) NULL xs) by done. naive_solver.
Qed.

Lemma nodes_perm l xs ys : xs ≡ₚ ys → nodes l xs ≡ₚ nodes l ys.
Proof. intros H. unfold nodes. by rewrite H. Qed.

(** The four pointer writes that follow the loop of [list_reverse]. *)
Lemma reverse_ends h l R :
  l ≠ NULL → R ≠ [] → NoDup (nodes l R) →
  linked h NULL [head l] (last_of NULL R) →
  linked h (tail l) R (head l) →
  linked h (first_of R NULL) [tail l] NULL →
  ∃ h',
    (do hn <- get_next (head l); do tp <- get_prev (tail l);
     run set_next (head l) tp; run set_prev (tail l) hn;
     do f <- get_next (head l); do b <- get_prev (tail l);
     do fp <- get_prev f; do bn <- get_next b;
     run set_prev f bn; set_next b fp) h = Ret (tt, h') ∧
    list_repr h' l R ∧ frame (nodes l R) h h'.
Proof.
  intros Hl HR ND LH LR LT.
  pose proof (last_of_elem NULL R HR) as EL. pose proof (first_of_elem R NULL HR) as EF.
  pose proof ND as ND'. change (nodes l R) with ([head l] ++ R ++ [tail l]) in ND'.
  rewrite !NoDup_app in ND'. destruct ND' as (N1 & D1 & N2 & D2 & N3).
  assert (∀ a, a ∈ [head l] → a ∈ R → False) by set_solver.
  assert (∀ a, a ∈ R → a ∈ [tail l] → False) by set_solver.
  assert (head l ∉ [tail l]) by set_solver. assert (tail l ∉ [head l]) by set_solver.
  assert (tail l ∉ R) by set_solver. assert (head l ∉ R) by set_solver. clear D1 D2.
  set (f := first_of R NULL) in *. set (b := last_of NULL R) in *.
  assert (head l ≠ NULL) by done. destruct LT as (Htn & Htl & _). pose proof LH as (_ & Hhl & _).
  simpl in Hhl, Htl.
  assert (f ≠ NULL) by (by eapply linked_not_null). assert (b ≠ NULL) by (by eapply linked_not_null).
  assert (is_Some (h !! head l)) by eauto. assert (is_Some (h !! tail l)) by eauto.
  assert (is_Some (h !! f)) by (by eapply linked_is_Some).
  assert (is_Some (h !! b)) by (by eapply linked_is_Some).
  assert (next <$> h !! head l = Some b) as Ehn by by rewrite Hhl.
  assert (prev <$> h !! tail l = Some f) as Etp by by rewrite Htl.
  assert (prev <$> h !! f = Some (tail l)) as Efp.
  { unfold f. destruct R; [done|]. simpl. by destruct LR as (_ & -> & _). }
  assert (next <$> h !! b = Some (head l)) as Ebn.
  { unfold b. destruct R as [|x R _] using rev_ind; [done|]. rewrite last_of_app. simpl.
    by apply linked_lookup in LR as [_ ->]. }
  assert (head l ≠ tail l) by set_solver. assert (f ≠ head l) by (intros E; rewrite E in *; set_solver).
  assert (b ≠ tail l) by (intros E; rewrite E in *; set_solver).
  assert (f ≠ tail l) by (intros E; rewrite E in *; set_solver).
  assert (b ≠ head l) by (intros E; rewrite E in *; set_solver).
  read_next. read_prev. write_next. write_prev.
  mexec ltac:(apply get_next_field; [done|]; rewrite fmap_next_upd_prev, upd_next_eq, Hhl; reflexivity).
  mexec ltac:(apply get_prev_field; [done|]; rewrite upd_prev_eq, upd_next_ne, Htl by done; reflexivity).
  cbn [prev next]. read_prev. read_next. write_prev.
  eexists; split_and!; [apply set_next_Ret; [done|is_some]|..].
  - apply list_repr_segments; [done|]. split_and!; [done|..].
    + unframe. eapply (linked_upd_next' _ NULL [head l] _ _ NULL); [done|apply NoDup_singleton|done].
    + eapply linked_upd_next'; [done..|]. eapply linked_upd_prev'; [done..|]. unframe. exact LR.
    + unframe. eapply (linked_upd_prev' _ _ [tail l] _ _ NULL); [done|apply NoDup_singleton|].
      unframe. done.
  - unfold nodes. frame_upd.
Qed.

(** [list_reverse] reverses the list. *)
Theorem list_reverse_repr h l xs :
  list_repr h l xs →
  ∃ h', list_reverse l h = Ret (tt, h') ∧ list_repr h' l (reverse xs) ∧
        frame (nodes l xs) h h'.
Proof.
  intros Hr. unfold list_reverse. mrun (list_empty_repr h l xs Hr).
  destruct (decide (xs = [])) as [->|Hne]; [eexists; split_and!; [done..|apply frame_refl]|].
  rewrite bool_decide_eq_false_2 by done.
  mrun (cursor_begin h l xs Hr). mexec ltac:(unfold getM; done).
  pose proof (list_repr_budget h l xs Hr). pose proof (list_repr_head h l xs Hr).
  apply list_repr_segments in Hr as (ND & LH & LX & LT); [|done].
  pose proof ND as ND'. apply NoDup_cons in ND' as [Hh ND'].
  apply NoDup_app in ND' as (NX & Dt & _).
  assert (head l ∉ xs) by set_solver. assert (tail l ∉ xs) by set_solver.
  assert (head l ≠ tail l) by set_solver.
  assert (reverse xs ≠ []) by (intros E%(f_equal length); rewrite length_reverse in E; by destruct xs).
  assert (cursor l xs = first_of xs (tail l)) as -> by by destruct xs.
  mexec ltac:(eapply (list_reverse_loop_run h l (head l) xs); try done; lia).
  destruct (reverse_ends (swap_all xs h) l (reverse xs)) as (h' & E & Hr' & Hf); try done.
  - by rewrite (nodes_perm _ _ xs (reverse_Permutation xs)).
  - rewrite (last_of_reverse _ _ NULL) by done. eapply linked_frame; [|done].
    intros a ->%list_elem_of_singleton. by apply swap_all_ne.
  - by apply linked_swap_all.
  - rewrite (first_of_reverse NULL) by done. eapply linked_frame; [|done].
    intros a ->%list_elem_of_singleton. by apply swap_all_ne.
  - exists h'. split_and!; [done..|].
    apply (frame_trans _ _ (swap_all xs h)); [split; [apply swap_all_dom|]|].
    + intros a Ha. apply swap_all_ne. unfold nodes in Ha. set_solver.
    + eapply frame_mono; [|done]. intros a. by rewrite (nodes_perm _ _ xs (reverse_Permutation xs)).
Qed.

(** ** list_max and list_min *)
Section extrema.
  Context (less : loc → loc → bool).

(** Reference definitions: the earliest maximum and minimum. *)
Definition max_from (m : loc) (xs : list loc) : loc :=
  foldl (λ m x, if less m x then x else m) m xs.
Definition min_from (m : loc) (xs : list loc) : loc :=
  foldl (λ m x, if less x m then x else m) m xs.

Lemma list_max_loop_repr h l A B m fuel :
  list_repr h l (A ++ B) → (length B < fuel)%nat →
  list_max_loop less fuel l m (cursor l B) h = Ret (max_from m B, h).
Proof.
  revert A fuel m. induction B as [|b B IH]; intros A fuel m Hr Hf;
    (destruct fuel as [|fuel]; [simpl in Hf; lia|]); cbn [list_max_loop];
    mrun (list_end_Ret h l _ Hr); rewrite (cursor_end h l A _ Hr); [done|].
  rewrite cursor_cons. mrun (cursor_next h l A b B Hr).
  rewrite (IH (A ++ [b])); [done| |simpl in Hf; lia]. by rewrite <-(assoc_L (++)).
Qed.
Lemma list_min_loop_repr h l A B m fuel :
  list_repr h l (A ++ B) → (length B < fuel)%nat →
  list_min_loop less fuel l m (cursor l B) h = Ret (min_from m B, h).
Proof.
  revert A fuel m. induction B as [|b B IH]; intros A fuel m Hr Hf;
    (destruct fuel as [|fuel]; [simpl in Hf; lia|]); cbn [list_min_loop];
    mrun (list_end_Ret h l _ Hr); rewrite (cursor_end h l A _ Hr); [done|].
  rewrite cursor_cons. mrun (cursor_next h l A b B Hr).
  rewrite (IH (A ++ [b])); [done| |simpl in Hf; lia]. by rewrite <-(assoc_L (++)).
Qed.

Theorem list_max_repr h l xs :
  list_repr h l xs →
  list_max less l h =
  Ret (match xs with [] => tail l | x :: xs => max_from x xs end, h).
Proof.
  intros Hr. unfold list_max. mrun (cursor_begin h l xs Hr). mrun (list_end_Ret h l xs Hr).
  rewrite (cursor_end h l [] xs Hr). destruct xs as [|x xs]; [done|]. rewrite cursor_cons.
  mrun (cursor_next h l [] x xs Hr). mexec ltac:(unfold getM; done).
  pose proof (list_repr_budget h l _ Hr). simpl in H.
  rewrite (list_max_loop_repr h l [x] xs); [done..|lia].
Qed.
Theorem list_min_repr h l xs :
  list_repr h l xs →
  list_min less l h =
  Ret (match xs with [] => tail l | x :: xs => min_from x xs end, h).
Proof.
  intros Hr. unfold list_min. mrun (cursor_begin h l xs Hr). mrun (list_end_Ret h l xs Hr).
  rewrite (cursor_end h l [] xs Hr). destruct xs as [|x xs]; [done|]. rewrite cursor_cons.
  mrun (cursor_next h l [] x xs Hr). mexec ltac:(unfold getM; done).
  pose proof (list_repr_budget h l _ Hr). simpl in H.
  rewrite (list_min_loop_repr h l [x] xs); [done..|lia].
Qed.

Section strict_weak_order.
  Hypothesis less_asym : ∀ a b, less a b = true → less b a = false.
  Hypothesis less_trans :
    ∀ a b c, less b a = false → less c b = false → less c a = false.

Lemma less_irrefl z : less z z = false.
Proof. destruct (less z z) eqn:E; [|done]. apply less_asym in E as E'. congruence. Qed.

(** No element is greater than [max_from]. *)
Lemma max_from_max m xs x : x ∈ m :: xs → less (max_from m xs) x = false.
Proof.
  revert m x. induction xs as [|y xs IH]; intros m x Hx.
  - apply list_elem_of_singleton in Hx as ->. apply less_irrefl.
  - unfold max_from in *. simpl. set (m' := if less m y then y else m).
    assert (less m' m = false ∧ less m' y = false) as [Hm Hy].
    { pose proof less_irrefl. unfold m'. destruct (less m y) eqn:E; auto. }
    assert (less (foldl (λ m x, if less m x then x else m) m' xs) m' = false) as Hmax
      by (apply IH; set_solver).
    apply elem_of_cons in Hx as [->|[->|Hx]%elem_of_cons].
    + by eapply less_trans.
    + by eapply less_trans.
    + apply IH. set_solver.
Qed.
End strict_weak_order.
End extrema.

(** ** list_unique *)
Section unique.
  Context (less : loc → loc → bool).

(** Reference definition: the elements kept after [a] and the ones removed. *)
Fixpoint unique_from (a : loc) (xs : list loc) : list loc * list loc :=
  match xs with
  | [] => ([], [])
  | b :: xs =>
      if negb (less a b) && negb (less b a)
      then let '(u, d) := unique_from a xs in (u, b :: d)
      else let '(u, d) := unique_from b xs in (b :: u, d)
  end.
Lemma unique_from_perm a xs : (unique_from a xs).1 ++ (unique_from a xs).2 ≡ₚ xs.
Proof.
  revert a. induction xs as [|b xs IH]; intros a; simpl; [done|].
  destruct (negb _ && negb _).
  - specialize (IH a). destruct (unique_from a xs) as [u d]. simpl in *.
    by rewrite <-Permutation_middle, IH.
  - specialize (IH b). destruct (unique_from b xs) as [u d]. simpl in *. by rewrite IH.
Qed.
Lemma unique_from_sorted a xs :
  Sorted (λ a b, less a b || less b a = true) (a :: (unique_from a xs).1).
Proof.
  revert a. induction xs as [|b xs IH]; intros a; simpl; [repeat constructor|].
  destruct (less a b) eqn:E1, (less b a) eqn:E2; simpl.
  4:{ specialize (IH a). by destruct (unique_from a xs) as [u d]. }
  all: specialize (IH b); destruct (unique_from b xs) as [u d]; simpl in *;
    constructor; [done|constructor; by rewrite E1, E2].
Qed.

Lemma list_unique_loop_repr h l dup ds A a B fuel :
  list_repr h l (A ++ a :: B) → list_repr h dup ds →
  (∀ x, x ∈ nodes l (A ++ a :: B) → x ∉ nodes dup ds) → (length B < fuel)%nat →
  ∃ h', list_unique_loop less fuel l dup a h = Ret (tt, h') ∧
    list_repr h' l (A ++ a :: (unique_from a B).1) ∧
    list_repr h' dup (ds ++ (unique_from a B).2) ∧
    frame (nodes l (A ++ a :: B) ++ nodes dup ds) h h'.
Proof.
  revert h A a ds fuel. induction B as [|b B IH]; intros h A a ds fuel Hr Hd Hsep Hf;
    (destruct fuel as [|fuel]; [simpl in Hf; lia|]); cbn [list_unique_loop];
    mrun (cursor_next h l A a _ Hr); mrun (list_end_Ret h l _ Hr);
    (assert (list_repr h l ((A ++ [a]) ++ _)) as Hr'
      by (rewrite <-(assoc_L (++)); exact Hr));
    rewrite (cursor_end h l (A ++ [a]) _ Hr').
  - exists h. rewrite !app_nil_r. split_and!; try done. 
  - rewrite cursor_cons. cbn [unique_from].
    destruct (negb (less a b) && negb (less b a)) eqn:Eq.
    + destruct (list_remove_repr h l (A ++ [a]) b B Hr') as (h1 & E1 & Hr1 & F1).
      mrun E1. rewrite (proj2 (N.eqb_neq dup NULL)) by (by eapply list_repr_head).
      assert (b ∈ nodes l (A ++ a :: b :: B)) as Hb by (unfold nodes; set_solver).
      assert (list_repr h1 dup ds) as Hd1.
      { eapply list_repr_frame; [done| |done]. intros x Hx Hx'. eapply Hsep; [|done].
        eapply nodes_mono; [|done]. clear. set_solver. }
      destruct (list_push_back_repr h1 dup ds Hd1 b) as (h2 & E2 & Hd2 & F2).
      { exact (list_repr_not_null _ _ _ _ Hr Hb). }
      { eapply frame_is_Some; [exact F1|]. exact (list_repr_is_Some _ _ _ _ Hr Hb). }
      { by apply Hsep. }
      mrun E2.
      assert (b ∉ nodes l ((A ++ [a]) ++ B)) as Hbni.
      { destruct Hr' as [ND _]. rewrite nodes_app in ND.
        apply NoDup_app in ND as (_ & D & [ND _]%NoDup_cons).
        rewrite nodes_app. set_solver. }
      assert (list_repr h2 l (A ++ a :: B)) as Hr2.
      { eapply list_repr_frame; [done| |rewrite <-(assoc_L (++)) in Hr1; exact Hr1].
        intros x Hx [->|Hx']%elem_of_cons.
        - apply Hbni. by rewrite <-(assoc_L (++)).
        - eapply Hsep; [|done]. eapply nodes_mono; [|done]. clear. set_solver. }
      destruct (IH h2 A a (ds ++ [b]) fuel Hr2 Hd2) as (h' & E & HR & HD & F).
      { intros x Hx Hx'. assert (x = b ∨ x ∈ nodes dup ds) as [->|Hx''].
        - rewrite elem_of_nodes in *. clear -Hx'. set_solver.
        - apply Hbni. by rewrite <-(assoc_L (++)).
        - eapply Hsep; [|done]. eapply nodes_mono; [|done]. clear. set_solver. }
      { simpl in Hf. lia. }
      exists h'. split_and!; [done| | |].
      * destruct (unique_from a B). exact HR.
      * destruct (unique_from a B). simpl in *. by rewrite <-(assoc_L (++)) in HD.
      * eapply frame_trans; [|eapply frame_trans];
          (eapply frame_mono; [|eassumption]); intros x; clear;
          rewrite ?elem_of_cons, ?elem_of_app, !elem_of_nodes; set_solver.
    + destruct (IH h (A ++ [a]) b ds fuel Hr' Hd) as (h' & E & HR & HD & F).
      { intros x Hx. apply Hsep. by rewrite <-(assoc_L (++)) in Hx. }
      { simpl in Hf. lia. }
      exists h'. rewrite <-!(assoc_L (++)) in *. destruct (unique_from b B). done.
Qed.

(** [list_unique] keeps the first element of each group of adjacent equal
    elements and appends the others, in order, to the list of duplicates. *)
Theorem list_unique_repr h l x xs dup ds :
  list_repr h l (x :: xs) → list_repr h dup ds →
  (∀ y, y ∈ nodes l (x :: xs) → y ∉ nodes dup ds) →
  ∃ h', list_unique less l dup h = Ret (tt, h') ∧
    list_repr h' l (x :: (unique_from x xs).1) ∧
    list_repr h' dup (ds ++ (unique_from x xs).2) ∧
    frame (nodes l (x :: xs) ++ nodes dup ds) h h'.
Proof.
  intros Hr Hd Hsep. unfold list_unique. rewrite nonnull_ok by (by eapply list_repr_head).
  mrun (list_empty_repr h l _ Hr). rewrite bool_decide_eq_false_2 by done.
  mrun (cursor_begin h l _ Hr). mexec ltac:(unfold getM; done).
  apply (list_unique_loop_repr h l dup ds [] x xs); [done..|].
  pose proof (list_repr_budget h l _ Hr). simpl in H. lia.
Qed.
End unique.
