(* ===== verification/KListSort.v ===== *)
(** * list.c: [list_splice] within a list and the natural merge sort

    [list_sort] works on the links in place.  The file relates every loop of
    the sort to functions on the list of elements and proves that the whole
    sort terminates, passes its assertions, and leaves an ordered permutation
    of the elements. *)

From stdpp Require Import base numbers list gmap sorting.
From S2P Require Import Prelude KList KListRepr KListOps.
Local Open Scope N_scope.

(** ** list_splice: moving the segment [S] in front of [N] *)
Lemma first_of_lookup h p A B q :
  B ≠ [] → linked h p (A ++ B) q →
  ∃ n, first_of B q ≠ NULL ∧ h !! first_of B q = Some (ListElem (last_of p A) n).
Proof. intros HB L. destruct B; [done|]. apply linked_lookup in L. eauto. Qed.
Lemma last_of_lookup h p A B q :
  A ≠ [] → linked h p (A ++ B) q →
  ∃ n, last_of p A ≠ NULL ∧ h !! last_of p A = Some (ListElem n (first_of B q)).
Proof.
  intros HA L. destruct A as [|a A _] using rev_ind; [done|].
  rewrite <-(assoc_L (++)) in L. apply linked_lookup in L. rewrite last_of_app. simpl. eauto.
Qed.

Lemma linked_interior h p A a B q n :
  A ≠ [] → B ≠ [] → linked h p (A ++ a :: B) q → h !! a = Some n →
  prev n ≠ NULL ∧ next n ≠ NULL.
Proof.
  intros HA HB L Hn. destruct (linked_lookup _ _ _ _ _ _ L) as [_ Ha].
  rewrite Hn in Ha. injection Ha as ->. simpl.
  pose proof (last_of_elem p A HA). pose proof (first_of_elem B q HB).
  split; (eapply linked_not_null; [exact L|set_solver]).
Qed.
Lemma disj_ne (A B : list loc) x y : (∀ a, a ∈ A → a ∉ B) → x ∈ A → y ∈ B → x ≠ y.
Proof. set_solver. Qed.

Lemma splice_nodes h P N S Q :
  P ≠ [] → N ≠ [] → S ≠ [] → Q ≠ [] → NoDup (P ++ N ++ S ++ Q) →
  linked h NULL (P ++ N ++ S ++ Q) NULL →
  ∃ h', list_splice (first_of N NULL) (first_of S NULL) (first_of Q NULL) h = Ret (tt, h') ∧
    linked h' NULL (P ++ S ++ N ++ Q) NULL ∧ frame (P ++ N ++ S ++ Q) h h'.
Proof.
  intros HP HN HS HQ ND L.
  pose proof (last_of_elem NULL P HP). pose proof (last_of_elem NULL N HN).
  pose proof (last_of_elem NULL S HS). pose proof (first_of_elem S NULL HS).
  pose proof (first_of_elem N NULL HN). pose proof (first_of_elem Q NULL HQ).
  assert (N ++ S ++ Q ≠ []) by (by destruct N). assert (S ++ Q ≠ []) by (by destruct S).
  destruct (first_of_lookup h NULL P (N ++ S ++ Q) NULL) as (bn & B1 & B2); [done..|].
  destruct (first_of_lookup h NULL (P ++ N) (S ++ Q) NULL) as (fn & F1 & F2);
    [done|by rewrite <-(assoc_L (++))|].
  destruct (first_of_lookup h NULL (P ++ N ++ S) Q NULL) as (lq & Q1 & Q2);
    [done|by rewrite <-!(assoc_L (++))|].
  destruct (last_of_lookup h NULL (P ++ N ++ S) Q NULL) as (ln & L1 & L2);
    [by destruct P|by rewrite <-!(assoc_L (++))|].
  rewrite !last_of_app in *. rewrite !first_of_app_ne in * by done.
  rewrite !(last_of_indep (last_of _ _) NULL) in * by done.
  pose proof ND as ND'. rewrite !NoDup_app in ND'.
  destruct ND' as (_ & D1 & _ & D2 & _ & D3 & _).
  setoid_rewrite not_elem_of_app in D1. setoid_rewrite not_elem_of_app in D1.
  setoid_rewrite not_elem_of_app in D2.
  assert (∀ a, a ∈ P ++ N ++ S ++ Q → a ≠ NULL) as Hnn by (intros a; by eapply linked_not_null).
  assert (∀ a, a ∈ P ++ N ++ S ++ Q → is_Some (h !! a)) as Hsome by (intros a; by eapply linked_is_Some).
  setoid_rewrite elem_of_app in Hnn. setoid_rewrite elem_of_app in Hnn. setoid_rewrite elem_of_app in Hnn.
  setoid_rewrite elem_of_app in Hsome. setoid_rewrite elem_of_app in Hsome. setoid_rewrite elem_of_app in Hsome.
  eexists; split_and!.
  - eapply list_splice_Ret; try done; try (by apply Hnn; auto); try (by apply Hsome; auto).
    + eapply (disj_ne S Q); eauto.
    + destruct S as [|z S' _] using rev_ind; [done|]. rewrite last_of_app in L2.
      edestruct (linked_interior h NULL (P ++ N ++ S') z Q NULL) as [X _];
        [by destruct P|done|by rewrite <-!(assoc_L (++)) in *|exact L2|exact X].
    + destruct S as [|z S']; [done|].
      edestruct (linked_interior h NULL (P ++ N) z (S' ++ Q) NULL) as [_ X];
        [by destruct P|by destruct S'|by rewrite <-!(assoc_L (++)) in *|exact F2|exact X].
    + eapply (disj_ne N S); eauto. naive_solver.
    + apply not_eq_sym. eapply (disj_ne N Q); eauto. naive_solver.
    + apply not_eq_sym. eapply (disj_ne N S); eauto. naive_solver.
  - by apply linked_splice.
  - repeat first [ apply frame_upd_next; [rewrite !elem_of_app; tauto|]
               | apply frame_upd_prev; [rewrite !elem_of_app; tauto|] ]; apply frame_refl.
Qed.

(** Splicing inside one list. *)
Theorem list_splice_repr h l A N S B :
  N ≠ [] → S ≠ [] → list_repr h l (A ++ N ++ S ++ B) →
  ∃ h', list_splice (cursor l (N ++ S ++ B)) (cursor l (S ++ B)) (cursor l B) h = Ret (tt, h') ∧
    list_repr h' l (A ++ S ++ N ++ B) ∧ frame (nodes l (A ++ N ++ S ++ B)) h h'.
Proof.
  intros HN HS [ND L]. rewrite nodes_app, <-!(assoc_L (++)) in *.
  destruct (splice_nodes h (head l :: A) N S (B ++ [tail l])) as (h' & E & L' & F);
    [done..|apply snoc_ne|done|done|].
  exists h'. unfold cursor, list_repr. rewrite nodes_app, <-!(assoc_L (++)).
  rewrite !(first_of_app_ne N), !(first_of_app_ne S) by done. split_and!; try done.
  enough ((head l :: A) ++ S ++ N ++ B ++ [tail l] ≡ₚ (head l :: A) ++ N ++ S ++ B ++ [tail l])
    as -> by done.
  apply Permutation_app_head.
  rewrite !(assoc_L (++)). do 2 apply Permutation_app_tail. apply Permutation_app_comm.
Qed.

Section sort.
  Context (less : loc → loc → bool).

(** [R a b]: [b] is not less than [a]. *)
Definition R (a b : loc) : Prop := less b a = false.
#[local] Instance R_dec : RelDecision R.
Proof. intros a b. unfold R. apply _. Defined.

(** ** Reference definitions *)
Fixpoint sorted_from (a : loc) (xs : list loc) : bool :=
  match xs with
  | [] => true
  | b :: xs => if less b a then false else sorted_from b xs
  end.
(** The rest of the run that starts with [a], and what follows the run. *)
Fixpoint take_run (a : loc) (xs : list loc) : list loc * list loc :=
  match xs with
  | [] => ([], [])
  | b :: xs' =>
      if less b a then ([], xs) else let '(u, v) := take_run b xs' in (b :: u, v)
  end.
Fixpoint descents (a : loc) (xs : list loc) : nat :=
  match xs with
  | [] => 0
  | b :: xs => (if less b a then 1 else 0) + descents b xs
  end%nat.
Definition runs (xs : list loc) : nat :=
  match xs with [] => 0 | a :: xs => S (descents a xs) end.
(** One pass: what [xs] becomes, and the number of runs counted. *)
Inductive pass : list loc → list loc → nat → Prop :=
  | pass_nil : pass [] [] 0
  | pass_one a xs u : take_run a xs = (u, []) → pass (a :: xs) (a :: xs) 1
  | pass_two a xs u b w u' v o c :
      take_run a xs = (u, b :: w) → take_run b w = (u', v) → pass v o c →
      pass (a :: xs) (list_merge R (a :: u) (b :: u') ++ o) (S c).

Lemma take_run_app a xs u v : take_run a xs = (u, v) → xs = u ++ v.
Proof.
  revert a u v. induction xs as [|b xs IH]; intros a u v; simpl; [naive_solver|].
  destruct (less b a); [naive_solver|]. destruct (take_run b xs) as [u' v'] eqn:E.
  intros [= <- <-]. simpl. f_equal. by apply (IH b).
Qed.
Lemma take_run_sorted a xs u v : take_run a xs = (u, v) → sorted_from a u = true.
Proof.
  revert a u v. induction xs as [|b xs IH]; intros a u v; simpl; [naive_solver|].
  destruct (less b a) eqn:Eb; [naive_solver|]. destruct (take_run b xs) as [u' v'] eqn:E.
  intros [= <- <-]. simpl. rewrite Eb. by eapply IH.
Qed.
Lemma take_run_descents a xs u v : take_run a xs = (u, v) → descents a xs = runs v.
Proof.
  revert a u v. induction xs as [|b xs IH]; intros a u v; simpl; [naive_solver|].
  destruct (less b a) eqn:Eb; [naive_solver|]. destruct (take_run b xs) as [u' v'] eqn:E.
  intros [= <- <-]. simpl. by eapply IH.
Qed.
Lemma sorted_from_Sorted a xs : sorted_from a xs = true ↔ Sorted R (a :: xs).
Proof.
  revert a. induction xs as [|b xs IH]; intros a; simpl.
  - split; [repeat constructor|done].
  - destruct (less b a) eqn:E.
    + split; [done|]. intros HS. inversion HS as [|? ? ? HH]; subst.
      inversion HH; subst. unfold R in *. congruence.
    + rewrite IH. split; [|by inversion 1]. intros. constructor; [done|]. by constructor.
Qed.
Lemma Sorted_runs xs : Sorted R xs ↔ (runs xs ≤ 1)%nat.
Proof.
  destruct xs as [|a xs]; simpl; [split; [lia|constructor]|].
  rewrite <-sorted_from_Sorted. revert a. induction xs as [|b xs IH]; intros a; simpl; [split; [lia|done]|].
  destruct (less b a); simpl; [split; [done|lia]|apply IH].
Qed.
Lemma runs_app xs ys : (runs (xs ++ ys) ≤ runs xs + runs ys)%nat.
Proof.
  destruct xs as [|a xs]; simpl; [done|]. revert a. induction xs as [|b xs IH]; intros a; simpl.
  - destruct ys as [|y ys]; simpl; [lia|]. destruct (less y a); lia.
  - specialize (IH b). destruct (less b a); lia.
Qed.

Lemma pass_perm xs o c : pass xs o c → o ≡ₚ xs.
Proof.
  induction 1 as [| |a xs u b w u' v o c E1 E2 HP IH]; [done..|].
  apply take_run_app in E1, E2. subst. rewrite merge_Permutation, IH.
  simpl. by rewrite <-!(assoc_L (++)).
Qed.
Lemma pass_count xs o c : pass xs o c → (2 * c ≤ runs xs + 1 ∧ c ≤ length xs)%nat.
Proof.
  induction 1 as [| |a xs u b w u' v o c E1 E2 HP [IH1 IH2]]; simpl; [lia..|].
  pose proof (take_run_descents _ _ _ _ E1) as D1. pose proof (take_run_descents _ _ _ _ E2) as D2.
  apply take_run_app in E1, E2. subst. simpl in *. rewrite !length_app in *. simpl.
  rewrite length_app. lia.
Qed.

Section order.
  Hypothesis less_asym : ∀ a b, less a b = true → less b a = false.

#[local] Instance R_total : Total R.
Proof. intros a b. unfold R. destruct (less b a) eqn:E; auto. Qed.

Lemma pass_runs xs o c : pass xs o c → (runs o ≤ c)%nat.
Proof.
  induction 1 as [|a xs u E|a xs u b w u' v o c E1 E2 HP IH]; [done|..].
  - simpl. rewrite (take_run_descents _ _ _ _ E). simpl. lia.
  - etrans; [apply runs_app|]. apply (Nat.add_le_mono _ 1); [|done].
    apply Sorted_runs, Sorted_list_merge; [apply _|..]; apply sorted_from_Sorted;
      by eapply take_run_sorted.
Qed.
Lemma pass_sorted xs o c : pass xs o c → (c ≤ 1)%nat → Sorted R o.
Proof. intros HP Hc. apply Sorted_runs. pose proof (pass_runs _ _ _ HP). lia. Qed.
End order.

(** ** The loops *)
Lemma cursor_ne h l A x X C :
  list_repr h l (A ++ x :: X ++ C) → (x =? cursor l C) = false.
Proof.
  intros [ND _]. apply N.eqb_neq. rewrite nodes_app in ND. apply NoDup_app in ND as (_ & _ & ND).
  simpl in ND. apply NoDup_cons in ND as [Hx _]. intros ->. apply Hx.
  rewrite <-(assoc_L (++)). apply elem_of_app. right. apply first_of_elem, snoc_ne.
Qed.

Lemma cursor_prev h l A a B :
  list_repr h l (A ++ a :: B) → list_prev (cursor l B) h = Ret (a, h).
Proof.
  intros Hr. assert (∃ b B', B ++ [tail l] = b :: B') as (b & B' & E) by (destruct B; simpl; eauto).
  unfold cursor. rewrite E. simpl.
  erewrite (list_prev_nodes h l _ (head l :: A ++ [a]) b B' Hr); [|by rewrite nodes_app; simpl; rewrite <-(assoc_L (++)), <-E|done].
  simpl. by rewrite last_of_app.
Qed.

Lemma is_sorted_loop_repr h l A a B C fuel :
  list_repr h l (A ++ a :: B ++ C) → (length B < fuel)%nat →
  is_sorted_loop less fuel a (cursor l C) h = Ret (sorted_from a B, h).
Proof.
  revert A a fuel. induction B as [|b B IH]; intros A a fuel Hr Hf;
    (destruct fuel as [|fuel]; [simpl in Hf; lia|]); cbn [is_sorted_loop];
    mrun (cursor_next h l A a _ Hr).
  - simpl app. by rewrite N.eqb_refl.
  - assert (list_repr h l ((A ++ [a]) ++ b :: B ++ C)) as Hr' by by rewrite <-(assoc_L (++)).
    change (cursor l ((b :: B) ++ C)) with (cursor l (b :: B ++ C)). rewrite cursor_cons.
    rewrite (cursor_ne h l _ b B C Hr').
    pose proof (cursor_prev h l A a (b :: B ++ C) Hr) as Ep. rewrite cursor_cons in Ep. mrun Ep.
    simpl. destruct (less b a); [done|]. apply (IH (A ++ [a])); [done|simpl in Hf; lia].
Qed.
Lemma is_sorted_repr h l A B C :
  list_repr h l (A ++ B ++ C) →
  is_sorted less (cursor l (B ++ C)) (cursor l C) h =
  Ret (match B with [] => true | a :: B => sorted_from a B end, h).
Proof.
  intros Hr. unfold is_sorted. destruct B as [|a B].
  - simpl app. by rewrite N.eqb_refl.
  - rewrite <-app_comm_cons, cursor_cons, (cursor_ne h l A a B C Hr).
    mexec ltac:(unfold getM; done). apply (is_sorted_loop_repr h l A); [done|].
    pose proof (list_repr_budget h l _ Hr) as Hb. rewrite !length_app in Hb. simpl in Hb. lia.
Qed.

Lemma find_end_of_run_loop_repr h l A a B fuel :
  list_repr h l (A ++ a :: B) → (length B < fuel)%nat →
  find_end_of_run_loop less fuel a (tail l) h = Ret (cursor l (take_run a B).2, h).
Proof.
  revert A a fuel. induction B as [|b B IH]; intros A a fuel Hr Hf;
    (destruct fuel as [|fuel]; [simpl in Hf; lia|]); cbn [find_end_of_run_loop];
    mrun (cursor_next h l A a _ Hr);
    assert (list_repr h l ((A ++ [a]) ++ _)) as Hr' by (rewrite <-(assoc_L (++)); exact Hr);
    rewrite (cursor_end h l _ _ Hr'); [done|].
  rewrite cursor_cons.
  pose proof (cursor_prev h l A a (b :: B) Hr) as Ep. rewrite cursor_cons in Ep. mrun Ep.
  simpl. destruct (less b a); [done|]. rewrite (IH (A ++ [a]) b fuel Hr') by (simpl in Hf; lia).
  by destruct (take_run b B).
Qed.
Lemma find_end_of_run_repr h l A a B :
  list_repr h l (A ++ a :: B) →
  find_end_of_run less a (tail l) h = Ret (cursor l (take_run a B).2, h).
Proof.
  intros Hr. unfold find_end_of_run.
  assert (a ∈ nodes l (A ++ a :: B)) as Ha by (apply elem_of_nodes; set_solver).
  rewrite nonnull_ok by (by eapply list_repr_not_null).
  rewrite nonnull_ok by (by eapply list_repr_tail).
  pose proof (cursor_ne h l A a B [] ltac:(by rewrite app_nil_r)) as Hne.
  change (cursor l []) with (tail l) in Hne. rewrite Hne.
  mexec ltac:(by apply assertM_true). mexec ltac:(unfold getM; done).
  apply (find_end_of_run_loop_repr h l A); [done|].
  pose proof (list_repr_budget h l _ Hr) as Hb. rewrite length_app in Hb. simpl in Hb. lia.
Qed.

Lemma inplace_merge_loop_repr h l D X Y C fuel :
  list_repr h l (D ++ X ++ Y ++ C) → (length X + length Y < fuel)%nat →
  ∃ h', inplace_merge_loop less fuel (cursor l (X ++ Y ++ C)) (cursor l (Y ++ C)) (cursor l C) h
        = Ret (tt, h') ∧
    list_repr h' l (D ++ list_merge R X Y ++ C) ∧ frame (nodes l (D ++ X ++ Y ++ C)) h h'.
Proof.
  revert h D X Y. induction fuel as [|fuel IH]; intros h D X Y Hr Hf; [lia|].
  cbn [inplace_merge_loop].
  destruct X as [|x X]; [|destruct Y as [|y Y]].
  - simpl app. rewrite N.eqb_refl. exists h. simpl. destruct Y; split_and!; done || apply frame_refl.
  - simpl app at 2 4. rewrite N.eqb_refl, orb_true_r. exists h.
    split_and!; done || apply frame_refl.
  - rewrite <-!app_comm_cons, !cursor_cons in *.
    pose proof (cursor_ne h l D x X (y :: Y ++ C) Hr) as E1. rewrite cursor_cons in E1. rewrite E1.
    assert (list_repr h l ((D ++ x :: X) ++ y :: Y ++ C)) as Hr' by by rewrite <-(assoc_L (++)).
    rewrite (cursor_ne h l _ y Y C Hr'). cbn [orb].
    destruct (less y x) eqn:Eyx; cbn [negb].
    + mrun (cursor_next h l _ y _ Hr').
      mrun (cursor_prev h l _ y _ Hr').
      destruct (list_splice_repr h l D (x :: X) [y] (Y ++ C)) as (h1 & E & Hr1 & F1); [done..|].
      mrun E.
      destruct (IH h1 (D ++ [y]) (x :: X) Y) as (h' & E' & Hr2 & F2).
      { by rewrite <-(assoc_L (++)). } { simpl in *. lia. }
      exists h'. split_and!; [exact E'| |].
      * simpl. destruct (decide_rel R x y) as [Hxy|]; [unfold R in Hxy; congruence|].
        by rewrite <-(assoc_L (++)) in Hr2.
      * eapply frame_trans; [exact F1|]. eapply frame_mono; [|exact F2].
        intros a. apply nodes_mono. clear. set_solver.
    + mrun (cursor_next h l D x _ Hr).
      destruct (IH h (D ++ [x]) X (y :: Y)) as (h' & E' & Hr2 & F2).
      { by rewrite <-(assoc_L (++)). } { simpl in *. lia. }
      exists h'. split_and!; [exact E'| |].
      * simpl. destruct (decide_rel R x y) as [|Hxy]; [|unfold R in Hxy; congruence].
        by rewrite <-(assoc_L (++)) in Hr2.
      * eapply frame_mono; [|exact F2]. intros a. apply nodes_mono. clear. set_solver.
Qed.

Lemma inplace_merge_repr h l D x X y Y C :
  list_repr h l (D ++ (x :: X) ++ (y :: Y) ++ C) →
  sorted_from x X = true → sorted_from y Y = true →
  ∃ h', inplace_merge less x y (cursor l C) h = Ret (tt, h') ∧
    list_repr h' l (D ++ list_merge R (x :: X) (y :: Y) ++ C) ∧
    frame (nodes l (D ++ (x :: X) ++ (y :: Y) ++ C)) h h'.
Proof.
  intros Hr Hx Hy. unfold inplace_merge.
  assert (∀ a, a ∈ nodes l (D ++ (x :: X) ++ (y :: Y) ++ C) → a ≠ NULL) as Hnn
    by (intros a; by eapply list_repr_not_null).
  rewrite nonnull_ok by (apply Hnn, elem_of_nodes; set_solver).
  rewrite nonnull_ok by (apply Hnn, elem_of_nodes; set_solver).
  rewrite nonnull_ok.
  2:{ apply Hnn. unfold nodes, cursor. pose proof (first_of_elem (C ++ [tail l]) NULL (snoc_ne _ _)) as HC.
      revert HC. clear. set_solver. }
  pose proof (is_sorted_repr h l D (x :: X) ((y :: Y) ++ C) Hr) as E1.
  pose proof (is_sorted_repr h l (D ++ x :: X) (y :: Y) C ltac:(by rewrite <-(assoc_L (++)))) as E2.
  rewrite <-!app_comm_cons, !cursor_cons in E1, E2. rewrite Hx in E1. rewrite Hy in E2.
  mrun E1. mexec ltac:(by apply assertM_true). mrun E2. mexec ltac:(by apply assertM_true).
  mexec ltac:(unfold getM; done).
  apply (inplace_merge_loop_repr h l D (x :: X) (y :: Y) C); [done|].
  pose proof (list_repr_budget h l _ Hr) as Hb. rewrite !length_app in Hb. lia.
Qed.

Lemma list_sort_pass_repr l xs fuel h A cnt :
  list_repr h l (A ++ xs) → (length xs < fuel)%nat →
  (0 ≤ cnt)%Z → (cnt + Z.of_nat (length xs) < 2 ^ 32)%Z →
  ∃ o c h', pass xs o c ∧
    list_sort_pass less fuel l (cursor l xs) cnt h = Ret ((cnt + Z.of_nat c)%Z, h') ∧
    list_repr h' l (A ++ o) ∧ frame (nodes l (A ++ xs)) h h'.
Proof.
  revert h A xs cnt. induction fuel as [|fuel IH]; intros h A xs cnt Hr Hf H0 H32; [lia|].
  cbn [list_sort_pass]. mrun (list_end_Ret h l _ Hr). rewrite (cursor_end h l A xs Hr).
  destruct xs as [|a xs].
  { exists [], 0%nat, h. rewrite Z.add_0_r. split_and!; [constructor|done..|apply frame_refl]. }
  simpl length in *. rewrite u32_small by lia. rewrite cursor_cons.
  pose proof (find_end_of_run_repr h l A a xs Hr) as E1.
  destruct (take_run a xs) as [u v] eqn:T1. simpl in E1. mrun E1.
  pose proof (take_run_app _ _ _ _ T1) as ->.
  assert (list_repr h l ((A ++ a :: u) ++ v)) as Hv by by rewrite <-(assoc_L (++)).
  rewrite (cursor_end h l _ _ Hv). destruct v as [|b w].
  { exists (a :: u ++ []), 1%nat, h. split_and!; [by eapply pass_one|done..|apply frame_refl]. }
  rewrite cursor_cons. pose proof (find_end_of_run_repr h l _ b w Hv) as E2.
  destruct (take_run b w) as [u' v] eqn:T2. simpl in E2. mrun E2.
  pose proof (take_run_app _ _ _ _ T2) as ->.
  destruct (inplace_merge_repr h l A a u b u' v) as (h1 & E & Hr1 & F1);
    [done|by eapply take_run_sorted..|].
  mrun E. rewrite (assoc_L (++)) in Hr1.
  rewrite !length_app in Hf, H32. simpl in Hf, H32. rewrite !length_app in Hf, H32.
  destruct (IH h1 _ v (cnt + 1)%Z Hr1) as (o & c & h' & HP & Ep & Hr' & F2); [lia..|].
  exists (list_merge R (a :: u) (b :: u') ++ o), (S c), h'. split_and!.
  - by eapply pass_two.
  - rewrite Ep. do 2 f_equal. lia.
  - by rewrite (assoc_L (++)).
  - eapply (frame_trans _ h h1); [exact F1|]. eapply frame_mono; [|exact F2].
    intros z. apply nodes_mono. intros z'. rewrite !elem_of_app, merge_Permutation.
    clear. set_solver.
Qed.

Section order_loop.
  Hypothesis less_asym : ∀ a b, less a b = true → less b a = false.

Lemma list_sort_loop_repr l fuel h xs :
  list_repr h l xs → (runs xs < fuel)%nat → (Z.of_nat (length xs) < 2 ^ 32)%Z →
  ∃ ys h', list_sort_loop less fuel l h = Ret (tt, h') ∧ list_repr h' l ys ∧
    ys ≡ₚ xs ∧ Sorted R ys ∧ frame (nodes l xs) h h'.
Proof.
  revert h xs. induction fuel as [|fuel IH]; intros h xs Hr Hf H32; [lia|].
  cbn [list_sort_loop]. mrun (cursor_begin h l xs Hr). mexec ltac:(unfold getM; done).
  destruct (list_sort_pass_repr l xs (budget h) h [] 0) as (o & c & h1 & HP & E & Hr1 & F1);
    [done| |lia..|].
  { pose proof (list_repr_budget h l _ Hr). lia. }
  mrun E. simpl in Hr1, F1.
  pose proof (pass_perm _ _ _ HP) as Hp. pose proof (pass_count _ _ _ HP).
  pose proof (pass_runs less_asym _ _ _ HP).
  destruct (Z.ltb_spec 1 (0 + Z.of_nat c)).
  - destruct (IH h1 o Hr1) as (ys & h' & E' & Hr' & Hp' & HS & F2);
      [lia|by rewrite Hp|].
    exists ys, h'. split_and!; [done..|by rewrite Hp'|done|].
    eapply (frame_trans _ h h1); [exact F1|]. eapply frame_mono; [|exact F2].
    intros z. apply nodes_mono. intros z'. by rewrite Hp.
  - exists o, h1. split_and!; [done..|by apply (pass_sorted less_asym _ _ _ HP); lia|done].
Qed.

Lemma runs_length xs : (runs xs ≤ length xs)%nat.
Proof.
  destruct xs as [|a xs]; simpl; [done|]. apply le_n_S. revert a.
  induction xs as [|b xs IH]; intros a; simpl; [done|]. specialize (IH b). destruct (less b a); lia.
Qed.

Lemma list_sort_repr h l xs :
  list_repr h l xs → (Z.of_nat (length xs) < 2 ^ 32)%Z →
  ∃ ys h', list_sort less l h = Ret (tt, h') ∧ list_repr h' l ys ∧
    ys ≡ₚ xs ∧ Sorted R ys ∧ frame (nodes l xs) h h'.
Proof.
  intros Hr H32. unfold list_sort. rewrite nonnull_ok.
  2:{ apply (list_repr_not_null h l xs _ Hr). by left. }
  mexec ltac:(unfold getM; done).
  destruct (list_sort_loop_repr l (budget h) h xs) as (ys & h' & E & Hr' & Hp & HS & F); [done| |done|].
  { pose proof (list_repr_budget h l _ Hr). pose proof (runs_length xs). lia. }
  mrun E. mrun (cursor_begin h' l ys Hr'). mrun (list_end_Ret h' l ys Hr').
  pose proof (is_sorted_repr h' l [] ys []) as Es. rewrite app_nil_r in Es.
  specialize (Es Hr'). change (cursor l []) with (tail l) in Es. mrun Es.
  exists ys, h'. split_and!; try done. apply assertM_true.
  destruct ys; [done|]. by apply sorted_from_Sorted.
Qed.
End order_loop.
End sort.
