(* ===== verification/KListSpec.v ===== *)
(** * list.c: the abstract data type

    The contract of list.h as a transition system on sequences of elements
    ([spec_step]), the operations of list.c as commands on the heap
    ([exec_op]), and the refinement between the two for any sequence of
    operations.  The file closes with the list properties stated for clients
    and their concrete instances. *)

From stdpp Require Import base numbers list gmap sorting.
From S2P Require Import Prelude KList KListRepr KListOps KListSort.
Local Open Scope N_scope.

Inductive op :=
  | Push_front (e : loc) | Push_back (e : loc) | Insert_before (b e : loc)
  | Insert_ordered (e : loc) | Remove (e : loc)
  | Pop_front | Pop_back | Front | Back | Size | Empty | Reverse | Sort | Max | Min.
Inductive res := RUnit | RElem (e : loc) | RSize (n : Z) | RBool (b : bool).

Section spec.
  Context (less : loc → loc → bool) (l : loc).

(** The operations of list.c on the list at [l]. *)
Definition exec_op (o : op) : M heap res :=
  match o with
  | Push_front e => run list_push_front l e; retM RUnit
  | Push_back e => run list_push_back l e; retM RUnit
  | Insert_before b e => run list_insert b e; retM RUnit
  | Insert_ordered e => run list_insert_ordered less l e; retM RUnit
  | Remove e => do n <- list_remove e; retM (RElem n)
  | Pop_front => do e <- list_pop_front l; retM (RElem e)
  | Pop_back => do e <- list_pop_back l; retM (RElem e)
  | Front => do e <- list_front l; retM (RElem e)
  | Back => do e <- list_back l; retM (RElem e)
  | Size => do n <- list_size l; retM (RSize n)
  | Empty => do b <- list_empty l; retM (RBool b)
  | Reverse => run list_reverse l; retM RUnit
  | Sort => run list_sort less l; retM RUnit
  | Max => do e <- list_max less l; retM (RElem e)
  | Min => do e <- list_min less l; retM (RElem e)
  end.
Fixpoint exec_ops (os : list op) : M heap (list res) :=
  match os with
  | [] => retM []
  | o :: os => do r <- exec_op o; do rs <- exec_ops os; retM (r :: rs)
  end.

(** What each operation promises about the sequence of elements. *)
Inductive spec_step : op → list loc → res → list loc → Prop :=
  | step_push_front e xs : spec_step (Push_front e) xs RUnit (e :: xs)
  | step_push_back e xs : spec_step (Push_back e) xs RUnit (xs ++ [e])
  | step_insert_before b e xs ys :
      spec_step (Insert_before b e) (xs ++ b :: ys) RUnit (xs ++ e :: b :: ys)
  | step_insert_ordered e xs :
      spec_step (Insert_ordered e) xs RUnit (insert_ordered less e xs)
  | step_remove e xs ys :
      spec_step (Remove e) (xs ++ e :: ys) (RElem (cursor l ys)) (xs ++ ys)
  | step_pop_front x xs : spec_step Pop_front (x :: xs) (RElem x) xs
  | step_pop_back x xs : spec_step Pop_back (xs ++ [x]) (RElem x) xs
  | step_front x xs : spec_step Front (x :: xs) (RElem x) (x :: xs)
  | step_back x xs : spec_step Back (xs ++ [x]) (RElem x) (xs ++ [x])
  | step_size xs : spec_step Size xs (RSize (u32 (Z.of_nat (length xs)))) xs
  | step_empty xs : spec_step Empty xs (RBool (bool_decide (xs = []))) xs
  | step_reverse xs : spec_step Reverse xs RUnit (reverse xs)
  | step_sort xs ys : ys ≡ₚ xs → Sorted (R less) ys → spec_step Sort xs RUnit ys
  | step_max x xs : spec_step Max (x :: xs) (RElem (max_from less x xs)) (x :: xs)
  | step_min x xs : spec_step Min (x :: xs) (RElem (min_from less x xs)) (x :: xs).

(** When a caller may perform an operation: a new element is an allocated
    [struct list_elem] that is not in the list; a removed or successor element
    is in it; [list_pop_front] and the like need a nonempty list. *)
Definition enabled (D : gset loc) (xs : list loc) (o : op) : Prop :=
  match o with
  | Push_front e | Push_back e | Insert_ordered e =>
      e ≠ NULL ∧ e ∈ D ∧ e ∉ nodes l xs
  | Insert_before b e => b ∈ xs ∧ e ≠ NULL ∧ e ∈ D ∧ e ∉ nodes l xs
  | Remove e => e ∈ xs
  | Pop_front | Pop_back | Front | Back | Max | Min => xs ≠ []
  | Sort => (Z.of_nat (length xs) < 2 ^ 32)%Z
  | Size | Empty | Reverse => True
  end.

Inductive spec_steps : list op → list loc → list res → list loc → Prop :=
  | steps_nil xs : spec_steps [] xs [] xs
  | steps_cons o os xs r ys rs zs :
      spec_step o xs r ys → spec_steps os ys rs zs → spec_steps (o :: os) xs (r :: rs) zs.
Fixpoint enabled_all (D : gset loc) (xs : list loc) (os : list op) : Prop :=
  match os with
  | [] => True
  | o :: os => enabled D xs o ∧ ∀ r ys, spec_step o xs r ys → enabled_all D ys os
  end.

#[local] Hint Constructors spec_step : core.
Lemma exec_op_refines (less_asym : ∀ a b, less a b = true → less b a = false) h xs o :
  list_repr h l xs → enabled (dom h) xs o →
  ∃ r ys h', exec_op o h = Ret (r, h') ∧ spec_step o xs r ys ∧ list_repr h' l ys ∧
    dom h' = dom h.
Proof.
  intros Hr He. destruct o; simpl in He; unfold exec_op;
    repeat match goal with H : _ ∧ _ |- _ => destruct H end;
    repeat match goal with H : _ ∈ dom h |- _ => apply elem_of_dom in H end.
  - destruct (list_push_front_repr h l xs Hr e) as (h' & E & ? & Hd & _); [done..|]. mrun E. eauto 8.
  - destruct (list_push_back_repr h l xs Hr e) as (h' & E & ? & Hd & _); [done..|]. mrun E. eauto 8.
  - apply list_elem_of_split in H as (A & B & ->).
    destruct (list_insert_repr h l A (b :: B) e) as (h' & E & ? & Hd & _); [done..|].
    mrun E. eauto 8.
  - destruct (list_insert_ordered_repr less h l xs e) as (h' & E & ? & Hd & _); [done..|].
    mrun E. eauto 8.
  - apply list_elem_of_split in He as (A & B & ->).
    destruct (list_remove_repr h l A e B) as (h' & E & ? & Hd & _); [done..|]. mrun E. eauto 8.
  - destruct xs as [|x xs]; [done|].
    destruct (list_pop_front_repr h l x xs) as (h' & E & ? & Hd & _); [done..|]. mrun E. eauto 8.
  - destruct xs as [|x xs _] using rev_ind; [done|].
    destruct (list_pop_back_repr h l xs x) as (h' & E & ? & Hd & _); [done..|]. mrun E. eauto 8.
  - destruct xs as [|x xs]; [done|]. mrun (list_front_repr h l x xs Hr). eauto 8.
  - destruct xs as [|x xs _] using rev_ind; [done|]. mrun (list_back_repr h l xs x Hr). eauto 8.
  - mrun (list_size_repr h l xs Hr). eauto 8.
  - mrun (list_empty_repr h l xs Hr). eauto 8.
  - destruct (list_reverse_repr h l xs Hr) as (h' & E & ? & Hd & _). mrun E. eauto 8.
  - destruct (list_sort_repr less less_asym h l xs Hr He) as (ys & h' & E & ? & ? & ? & Hd & _).
    mrun E. eauto 8.
  - destruct xs as [|x xs]; [done|]. mrun (list_max_repr less h l _ Hr). eauto 8.
  - destruct xs as [|x xs]; [done|]. mrun (list_min_repr less h l _ Hr). eauto 8.
Qed.
End spec.

(** C2. The list module refines its contract: from any heap that represents a
    sequence, any sequence of operations whose preconditions hold returns
    (no assertion fails, no loop diverges), and the results and the final
    sequence are ones the abstract specification allows. *)
Theorem list_refinement less l (less_asym : ∀ a b, less a b = true → less b a = false) h xs os :
  list_repr h l xs → enabled_all less l (dom h) xs os →
  ∃ rs ys h', exec_ops less l os h = Ret (rs, h') ∧ spec_steps less l os xs rs ys ∧
    list_repr h' l ys ∧ dom h' = dom h.
Proof.
  revert h xs. induction os as [|o os IH]; intros h xs Hr He.
  - exists [], xs, h. split_and!; [done|constructor|done..].
  - destruct He as [He Hall].
    destruct (exec_op_refines less l less_asym h xs o Hr He) as (r & ys & h1 & E & Hs & Hr1 & Hd).
    destruct (IH h1 ys Hr1) as (rs & zs & h' & E' & Hs' & Hr' & Hd'); [rewrite Hd; by eapply Hall|].
    exists (r :: rs), zs, h'. split_and!; [|by econstructor|done|congruence].
    simpl. mrun E. by mrun E'.
Qed.

(** A heap with two lists at 1 and 100: [[48; 16; 32; 64]] and [[]]; the
    element at 80 is in neither. *)
Definition demo_heap : heap :=
  match (run list_init 1; run list_init 100;
         run list_push_back 1 48; run list_push_back 1 16;
         run list_push_back 1 32; list_push_back 1 64)
        (list_to_map ((λ a, (a, ListElem 0 0)) <$> [1; 9; 100; 108; 16; 32; 48; 64; 80])) with
  | Ret (_, h) => h
  | _ => ∅
  end.
Lemma demo_repr : list_repr demo_heap 1 [48; 16; 32; 64].
Proof.
  split; [by apply (bool_decide_unpack _); vm_compute|].
  repeat split; try done; by vm_compute.
Qed.
Lemma demo_dup_repr : list_repr demo_heap 100 [].
Proof.
  split; [by apply (bool_decide_unpack _); vm_compute|].
  repeat split; try done; by vm_compute.
Qed.
Lemma ltb_asym a b : (a <? b) = true → (b <? a) = false.
Proof. rewrite N.ltb_lt, N.ltb_ge. lia. Qed.

Lemma list_refinement_witness :
  ∃ rs ys h', exec_ops N.ltb 1 [Push_back 80; Sort; Pop_front; Reverse; Size] demo_heap = Ret (rs, h') ∧
    spec_steps N.ltb 1 [Push_back 80; Sort; Pop_front; Reverse; Size] [48; 16; 32; 64] rs ys ∧
    list_repr h' 1 ys ∧ dom h' = dom demo_heap.
Proof.
  apply list_refinement; [apply ltb_asym|apply demo_repr|].
  split; [split_and!; [done|by apply (bool_decide_unpack _); vm_compute..]|].
  intros r ys H1. inversion H1; subst. split; [done|].
  intros r ys H2. inversion H2 as [| | | | | | | | | | | |? ? Hp Hs| |]; subst.
  split; [by intros ->; apply Permutation_nil in Hp|done].
Defined.

(** C1. [list_sort] terminates, passes its assertions and leaves the list an
    ordered permutation of its elements, touching no other memory, when LESS
    is a strict weak order and the list has fewer than 2^32 elements. *)
Theorem list_sort_sorts less
    (less_asym : ∀ a b, less a b = true → less b a = false)
    (less_trans : ∀ a b c, less b a = false → less c b = false → less c a = false) h l xs :
  list_repr h l xs → (Z.of_nat (length xs) < 2 ^ 32)%Z →
  ∃ ys h', list_sort less l h = Ret (tt, h') ∧ list_repr h' l ys ∧ ys ≡ₚ xs ∧
    StronglySorted (λ a b, less b a = false) ys ∧ frame (nodes l xs) h h'.
Proof.
  intros Hr H32.
  destruct (list_sort_repr less less_asym h l xs Hr H32) as (ys & h' & E & Hr' & Hp & HS & F).
  exists ys, h'. split_and!; try done. apply Sorted_StronglySorted; [|done].
  intros a b c. unfold R. apply less_trans.
Qed.
Lemma list_sort_sorts_witness :
  ∃ ys h', list_sort N.ltb 1 demo_heap = Ret (tt, h') ∧ list_repr h' 1 ys ∧ ys ≡ₚ [48; 16; 32; 64] ∧
    StronglySorted (λ a b, (b <? a) = false) ys ∧ frame (nodes 1 [48; 16; 32; 64]) demo_heap h'.
Proof.
  apply list_sort_sorts; [apply ltb_asym| |apply demo_repr|vm_compute; done].
  intros a b c. rewrite !N.ltb_ge. lia.
Defined.

(** [list_splice] moves the segment FIRST..LAST of a list in front of
    BEFORE, keeping the order inside the segment and the rest of the list. *)
Theorem list_splice_moves h l A N S B :
  N ≠ [] → S ≠ [] → list_repr h l (A ++ N ++ S ++ B) →
  ∃ h', list_splice (cursor l (N ++ S ++ B)) (cursor l (S ++ B)) (cursor l B) h = Ret (tt, h') ∧
    list_repr h' l (A ++ S ++ N ++ B) ∧ frame (nodes l (A ++ N ++ S ++ B)) h h'.
Proof. apply list_splice_repr. Qed.
Lemma list_splice_moves_witness :
  ∃ h', list_splice 48 32 9 demo_heap = Ret (tt, h') ∧
    list_repr h' 1 [32; 64; 48; 16] ∧ frame (nodes 1 [48; 16; 32; 64]) demo_heap h'.
Proof. apply (list_splice_moves demo_heap 1 [] [48; 16] [32; 64] []); [done..|apply demo_repr]. Defined.

(** [list_unique] keeps the first element of every group of adjacent equal
    elements and appends the others, in order, to DUPLICATES; no two adjacent
    elements of what it keeps are equal, and nothing is lost. *)
Theorem list_unique_removes less h l x xs dup ds :
  list_repr h l (x :: xs) → list_repr h dup ds →
  (∀ y, y ∈ nodes l (x :: xs) → y ∉ nodes dup ds) →
  ∃ h' ys zs, list_unique less l dup h = Ret (tt, h') ∧
    list_repr h' l (x :: ys) ∧ list_repr h' dup (ds ++ zs) ∧
    ys ++ zs ≡ₚ xs ∧ Sorted (λ a b, less a b || less b a = true) (x :: ys) ∧
    frame (nodes l (x :: xs) ++ nodes dup ds) h h'.
Proof.
  intros Hr Hd Hdisj. destruct (list_unique_repr less h l x xs dup ds) as (h' & E & H1 & H2 & F); [done..|].
  exists h', (unique_from less x xs).1, (unique_from less x xs).2.
  split_and!; try done; [apply unique_from_perm|apply unique_from_sorted].
Qed.
Lemma list_unique_removes_witness :
  ∃ h' ys zs, list_unique (λ a b, a / 32 <? b / 32) 1 100 demo_heap = Ret (tt, h') ∧
    list_repr h' 1 (48 :: ys) ∧ list_repr h' 100 ([] ++ zs) ∧ ys ++ zs ≡ₚ [16; 32; 64] ∧
    Sorted (λ a b, (a / 32 <? b / 32) || (b / 32 <? a / 32) = true) (48 :: ys) ∧
    frame (nodes 1 [48; 16; 32; 64] ++ nodes 100 []) demo_heap h'.
Proof.
  apply list_unique_removes; [apply demo_repr|apply demo_dup_repr|].
  apply Forall_forall. repeat (constructor; [by apply (bool_decide_unpack _); vm_compute|]).
  constructor.
Defined.
