(* ===== verification/Bitmap.v ===== *)
(** * lib/kernel/bitmap.c

    A bitmap is a bit count and an array of 32-bit elements.  The definitions
    follow bitmap.c function by function; [bit] reads one bit of the array and
    is what the specifications talk about. *)

From stdpp Require Import base numbers list.
From S2P Require Import Prelude.
Local Open Scope Z_scope.

(** ** Definitions *)
Definition ELEM_BITS : Z := 32.
Definition BITMAP_ERROR : Z := 2 ^ 32 - 1.

Record bitmap := Bitmap { bit_cnt : Z; bits : list Z }.

Definition elem_idx (bit_idx : Z) : Z := bit_idx / ELEM_BITS.
Definition bit_mask (bit_idx : Z) : Z := u32 (Z.shiftl 1 (bit_idx `mod` ELEM_BITS)).
Definition elem_cnt (cnt : Z) : Z := u32 (u32 (cnt + ELEM_BITS) - 1) / ELEM_BITS.
Definition byte_cnt (cnt : Z) : Z := u32 (4 * elem_cnt cnt).
Definition last_mask (b : bitmap) : Z :=
  let last_bits := bit_cnt b `mod` ELEM_BITS in
  if last_bits =? 0 then u32 (-1) else u32 (u32 (Z.shiftl 1 last_bits) - 1).

(** [b->bits[idx]], read and written; an index outside the array is a bad
    access. *)
Definition get_elem (b : bitmap) (idx : Z) : outcome Z :=
  match bits b !! Z.to_nat idx with Some w => Ret w | None => Panic end.
Definition set_elem (b : bitmap) (idx : Z) (w : Z) : bitmap :=
  Bitmap (bit_cnt b) (<[Z.to_nat idx := w]> (bits b)).

Definition bitmap_buf_size (cnt : Z) : Z := u32 (8 + byte_cnt cnt).
Definition bitmap_size (b : bitmap) : Z := bit_cnt b.

Definition bitmap_mark (b : bitmap) (bit_idx : Z) : outcome bitmap :=
  let idx := elem_idx bit_idx in
  let mask := bit_mask bit_idx in
  try w <- get_elem b idx; Ret (set_elem b idx (Z.lor w mask)).
Definition bitmap_reset (b : bitmap) (bit_idx : Z) : outcome bitmap :=
  let idx := elem_idx bit_idx in
  let mask := bit_mask bit_idx in
  try w <- get_elem b idx; Ret (set_elem b idx (Z.land w (u32 (Z.lnot mask)))).
Definition bitmap_flip (b : bitmap) (bit_idx : Z) : outcome bitmap :=
  let idx := elem_idx bit_idx in
  let mask := bit_mask bit_idx in
  try w <- get_elem b idx; Ret (set_elem b idx (Z.lxor w mask)).
Definition bitmap_set (b : bitmap) (idx : Z) (value : bool) : outcome bitmap :=
  check idx <? bit_cnt b;
  if value then bitmap_mark b idx else bitmap_reset b idx.
Definition bitmap_test (b : bitmap) (idx : Z) : outcome bool :=
  check idx <? bit_cnt b;
  try w <- get_elem b (elem_idx idx);
  Ret (negb (Z.land w (bit_mask idx) =? 0)).

(** The [for (i = 0; i < cnt; i++)] loops; [n] is [cnt - i]. *)
Fixpoint bitmap_set_multiple_loop (n : nat) (b : bitmap) (start i : Z) (value : bool) :
    outcome bitmap :=
  match n with
  | O => Ret b
  | S n =>
      try b <- bitmap_set b (u32 (start + i)) value;
      bitmap_set_multiple_loop n b start (i + 1) value
  end.
Definition bitmap_set_multiple (b : bitmap) (start cnt : Z) (value : bool) : outcome bitmap :=
  check start <=? bit_cnt b;
  check u32 (start + cnt) <=? bit_cnt b;
  bitmap_set_multiple_loop (Z.to_nat cnt) b start 0 value.
Definition bitmap_set_all (b : bitmap) (value : bool) : outcome bitmap :=
  bitmap_set_multiple b 0 (bitmap_size b) value.

Fixpoint bitmap_count_loop (n : nat) (b : bitmap) (start i : Z) (value : bool) (value_cnt : Z) :
    outcome Z :=
  match n with
  | O => Ret value_cnt
  | S n =>
      try t <- bitmap_test b (u32 (start + i));
      bitmap_count_loop n b start (i + 1) value
        (if Bool.eqb t value then u32 (value_cnt + 1) else value_cnt)
  end.
Definition bitmap_count (b : bitmap) (start cnt : Z) (value : bool) : outcome Z :=
  check start <=? bit_cnt b;
  check u32 (start + cnt) <=? bit_cnt b;
  bitmap_count_loop (Z.to_nat cnt) b start 0 value 0.

Fixpoint bitmap_contains_loop (n : nat) (b : bitmap) (start i : Z) (value : bool) : outcome bool :=
  match n with
  | O => Ret false
  | S n =>
      try t <- bitmap_test b (u32 (start + i));
      if Bool.eqb t value then Ret true else bitmap_contains_loop n b start (i + 1) value
  end.
Definition bitmap_contains (b : bitmap) (start cnt : Z) (value : bool) : outcome bool :=
  check start <=? bit_cnt b;
  check u32 (start + cnt) <=? bit_cnt b;
  bitmap_contains_loop (Z.to_nat cnt) b start 0 value.
Definition bitmap_any (b : bitmap) (start cnt : Z) : outcome bool :=
  bitmap_contains b start cnt true.
Definition bitmap_none (b : bitmap) (start cnt : Z) : outcome bool :=
  try c <- bitmap_contains b start cnt true; Ret (negb c).
Definition bitmap_all (b : bitmap) (start cnt : Z) : outcome bool :=
  try c <- bitmap_contains b start cnt false; Ret (negb c).

(** [for (i = start; i <= last; i++)]; [n] is [last + 1 - i]. *)
Fixpoint bitmap_scan_loop (n : nat) (b : bitmap) (i cnt : Z) (value : bool) : outcome Z :=
  match n with
  | O => Ret BITMAP_ERROR
  | S n =>
      try c <- bitmap_contains b i cnt (negb value);
      if negb c then Ret i else bitmap_scan_loop n b (i + 1) cnt value
  end.
Definition bitmap_scan (b : bitmap) (start cnt : Z) (value : bool) : outcome Z :=
  check start <=? bit_cnt b;
  if cnt <=? bit_cnt b then
    let last := bit_cnt b - cnt in
    bitmap_scan_loop (Z.to_nat (last + 1 - start)) b start cnt value
  else Ret BITMAP_ERROR.
Definition bitmap_scan_and_flip (b : bitmap) (start cnt : Z) (value : bool) : outcome (Z * bitmap) :=
  try idx <- bitmap_scan b start cnt value;
  if negb (idx =? BITMAP_ERROR)
  then try b <- bitmap_set_multiple b idx cnt (negb value); Ret (idx, b)
  else Ret (idx, b).

(** [malloc] for the header and for the array: each may fail; the array it
    returns holds arbitrary words [junk]. *)
Definition bitmap_create (header array : bool) (junk : list Z) (cnt : Z) : outcome (option bitmap) :=
  if header then
    if array || (cnt =? 0) then
      try b <- bitmap_set_all (Bitmap cnt (if array then junk else [])) false; Ret (Some b)
    else Ret None
  else Ret None.
(** [block] is the storage after the header, [block_size] bytes in all. *)
Definition bitmap_create_in_buf (cnt : Z) (block : list Z) (block_size : Z) : outcome bitmap :=
  check bitmap_buf_size cnt <=? block_size;
  bitmap_set_all (Bitmap cnt block) false.

Definition bitmap_file_size (b : bitmap) : Z := byte_cnt (bit_cnt b).

(** ** Invariant and abstraction *)
Definition word (w : Z) : Prop := 0 ≤ w < 2 ^ 32.
Record bitmap_wf (b : bitmap) : Prop := {
  wf_cnt : 0 ≤ bit_cnt b ≤ 2 ^ 32 - ELEM_BITS;
  wf_len : Z.of_nat (length (bits b)) = elem_cnt (bit_cnt b);
  wf_words : Forall word (bits b) }.
Definition bit (b : bitmap) (i : Z) : bool :=
  Z.testbit (nth (Z.to_nat (elem_idx i)) (bits b) 0) (i `mod` ELEM_BITS).
Definition all_bits (b : bitmap) (start cnt : Z) (v : bool) : Prop :=
  ∀ i, start ≤ i < start + cnt → bit b i = v.

(** ** Single bits *)
Lemma elem_cnt_exact cnt :
  0 ≤ cnt ≤ 2 ^ 32 - ELEM_BITS → elem_cnt cnt = (cnt + 31) / 32.
Proof.
  unfold elem_cnt, ELEM_BITS. intros H. destruct (decide (cnt = 2 ^ 32 - 32)) as [->|]; [done|].
  rewrite (u32_small (cnt + 32)) by lia. rewrite u32_small by lia. f_equal. lia.
Qed.
Lemma bit_mask_pow i : bit_mask i = 2 ^ (i `mod` ELEM_BITS).
Proof.
  unfold bit_mask, ELEM_BITS. pose proof (Z.mod_pos_bound i 32).
  rewrite Z.shiftl_1_l. apply u32_small. split; [lia|]. apply Z.pow_lt_mono_r; lia.
Qed.
Lemma bit_mask_spec i k : 0 ≤ k → Z.testbit (bit_mask i) k = (k =? i `mod` ELEM_BITS).
Proof.
  intros Hk. rewrite bit_mask_pow. pose proof (Z.mod_pos_bound i ELEM_BITS).
  rewrite Z.pow2_bits_eqb by (unfold ELEM_BITS in *; lia). apply Z.eqb_sym.
Qed.
Lemma nmask_spec i k :
  0 ≤ k < ELEM_BITS → Z.testbit (u32 (Z.lnot (bit_mask i))) k = negb (k =? i `mod` ELEM_BITS).
Proof.
  intros Hk. unfold u32, ELEM_BITS in *. rewrite Z.mod_pow2_bits_low by lia.
  rewrite Z.lnot_spec by lia. by rewrite bit_mask_spec by lia.
Qed.
Lemma land_mask w i : negb (Z.land w (bit_mask i) =? 0) = Z.testbit w (i `mod` ELEM_BITS).
Proof.
  pose proof (Z.mod_pos_bound i ELEM_BITS ltac:(done)) as Hm.
  destruct (Z.testbit w (i `mod` ELEM_BITS)) eqn:E.
  - apply negb_true_iff, Z.eqb_neq. intros H%(f_equal (λ z, Z.testbit z (i `mod` ELEM_BITS))).
    rewrite Z.land_spec, E, bit_mask_spec, Z.eqb_refl, Z.bits_0 in H by lia. done.
  - apply negb_false_iff, Z.eqb_eq. apply Z.bits_inj'. intros k Hk.
    rewrite Z.land_spec, bit_mask_spec, Z.bits_0 by done.
    destruct (Z.eqb_spec k (i `mod` ELEM_BITS)) as [->|]; [by rewrite E|apply andb_false_r].
Qed.

Lemma word_testbit w : word w ↔ 0 ≤ w ∧ ∀ k, ELEM_BITS ≤ k → Z.testbit w k = false.
Proof.
  unfold word, ELEM_BITS. split.
  - intros [H0 H1]. split; [done|]. intros k Hk. rewrite <-(Z.mod_small w (2 ^ 32)) by done.
    by apply Z.mod_pow2_bits_high.
  - intros [H0 Hb]. split; [done|].
    enough (w = w `mod` 2 ^ 32) as -> by (apply Z.mod_pos_bound; lia).
    apply Z.bits_inj'. intros k Hk. destruct (decide (k < 32)).
    + by rewrite Z.mod_pow2_bits_low.
    + rewrite Z.mod_pow2_bits_high by lia. apply Hb. lia.
Qed.
Lemma word_mask i : word (bit_mask i).
Proof. apply u32_range. Qed.
Lemma word_lor v w : word v → word w → word (Z.lor v w).
Proof.
  rewrite !word_testbit. intros [? Hv] [? Hw]. split; [by apply Z.lor_nonneg|].
  intros k Hk. by rewrite Z.lor_spec, Hv, Hw.
Qed.
Lemma word_land v w : word v → word w → word (Z.land v w).
Proof.
  rewrite !word_testbit. intros [? Hv] [? Hw]. split; [apply Z.land_nonneg; by left|].
  intros k Hk. by rewrite Z.land_spec, Hv, Hw.
Qed.
Lemma word_lxor v w : word v → word w → word (Z.lxor v w).
Proof.
  rewrite !word_testbit. intros [? Hv] [? Hw]. split; [by apply Z.lxor_nonneg|].
  intros k Hk. by rewrite Z.lxor_spec, Hv, Hw.
Qed.
Lemma word_u32 z : word (u32 z).
Proof. apply u32_range. Qed.
#[local] Hint Resolve word_u32 word_mask word_lor word_land word_lxor : pintos.

Section wf.
  Context (b : bitmap) (Hwf : bitmap_wf b).

Lemma elem_in_range i : 0 ≤ i < bit_cnt b → (Z.to_nat (elem_idx i) < length (bits b))%nat.
Proof.
  destruct Hwf as [Hc Hl _]. rewrite elem_cnt_exact in Hl by done. intros Hi.
  unfold elem_idx, ELEM_BITS. apply Nat2Z.inj_lt. rewrite Z2Nat.id by (apply Z.div_pos; lia).
  rewrite Hl. apply Z.div_lt_upper_bound; [lia|].
  pose proof (Z.mod_pos_bound (bit_cnt b + 31) 32). pose proof (Z.div_mod (bit_cnt b + 31) 32). lia.
Qed.
Lemma get_elem_Ret i :
  0 ≤ i < bit_cnt b →
  ∃ w, get_elem b (elem_idx i) = Ret w ∧ word w ∧ bit b i = Z.testbit w (i `mod` ELEM_BITS).
Proof.
  intros Hi. destruct (lookup_lt_is_Some_2 (bits b) _ (elem_in_range i Hi)) as [w Hw].
  exists w. unfold get_elem, bit. rewrite Hw. split_and!; [done| |by erewrite nth_lookup_Some].
  eapply Forall_lookup_1; [apply Hwf|done].
Qed.
Lemma set_elem_wf i w : word w → bitmap_wf (set_elem b (elem_idx i) w).
Proof.
  intros Hw. destruct Hwf as [Hc Hl Hb]. split; simpl; [done|by rewrite length_insert|].
  by apply Forall_insert.
Qed.
(** Changing element [elem_idx i] by a function that acts on bit [i] only. *)
Lemma set_elem_bit i w v :
  0 ≤ i < bit_cnt b → get_elem b (elem_idx i) = Ret v →
  (∀ k, 0 ≤ k < ELEM_BITS → k ≠ i `mod` ELEM_BITS → Z.testbit w k = Z.testbit v k) →
  ∀ j, 0 ≤ j → bit (set_elem b (elem_idx i) w) j =
    if j =? i then Z.testbit w (i `mod` ELEM_BITS) else bit b j.
Proof.
  intros Hi Hg Hk j Hj. pose proof (elem_in_range i Hi) as Hr.
  unfold get_elem in Hg. destruct (bits b !! _) as [v'|] eqn:Ev; [injection Hg as ->|done].
  unfold bit, set_elem. simpl.
  destruct (decide (Z.to_nat (elem_idx j) = Z.to_nat (elem_idx i))) as [E|E].
  - rewrite E, (nth_lookup_Some (<[_:=_]> _) _ _ w) by (by apply list_lookup_insert_eq).
    rewrite (nth_lookup_Some (bits b) _ _ v) by done.
    destruct (Z.eqb_spec j i) as [->|Hne]; [done|]. apply Hk; [by apply Z.mod_pos_bound|].
    unfold elem_idx, ELEM_BITS in *. intros Em. apply Hne.
    apply Z2Nat.inj in E; [|apply Z.div_pos; lia..].
    pose proof (Z.div_mod j 32). pose proof (Z.div_mod i 32). lia.
  - destruct (Z.eqb_spec j i) as [->|Hne]; [done|].
    by rewrite !nth_lookup, list_lookup_insert_ne by done.
Qed.

(** [b'] is [b] with bit [i] changed to [v]. *)
Definition updates (i : Z) (v : bool) (b' : bitmap) : Prop :=
  bitmap_wf b' ∧ bit_cnt b' = bit_cnt b ∧ ∀ j, 0 ≤ j → bit b' j = if j =? i then v else bit b j.

Ltac single i :=
  intros Hi; destruct (get_elem_Ret i Hi) as (w & Eg & Hw & Hb); rewrite Eg; simpl obind;
  eexists; split_and!; [done|apply set_elem_wf; eauto with pintos|done|];
  intros j Hj; pose proof (Z.mod_pos_bound i ELEM_BITS ltac:(done));
  erewrite (set_elem_bit i _ w Hi Eg); [destruct (j =? i); [|done]| |done].

Lemma bitmap_mark_spec i :
  0 ≤ i < bit_cnt b → ∃ b', bitmap_mark b i = Ret b' ∧ updates i true b'.
Proof.
  unfold bitmap_mark, updates. single i.
  - by rewrite Z.lor_spec, bit_mask_spec, Z.eqb_refl, orb_true_r by lia.
  - intros k Hk Hne. rewrite Z.lor_spec, bit_mask_spec by lia.
    by rewrite (proj2 (Z.eqb_neq k _)), orb_false_r.
Qed.
Lemma bitmap_reset_spec i :
  0 ≤ i < bit_cnt b → ∃ b', bitmap_reset b i = Ret b' ∧ updates i false b'.
Proof.
  unfold bitmap_reset, updates. single i.
  - by rewrite Z.land_spec, nmask_spec, Z.eqb_refl, andb_false_r by lia.
  - intros k Hk Hne. rewrite Z.land_spec, nmask_spec by lia.
    by rewrite (proj2 (Z.eqb_neq k _)), andb_true_r.
Qed.
Lemma bitmap_flip_spec i :
  0 ≤ i < bit_cnt b → ∃ b', bitmap_flip b i = Ret b' ∧ updates i (negb (bit b i)) b'.
Proof.
  unfold bitmap_flip, updates. single i.
  - by rewrite Z.lxor_spec, bit_mask_spec, Z.eqb_refl, Hb, xorb_true_r by lia.
  - intros k Hk Hne. rewrite Z.lxor_spec, bit_mask_spec by lia.
    by rewrite (proj2 (Z.eqb_neq k _)), xorb_false_r.
Qed.
Lemma bitmap_set_spec i v :
  0 ≤ i < bit_cnt b → ∃ b', bitmap_set b i v = Ret b' ∧ updates i v b'.
Proof.
  intros Hi. unfold bitmap_set. rewrite (proj2 (Z.ltb_lt _ _)) by lia. simpl.
  destruct v; [by apply bitmap_mark_spec|by apply bitmap_reset_spec].
Qed.
Lemma bitmap_test_spec i : 0 ≤ i < bit_cnt b → bitmap_test b i = Ret (bit b i).
Proof.
  intros Hi. unfold bitmap_test. rewrite (proj2 (Z.ltb_lt _ _)) by lia. simpl.
  destruct (get_elem_Ret i Hi) as (w & Eg & Hw & Hb). rewrite Eg. simpl. by rewrite land_mask, Hb.
Qed.
End wf.

(** ** Ranges of bits *)
(** [b'] is [b] with the bits in [[start, start + cnt)] changed to [v]. *)
Definition updates_range (b : bitmap) (start cnt : Z) (v : bool) (b' : bitmap) : Prop :=
  bitmap_wf b' ∧ bit_cnt b' = bit_cnt b ∧
  ∀ j, 0 ≤ j → bit b' j = if (start <=? j) && (j <? start + cnt) then v else bit b j.

Lemma bitmap_set_multiple_loop_spec n b start i v :
  bitmap_wf b → 0 ≤ start → 0 ≤ i → start + i + Z.of_nat n ≤ bit_cnt b →
  ∃ b', bitmap_set_multiple_loop n b start i v = Ret b' ∧ updates_range b (start + i) (Z.of_nat n) v b'.
Proof.
  unfold updates_range.
  revert b i. induction n as [|n IH]; intros b i Hwf Hs Hi Hn; simpl.
  - exists b. split_and!; try done. intros j Hj.
    zcases.
  - pose proof (wf_cnt b Hwf) as Hc. rewrite u32_small by (unfold ELEM_BITS in *; lia).
    destruct (bitmap_set_spec b Hwf (start + i) v) as (b1 & E & Hwf1 & Hc1 & Hb1); [lia|].
    rewrite E. simpl.
    destruct (IH b1 (i + 1)) as (b' & E' & Hwf' & Hc' & Hb'); [done|lia..|].
    exists b'. split_and!; [done..|congruence|]. intros j Hj. rewrite Hb', Hb1 by done.
    zcases.
Qed.

Section ranges.
  Context (b : bitmap) (Hwf : bitmap_wf b) (start cnt : Z).
  Hypothesis Hrange : 0 ≤ start ∧ 0 ≤ cnt ∧ start + cnt ≤ bit_cnt b.

Lemma range_checks :
  (start <=? bit_cnt b) = true ∧ (u32 (start + cnt) <=? bit_cnt b) = true.
Proof.
  pose proof (wf_cnt b Hwf). unfold ELEM_BITS in *. rewrite u32_small by lia.
  split; apply Z.leb_le; lia.
Qed.
Lemma bitmap_set_multiple_spec v :
  ∃ b', bitmap_set_multiple b start cnt v = Ret b' ∧ updates_range b start cnt v b'.
Proof.
  unfold bitmap_set_multiple. destruct range_checks as [-> ->]. simpl.
  destruct (bitmap_set_multiple_loop_spec (Z.to_nat cnt) b start 0 v) as (b' & E & H); [done|lia..|].
  rewrite Z.add_0_r, Z2Nat.id in H by lia. eauto.
Qed.

Lemma bitmap_contains_loop_spec n i v :
  0 ≤ i → i + Z.of_nat n ≤ cnt →
  ∃ c, bitmap_contains_loop n b start i v = Ret c ∧
    (c = false ↔ all_bits b (start + i) (Z.of_nat n) (negb v)).
Proof.
  revert i. induction n as [|n IH]; intros i Hi Hn; simpl.
  - exists false. split_and!; [done|]. split; [|done]. intros _ j. lia.
  - pose proof (wf_cnt b Hwf) as Hc. rewrite u32_small by (unfold ELEM_BITS in *; lia).
    rewrite (bitmap_test_spec b Hwf) by lia. simpl.
    destruct (Bool.eqb (bit b (start + i)) v) eqn:Ev.
    + exists true. split_and!; [done|]. split; [done|]. intros Ha.
      rewrite Ha in Ev by lia. by destruct v.
    + destruct (IH (i + 1)) as (c & E & Hc'); [lia..|]. exists c. split_and!; [done|].
      rewrite Hc'. split; intros Ha j Hj; [|apply Ha; lia].
      destruct (decide (j = start + i)) as [->|]; [|apply Ha; lia].
      by destruct (bit b (start + i)), v.
Qed.
(** Whether some bit of the range is [v]. *)
Lemma bitmap_contains_spec v :
  ∃ c, bitmap_contains b start cnt v = Ret c ∧ (c = false ↔ all_bits b start cnt (negb v)).
Proof.
  unfold bitmap_contains. destruct range_checks as [-> ->]. simpl.
  destruct (bitmap_contains_loop_spec (Z.to_nat cnt) 0 v) as (c & E & H); [lia..|].
  rewrite Z.add_0_r, Z2Nat.id in H by lia. eauto.
Qed.

(** Reference definition: the number of bits of the range equal to [v]. *)
Definition count_bits (s : Z) (n : nat) (v : bool) : Z :=
  Z.of_nat (length (filter (λ i, bit b i = v) (seqZ s (Z.of_nat n)))).
Lemma count_bits_S s n v :
  count_bits s (S n) v = (if Bool.eqb (bit b s) v then 1 else 0) + count_bits (s + 1) n v.
Proof.
  unfold count_bits. rewrite seqZ_cons by lia.
  replace (Z.pred (Z.of_nat (S n))) with (Z.of_nat n) by lia. rewrite <-Z.add_1_r, filter_cons.
  destruct (decide (bit b s = v)) as [->|Hne].
  - rewrite eqb_reflx. simpl length. lia.
  - rewrite (proj2 (eqb_false_iff _ _)) by done. lia.
Qed.
Lemma count_bits_le s n v : 0 ≤ count_bits s n v ≤ Z.of_nat n.
Proof.
  unfold count_bits. pose proof (length_filter (λ i, bit b i = v) (seqZ s (Z.of_nat n))) as H.
  rewrite length_seqZ in H. lia.
Qed.
Lemma bitmap_count_loop_spec n i v k :
  0 ≤ i → i + Z.of_nat n ≤ cnt → 0 ≤ k ≤ i →
  bitmap_count_loop n b start i v k = Ret (k + count_bits (start + i) n v).
Proof.
  revert i k. induction n as [|n IH]; intros i k Hi Hn Hk; simpl.
  - unfold count_bits. simpl. by rewrite Z.add_0_r.
  - pose proof (wf_cnt b Hwf) as Hc. rewrite u32_small by (unfold ELEM_BITS in *; lia).
    rewrite (bitmap_test_spec b Hwf) by lia. simpl. rewrite count_bits_S.
    rewrite (u32_small (k + 1)) by (unfold ELEM_BITS in *; lia).
    destruct (Bool.eqb (bit b (start + i)) v); rewrite IH by lia; f_equal;
      rewrite (Z.add_assoc start i 1); lia.
Qed.
Lemma bitmap_count_spec v :
  bitmap_count b start cnt v = Ret (count_bits start (Z.to_nat cnt) v).
Proof.
  unfold bitmap_count. destruct range_checks as [-> ->]. simpl.
  rewrite bitmap_count_loop_spec by lia. by rewrite Z.add_0_r.
Qed.
End ranges.

(** ** Scanning *)
(** [r] is the least index at or after [start] of [cnt] bits equal to [v], or
    [BITMAP_ERROR] when there is none. *)
Definition scan_result (b : bitmap) (start cnt : Z) (v : bool) (r : Z) : Prop :=
  (start ≤ r ∧ r + cnt ≤ bit_cnt b ∧ all_bits b r cnt v ∧
   ∀ j, start ≤ j < r → ¬ all_bits b j cnt v) ∨
  (r = BITMAP_ERROR ∧ ∀ j, start ≤ j → j + cnt ≤ bit_cnt b → ¬ all_bits b j cnt v).

Lemma bitmap_scan_loop_spec b n s i cnt v :
  bitmap_wf b → 0 ≤ s ≤ i → 0 ≤ cnt → ((0 < n)%nat → i + Z.of_nat n = bit_cnt b - cnt + 1) →
  (n = O → bit_cnt b - cnt < i) → (∀ j, s ≤ j < i → ¬ all_bits b j cnt v) →
  ∃ r, bitmap_scan_loop n b i cnt v = Ret r ∧ scan_result b s cnt v r.
Proof.
  intros Hwf. revert i. induction n as [|n IH]; intros i Hs Hc Hn Hn0 Hprev; simpl.
  - exists BITMAP_ERROR. split; [done|]. right. split; [done|]. intros j Hj1 Hj2.
    apply Hprev. specialize (Hn0 eq_refl). lia.
  - destruct (bitmap_contains_spec b Hwf i cnt ltac:(lia) (negb v)) as (c & -> & Hcb). simpl.
    rewrite negb_involutive in Hcb. destruct c; simpl.
    + apply IH; [lia..|]. intros j Hj. destruct (decide (j = i)) as [->|]; [|apply Hprev; lia].
      intros Ha%Hcb. done.
    + exists i. split; [done|]. left. split_and!; [lia..|by apply Hcb|done].
Qed.
Lemma bitmap_scan_spec b start cnt v :
  bitmap_wf b → 0 ≤ start ≤ bit_cnt b → 0 ≤ cnt →
  ∃ r, bitmap_scan b start cnt v = Ret r ∧ scan_result b start cnt v r.
Proof.
  intros Hwf Hs Hc. unfold bitmap_scan. rewrite (proj2 (Z.leb_le _ _)) by lia. simpl.
  destruct (Z.leb_spec cnt (bit_cnt b)).
  - apply bitmap_scan_loop_spec; try done; lia.
  - exists BITMAP_ERROR. split; [done|]. right. split; [done|]. intros j. lia.
Qed.
Lemma scan_result_error b start cnt v r :
  bitmap_wf b → 0 ≤ cnt → scan_result b start cnt v r →
  (r =? BITMAP_ERROR) = false → start ≤ r ∧ r + cnt ≤ bit_cnt b ∧ all_bits b r cnt v.
Proof.
  intros Hwf Hc [(? & ? & ? & ?)|[-> _]] Hr; [done|]. by rewrite Z.eqb_refl in Hr.
Qed.

Lemma bitmap_scan_and_flip_spec b start cnt v :
  bitmap_wf b → 0 ≤ start ≤ bit_cnt b → 0 ≤ cnt →
  ∃ r b', bitmap_scan_and_flip b start cnt v = Ret (r, b') ∧ scan_result b start cnt v r ∧
    if r =? BITMAP_ERROR then b' = b else updates_range b r cnt (negb v) b'.
Proof.
  intros Hwf Hs Hc. unfold bitmap_scan_and_flip.
  destruct (bitmap_scan_spec b start cnt v Hwf Hs Hc) as (r & -> & Hr). simpl.
  destruct (r =? BITMAP_ERROR) eqn:Er; simpl; [by exists r, b; rewrite Er|].
  destruct (scan_result_error _ _ _ _ _ Hwf Hc Hr Er) as (? & ? & _).
  destruct (bitmap_set_multiple_spec b Hwf r cnt ltac:(lia) (negb v)) as (b' & -> & Hb').
  exists r, b'. by rewrite Er.
Qed.

(** ** Properties *)
(** C3. [bitmap_scan_and_flip] on a well-formed bitmap, for a positive CNT,
    never fails: it returns the least index at or after START of CNT consecutive
    bits equal to VALUE and complements exactly those bits, or returns
    [BITMAP_ERROR], leaving the bitmap alone, when there is no such group.  (For
    CNT 0 the code returns START, not 0 as the comment in the source has it.) *)
Theorem bitmap_scan_and_flip_first b start cnt v :
  bitmap_wf b → 0 ≤ start ≤ bit_cnt b → 0 < cnt →
  ∃ r b', bitmap_scan_and_flip b start cnt v = Ret (r, b') ∧ scan_result b start cnt v r ∧
    if r =? BITMAP_ERROR then b' = b else updates_range b r cnt (negb v) b'.
Proof. intros Hwf Hs Hc. apply bitmap_scan_and_flip_spec; [done|done|lia]. Qed.
Definition demo_bitmap : bitmap := Bitmap 40 [2 ^ 32 - 1 - 2 ^ 30; 5].
Lemma demo_bitmap_wf : bitmap_wf demo_bitmap.
Proof. split; [done|done|]. simpl. rewrite !Forall_cons, Forall_nil. unfold word. lia. Qed.
Lemma bitmap_scan_and_flip_first_witness :
  ∃ r b', bitmap_scan_and_flip demo_bitmap 0 3 false = Ret (r, b') ∧
    scan_result demo_bitmap 0 3 false r ∧
    if r =? BITMAP_ERROR then b' = demo_bitmap else updates_range demo_bitmap r 3 true b'.
Proof. apply bitmap_scan_and_flip_first; [apply demo_bitmap_wf|done..]. Defined.

Lemma bitmap_set_all_spec b v :
  bitmap_wf b → ∃ b', bitmap_set_all b v = Ret b' ∧ updates_range b 0 (bit_cnt b) v b'.
Proof.
  intros Hwf. pose proof (wf_cnt b Hwf). apply bitmap_set_multiple_spec; [done|lia].
Qed.

(** A bitmap built by [bitmap_create] from any memory [malloc] returned is
    well formed and has every bit false; when [malloc] fails the result is
    null unless the bitmap is empty. *)
Theorem bitmap_create_zero header array junk cnt :
  0 ≤ cnt ≤ 2 ^ 32 - ELEM_BITS → Z.of_nat (length junk) = elem_cnt cnt → Forall word junk →
  ∃ r, bitmap_create header array junk cnt = Ret r ∧
    match r with
    | Some b => bitmap_wf b ∧ bit_cnt b = cnt ∧ all_bits b 0 cnt false
    | None => header = false ∨ (array = false ∧ cnt ≠ 0)
    end.
Proof.
  intros Hc Hl Hw. unfold bitmap_create. destruct header; [|by exists None; auto].
  destruct (array || (cnt =? 0)) eqn:Ea.
  - assert (bitmap_wf (Bitmap cnt (if array then junk else []))) as Hwf.
    { destruct array; [done|]. simpl in Ea. apply Z.eqb_eq in Ea as ->. by split; simpl. }
    destruct (bitmap_set_all_spec _ false Hwf) as (b' & -> & Hwf' & Hc' & Hb).
    exists (Some b'). split_and!; try done. intros i Hi. rewrite Hb by lia. simpl. zcases.
  - apply orb_false_elim in Ea as [-> Hz%Z.eqb_neq]. exists None. auto.
Qed.
Lemma bitmap_create_zero_witness :
  ∃ r, bitmap_create true true [7; 9] 40 = Ret r ∧
    match r with
    | Some b => bitmap_wf b ∧ bit_cnt b = 40 ∧ all_bits b 0 40 false
    | None => true = false ∨ (true = false ∧ 40 ≠ 0)
    end.
Proof.
  apply bitmap_create_zero; [done|done|]. rewrite !Forall_cons, Forall_nil. unfold word. lia.
Defined.

(** Asking for an empty group returns START, not 0. *)
Lemma bitmap_scan_and_flip_empty b start v :
  bitmap_wf b → 0 ≤ start ≤ bit_cnt b →
  ∃ b', bitmap_scan_and_flip b start 0 v = Ret (start, b').
Proof.
  intros Hwf Hs. destruct (bitmap_scan_and_flip_spec b start 0 v) as (r & b' & -> & Hr & _); [done..|].
  exists b'. do 2 f_equal. pose proof (wf_cnt b Hwf). unfold ELEM_BITS in *.
  assert (∀ j, all_bits b j 0 v) as Ha by (intros j i; lia).
  destruct Hr as [(? & ? & _ & Hn)|[-> Hn]].
  - destruct (decide (r = start)); [done|]. exfalso. eapply (Hn start); [lia|done].
  - exfalso. apply (Hn start); [lia..|done].
Qed.
