(* ===== verification/Hash.v ===== *)
(** * lib/kernel/hash.c: definitions

    A table is an array of buckets.  A bucket is a [struct list], which the
    refinement of list.c allows to be modelled by the sequence of its elements;
    [list_remove] unlinks an element from the bucket that holds it.  [malloc]
    may fail: where the code calls it, its success is an argument. *)

From stdpp Require Import base numbers list.
From S2P Require Import Prelude.
Local Open Scope Z_scope.

Definition MIN_ELEMS_PER_BUCKET : Z := 1.
Definition BEST_ELEMS_PER_BUCKET : Z := 2.
Definition MAX_ELEMS_PER_BUCKET : Z := 4.

Record hash (E : Type) := Hash {
  elem_cnt : Z; bucket_cnt : Z; buckets : list (list E) }.
Arguments Hash {E}. Arguments elem_cnt {E}. Arguments bucket_cnt {E}. Arguments buckets {E}.

(** An iterator: the index of the current bucket and the position in it; the
    sentinel [list_head] is position -1 and [None] is a null pointer. *)
Record hash_iterator := HashIterator { it_bucket : Z; it_elem : option Z }.

Definition turn_off_least_1bit (x : Z) : Z := Z.land x (u32 (x - 1)).
Definition is_power_of_2 (x : Z) : bool := negb (x =? 0) && (turn_off_least_1bit x =? 0).
Fixpoint power_of_2_loop (fuel : nat) (x : Z) : outcome Z :=
  match fuel with
  | O => NoFuel
  | S fuel => if is_power_of_2 x then Ret x else power_of_2_loop fuel (turn_off_least_1bit x)
  end.

Section table.
  Context {E : Type} `{!EqDecision E} (hash_fn : E → Z) (less : E → E → bool).
  Implicit Types (h : hash E) (e new : E) (bucket : list E).

Definition get_bucket h (idx : Z) : outcome (list E) :=
  match buckets h !! Z.to_nat idx with Some b => Ret b | None => Panic end.
Definition set_bucket h (idx : Z) (b : list E) : hash E :=
  Hash (elem_cnt h) (bucket_cnt h) (<[Z.to_nat idx := b]> (buckets h)).

Definition find_bucket h e : Z := Z.land (hash_fn e) (u32 (bucket_cnt h - 1)).
Fixpoint find_elem bucket e : option E :=
  match bucket with
  | [] => None
  | hi :: bucket =>
      if negb (less hi e) && negb (less e hi) then Some hi else find_elem bucket e
  end.
Definition insert_elem h (idx : Z) e : outcome (hash E) :=
  let h := Hash (u32 (elem_cnt h + 1)) (bucket_cnt h) (buckets h) in
  try b <- get_bucket h idx; Ret (set_bucket h idx (e :: b)).
Definition unlink (bs : list (list E)) e : list (list E) := filter (λ x, x ≠ e) <$> bs.
Definition remove_elem h e : hash E :=
  Hash (u32 (elem_cnt h - 1)) (bucket_cnt h) (unlink (buckets h) e).

(** The inner loop of [rehash]: every element of an old bucket, in order, is
    unlinked and pushed in front of its new bucket. *)
Fixpoint rehash_bucket h (old_bucket : list E) : outcome (hash E) :=
  match old_bucket with
  | [] => Ret h
  | e :: old_bucket =>
      let idx := find_bucket h e in
      try b <- get_bucket h idx;
      rehash_bucket (set_bucket h idx (e :: b)) old_bucket
  end.
Fixpoint rehash_loop h (old_buckets : list (list E)) : outcome (hash E) :=
  match old_buckets with
  | [] => Ret h
  | old_bucket :: old_buckets =>
      try h <- rehash_bucket h old_bucket; rehash_loop h old_buckets
  end.
Definition rehash (malloc_ok : bool) h : outcome (hash E) :=
  let new_bucket_cnt := elem_cnt h / BEST_ELEMS_PER_BUCKET in
  let new_bucket_cnt := if new_bucket_cnt <? 4 then 4 else new_bucket_cnt in
  try new_bucket_cnt <- power_of_2_loop 33 new_bucket_cnt;
  if new_bucket_cnt =? bucket_cnt h then Ret h
  else if negb malloc_ok then Ret h
  else rehash_loop
         (Hash (elem_cnt h) new_bucket_cnt (replicate (Z.to_nat new_bucket_cnt) []))
         (buckets h).

(** [hash_clear]: the elements handed to DESTRUCTOR, in order, and the table. *)
Fixpoint clear_bucket (destructor : bool) bucket : list E :=
  if destructor then
    match bucket with [] => [] | e :: bucket => e :: clear_bucket destructor bucket end
  else [].
Fixpoint clear_loop (destructor : bool) (bs : list (list E)) : list E * list (list E) :=
  match bs with
  | [] => ([], [])
  | b :: bs => let '(d, bs) := clear_loop destructor bs in (clear_bucket destructor b ++ d, [] :: bs)
  end.
Definition hash_clear h (destructor : bool) : list E * hash E :=
  let '(d, bs) := clear_loop destructor (buckets h) in (d, Hash 0 (bucket_cnt h) bs).
(** [junk]: the four buckets as [malloc] returned them. *)
Definition hash_init (malloc_ok : bool) (junk : list (list E)) : option (hash E) :=
  let h := Hash 0 4 junk in
  if malloc_ok then Some (snd (hash_clear h false)) else None.
Definition hash_destroy h (destructor : bool) : list E :=
  if destructor then fst (hash_clear h destructor) else [].

Definition hash_insert (malloc_ok : bool) h new : outcome (option E * hash E) :=
  let idx := find_bucket h new in
  try bucket <- get_bucket h idx;
  let old := find_elem bucket new in
  try h <- (match old with None => insert_elem h idx new | Some _ => Ret h end);
  try h <- rehash malloc_ok h;
  Ret (old, h).
Definition hash_replace (malloc_ok : bool) h new : outcome (option E * hash E) :=
  let idx := find_bucket h new in
  try bucket <- get_bucket h idx;
  let old := find_elem bucket new in
  let h := match old with Some old => remove_elem h old | None => h end in
  try h <- insert_elem h idx new;
  try h <- rehash malloc_ok h;
  Ret (old, h).
Definition hash_find h e : outcome (option E) :=
  try bucket <- get_bucket h (find_bucket h e); Ret (find_elem bucket e).
Definition hash_delete (malloc_ok : bool) h e : outcome (option E * hash E) :=
  try bucket <- get_bucket h (find_bucket h e);
  match find_elem bucket e with
  | Some found => try h <- rehash malloc_ok (remove_elem h found); Ret (Some found, h)
  | None => Ret (None, h)
  end.

(** [hash_apply]: the elements ACTION is called on, in order. *)
Fixpoint apply_bucket bucket : list E :=
  match bucket with [] => [] | elem :: next => elem :: apply_bucket next end.
Fixpoint hash_apply_loop (bs : list (list E)) : list E :=
  match bs with [] => [] | b :: bs => apply_bucket b ++ hash_apply_loop bs end.
Definition hash_apply h : list E := hash_apply_loop (buckets h).

Definition hash_first h : hash_iterator := HashIterator 0 (Some (-1)).
(** The [while] of [hash_next], with the bucket and the position in it. *)
Fixpoint hash_next_loop (fuel : nat) h (i : Z) (pos : Z) : outcome hash_iterator :=
  match fuel with
  | O => NoFuel
  | S fuel =>
      try b <- get_bucket h i;
      if pos =? Z.of_nat (length b) then
        let i := i + 1 in
        if bucket_cnt h <=? i then Ret (HashIterator i None)
        else hash_next_loop fuel h i 0
      else Ret (HashIterator i (Some pos))
  end.
Definition hash_cur h (i : hash_iterator) : outcome (option E) :=
  match it_elem i with
  | None => Ret None
  | Some pos =>
      try b <- get_bucket h (it_bucket i);
      match b !! Z.to_nat pos with Some e => Ret (Some e) | None => Panic end
  end.
Definition hash_next h (i : hash_iterator) : outcome (option E * hash_iterator) :=
  match it_elem i with
  | None => Panic
  | Some pos =>
      try i <- hash_next_loop (S (length (buckets h))) h (it_bucket i) (pos + 1);
      try e <- hash_cur h i;
      Ret (e, i)
  end.

Definition hash_size h : Z := elem_cnt h.
Definition hash_empty h : bool := elem_cnt h =? 0.
End table.

(** ** Sample hash functions *)
Definition FNV_32_PRIME : Z := 16777619.
Definition FNV_32_BASIS : Z := 2166136261.
Fixpoint hash_bytes_loop (hash : Z) (buf : list Z) : Z :=
  match buf with
  | [] => hash
  | c :: buf => hash_bytes_loop (Z.lxor (u32 (hash * FNV_32_PRIME)) c) buf
  end.
Definition hash_bytes (buf : list Z) : Z := hash_bytes_loop FNV_32_BASIS buf.
(** [s]: the bytes at S; the string ends at the first zero byte. *)
Fixpoint hash_string_loop (hash : Z) (s : list Z) : outcome Z :=
  match s with
  | [] => Panic
  | c :: s =>
      if c =? 0 then Ret hash
      else hash_string_loop (Z.lxor (u32 (hash * FNV_32_PRIME)) c) s
  end.
Definition hash_string (s : list Z) : outcome Z := hash_string_loop FNV_32_BASIS s.
(** The four bytes of an [int] in memory, little-endian. *)
Definition int_bytes (i : Z) : list Z :=
  (λ k, u8 (Z.shiftr (u32 i) (8 * k))) <$> [0; 1; 2; 3].
Definition hash_int (i : Z) : Z := hash_bytes (int_bytes i).
