(* ===== verification/HashSpec.v ===== *)
(** * lib/kernel/hash.c: refinement to a finite map

    Under the contract that hash.h asks of the HASH and LESS functions
    ([HashKey]) a table represents the finite map from keys to elements
    ([abs]); every operation keeps the table well formed and acts on that map
    as its comment says, whether or not [malloc] succeeds. *)

From stdpp Require Import base numbers list gmap.
From S2P Require Import Prelude Hash.
Local Open Scope Z_scope.

(** ** Powers of two *)
Lemma turn_off_clears j x :
  0 ≤ j → 0 < x < 2 ^ 32 → (∀ k, 0 ≤ k < j → Z.testbit x k = false) →
  ∀ k, 0 ≤ k < j + 1 → Z.testbit (turn_off_least_1bit x) k = false.
Proof.
  intros Hj Hx Hlow k Hk. unfold turn_off_least_1bit. rewrite u32_small by lia.
  rewrite Z.land_spec. destruct (decide (k < j)) as [?|Hkj]; [by rewrite Hlow by lia|].
  replace k with j by lia. destruct (Z.testbit x j) eqn:Eb; [simpl|done].
  assert (Hm : x `mod` 2 ^ j = 0).
  { apply Z.bits_inj'. intros n Hn. rewrite Z.bits_0. destruct (decide (n < j)).
    - rewrite Z.mod_pow2_bits_low by lia. apply Hlow. lia.
    - by apply Z.mod_pow2_bits_high; lia. }
  assert (Ho : (x `div` 2 ^ j) `mod` 2 = 1).
  { rewrite <-Z.testbit_spec' by lia. by rewrite Eb. }
  apply Z.b2z_inj. rewrite Z.testbit_spec' by lia. simpl.
  pose proof (Z.pow_pos_nonneg 2 j ltac:(lia) Hj).
  assert ((x - 1) `div` 2 ^ j = x `div` 2 ^ j - 1) as ->.
  { symmetry. apply Z.div_unique with (2 ^ j - 1); [lia|].
    pose proof (Z.div_mod x (2 ^ j)). lia. }
  rewrite Zminus_mod, Ho. done.
Qed.
Lemma turn_off_le x : 0 < x < 2 ^ 32 → 0 ≤ turn_off_least_1bit x < x.
Proof.
  intros Hx. unfold turn_off_least_1bit. rewrite u32_small by lia.
  split; [apply Z.land_nonneg; lia|]. enough (Z.land x (x - 1) ≤ x - 1) by lia.
  apply Z.ldiff_le; [lia|]. apply Z.bits_inj'. intros n Hn.
  rewrite Z.ldiff_spec, Z.land_spec, Z.bits_0. by destruct (Z.testbit x n), (Z.testbit (x - 1) n).
Qed.
(** The top bit survives until the number is a power of two. *)
Lemma turn_off_top k x :
  0 ≤ k < 32 → 2 ^ k < x < 2 ^ (k + 1) → 2 ^ k ≤ turn_off_least_1bit x.
Proof.
  intros Hk Hx. assert (2 ^ (k + 1) ≤ 2 ^ 32) by (apply Z.pow_le_mono_r; lia).
  unfold turn_off_least_1bit. rewrite u32_small by lia.
  assert (∀ y, 2 ^ k ≤ y < 2 ^ (k + 1) → Z.testbit y k = true) as Htop.
  { intros y Hy. rewrite Z.pow_add_r, Z.pow_1_r in Hy by lia.
    apply Z.testbit_true; [lia|]. replace (y / 2 ^ k) with 1; [done|].
    apply Z.div_unique with (y - 2 ^ k); lia. }
  assert (Z.testbit (Z.land x (x - 1)) k = true) as Hb
    by (rewrite Z.land_spec, !Htop by lia; done).
  destruct (decide (Z.land x (x - 1) < 2 ^ k)) as [Hlt|]; [|lia].
  rewrite <-(Z.mod_small (Z.land x (x - 1)) (2 ^ k)) in Hb.
  - by rewrite Z.mod_pow2_bits_high in Hb by lia.
  - split; [apply Z.land_nonneg; lia|done].
Qed.
Lemma is_power_of_2_pow k x :
  0 ≤ k < 32 → 2 ^ k ≤ x < 2 ^ (k + 1) → is_power_of_2 x = (x =? 2 ^ k).
Proof.
  intros Hk Hx. pose proof (Z.pow_pos_nonneg 2 k ltac:(lia) ltac:(lia)).
  unfold is_power_of_2. rewrite (proj2 (Z.eqb_neq x 0)) by lia. simpl.
  destruct (Z.eqb_spec x (2 ^ k)) as [->|Hne].
  - apply Z.eqb_eq. unfold turn_off_least_1bit.
    assert (2 ^ (k + 1) ≤ 2 ^ 32) by (apply Z.pow_le_mono_r; lia).
    rewrite u32_small by lia. rewrite Z.sub_1_r, <-Z.ones_equiv, Z.land_ones by lia.
    apply Z.mod_same. lia.
  - apply Z.eqb_neq. pose proof (turn_off_top k x ltac:(lia) ltac:(lia)). lia.
Qed.
Lemma power_of_2_loop_spec fuel j k x :
  0 ≤ j ≤ k → k < 32 → (Z.to_nat (k - j) < fuel)%nat → 2 ^ k ≤ x < 2 ^ (k + 1) →
  (∀ n, 0 ≤ n < j → Z.testbit x n = false) → power_of_2_loop fuel x = Ret (2 ^ k).
Proof.
  revert j x. induction fuel as [|fuel IH]; intros j x Hj Hk Hf Hx Hlow; [lia|]. simpl.
  rewrite (is_power_of_2_pow k) by lia. destruct (Z.eqb_spec x (2 ^ k)) as [->|Hne]; [done|].
  assert (2 ^ (k + 1) ≤ 2 ^ 32) by (apply Z.pow_le_mono_r; lia).
  pose proof (Z.pow_pos_nonneg 2 k ltac:(lia) ltac:(lia)).
  pose proof (turn_off_le x ltac:(lia)). pose proof (turn_off_top k x ltac:(lia) ltac:(lia)).
  destruct (decide (j = k)) as [->|Hjk].
  - exfalso. assert (x = 2 ^ k); [|done].
    assert (x `mod` 2 ^ k = 0).
    { apply Z.bits_inj'. intros n Hn. rewrite Z.bits_0. destruct (decide (n < k)).
      - rewrite Z.mod_pow2_bits_low by lia. apply Hlow. lia.
      - by apply Z.mod_pow2_bits_high; lia. }
    rewrite Z.pow_add_r, Z.pow_1_r in Hx by lia.
    assert (x = 2 ^ k * 1 + (x - 2 ^ k)) as Ex by lia.
    apply Z.mod_unique in Ex; [|lia]. lia.
  - apply (IH (j + 1)); [lia..|]. intros n Hn. eapply turn_off_clears; [| |done|]; lia.
Qed.
(** The loop computes the greatest power of two not above its argument. *)
Lemma power_of_2_floor x :
  4 ≤ x < 2 ^ 32 →
  ∃ k, 2 ≤ k < 32 ∧ 2 ^ k ≤ x < 2 ^ (k + 1) ∧ power_of_2_loop 33 x = Ret (2 ^ k).
Proof.
  intros Hx. exists (Z.log2 x). pose proof (Z.log2_spec x ltac:(lia)) as Hs.
  rewrite <-Z.add_1_r in Hs. assert (2 ≤ Z.log2 x < 32).
  { split; [apply (Z.log2_le_mono 4); lia|apply Z.log2_lt_pow2; lia]. }
  split_and!; try lia. apply (power_of_2_loop_spec _ 0); try lia.
Qed.

(** ** The contract of the client's functions *)
Class HashKey {E K : Type} (hash_fn : E → Z) (less : E → E → bool) (key : E → K) : Prop := {
  less_key a b : negb (less a b) && negb (less b a) = true ↔ key a = key b;
  hash_key a b : key a = key b → hash_fn a = hash_fn b;
  hash_range a : 0 ≤ hash_fn a < 2 ^ 32 }.

Section refinement.
  Context {E K : Type} `{!EqDecision E, Countable K}.
  Context (hash_fn : E → Z) (less : E → E → bool) (key : E → K).
  Context {HK : HashKey hash_fn less key}.
  Implicit Types (h : hash E) (e x : E) (bs : list (list E)).

Definition elems h : list E := concat (buckets h).
Definition abs h : gmap K E := list_to_map ((λ e, (key e, e)) <$> elems h).

(** The shape of a table, and the invariant of a complete one. *)
Record placed h : Prop := {
  pl_pow : ∃ k, 2 ≤ k < 32 ∧ bucket_cnt h = 2 ^ k;
  pl_len : Z.of_nat (length (buckets h)) = bucket_cnt h;
  pl_place : ∀ i b e, buckets h !! i = Some b → e ∈ b → hash_fn e `mod` bucket_cnt h = Z.of_nat i }.
Record hash_wf h : Prop := {
  wf_placed : placed h;
  wf_cnt : elem_cnt h = Z.of_nat (length (elems h));
  wf_max : elem_cnt h < 2 ^ 32;
  wf_keys : NoDup (key <$> elems h) }.

Lemma bucket_cnt_bounds h : placed h → 4 ≤ bucket_cnt h < 2 ^ 32.
Proof.
  intros [(k & Hk & ->) _ _]. split; [apply (Z.pow_le_mono_r 2 2); lia|].
  apply Z.pow_lt_mono_r; lia.
Qed.
Lemma find_bucket_mod h e : placed h → find_bucket hash_fn h e = hash_fn e `mod` bucket_cnt h.
Proof.
  intros Hp. pose proof (bucket_cnt_bounds h Hp). unfold find_bucket.
  rewrite u32_small by lia. destruct (pl_pow h Hp) as (k & Hk & ->).
  rewrite Z.sub_1_r, <-Z.ones_equiv, Z.land_ones by lia. done.
Qed.
Lemma find_bucket_Ret h e :
  placed h →
  ∃ b, get_bucket h (find_bucket hash_fn h e) = Ret b ∧
    buckets h !! Z.to_nat (find_bucket hash_fn h e) = Some b.
Proof.
  intros Hp. unfold get_bucket.
  destruct (buckets h !! _) as [b|] eqn:Eb; [by exists b|]. exfalso.
  apply lookup_ge_None_1 in Eb. pose proof (bucket_cnt_bounds h Hp). pose proof (pl_len h Hp).
  rewrite find_bucket_mod in Eb by done. pose proof (Z.mod_pos_bound (hash_fn e) (bucket_cnt h)). lia.
Qed.

Lemma concat_insert bs i b b' x :
  bs !! i = Some b → b' = x :: b → concat (<[i := b']> bs) ≡ₚ x :: concat bs.
Proof.
  intros Hi ->. rewrite <-(take_drop_middle bs i b) at 2 by done.
  rewrite insert_take_drop by (by eapply lookup_lt_Some).
  rewrite !concat_app. simpl. by rewrite <-Permutation_middle.
Qed.
Lemma elem_of_bucket h i b e : buckets h !! i = Some b → e ∈ b → e ∈ elems h.
Proof. intros Hi He. apply elem_of_concat_lookup. eauto. Qed.

(** Pushing an element on the bucket its hash selects. *)
Lemma push_placed h e b :
  placed h → buckets h !! Z.to_nat (find_bucket hash_fn h e) = Some b →
  placed (set_bucket h (find_bucket hash_fn h e) (e :: b)) ∧
  elems (set_bucket h (find_bucket hash_fn h e) (e :: b)) ≡ₚ e :: elems h.
Proof.
  intros Hp Hb. split; [|by apply concat_insert with b].
  pose proof (bucket_cnt_bounds h Hp). pose proof (Z.mod_pos_bound (hash_fn e) (bucket_cnt h)).
  destruct Hp as [Hpow Hlen Hpl]. split; simpl; [done|by rewrite length_insert|].
  intros i b' x Hi Hx. destruct (decide (i = Z.to_nat (find_bucket hash_fn h e))) as [->|Hne].
  - rewrite list_lookup_insert_eq in Hi by (by eapply lookup_lt_Some). injection Hi as <-.
    apply elem_of_cons in Hx as [->|Hx]; [|by eapply Hpl].
    rewrite find_bucket_mod by done. lia.
  - rewrite list_lookup_insert_ne in Hi by done. by eapply Hpl.
Qed.

(** ** rehash *)
Lemma rehash_bucket_spec old h :
  placed h → ∃ h', rehash_bucket hash_fn h old = Ret h' ∧ placed h' ∧ elem_cnt h' = elem_cnt h ∧
    bucket_cnt h' = bucket_cnt h ∧ elems h' ≡ₚ old ++ elems h.
Proof.
  revert h. induction old as [|e old IH]; intros h Hp; simpl; [by exists h|].
  destruct (find_bucket_Ret h e Hp) as (b & -> & Hb). simpl.
  destruct (push_placed h e b Hp Hb) as [Hp1 He1].
  destruct (IH _ Hp1) as (h' & E' & Hp' & Hc & Hn & He). exists h'. split_and!; try done.
  by rewrite He, He1, Permutation_middle.
Qed.
Lemma rehash_loop_spec old h :
  placed h → ∃ h', rehash_loop hash_fn h old = Ret h' ∧ placed h' ∧ elem_cnt h' = elem_cnt h ∧
    bucket_cnt h' = bucket_cnt h ∧ elems h' ≡ₚ concat old ++ elems h.
Proof.
  revert h. induction old as [|b old IH]; intros h Hp; simpl; [by exists h|].
  destruct (rehash_bucket_spec b h Hp) as (h1 & -> & Hp1 & Hc1 & Hn1 & He1). simpl.
  destruct (IH h1 Hp1) as (h' & E' & Hp' & Hc & Hn & He). exists h'. split_and!; try done; [congruence..|].
  rewrite He, He1, !(assoc_L (++)). by rewrite (Permutation_app_comm (concat old) b).
Qed.
Lemma replicate_placed c k n : 2 ≤ k < 32 → n = 2 ^ k → placed (Hash c n (replicate (Z.to_nat n) [])).
Proof.
  intros Hk ->. pose proof (Z.pow_pos_nonneg 2 k). split; simpl; [eauto|rewrite length_replicate; lia|].
  intros i b e [-> _]%lookup_replicate_1 He. by apply elem_of_nil in He.
Qed.
Lemma concat_replicate_nil n : concat (replicate n (@nil E)) = [].
Proof. by induction n. Qed.

(** [elem_cnt / bucket_cnt] is below [MAX_ELEMS_PER_BUCKET] after a [rehash]
    that can allocate. *)
Definition balanced h : Prop := elem_cnt h < MAX_ELEMS_PER_BUCKET * bucket_cnt h.
Lemma rehash_spec ok h :
  hash_wf h →
  ∃ h', rehash hash_fn ok h = Ret h' ∧ hash_wf h' ∧ elems h' ≡ₚ elems h ∧ (ok = true → balanced h').
Proof.
  intros Hwf. unfold rehash. set (n := if _ <? 4 then 4 else _).
  pose proof (wf_max h Hwf) as Hmax. pose proof (wf_cnt h Hwf) as Hcnt.
  assert (4 ≤ n < 2 ^ 31 ∧ elem_cnt h ≤ 2 * n + 1) as [Hn Hc].
  { subst n. unfold BEST_ELEMS_PER_BUCKET. pose proof (Z.div_mod (elem_cnt h) 2).
    pose proof (Z.mod_pos_bound (elem_cnt h) 2). zcases. }
  destruct (power_of_2_floor n) as (k & Hk & Hx & ->); [lia|]. simpl.
  rewrite Z.pow_add_r, Z.pow_1_r in Hx by lia.
  assert (∀ h', bucket_cnt h' = 2 ^ k → elem_cnt h' = elem_cnt h → balanced h') as Hbal
    by (intros h' Hb He; unfold balanced, MAX_ELEMS_PER_BUCKET; rewrite Hb, He; lia).
  destruct (Z.eqb_spec (2 ^ k) (bucket_cnt h)) as [Eq|_]; [by exists h; auto|].
  destruct ok; simpl; [|by exists h].
  destruct (rehash_loop_spec (buckets h) _ (replicate_placed (elem_cnt h) k (2 ^ k) Hk eq_refl))
    as (h' & -> & Hp & He & Hb & Hperm). simpl in *.
  unfold elems at 2 in Hperm. simpl in Hperm. rewrite concat_replicate_nil, app_nil_r in Hperm.
  exists h'. split_and!; [done| |done|by auto].
  split; [done|by rewrite He, Hcnt, Hperm|by rewrite He|]. rewrite Hperm. apply Hwf.
Qed.

(** ** Lookup *)
Lemma find_elem_Some b e x : find_elem less b e = Some x → x ∈ b ∧ key x = key e.
Proof.
  induction b as [|y b IH]; simpl; [done|]. destruct (negb (less y e) && _) eqn:Ek.
  - intros [= <-]. split; [by left|]. by apply less_key.
  - intros [? ?]%IH. split; [by right|done].
Qed.
Lemma find_elem_None b e : find_elem less b e = None → ∀ x, x ∈ b → key x ≠ key e.
Proof.
  induction b as [|y b IH]; simpl; [by intros _ x ?%elem_of_nil|].
  destruct (negb (less y e) && _) eqn:Ek; [done|]. intros Hf x [->|Hx]%elem_of_cons; [|by apply IH].
  intros Hk%less_key. congruence.
Qed.
Lemma abs_lookup_Some h e : NoDup (key <$> elems h) → e ∈ elems h → abs h !! key e = Some e.
Proof.
  intros Hk He. apply elem_of_list_to_map.
  - rewrite <-list_fmap_compose. done.
  - apply list_elem_of_fmap. eauto.
Qed.
Lemma abs_lookup_inv h k e : abs h !! k = Some e → e ∈ elems h ∧ key e = k.
Proof.
  intros (x & [= -> ->] & Hx)%elem_of_list_to_map_2%list_elem_of_fmap. done.
Qed.
Lemma abs_lookup_None h k : (∀ x, x ∈ elems h → key x ≠ k) → abs h !! k = None.
Proof.
  intros Hn. destruct (abs h !! k) as [e|] eqn:Ea; [|done].
  apply abs_lookup_inv in Ea as [? ?]. naive_solver.
Qed.
Lemma abs_perm h h' : NoDup (key <$> elems h) → elems h' ≡ₚ elems h → abs h' = abs h.
Proof.
  intros Hk Hp. apply list_to_map_proper; [|by rewrite Hp].
  rewrite <-list_fmap_compose. by rewrite (Permutation_map key Hp).
Qed.

Lemma find_spec h e b :
  hash_wf h → buckets h !! Z.to_nat (find_bucket hash_fn h e) = Some b →
  find_elem less b e = abs h !! key e.
Proof.
  intros Hwf Hb. symmetry. destruct (find_elem less b e) as [x|] eqn:Ef.
  - apply find_elem_Some in Ef as [Hx Hk]. rewrite <-Hk.
    apply abs_lookup_Some; [apply Hwf|]. by eapply elem_of_bucket.
  - apply abs_lookup_None. intros x (i & b' & Hi & Hx)%elem_of_concat_lookup Hk.
    pose proof (wf_placed h Hwf) as Hp. pose proof (pl_place h Hp i b' x Hi Hx) as Hmod.
    rewrite (hash_key x e Hk) in Hmod. rewrite find_bucket_mod, Hmod, Nat2Z.id in Hb by done.
    rewrite Hi in Hb. injection Hb as ->. by eapply find_elem_None.
Qed.

(** ** Adding and removing an element *)
Lemma insert_elem_spec h e b :
  hash_wf h → elem_cnt h + 1 < 2 ^ 32 → abs h !! key e = None →
  buckets h !! Z.to_nat (find_bucket hash_fn h e) = Some b →
  ∃ h', insert_elem h (find_bucket hash_fn h e) e = Ret h' ∧ hash_wf h' ∧ elems h' ≡ₚ e :: elems h.
Proof.
  intros Hwf Hmax Hnone Hb. pose proof (wf_cnt h Hwf) as Hc. unfold insert_elem.
  rewrite u32_small by lia. unfold get_bucket. simpl. rewrite Hb. simpl.
  destruct (push_placed h e b (wf_placed h Hwf) Hb) as [Hp He].
  eexists. split; [done|]. unfold set_bucket in *. simpl.
  split; [|exact He]. split; [by destruct Hp| |done|].
  - change (elems _) with (elems (set_bucket h (find_bucket hash_fn h e) (e :: b))).
    rewrite He. simpl. lia.
  - change (elems _) with (elems (set_bucket h (find_bucket hash_fn h e) (e :: b))).
    rewrite He. apply NoDup_cons. split; [|apply Hwf].
    intros (x & Hk & Hx)%list_elem_of_fmap. rewrite Hk in Hnone.
    by rewrite abs_lookup_Some in Hnone by (done || apply Hwf).
Qed.
Lemma concat_unlink bs e : concat (unlink bs e) = filter (λ x, x ≠ e) (concat bs).
Proof. induction bs as [|b bs IH]; simpl; [done|]. by rewrite filter_app, <-IH. Qed.
Lemma filter_ne_perm (l : list E) e : NoDup l → e ∈ l → l ≡ₚ e :: filter (λ x, x ≠ e) l.
Proof.
  intros ND (A & B & ->)%list_elem_of_split. rewrite <-Permutation_middle in *.
  apply NoDup_cons in ND as [Hn _]. rewrite filter_cons_False by naive_solver. constructor.
  rewrite filter_all; [done|]. naive_solver.
Qed.
Lemma remove_elem_spec h e :
  hash_wf h → e ∈ elems h → hash_wf (remove_elem h e) ∧ elems h ≡ₚ e :: elems (remove_elem h e).
Proof.
  intros Hwf He. pose proof (wf_cnt h Hwf) as Hc. pose proof (wf_max h Hwf) as Hm.
  assert (elems h ≡ₚ e :: elems (remove_elem h e)) as Hp.
  { unfold elems, remove_elem. simpl. rewrite concat_unlink. apply filter_ne_perm; [|done].
    eapply NoDup_fmap_1, Hwf. }
  split; [|done]. pose proof (wf_keys h Hwf) as Hk. rewrite Hp in Hk, Hc. apply NoDup_cons in Hk as [_ Hk].
  simpl in Hc. destruct (wf_placed h Hwf) as [Hpow Hlen Hpl].
  split; [split; simpl| |simpl|done].
  - done.
  - unfold unlink. by rewrite length_fmap.
  - intros i b x Hi Hx. unfold unlink in Hi. rewrite list_lookup_fmap in Hi.
    destruct (buckets h !! i) as [b'|] eqn:Eb; [|done]. injection Hi as <-.
    apply list_elem_of_filter in Hx as [_ Hx]. by eapply Hpl.
  - change (elem_cnt (remove_elem h e)) with (u32 (elem_cnt h - 1)). rewrite u32_small; lia.
  - apply u32_range.
Qed.

(** ** The operations *)
Lemma abs_insert h h' e :
  NoDup (key <$> elems h') → elems h' ≡ₚ e :: elems h → abs h' = <[key e := e]> (abs h).
Proof.
  intros Hk Hp. change (<[key e := e]> (abs h)) with
    (list_to_map ((λ e, (key e, e)) <$> e :: elems h) : gmap K E).
  apply list_to_map_proper; [|by rewrite Hp]. by rewrite <-list_fmap_compose.
Qed.
Lemma abs_delete h h' e :
  NoDup (key <$> elems h) → elems h ≡ₚ e :: elems h' → abs h' = delete (key e) (abs h).
Proof.
  intros Hk Hp. rewrite (abs_insert h' h e Hk Hp). symmetry. apply delete_insert_id.
  apply abs_lookup_None. rewrite Hp in Hk. apply NoDup_cons in Hk as [Hk _].
  intros x Hx Hxe. apply Hk. rewrite <-Hxe. by apply list_elem_of_fmap_2.
Qed.
Lemma abs_size h : hash_wf h → Z.of_nat (size (abs h)) = elem_cnt h.
Proof.
  intros Hwf. rewrite (wf_cnt h Hwf). f_equal. unfold abs.
  rewrite <-length_map_to_list, map_to_list_to_map, length_fmap; [done|].
  rewrite <-list_fmap_compose. apply Hwf.
Qed.

Lemma hash_find_refines h e : hash_wf h → hash_find hash_fn less h e = Ret (abs h !! key e).
Proof.
  intros Hwf. unfold hash_find. destruct (find_bucket_Ret h e (wf_placed h Hwf)) as (b & -> & Hb).
  simpl. by rewrite (find_spec h e b).
Qed.
Lemma hash_insert_refines ok h e :
  hash_wf h → elem_cnt h + 1 < 2 ^ 32 →
  ∃ h', hash_insert hash_fn less ok h e = Ret (abs h !! key e, h') ∧ hash_wf h' ∧
    abs h' = match abs h !! key e with Some _ => abs h | None => <[key e := e]> (abs h) end ∧
    (ok = true → balanced h').
Proof.
  intros Hwf Hmax. unfold hash_insert.
  destruct (find_bucket_Ret h e (wf_placed h Hwf)) as (b & -> & Hb). simpl.
  rewrite (find_spec h e b) by done. destruct (abs h !! key e) as [old|] eqn:Eo; simpl.
  - destruct (rehash_spec ok h Hwf) as (h' & -> & Hwf' & Hp & Hbal). simpl.
    exists h'. split_and!; try done. apply abs_perm; [apply Hwf|done].
  - destruct (insert_elem_spec h e b Hwf Hmax Eo Hb) as (h1 & -> & Hwf1 & Hp1). simpl.
    destruct (rehash_spec ok h1 Hwf1) as (h' & -> & Hwf' & Hp & Hbal). simpl.
    exists h'. split_and!; try done. rewrite <-(abs_insert h h1) by (done || apply Hwf1).
    apply abs_perm; [apply Hwf1|done].
Qed.
Lemma hash_delete_refines ok h e :
  hash_wf h →
  ∃ h', hash_delete hash_fn less ok h e = Ret (abs h !! key e, h') ∧ hash_wf h' ∧
    abs h' = delete (key e) (abs h) ∧ (ok = true → is_Some (abs h !! key e) → balanced h').
Proof.
  intros Hwf. unfold hash_delete.
  destruct (find_bucket_Ret h e (wf_placed h Hwf)) as (b & -> & Hb). simpl.
  rewrite (find_spec h e b) by done. destruct (abs h !! key e) as [x|] eqn:Eo; simpl.
  - apply abs_lookup_inv in Eo as [Hx Hk].
    destruct (remove_elem_spec h x Hwf Hx) as [Hwf1 Hp1].
    destruct (rehash_spec ok _ Hwf1) as (h' & -> & Hwf' & Hp & Hbal). simpl.
    exists h'. split_and!; try done; [|by auto]. rewrite <-Hk.
    rewrite <-(abs_delete h (remove_elem h x)) by (done || apply Hwf).
    apply abs_perm; [apply Hwf1|done].
  - exists h. split_and!; try done. symmetry. by apply delete_id.
Qed.

Lemma hash_replace_refines ok h e :
  hash_wf h → elem_cnt h + 1 < 2 ^ 32 →
  ∃ h', hash_replace hash_fn less ok h e = Ret (abs h !! key e, h') ∧ hash_wf h' ∧
    abs h' = <[key e := e]> (abs h) ∧ (ok = true → balanced h').
Proof.
  intros Hwf Hmax. unfold hash_replace.
  destruct (find_bucket_Ret h e (wf_placed h Hwf)) as (b & -> & Hb). simpl.
  rewrite (find_spec h e b) by done.
  set (h1 := match abs h !! key e with Some old => remove_elem h old | None => h end).
  assert (hash_wf h1 ∧ elem_cnt h1 + 1 < 2 ^ 32 ∧ bucket_cnt h1 = bucket_cnt h ∧
          abs h1 = delete (key e) (abs h)) as (Hwf1 & Hmax1 & Hb1 & Ha1).
  { subst h1. destruct (abs h !! key e) as [x|] eqn:Eo.
    - apply abs_lookup_inv in Eo as [Hx Hk]. destruct (remove_elem_spec h x Hwf Hx) as [Hwf1 Hp1].
      split_and!; try done; [|by rewrite <-Hk; apply abs_delete; [apply Hwf|]].
      rewrite (wf_cnt _ Hwf1). rewrite (wf_cnt _ Hwf), Hp1 in Hmax. simpl in Hmax. lia.
    - split_and!; try done. symmetry. by apply delete_id. }
  assert (find_bucket hash_fn h e = find_bucket hash_fn h1 e) as ->
    by (unfold find_bucket; by rewrite Hb1).
  destruct (find_bucket_Ret h1 e (wf_placed h1 Hwf1)) as (b1 & _ & Hb1').
  destruct (insert_elem_spec h1 e b1 Hwf1 Hmax1) as (h2 & -> & Hwf2 & Hp2);
    [by rewrite Ha1, lookup_delete_eq|done|]. simpl.
  destruct (rehash_spec ok h2 Hwf2) as (h' & -> & Hwf' & Hp & Hbal). simpl.
  exists h'. split_and!; try done. rewrite (abs_perm h2 h') by (done || apply Hwf2).
  rewrite (abs_insert h1 h2 e) by (done || apply Hwf2). by rewrite Ha1, insert_delete_eq.
Qed.

Lemma clear_bucket_true (b : list E) : clear_bucket true b = b.
Proof. induction b as [|e b IH]; simpl; [done|by rewrite IH]. Qed.
Lemma clear_bucket_false (b : list E) : clear_bucket false b = [].
Proof. by destruct b. Qed.
Lemma clear_loop_spec (d : bool) bs :
  clear_loop d bs = (if d then concat bs else [], replicate (length bs) []).
Proof.
  induction bs as [|b bs IH]; simpl; [by destruct d|]. rewrite IH. f_equal.
  destruct d; [by rewrite clear_bucket_true|by rewrite clear_bucket_false].
Qed.
Lemma hash_clear_refines d h :
  placed h → ∃ h', hash_clear h d = (if d then elems h else [], h') ∧ hash_wf h' ∧ abs h' = ∅.
Proof.
  intros Hp. unfold hash_clear. rewrite clear_loop_spec. eexists. split; [done|].
  destruct (pl_pow h Hp) as (k & Hk & Hpow). pose proof (pl_len h Hp) as Hlen.
  replace (length (buckets h)) with (Z.to_nat (bucket_cnt h)) by lia.
  split; [split|]; unfold abs, elems; simpl; rewrite ?concat_replicate_nil; try done.
  - by eapply replicate_placed.
  - apply NoDup_nil_2.
Qed.
Lemma hash_init_refines junk :
  length junk = 4%nat → ∃ h, @hash_init E true junk = Some h ∧ hash_wf h ∧ abs h = ∅.
Proof.
  intros Hl. unfold hash_init. destruct (hash_clear_refines false (Hash 0 4 (replicate 4 []))) as (h & E1 & Hwf & Ha).
  { by apply (replicate_placed 0 2 4). }
  exists h. split_and!; try done. f_equal. unfold hash_clear in *. rewrite clear_loop_spec in *.
  simpl in *. rewrite Hl. simpl. congruence.
Qed.

(** ** Sequences of operations *)
Inductive hop :=
  | HInsert (ok : bool) (e : E) | HReplace (ok : bool) (e : E) | HDelete (ok : bool) (e : E)
  | HFind (e : E) | HSize.
Inductive hres := HElem (e : option E) | HCount (n : Z).
Definition exec_hop (o : hop) : M (hash E) hres := λ h,
  match o with
  | HInsert ok e => try r <- hash_insert hash_fn less ok h e; Ret (HElem r.1, r.2)
  | HReplace ok e => try r <- hash_replace hash_fn less ok h e; Ret (HElem r.1, r.2)
  | HDelete ok e => try r <- hash_delete hash_fn less ok h e; Ret (HElem r.1, r.2)
  | HFind e => try r <- hash_find hash_fn less h e; Ret (HElem r, h)
  | HSize => Ret (HCount (hash_size h), h)
  end.
Definition spec_hop (o : hop) (m : gmap K E) : hres * gmap K E :=
  match o with
  | HInsert _ e =>
      (HElem (m !! key e), match m !! key e with Some _ => m | None => <[key e := e]> m end)
  | HReplace _ e => (HElem (m !! key e), <[key e := e]> m)
  | HDelete _ e => (HElem (m !! key e), delete (key e) m)
  | HFind e => (HElem (m !! key e), m)
  | HSize => (HCount (Z.of_nat (size m)), m)
  end.
Fixpoint exec_hops (os : list hop) : M (hash E) (list hres) :=
  match os with
  | [] => retM []
  | o :: os => do r <- exec_hop o; do rs <- exec_hops os; retM (r :: rs)
  end.
Fixpoint spec_hops (os : list hop) (m : gmap K E) : list hres * gmap K E :=
  match os with
  | [] => ([], m)
  | o :: os => let '(r, m) := spec_hop o m in let '(rs, m) := spec_hops os m in (r :: rs, m)
  end.

Lemma exec_hop_refines o h :
  hash_wf h → elem_cnt h + 1 < 2 ^ 32 →
  ∃ h', exec_hop o h = Ret ((spec_hop o (abs h)).1, h') ∧ hash_wf h' ∧
    abs h' = (spec_hop o (abs h)).2 ∧ elem_cnt h' ≤ elem_cnt h + 1.
Proof.
  intros Hwf Hmax. unfold exec_hop.
  enough (∃ h', exec_hop o h = Ret ((spec_hop o (abs h)).1, h') ∧ hash_wf h' ∧
    abs h' = (spec_hop o (abs h)).2) as (h' & Ex & Hwf' & Ha).
  { exists h'. split_and!; try done. rewrite <-!abs_size, Ha by done.
    destruct o as [ok e|ok e|ok e|e|]; simpl; [destruct (abs h !! key e) eqn:El| | | |]; try lia.
    - rewrite map_size_insert_None by done. lia.
    - rewrite map_size_insert. destruct (abs h !! key e); simpl; lia.
    - rewrite map_size_delete. destruct (abs h !! key e); simpl; lia. }
  destruct o as [ok e|ok e|ok e|e|]; simpl.
  - destruct (hash_insert_refines ok h e) as (h' & -> & ? & ? & _); [done..|]. by exists h'.
  - destruct (hash_replace_refines ok h e) as (h' & -> & ? & ? & _); [done..|]. by exists h'.
  - destruct (hash_delete_refines ok h e) as (h' & -> & ? & ? & _); [done..|]. by exists h'.
  - rewrite hash_find_refines by done. by exists h.
  - unfold hash_size. rewrite abs_size by done. by exists h.
Qed.
Lemma exec_hops_refines os h :
  hash_wf h → elem_cnt h + Z.of_nat (length os) < 2 ^ 32 →
  ∃ h', exec_hops os h = Ret ((spec_hops os (abs h)).1, h') ∧ hash_wf h' ∧
    abs h' = (spec_hops os (abs h)).2.
Proof.
  revert h. induction os as [|o os IH]; intros h Hwf Hmax; simpl; [by exists h|]. simpl in Hmax.
  destruct (exec_hop_refines o h Hwf) as (h1 & E1 & Hwf1 & Ha1 & Hc1); [lia|].
  rewrite (bindM_Ret _ _ _ _ _ E1). destruct (spec_hop o (abs h)) as [r m] eqn:Es. simpl in *.
  destruct (IH h1 Hwf1) as (h' & E' & Hwf' & Ha'); [lia|].
  rewrite (bindM_Ret _ _ _ _ _ E'). rewrite Ha1 in *. destruct (spec_hops os m) as [rs m'].
  by exists h'.
Qed.
End refinement.

(** ** Iteration *)
Section iteration.
  Context {E : Type} (h : hash E).
  Hypothesis Hlen : Z.of_nat (length (buckets h)) = bucket_cnt h.

(** What is left after position [pos] of bucket [i]. *)
Definition rest (i pos : nat) (b : list E) : list E := drop pos b ++ concat (drop (S i) (buckets h)).
Definition at_elem (it : hash_iterator) (e : E) (r : list E) : Prop :=
  ∃ i pos b, it = HashIterator (Z.of_nat i) (Some (Z.of_nat pos)) ∧ buckets h !! i = Some b ∧
    b !! pos = Some e ∧ r = rest i (S pos) b.

Lemma hash_next_loop_spec fuel i pos b :
  buckets h !! i = Some b → (pos ≤ length b)%nat → (length (buckets h) - i < fuel)%nat →
  ∃ it, hash_next_loop fuel h (Z.of_nat i) (Z.of_nat pos) = Ret it ∧
    match rest i pos b with [] => it_elem it = None | e :: r => at_elem it e r end.
Proof.
  revert i pos b. induction fuel as [|fuel IH]; intros i pos b Hi Hpos Hf; [lia|]. simpl.
  unfold get_bucket. rewrite Nat2Z.id, Hi. simpl. destruct (Z.eqb_spec (Z.of_nat pos) (Z.of_nat (length b))).
  - assert (pos = length b) as -> by lia. unfold rest. rewrite drop_all. simpl.
    destruct (Z.leb_spec (bucket_cnt h) (Z.of_nat i + 1)).
    + eexists. split; [done|]. rewrite drop_ge by lia. done.
    + destruct (buckets h !! S i) as [b'|] eqn:Eb.
      2:{ apply lookup_ge_None in Eb. lia. }
      destruct (IH (S i) 0%nat b') as (it & Eit & Hit); [done|lia..|].
      replace (Z.of_nat i + 1) with (Z.of_nat (S i)) by lia. exists it. split; [done|].
      rewrite (drop_S _ _ _ Eb). simpl. unfold rest in Hit. by rewrite drop_0 in Hit.
  - destruct (lookup_lt_is_Some_2 b pos) as [e He]; [lia|]. eexists. split; [done|].
    unfold rest. rewrite (drop_S _ _ _ He). simpl. exists i, pos, b. done.
Qed.
Lemma hash_next_spec i pos b :
  buckets h !! i = Some b → (pos ≤ length b)%nat →
  ∃ it, match rest i pos b with
    | [] => hash_next h (HashIterator (Z.of_nat i) (Some (Z.of_nat pos - 1))) = Ret (None, it)
    | e :: r => hash_next h (HashIterator (Z.of_nat i) (Some (Z.of_nat pos - 1))) = Ret (Some e, it) ∧
                at_elem it e r
    end.
Proof.
  intros Hi Hpos. unfold hash_next. simpl it_elem. cbv iota. rewrite Z.sub_add.
  destruct (hash_next_loop_spec (S (length (buckets h))) i pos b) as (it & Eit & Hit); [done|lia..|].
  simpl it_bucket. rewrite Eit. exists it. destruct (rest i pos b) as [|e r].
  - simpl. unfold hash_cur. by rewrite Hit.
  - split; [|done]. destruct Hit as (i' & pos' & b' & -> & Hi' & He & _).
    unfold hash_cur, get_bucket. cbn [obind it_elem it_bucket].
    rewrite Nat2Z.id, Hi'. simpl. by rewrite Nat2Z.id, He.
Qed.

(** The iteration idiom of hash.c: the elements [hash_next] returns. *)
Fixpoint hash_iterate (fuel : nat) (it : hash_iterator) : outcome (list E) :=
  match fuel with
  | O => NoFuel
  | S fuel =>
      try r <- hash_next h it;
      match r.1 with
      | None => Ret []
      | Some f => try fs <- hash_iterate fuel r.2; Ret (f :: fs)
      end
  end.
Lemma hash_iterate_spec fuel i pos b :
  buckets h !! i = Some b → (pos ≤ length b)%nat → (length (rest i pos b) < fuel)%nat →
  hash_iterate fuel (HashIterator (Z.of_nat i) (Some (Z.of_nat pos - 1))) = Ret (rest i pos b).
Proof.
  revert i pos b. induction fuel as [|fuel IH]; intros i pos b Hi Hpos Hf; [lia|]. cbn [hash_iterate].
  destruct (hash_next_spec i pos b Hi Hpos) as (it & Hit). destruct (rest i pos b) as [|e r] eqn:Er.
  - by rewrite Hit.
  - destruct Hit as [-> (i' & pos' & b' & -> & Hi' & He & ->)]. simpl.
    apply lookup_lt_Some in He as Hlt. simpl in Hf.
    replace (Some (Z.of_nat pos')) with (Some (Z.of_nat (S pos') - 1)) by (f_equal; lia).
    by rewrite (IH i' (S pos') b') by (done || lia).
Qed.
End iteration.

Lemma hash_apply_loop_concat {E} (bs : list (list E)) : hash_apply_loop bs = concat bs.
Proof.
  induction bs as [|b bs IH]; simpl; [done|]. f_equal; [|done].
  by induction b as [|e b IHb]; simpl; [|rewrite IHb].
Qed.

(** ** FNV hashing *)
Lemma lxor_u32_range a c : 0 ≤ c < 2 ^ 8 → 0 ≤ Z.lxor (u32 a) c < 2 ^ 32.
Proof.
  intros Hc. pose proof (u32_range a). split; [apply Z.lxor_nonneg; lia|].
  destruct (Z.eq_dec (Z.lxor (u32 a) c) 0) as [->|]; [lia|].
  apply Z.log2_lt_pow2; [pose proof (proj2 (Z.lxor_nonneg (u32 a) c)); lia|].
  eapply Z.le_lt_trans; [apply Z.log2_lxor; lia|]. apply Z.max_lub_lt.
  - destruct (Z.eq_dec (u32 a) 0) as [->|]; [done|apply Z.log2_lt_pow2; lia].
  - destruct (Z.eq_dec c 0) as [->|]; [done|apply Z.log2_lt_pow2; lia].
Qed.
(** Multiplication by the odd FNV prime loses nothing modulo 2^32. *)
Lemma fnv_mul_inj a b :
  0 ≤ a < 2 ^ 32 → 0 ≤ b < 2 ^ 32 → u32 (a * FNV_32_PRIME) = u32 (b * FNV_32_PRIME) → a = b.
Proof.
  intros Ha Hb Hab. unfold u32, FNV_32_PRIME in *.
  assert (∀ z, ((z * 16777619) `mod` 2 ^ 32 * 899433627) `mod` 2 ^ 32 = z `mod` 2 ^ 32) as Hinv.
  { intros z. rewrite Zmult_mod_idemp_l, <-Z.mul_assoc, Z.mul_mod by lia.
    replace ((16777619 * 899433627) `mod` 2 ^ 32) with 1 by done.
    by rewrite Z.mul_1_r, Z.mod_mod. }
  rewrite <-(Z.mod_small a (2 ^ 32)), <-(Z.mod_small b (2 ^ 32)), <-Hinv, Hab, Hinv by done. done.
Qed.
Lemma fnv_step_inj a b c :
  0 ≤ a < 2 ^ 32 → 0 ≤ b < 2 ^ 32 →
  Z.lxor (u32 (a * FNV_32_PRIME)) c = Z.lxor (u32 (b * FNV_32_PRIME)) c → a = b.
Proof.
  intros Ha Hb Hx. apply fnv_mul_inj; [done..|].
  apply (f_equal (λ z, Z.lxor z c)) in Hx. by rewrite !Z.lxor_assoc, Z.lxor_nilpotent, !Z.lxor_0_r in Hx.
Qed.
Lemma hash_bytes_loop_app a u v : hash_bytes_loop a (u ++ v) = hash_bytes_loop (hash_bytes_loop a u) v.
Proof. revert a. induction u as [|c u IH]; intros a; simpl; [done|apply IH]. Qed.
Definition byte (c : Z) : Prop := 0 ≤ c < 2 ^ 8.
Lemma hash_bytes_loop_range a u :
  Forall byte u → 0 ≤ a < 2 ^ 32 → 0 ≤ hash_bytes_loop a u < 2 ^ 32.
Proof.
  intros Hu. revert a. induction Hu as [|c u Hc Hu IH]; intros a Ha; simpl; [done|].
  apply IH. by apply lxor_u32_range.
Qed.
Lemma hash_bytes_loop_inj u a b :
  Forall byte u → 0 ≤ a < 2 ^ 32 → 0 ≤ b < 2 ^ 32 →
  hash_bytes_loop a u = hash_bytes_loop b u → a = b.
Proof.
  intros Hu. revert a b. induction Hu as [|c u Hc Hu IH]; intros a b Ha Hb Heq; simpl in Heq; [done|].
  apply (fnv_step_inj a b c); [done..|]. apply IH; [by apply lxor_u32_range..|done].
Qed.

(** ** Properties *)
(** C4. Under the contract of HASH and LESS, any sequence of insertions,
    replacements, deletions, lookups and size queries on a well-formed table
    returns, gives the results the operations give on a finite map, and leaves
    a well-formed table of the resulting map, whether or not each [malloc] of
    [rehash] succeeds. *)
Theorem hash_refinement {E K : Type} `{!EqDecision E, Countable K}
    (hash_fn : E → Z) (less : E → E → bool) (key : E → K) `{!HashKey hash_fn less key} os h :
  hash_wf hash_fn key h → elem_cnt h + Z.of_nat (length os) < 2 ^ 32 →
  ∃ h', exec_hops hash_fn less os h = Ret ((spec_hops key os (abs key h)).1, h') ∧
    hash_wf hash_fn key h' ∧ abs key h' = (spec_hops key os (abs key h)).2.
Proof. apply exec_hops_refines. apply _. Qed.

Definition demo_key (e : Z) : Z := e `mod` 100.
Definition demo_less (a b : Z) : bool := demo_key a <? demo_key b.
#[local] Instance demo_contract : HashKey demo_key demo_less demo_key.
Proof.
  split; unfold demo_less.
  - intros a b. rewrite andb_true_iff, !negb_true_iff, !Z.ltb_ge. lia.
  - done.
  - intros a. unfold demo_key. pose proof (Z.mod_pos_bound a 100). lia.
Qed.
Definition demo_table : hash Z := Hash 3 4 [[304]; [105]; [102]; []].
Lemma demo_table_wf : hash_wf demo_key demo_key demo_table.
Proof.
  split; [split| | |]; try done.
  - by exists 2.
  - intros i b e Hi He. destruct i as [|[|[|[|i]]]]; simpl in Hi; simplify_eq;
      rewrite ?elem_of_cons, elem_of_nil in He; by repeat destruct He as [->|He].
  - by apply (bool_decide_unpack _); vm_compute.
Qed.
Lemma hash_refinement_witness :
  let os := [HInsert true 7; HInsert false 202; HReplace true 205; HDelete true 4; HFind 2; HSize] in
  ∃ h', exec_hops demo_key demo_less os demo_table =
        Ret ((spec_hops demo_key os (abs demo_key demo_table)).1, h') ∧
    hash_wf demo_key demo_key h' ∧ abs demo_key h' = (spec_hops demo_key os (abs demo_key demo_table)).2.
Proof. intros os. apply hash_refinement; [apply _|apply demo_table_wf|done]. Defined.

(** C5. The iteration idiom visits every element of the table exactly once,
    bucket by bucket, and ends. *)
Theorem hash_iteration_complete {E K : Type} `{!EqDecision E, Countable K}
    (hash_fn : E → Z) (less : E → E → bool) (key : E → K) (h : hash E) :
  hash_wf hash_fn key h →
  hash_iterate h (S (length (elems h))) (hash_first h) = Ret (elems h) ∧
  hash_apply h = elems h ∧ NoDup (elems h).
Proof.
  intros Hwf. pose proof (wf_placed _ _ h Hwf) as Hp. pose proof (pl_len _ h Hp) as Hlen.
  pose proof (bucket_cnt_bounds _ h Hp). split_and!.
  - unfold elems. destruct (buckets h) as [|b bs] eqn:Eb; [simpl in *; lia|].
    change (hash_first h) with (HashIterator (Z.of_nat 0) (Some (Z.of_nat 0 - 1))).
    rewrite (hash_iterate_spec h) with (b := b); unfold rest; rewrite ?Eb, ?drop_0; simpl; rewrite ?drop_0; try done; lia.
  - apply hash_apply_loop_concat.
  - eapply NoDup_fmap_1, Hwf.
Qed.
Lemma hash_iteration_complete_witness :
  hash_iterate demo_table (S (length (elems demo_table))) (hash_first demo_table) = Ret (elems demo_table) ∧
  hash_apply demo_table = elems demo_table ∧ NoDup (elems demo_table).
Proof. apply (hash_iteration_complete demo_key demo_less demo_key), demo_table_wf. Defined.

(** [hash_bytes] separates buffers that differ in a single byte. *)
Theorem hash_bytes_one_byte u c d v :
  Forall byte u → byte c → byte d → Forall byte v → c ≠ d →
  hash_bytes (u ++ c :: v) ≠ hash_bytes (u ++ d :: v).
Proof.
  intros Hu Hc Hd Hv Hne Heq. unfold hash_bytes in Heq. rewrite !hash_bytes_loop_app in Heq. simpl in Heq.
  apply hash_bytes_loop_inj in Heq; [|done|by apply lxor_u32_range..]. apply Hne.
  apply (f_equal (Z.lxor (u32 (hash_bytes_loop FNV_32_BASIS u * FNV_32_PRIME)))) in Heq.
  by rewrite <-!Z.lxor_assoc, Z.lxor_nilpotent, !Z.lxor_0_l in Heq.
Qed.
Lemma hash_bytes_one_byte_witness :
  hash_bytes ([1] ++ 2 :: [3]) ≠ hash_bytes ([1] ++ 255 :: [3]).
Proof.
  apply hash_bytes_one_byte; rewrite ?Forall_cons, ?Forall_nil; unfold byte; lia.
Defined.
