(* ===== verification/FixedPoint.v ===== *)
(** * threads/fixed-point.h: 17.14 fixed-point arithmetic

    A [fp] is a 32-bit signed integer scaled by [F].  Arithmetic is done at the
    width C uses: products and quotients in 64 bits, then converted. *)

From stdpp Require Import base numbers.
From S2P Require Import Prelude.
Local Open Scope Z_scope.

Definition F : Z := Z.shiftl 1 14.
Definition fp_is_positive (x : Z) : bool := Z.shiftr x 31 =? 0.
Definition fp_int_to_fp (n : Z) : Z := i32 (n * F).
Definition fp_x_to_integer_round_to_zero (x : Z) : Z := Z.quot x F.
Definition fp_x_to_integer_round_to_nearest (x : Z) : Z :=
  if fp_is_positive x then Z.quot (i32 (x + Z.quot F 2)) F else Z.quot (i32 (x - Z.quot F 2)) F.
Definition fp_add (x y : Z) : Z := i32 (x + y).
Definition fp_sub (x y : Z) : Z := i32 (x - y).
Definition fp_add_fp_and_int (x n : Z) : Z := i32 (x + i32 (n * F)).
Definition fp_sub_n_from_x (x n : Z) : Z := i32 (x - i32 (n * F)).
Definition fp_multi (x y : Z) : Z := i32 (Z.quot (i64 (x * y)) F).
Definition fp_multi_fp_int (x n : Z) : Z := i32 (x * n).
Definition fp_divide (x y : Z) : Z := i32 (Z.quot (i64 (x * F)) y).
Definition fp_divide_x_by_n (x n : Z) : Z := Z.quot x n.
Definition fp_frac (d n : Z) : Z := fp_divide_x_by_n (fp_int_to_fp d) n.

Lemma F_value : F = 16384.
Proof. done. Qed.

Lemma fp_is_positive_spec x : - 2 ^ 31 ≤ x < 2 ^ 31 → fp_is_positive x = (0 <=? x).
Proof.
  intros Hx. unfold fp_is_positive. rewrite Z.shiftr_div_pow2 by lia.
  destruct (Z.leb_spec 0 x).
  - rewrite Z.div_small by lia. done.
  - apply Z.eqb_neq. intros E. apply Z.div_small_iff in E; lia.
Qed.
(** The remainder of a truncating division is smaller than the divisor. *)
Lemma quot_error a b : b ≠ 0 → Z.abs (Z.quot a b * b - a) < Z.abs b.
Proof.
  intros Hb. pose proof (Z.quot_rem a b Hb). pose proof (Z.rem_bound_abs a b Hb). lia.
Qed.
Lemma round_to_nearest_error x :
  - 2 ^ 31 + 2 ^ 13 ≤ x < 2 ^ 31 - 2 ^ 13 →
  2 * Z.abs (fp_x_to_integer_round_to_nearest x * F - x) ≤ F.
Proof.
  intros Hx. unfold fp_x_to_integer_round_to_nearest. rewrite fp_is_positive_spec by lia.
  rewrite F_value. change (Z.quot 16384 2) with 8192. destruct (Z.leb_spec 0 x).
  - rewrite i32_small by lia. pose proof (Z.quot_rem (x + 8192) 16384).
    pose proof (Z.rem_bound_pos (x + 8192) 16384 ltac:(lia) ltac:(lia)). lia.
  - rewrite i32_small by lia. pose proof (Z.quot_rem (x - 8192) 16384).
    pose proof (Z.rem_bound_pos_neg (x - 8192) 16384 ltac:(lia) ltac:(lia)). lia.
Qed.

(** ** Property *)
(** C11. Accuracy of the fixed-point operations on operands whose result is
    representable: an integer survives the conversion to fixed point and back
    with both roundings, rounding to nearest is off by at most one half, a
    product by less than one unit in the last place, and a quotient by less
    than one unit of the divisor. *)
Theorem fp_accuracy x y n :
  - 2 ^ 17 < n < 2 ^ 17 → - 2 ^ 31 + 2 ^ 13 ≤ x < 2 ^ 31 - 2 ^ 13 → - 2 ^ 31 ≤ y < 2 ^ 31 → y ≠ 0 →
  - 2 ^ 31 ≤ Z.quot (x * y) F < 2 ^ 31 → - 2 ^ 31 ≤ Z.quot (x * F) y < 2 ^ 31 →
  fp_x_to_integer_round_to_zero (fp_int_to_fp n) = n ∧
  fp_x_to_integer_round_to_nearest (fp_int_to_fp n) = n ∧
  2 * Z.abs (fp_x_to_integer_round_to_nearest x * F - x) ≤ F ∧
  Z.abs (fp_multi x y * F - x * y) < F ∧
  Z.abs (fp_divide x y * y - x * F) < Z.abs y.
Proof.
  intros Hn Hx Hy Hy0 Hm Hd. split_and!.
  - unfold fp_x_to_integer_round_to_zero, fp_int_to_fp. rewrite F_value in *.
    rewrite i32_small by lia. by apply Z.quot_mul.
  - assert (fp_int_to_fp n = n * F) as E by (unfold fp_int_to_fp; rewrite F_value, i32_small; lia).
    pose proof (round_to_nearest_error (fp_int_to_fp n)) as H. rewrite E, F_value in *. lia.
  - by apply round_to_nearest_error.
  - unfold fp_multi. assert (- 2 ^ 63 ≤ x * y < 2 ^ 63) by nia.
    rewrite i64_small, i32_small by done. pose proof (quot_error (x * y) F ltac:(done)) as H'.
    by rewrite F_value in *.
  - unfold fp_divide. rewrite i64_small by (rewrite F_value; lia). rewrite i32_small by done.
    by apply quot_error.
Qed.
Lemma fp_accuracy_witness :
  fp_x_to_integer_round_to_zero (fp_int_to_fp (-59)) = -59 ∧
  fp_x_to_integer_round_to_nearest (fp_int_to_fp (-59)) = -59 ∧
  2 * Z.abs (fp_x_to_integer_round_to_nearest 966656 * F - 966656) ≤ F ∧
  Z.abs (fp_multi 966656 983040 * F - 966656 * 983040) < F ∧
  Z.abs (fp_divide 966656 983040 * 983040 - 966656 * F) < Z.abs 983040.
Proof. apply (fp_accuracy 966656 983040 (-59)); by vm_compute. Defined.
