(* ===== verification/Thread.v ===== *)
(** * threads/thread.c and threads/interrupt.c: kernel threads

    One processor runs the thread [cur].  The state of the kernel is a record
    of the globals of thread.c, timer.c and interrupt.c and of the memory the
    threads share: the [struct thread]s, the semaphores, locks and condition
    variables.  Lists of threads ([ready_list], [blocked_list], [all_list] and
    the waiters of a semaphore) are sequences of thread addresses.

    A thread that is switched out inside a kernel function has the rest of that
    function on its stack.  The model keeps it in [prog]: the instructions the
    thread executes when it runs again.  [schedule] ends in the context of the
    thread that was switched to, as [switch_threads] does. *)

From stdpp Require Import base numbers list gmap.
From S2P Require Import Prelude KList FixedPoint.
Local Open Scope Z_scope.

(** ** Data *)
Inductive thread_status := THREAD_RUNNING | THREAD_READY | THREAD_BLOCKED | THREAD_DYING.
Inductive intr_level := INTR_OFF | INTR_ON.
#[global] Instance thread_status_eq_dec : EqDecision thread_status.
Proof. solve_decision. Defined.
#[global] Instance intr_level_eq_dec : EqDecision intr_level.
Proof. solve_decision. Defined.

Definition PRI_MIN : Z := 0.
Definition PRI_DEFAULT : Z := 31.
Definition PRI_MAX : Z := 63.
Definition TID_ERROR : Z := -1.
Definition TIME_SLICE : Z := 4.

(** The address of a [struct thread] (the base of its page) and of a
    [struct lock] or [struct condition]. *)
Abbreviation tptr := loc.
(** A semaphore object: a free-standing one, the one inside a lock, and the one
    in the [struct semaphore_elem] on the stack of a thread in [cond_wait]. *)
Inductive sema_id := SPlain (n : N) | SLock (l : loc) | SWait (t : tptr).
#[global] Instance sema_id_eq_dec : EqDecision sema_id.
Proof. solve_decision. Defined.
#[global] Instance sema_id_countable : Countable sema_id.
Proof.
  apply (inj_countable' (λ s, match s with SPlain n => inl n | SLock l => inr (inl l) | SWait t => inr (inr t) end)
    (λ x, match x with inl n => SPlain n | inr (inl l) => SLock l | inr (inr t) => SWait t end)).
  by intros [].
Defined.

(** What is left of the kernel functions a thread is in. *)
Inductive instr :=
  | ISetLevel (old : intr_level)      (** [intr_set_level (old_level)] *)
  | IIret                             (** return from the timer interrupt *)
  | IStart                            (** [switch_entry], then [kernel_thread] *)
  | ISemaDown (s : sema_id)           (** call [sema_down] *)
  | ISemaWait (s : sema_id) (old : intr_level)  (** in the loop of [sema_down] *)
  | ISemaUp (s : sema_id)
  | ILockAcquire (l : loc)
  | ISetHolder (l : loc)              (** [lock->holder = thread_current ()] *)
  | ILockRelease (l : loc)
  | ISleep                            (** in [timer_sleep], after the insertion *)
  | ISleepWake (old : intr_level)     (** in [timer_sleep], after [thread_block] *)
  | IAllocTid (t : tptr)              (** [tid = next_tid++] for thread [t] *)
  | IUnblock (t : tptr)               (** the end of [thread_create] *)
  | ISetIdle                          (** [idle_thread = thread_current ()] *)
  | IIdle                             (** the loop of [idle] *)
  | IHlt.                             (** [sti; hlt] *)
#[global] Instance instr_eq_dec : EqDecision instr.
Proof. solve_decision. Defined.

Record thread := Thread {
  tid : Z; status : thread_status; priority : Z; blocked_ticks : Z;
  recent_cpu : Z; pagedir : bool; parent : option tptr; prog : list instr }.
Record semaphore := Semaphore { value : Z; waiters : list tptr }.

Record kernel := Kernel {
  threads : gmap tptr thread;      (** pages that hold a [struct thread] *)
  cur : tptr;                      (** the page %esp points into *)
  ready_list : list tptr;
  blocked_list : list tptr;
  all_list : list tptr;
  idle_thread : option tptr;
  initial_thread : option tptr;
  semas : gmap sema_id semaphore;
  holders : gmap loc (option tptr);   (** [lock->holder] *)
  conds : gmap loc (list tptr);       (** [cond->waiters] *)
  links : heap;                    (** the [locks] lists of the threads *)
  intr : intr_level;
  in_external_intr : bool;
  yield_on_return : bool;
  ticks : Z;
  thread_ticks : Z;
  idle_ticks : Z; kernel_ticks : Z; user_ticks : Z;
  next_tid : Z }.

Definition set_threads x (k : kernel) : kernel :=
  Kernel x (cur k) (ready_list k) (blocked_list k) (all_list k) (idle_thread k) (initial_thread k)
    (semas k) (holders k) (conds k) (links k) (intr k) (in_external_intr k) (yield_on_return k)
    (ticks k) (thread_ticks k) (idle_ticks k) (kernel_ticks k) (user_ticks k) (next_tid k).
Definition set_cur x (k : kernel) : kernel :=
  Kernel (threads k) x (ready_list k) (blocked_list k) (all_list k) (idle_thread k)
    (initial_thread k) (semas k) (holders k) (conds k) (links k) (intr k) (in_external_intr k)
    (yield_on_return k) (ticks k) (thread_ticks k) (idle_ticks k) (kernel_ticks k) (user_ticks k)
    (next_tid k).
Definition set_ready_list x (k : kernel) : kernel :=
  Kernel (threads k) (cur k) x (blocked_list k) (all_list k) (idle_thread k) (initial_thread k)
    (semas k) (holders k) (conds k) (links k) (intr k) (in_external_intr k) (yield_on_return k)
    (ticks k) (thread_ticks k) (idle_ticks k) (kernel_ticks k) (user_ticks k) (next_tid k).
Definition set_blocked_list x (k : kernel) : kernel :=
  Kernel (threads k) (cur k) (ready_list k) x (all_list k) (idle_thread k) (initial_thread k)
    (semas k) (holders k) (conds k) (links k) (intr k) (in_external_intr k) (yield_on_return k)
    (ticks k) (thread_ticks k) (idle_ticks k) (kernel_ticks k) (user_ticks k) (next_tid k).
Definition set_all_list x (k : kernel) : kernel :=
  Kernel (threads k) (cur k) (ready_list k) (blocked_list k) x (idle_thread k) (initial_thread k)
    (semas k) (holders k) (conds k) (links k) (intr k) (in_external_intr k) (yield_on_return k)
    (ticks k) (thread_ticks k) (idle_ticks k) (kernel_ticks k) (user_ticks k) (next_tid k).
Definition set_idle_thread x (k : kernel) : kernel :=
  Kernel (threads k) (cur k) (ready_list k) (blocked_list k) (all_list k) x (initial_thread k)
    (semas k) (holders k) (conds k) (links k) (intr k) (in_external_intr k) (yield_on_return k)
    (ticks k) (thread_ticks k) (idle_ticks k) (kernel_ticks k) (user_ticks k) (next_tid k).
Definition set_initial_thread x (k : kernel) : kernel :=
  Kernel (threads k) (cur k) (ready_list k) (blocked_list k) (all_list k) (idle_thread k) x (semas
    k) (holders k) (conds k) (links k) (intr k) (in_external_intr k) (yield_on_return k) (ticks k)
    (thread_ticks k) (idle_ticks k) (kernel_ticks k) (user_ticks k) (next_tid k).
Definition set_semas x (k : kernel) : kernel :=
  Kernel (threads k) (cur k) (ready_list k) (blocked_list k) (all_list k) (idle_thread k)
    (initial_thread k) x (holders k) (conds k) (links k) (intr k) (in_external_intr k)
    (yield_on_return k) (ticks k) (thread_ticks k) (idle_ticks k) (kernel_ticks k) (user_ticks k)
    (next_tid k).
Definition set_holders x (k : kernel) : kernel :=
  Kernel (threads k) (cur k) (ready_list k) (blocked_list k) (all_list k) (idle_thread k)
    (initial_thread k) (semas k) x (conds k) (links k) (intr k) (in_external_intr k)
    (yield_on_return k) (ticks k) (thread_ticks k) (idle_ticks k) (kernel_ticks k) (user_ticks k)
    (next_tid k).
Definition set_conds x (k : kernel) : kernel :=
  Kernel (threads k) (cur k) (ready_list k) (blocked_list k) (all_list k) (idle_thread k)
    (initial_thread k) (semas k) (holders k) x (links k) (intr k) (in_external_intr k)
    (yield_on_return k) (ticks k) (thread_ticks k) (idle_ticks k) (kernel_ticks k) (user_ticks k)
    (next_tid k).
Definition set_links x (k : kernel) : kernel :=
  Kernel (threads k) (cur k) (ready_list k) (blocked_list k) (all_list k) (idle_thread k)
    (initial_thread k) (semas k) (holders k) (conds k) x (intr k) (in_external_intr k)
    (yield_on_return k) (ticks k) (thread_ticks k) (idle_ticks k) (kernel_ticks k) (user_ticks k)
    (next_tid k).
Definition set_intr x (k : kernel) : kernel :=
  Kernel (threads k) (cur k) (ready_list k) (blocked_list k) (all_list k) (idle_thread k)
    (initial_thread k) (semas k) (holders k) (conds k) (links k) x (in_external_intr k)
    (yield_on_return k) (ticks k) (thread_ticks k) (idle_ticks k) (kernel_ticks k) (user_ticks k)
    (next_tid k).
Definition set_in_external_intr x (k : kernel) : kernel :=
  Kernel (threads k) (cur k) (ready_list k) (blocked_list k) (all_list k) (idle_thread k)
    (initial_thread k) (semas k) (holders k) (conds k) (links k) (intr k) x (yield_on_return k)
    (ticks k) (thread_ticks k) (idle_ticks k) (kernel_ticks k) (user_ticks k) (next_tid k).
Definition set_yield_on_return x (k : kernel) : kernel :=
  Kernel (threads k) (cur k) (ready_list k) (blocked_list k) (all_list k) (idle_thread k)
    (initial_thread k) (semas k) (holders k) (conds k) (links k) (intr k) (in_external_intr k) x
    (ticks k) (thread_ticks k) (idle_ticks k) (kernel_ticks k) (user_ticks k) (next_tid k).
Definition set_ticks x (k : kernel) : kernel :=
  Kernel (threads k) (cur k) (ready_list k) (blocked_list k) (all_list k) (idle_thread k)
    (initial_thread k) (semas k) (holders k) (conds k) (links k) (intr k) (in_external_intr k)
    (yield_on_return k) x (thread_ticks k) (idle_ticks k) (kernel_ticks k) (user_ticks k)
    (next_tid k).
Definition set_thread_ticks x (k : kernel) : kernel :=
  Kernel (threads k) (cur k) (ready_list k) (blocked_list k) (all_list k) (idle_thread k)
    (initial_thread k) (semas k) (holders k) (conds k) (links k) (intr k) (in_external_intr k)
    (yield_on_return k) (ticks k) x (idle_ticks k) (kernel_ticks k) (user_ticks k) (next_tid k).
Definition set_idle_ticks x (k : kernel) : kernel :=
  Kernel (threads k) (cur k) (ready_list k) (blocked_list k) (all_list k) (idle_thread k)
    (initial_thread k) (semas k) (holders k) (conds k) (links k) (intr k) (in_external_intr k)
    (yield_on_return k) (ticks k) (thread_ticks k) x (kernel_ticks k) (user_ticks k) (next_tid k).
Definition set_kernel_ticks x (k : kernel) : kernel :=
  Kernel (threads k) (cur k) (ready_list k) (blocked_list k) (all_list k) (idle_thread k)
    (initial_thread k) (semas k) (holders k) (conds k) (links k) (intr k) (in_external_intr k)
    (yield_on_return k) (ticks k) (thread_ticks k) (idle_ticks k) x (user_ticks k) (next_tid k).
Definition set_user_ticks x (k : kernel) : kernel :=
  Kernel (threads k) (cur k) (ready_list k) (blocked_list k) (all_list k) (idle_thread k)
    (initial_thread k) (semas k) (holders k) (conds k) (links k) (intr k) (in_external_intr k)
    (yield_on_return k) (ticks k) (thread_ticks k) (idle_ticks k) (kernel_ticks k) x (next_tid k).
Definition set_next_tid x (k : kernel) : kernel :=
  Kernel (threads k) (cur k) (ready_list k) (blocked_list k) (all_list k) (idle_thread k)
    (initial_thread k) (semas k) (holders k) (conds k) (links k) (intr k) (in_external_intr k)
    (yield_on_return k) (ticks k) (thread_ticks k) (idle_ticks k) (kernel_ticks k) (user_ticks k)
    x.

Definition set_tid x (k : thread) : thread :=
  Thread x (status k) (priority k) (blocked_ticks k) (recent_cpu k) (pagedir k) (parent k) (prog
    k).
Definition set_status x (k : thread) : thread :=
  Thread (tid k) x (priority k) (blocked_ticks k) (recent_cpu k) (pagedir k) (parent k) (prog k).
Definition set_priority x (k : thread) : thread :=
  Thread (tid k) (status k) x (blocked_ticks k) (recent_cpu k) (pagedir k) (parent k) (prog k).
Definition set_blocked_ticks x (k : thread) : thread :=
  Thread (tid k) (status k) (priority k) x (recent_cpu k) (pagedir k) (parent k) (prog k).
Definition set_recent_cpu x (k : thread) : thread :=
  Thread (tid k) (status k) (priority k) (blocked_ticks k) x (pagedir k) (parent k) (prog k).
Definition set_pagedir x (k : thread) : thread :=
  Thread (tid k) (status k) (priority k) (blocked_ticks k) (recent_cpu k) x (parent k) (prog k).
Definition set_parent x (k : thread) : thread :=
  Thread (tid k) (status k) (priority k) (blocked_ticks k) (recent_cpu k) (pagedir k) x (prog k).
Definition set_prog x (k : thread) : thread :=
  Thread (tid k) (status k) (priority k) (blocked_ticks k) (recent_cpu k) (pagedir k) (parent k)
    x.

(** ** Memory *)
(** A pointer to a [struct thread]: [is_thread] is that the page holds one. *)
Definition is_thread (t : tptr) (k : kernel) : bool := bool_decide (is_Some (threads k !! t)).
Definition get_thread (t : tptr) : M kernel thread := λ k,
  match threads k !! t with Some th => Ret (th, k) | None => Panic end.
Definition put_thread (t : tptr) (th : thread) : M kernel unit :=
  modifyM (λ k, set_threads (<[t := th]> (threads k)) k).
Definition mod_thread (t : tptr) (f : thread → thread) : M kernel unit :=
  do th <- get_thread t; put_thread t (f th).
(** Save [i] as the next instruction of thread [t]. *)
Definition push_prog (t : tptr) (i : instr) : M kernel unit :=
  mod_thread t (λ th, set_prog (i :: prog th) th).
(** An operation of list.c on the [locks] lists. *)
Definition on_links {A} (m : M heap A) : M kernel A := λ k,
  match m (links k) with
  | Ret (a, h) => Ret (a, set_links h k)
  | Panic => Panic
  | NoFuel => NoFuel
  end.
(** [&t->locks] and [&lock->lockElem]. *)
Definition locks_of (t : tptr) : loc := (t + 68)%N.
Definition lockElem (l : loc) : loc := (l + 24)%N.

(** ** interrupt.c *)
Definition intr_get_level : M kernel intr_level := λ k, Ret (intr k, k).
Definition intr_context : M kernel bool := λ k, Ret (in_external_intr k, k).
Definition intr_enable : M kernel intr_level :=
  do old_level <- intr_get_level; do c <- intr_context; run assertM (negb c);
  run modifyM (set_intr INTR_ON); retM old_level.
Definition intr_disable : M kernel intr_level :=
  do old_level <- intr_get_level; run modifyM (set_intr INTR_OFF); retM old_level.
Definition intr_set_level (level : intr_level) : M kernel intr_level :=
  match level with INTR_ON => intr_enable | INTR_OFF => intr_disable end.
Definition intr_yield_on_return : M kernel unit :=
  do c <- intr_context; run assertM c; modifyM (set_yield_on_return true).
Definition assert_intr_off : M kernel unit :=
  do l <- intr_get_level; assertM (bool_decide (l = INTR_OFF)).
Definition assert_not_intr_context : M kernel unit :=
  do c <- intr_context; assertM (negb c).

(** ** thread.c: the running thread *)
Definition running_thread : M kernel tptr := λ k, Ret (cur k, k).
Definition thread_current : M kernel tptr :=
  do t <- running_thread; do th <- get_thread t;
  run assertM (bool_decide (status th = THREAD_RUNNING)); retM t.
Definition thread_tid : M kernel Z :=
  do t <- thread_current; do th <- get_thread t; retM (tid th).
Definition thread_set_priority (new_priority : Z) : M kernel unit :=
  do t <- thread_current; mod_thread t (set_priority new_priority).
Definition thread_get_priority : M kernel Z :=
  do t <- thread_current; do th <- get_thread t; retM (priority th).
Definition set_thread_blocked_ticks (t : tptr) (n : Z) : M kernel unit :=
  mod_thread t (set_blocked_ticks n).
Definition threads_ready : M kernel Z := λ k, Ret (u32 (Z.of_nat (length (ready_list k))), k).
(** The calls that are not implemented. *)
Definition thread_set_nice (nice : Z) : M kernel unit := retM tt.
Definition thread_get_nice : M kernel Z := retM 0.
Definition thread_get_load_avg : M kernel Z := retM 0.
Definition thread_get_recent_cpu : M kernel Z := retM 0.

(** ** thread.c: switching threads *)
Definition next_thread_to_run : M kernel (option tptr) := λ k,
  match ready_list k with
  | [] => Ret (idle_thread k, k)
  | t :: ts => Ret (Some t, set_ready_list ts k)
  end.
(** [palloc_free_page] on the page of a [struct thread]: the structure and the
    [locks] list head in it are gone. *)
Definition free_thread (t : tptr) (k : kernel) : kernel :=
  set_links (delete (head (locks_of t)) (delete (tail (locks_of t)) (links k)))
    (set_threads (delete t (threads k)) k).
(** [process_activate] loads the page directory and the TSS of the thread;
    neither is part of this state. *)
Definition thread_schedule_tail (prev : option tptr) : M kernel unit :=
  do cur <- running_thread;
  run assert_intr_off;
  run mod_thread cur (set_status THREAD_RUNNING);
  run modifyM (set_thread_ticks 0);
  match prev with
  | None => retM tt
  | Some prev =>
      do th <- get_thread prev; do k <- getM;
      if bool_decide (status th = THREAD_DYING) && negb (bool_decide (initial_thread k = Some prev))
      then run assertM (negb (prev =? cur)%N);
           modifyM (free_thread prev)
      else retM tt
  end.
Definition schedule : M kernel unit :=
  do cur <- running_thread;
  do next <- next_thread_to_run;
  run assert_intr_off;
  do th <- get_thread cur;
  run assertM (negb (bool_decide (status th = THREAD_RUNNING)));
  match next with
  | None => panicM
  | Some next =>
      do k <- getM; run assertM (is_thread next k);
      if negb (cur =? next)%N
      then run modifyM (set_cur next); thread_schedule_tail (Some cur)
      else thread_schedule_tail None
  end.

Definition thread_block : M kernel unit :=
  run assert_not_intr_context;
  run assert_intr_off;
  do t <- thread_current; run mod_thread t (set_status THREAD_BLOCKED);
  schedule.
Definition thread_unblock (t : tptr) : M kernel unit :=
  do th <- get_thread t;
  do old_level <- intr_disable;
  run assertM (bool_decide (status th = THREAD_BLOCKED));
  run modifyM (λ k, set_ready_list (ready_list k ++ [t]) k);
  run mod_thread t (set_status THREAD_READY);
  run intr_set_level old_level; retM tt.
Definition thread_yield : M kernel unit :=
  do cur <- thread_current;
  run assert_not_intr_context;
  do old_level <- intr_disable;
  do k <- getM;
  run (if bool_decide (idle_thread k = Some cur) then retM tt
       else modifyM (λ k, set_ready_list (ready_list k ++ [cur]) k));
  run mod_thread cur (set_status THREAD_READY);
  run push_prog cur (ISetLevel old_level);
  schedule.
(** [process_exit] runs before: its kernel calls are calls of the thread. *)
Definition thread_exit : M kernel unit :=
  run assert_not_intr_context;
  run intr_disable;
  do t <- thread_current;
  run modifyM (λ k, set_all_list (filter (λ x, x ≠ t) (all_list k)) k);
  run mod_thread t (set_status THREAD_DYING);
  schedule.

(** ** thread.c: waking sleepers *)
(** The [while] over the list: [l] is the list from [e] on. *)
Fixpoint repeated_check_blocked_list (l : list tptr) (now : Z) : M kernel unit :=
  match l with
  | [] => retM tt
  | t :: next =>
      do th <- get_thread t;
      if blocked_ticks th <=? now then
        run modifyM (λ k, set_blocked_list (filter (λ x, x ≠ t) (blocked_list k)) k);
        run thread_unblock t;
        repeated_check_blocked_list next now
      else retM tt
  end.
Definition unblock_thread_with_enough_ticks (now : Z) : M kernel unit :=
  do k <- getM; repeated_check_blocked_list (blocked_list k) now.

(** ** thread.c: creating threads *)
Definition tid_lock : loc := 8%N.
(** The page at [t] is zeroed, so its [locks] list is two null elements until
    [list_init]. *)
Definition init_thread (t : tptr) (prio : Z) : M kernel unit :=
  run assertM (negb (t =? NULL)%N);
  run assertM ((PRI_MIN <=? prio) && (prio <=? PRI_MAX));
  do k <- getM;
  do par <- (if 0 <? Z.of_nat (length (all_list k))
             then do c <- thread_current; retM (Some c) else retM None);
  run put_thread t (Thread 0 THREAD_BLOCKED prio 0 0 false par []);
  run modifyM (λ k, set_links (<[head (locks_of t) := ListElem NULL NULL]>
                              (<[tail (locks_of t) := ListElem NULL NULL]> (links k))) k);
  run on_links (list_init (locks_of t));
  do old_level <- intr_disable;
  run modifyM (λ k, set_all_list (all_list k ++ [t]) k);
  run intr_set_level old_level; retM tt.
(** [thread_create] up to [allocate_tid], which takes a lock; [page] is what
    [palloc_get_page] returned, and [idle] the semaphore of the idle thread
    when FUNCTION is [idle].  [Some v] says that the call has returned [v];
    [None], that the saved instructions are the rest of it, after which it
    returns the [tid] that [IAllocTid] gave the thread. *)
Definition thread_create (page : option tptr) (prio : Z) (idle : option sema_id) : M kernel (option Z) :=
  match page with
  | None => retM (Some TID_ERROR)
  | Some t =>
      do cur <- running_thread;
      run init_thread t prio;
      run mod_thread cur (λ th, set_prog
        ([ILockAcquire tid_lock; IAllocTid t; ILockRelease tid_lock; IUnblock t] ++ prog th) th);
      run mod_thread t (set_prog (match idle with
        | Some s => [IStart; ISetIdle; ISemaUp s; IIdle]
        | None => [IStart]
        end));
      retM None
  end.
(** [tid = next_tid++] between the two lock operations of [allocate_tid]. *)
Definition allocate_tid (t : tptr) : M kernel unit :=
  do k <- getM;
  run modifyM (set_next_tid (i32 (next_tid k + 1)));
  mod_thread t (set_tid (next_tid k)).

(** ** thread.c: the list of all threads *)
Fixpoint lookup_tid_loop (l : list tptr) (id : Z) : M kernel (option tptr) :=
  match l with
  | [] => retM None
  | t :: l => do th <- get_thread t; if tid th =? id then retM (Some t) else lookup_tid_loop l id
  end.
Definition lookup_tid (id : Z) : M kernel (option tptr) :=
  do k <- getM; lookup_tid_loop (all_list k) id.
Fixpoint thread_foreach_loop (f : tptr → M kernel unit) (l : list tptr) : M kernel unit :=
  match l with
  | [] => retM tt
  | t :: l => run f t; thread_foreach_loop f l
  end.
Definition thread_foreach (f : tptr → M kernel unit) : M kernel unit :=
  run assert_intr_off; do k <- getM; thread_foreach_loop f (all_list k).

(** ** thread.c: the timer tick *)
Definition thread_tick : M kernel unit :=
  do t <- thread_current; do k <- getM; do th <- get_thread t;
  run (if bool_decide (idle_thread k = Some t) then modifyM (set_idle_ticks (i64 (idle_ticks k + 1)))
       else if pagedir th then modifyM (set_user_ticks (i64 (user_ticks k + 1)))
       else modifyM (set_kernel_ticks (i64 (kernel_ticks k + 1))));
  let n := u32 (thread_ticks k + 1) in
  run modifyM (set_thread_ticks n);
  if TIME_SLICE <=? n then intr_yield_on_return else retM tt.
