(* ===== verification/Synch.v ===== *)
(** * threads/synch.c: semaphores, locks, condition variables

    Operations of the running thread.  Where an operation can be switched out
    (a wait, or a point between two critical sections), the rest of it is
    pushed on the thread's [prog]. *)

From stdpp Require Import base numbers list gmap.
From S2P Require Import Prelude KList Thread.
Local Open Scope Z_scope.

Definition get_sema (s : sema_id) : M kernel semaphore := λ k,
  match semas k !! s with Some sm => Ret (sm, k) | None => Panic end.
Definition put_sema (s : sema_id) (sm : semaphore) : M kernel unit :=
  modifyM (λ k, set_semas (<[s := sm]> (semas k)) k).
Definition get_holder (l : loc) : M kernel (option tptr) := λ k,
  match holders k !! l with Some h => Ret (h, k) | None => Panic end.
Definition put_holder (l : loc) (h : option tptr) : M kernel unit :=
  modifyM (λ k, set_holders (<[l := h]> (holders k)) k).
Definition get_cond (c : loc) : M kernel (list tptr) := λ k,
  match conds k !! c with Some ws => Ret (ws, k) | None => Panic end.
Definition put_cond (c : loc) (ws : list tptr) : M kernel unit :=
  modifyM (λ k, set_conds (<[c := ws]> (conds k)) k).

(** ** Semaphores *)
Definition sema_init (s : sema_id) (v : Z) : M kernel unit := put_sema s (Semaphore v []).
(** The [while] of [sema_down] and what follows, with interrupts off. *)
Definition sema_down_loop (s : sema_id) (old_level : intr_level) : M kernel unit :=
  do sm <- get_sema s;
  if value sm =? 0 then
    do t <- thread_current;
    run put_sema s (Semaphore (value sm) (waiters sm ++ [t]));
    run push_prog t (ISemaWait s old_level);
    thread_block
  else
    run put_sema s (Semaphore (u32 (value sm - 1)) (waiters sm));
    run intr_set_level old_level; retM tt.
Definition sema_down (s : sema_id) : M kernel unit :=
  run assert_not_intr_context;
  do old_level <- intr_disable;
  sema_down_loop s old_level.
Definition sema_try_down (s : sema_id) : M kernel bool :=
  do old_level <- intr_disable;
  do sm <- get_sema s;
  do success <- (if 0 <? value sm
                 then run put_sema s (Semaphore (u32 (value sm - 1)) (waiters sm)); retM true
                 else retM false);
  run intr_set_level old_level; retM success.
Definition sema_up (s : sema_id) : M kernel unit :=
  do old_level <- intr_disable;
  do sm <- get_sema s;
  run (match waiters sm with
       | [] => retM tt
       | t :: ws => run put_sema s (Semaphore (value sm) ws); thread_unblock t
       end);
  do sm <- get_sema s;
  run put_sema s (Semaphore (u32 (value sm + 1)) (waiters sm));
  run intr_set_level old_level; retM tt.

(** ** Locks *)
(** The memory of the [struct lock] is there; what [lockElem] holds does not
    matter. *)
Definition lock_memory (l : loc) (k : kernel) : kernel :=
  set_links (<[lockElem l := default (ListElem NULL NULL) (links k !! lockElem l)]> (links k)) k.
Definition lock_init (l : loc) : M kernel unit :=
  run modifyM (lock_memory l);
  run put_holder l None; sema_init (SLock l) 1.
Definition lock_held_by_current_thread (l : loc) : M kernel bool :=
  do h <- get_holder l; do t <- thread_current; retM (bool_decide (h = Some t)).
Definition lock_acquire (l : loc) : M kernel unit :=
  run assert_not_intr_context;
  do held <- lock_held_by_current_thread l;
  if held then retM tt
  else
    do t <- thread_current;
    run on_links (list_push_back (locks_of t) (lockElem l));
    mod_thread t (λ th, set_prog ([ISemaDown (SLock l); ISetHolder l] ++ prog th) th).
Definition lock_set_holder (l : loc) : M kernel unit :=
  do t <- thread_current; put_holder l (Some t).
Definition lock_try_acquire (l : loc) : M kernel bool :=
  do held <- lock_held_by_current_thread l;
  run assertM (negb held);
  do success <- sema_try_down (SLock l);
  run (if success then do t <- thread_current; push_prog t (ISetHolder l) else retM tt);
  retM success.
Definition lock_release (l : loc) : M kernel unit :=
  do held <- lock_held_by_current_thread l;
  run assertM held;
  do t <- thread_current;
  run on_links (list_remove (lockElem l));
  run put_holder l None;
  push_prog t (ISemaUp (SLock l)).

(** ** Condition variables *)
Definition cond_init (c : loc) : M kernel unit := put_cond c [].
Definition cond_wait (c l : loc) : M kernel unit :=
  run assert_not_intr_context;
  do held <- lock_held_by_current_thread l;
  run assertM held;
  do t <- thread_current;
  run sema_init (SWait t) 0;
  do ws <- get_cond c;
  run put_cond c (ws ++ [t]);
  mod_thread t (λ th, set_prog
    ([ILockRelease l; ISemaDown (SWait t); ILockAcquire l] ++ prog th) th).
Definition cond_signal (c l : loc) : M kernel unit :=
  run assert_not_intr_context;
  do held <- lock_held_by_current_thread l;
  run assertM held;
  do ws <- get_cond c;
  match ws with
  | [] => retM tt
  | w :: ws => run put_cond c ws; sema_up (SWait w)
  end.
(** [n] bounds the [while]: every iteration pops one waiter. *)
Fixpoint cond_broadcast_loop (n : nat) (c l : loc) : M kernel unit :=
  do ws <- get_cond c;
  match ws, n with
  | [], _ => retM tt
  | _, O => λ _, NoFuel
  | _, S n => run cond_signal c l; cond_broadcast_loop n c l
  end.
Definition cond_broadcast (c l : loc) : M kernel unit :=
  do ws <- get_cond c; cond_broadcast_loop (length ws) c l.
