(* ===== verification/Timer.v ===== *)
(** * devices/timer.c and the interrupt path

    Sleeping, the timer interrupt handler with the part of [intr_handler] that
    runs around it, the conversions from real time to ticks, and the steps of
    the kernel as a transition system. *)

From stdpp Require Import base numbers list gmap.
From S2P Require Import Prelude KList KListOps FixedPoint Thread Synch.
Local Open Scope Z_scope.

Definition TIMER_FREQ : Z := 100.

Definition timer_ticks : M kernel Z :=
  do old_level <- intr_disable;
  do k <- getM;
  run intr_set_level old_level; retM (ticks k).
Definition timer_elapsed (then_ : Z) : M kernel Z :=
  do t <- timer_ticks; retM (i64 (t - then_)).
Definition compare_thread (k : kernel) (t1 t2 : tptr) : bool :=
  match threads k !! t1, threads k !! t2 with
  | Some a, Some b => blocked_ticks a <? blocked_ticks b
  | _, _ => false
  end.
(** [timer_sleep] up to the insertion in [blocked_list], and the rest, which
    runs after interrupts are turned off.  Interrupts are on during the
    insertion; the model inserts in one step, so that an interrupt finds the
    list before or after it but never with the links half written. *)
Definition timer_sleep (n : Z) : M kernel unit :=
  do start <- timer_ticks;
  do l <- intr_get_level; run assertM (bool_decide (l = INTR_ON));
  let estimate_ticks := i64 (n + start) in
  do cur <- thread_current;
  run set_thread_blocked_ticks cur estimate_ticks;
  run modifyM (λ k, set_blocked_list (insert_ordered (compare_thread k) cur (blocked_list k)) k);
  push_prog cur ISleep.
Definition timer_sleep_block : M kernel unit :=
  do old_level <- intr_disable;
  do cur <- thread_current;
  run push_prog cur (ISleepWake old_level);
  thread_block.

(** ** The timer interrupt *)
Definition timer_interrupt : M kernel unit :=
  do k <- getM;
  let now := i64 (ticks k + 1) in
  run modifyM (set_ticks now);
  run unblock_thread_with_enough_ticks now;
  do curr <- thread_current;
  run mod_thread curr (λ th, if bool_decide (status th = THREAD_RUNNING)
                             then set_recent_cpu (fp_add_fp_and_int (recent_cpu th) 1) th else th);
  thread_tick.
(** [intr_handler] on vector 0x20.  The processor turns interrupts off on entry
    and [iret] turns them on again: the interrupted thread had them on. *)
Definition intr_handler_timer : M kernel unit :=
  run modifyM (set_intr INTR_OFF);
  run assert_intr_off;
  run assert_not_intr_context;
  run modifyM (set_in_external_intr true);
  run modifyM (set_yield_on_return false);
  run timer_interrupt;
  run assert_intr_off;
  do c <- intr_context; run assertM c;
  run modifyM (set_in_external_intr false);
  do k <- getM;
  if yield_on_return k
  then do cur <- running_thread; run push_prog cur IIret; thread_yield
  else modifyM (set_intr INTR_ON).

(** ** Starting *)
Definition thread_init : M kernel unit :=
  run assert_intr_off;
  run lock_init tid_lock;
  run modifyM (λ k, set_blocked_list [] (set_all_list [] (set_ready_list [] k)));
  do t <- running_thread;
  run modifyM (set_initial_thread (Some t));
  run init_thread t PRI_DEFAULT;
  run mod_thread t (set_status THREAD_RUNNING);
  mod_thread t (set_prog [ILockAcquire tid_lock; IAllocTid t; ILockRelease tid_lock]).
Definition idle_started : sema_id := SPlain 0.
Definition thread_start (page : option tptr) : M kernel unit :=
  run sema_init idle_started 0;
  do t <- running_thread;
  run mod_thread t (set_prog [ISetLevel INTR_ON; ISemaDown idle_started]);
  run thread_create page PRI_MIN (Some idle_started); retM tt.

(** ** Executing the saved instructions *)
Definition exec_instr (i : instr) : M kernel unit :=
  match i with
  | ISetLevel old => run intr_set_level old; retM tt
  | IIret => modifyM (set_intr INTR_ON)
  | IStart => run intr_enable; retM tt
  | ISemaDown s => sema_down s
  | ISemaWait s old => sema_down_loop s old
  | ISemaUp s => sema_up s
  | ILockAcquire l => lock_acquire l
  | ISetHolder l => lock_set_holder l
  | ILockRelease l => lock_release l
  | ISleep => timer_sleep_block
  | ISleepWake old => run intr_set_level old; retM tt
  | IAllocTid t => allocate_tid t
  | IUnblock t => thread_unblock t
  | ISetIdle => do t <- thread_current; modifyM (set_idle_thread (Some t))
  | IIdle => run intr_disable; thread_block
  | IHlt => modifyM (set_intr INTR_ON)
  end.
(** What follows an instruction: [idle] alternates between its two parts
    forever. *)
Definition after (i : instr) (r : list instr) : list instr :=
  match i with IIdle => IHlt :: r | IHlt => IIdle :: r | _ => r end.
Definition exec_next : M kernel unit :=
  do t <- running_thread; do th <- get_thread t;
  match prog th with
  | [] => panicM
  | i :: r => run put_thread t (set_prog (after i r) th); exec_instr i
  end.

(** ** Real time *)
Definition real_time_ticks (num denom : Z) : Z := Z.quot (i64 (num * TIMER_FREQ)) denom.
(** What [real_time_sleep] does: sleep for a number of ticks, or busy-wait for
    a number of loops. *)
Inductive delay := Sleep (n : Z) | Busy (loops : Z).
Definition real_time_delay (loops_per_tick num denom : Z) : M kernel delay :=
  run assertM (Z.rem denom 1000 =? 0);
  retM (Busy (Z.quot (i64 (Z.quot (i64 (loops_per_tick * num)) 1000 * TIMER_FREQ))
                     (Z.quot denom 1000))).
Definition real_time_sleep (loops_per_tick num denom : Z) : M kernel delay :=
  let n := real_time_ticks num denom in
  do l <- intr_get_level; run assertM (bool_decide (l = INTR_ON));
  if 0 <? n then run timer_sleep n; retM (Sleep n) else real_time_delay loops_per_tick num denom.
Definition timer_msleep (lpt ms : Z) : M kernel delay := real_time_sleep lpt ms 1000.
Definition timer_usleep (lpt us : Z) : M kernel delay := real_time_sleep lpt us (1000 * 1000).
Definition timer_nsleep (lpt ns : Z) : M kernel delay := real_time_sleep lpt ns (1000 * 1000 * 1000).
Definition timer_mdelay (lpt ms : Z) : M kernel delay := real_time_delay lpt ms 1000.
Definition timer_udelay (lpt us : Z) : M kernel delay := real_time_delay lpt us (1000 * 1000).
Definition timer_ndelay (lpt ns : Z) : M kernel delay := real_time_delay lpt ns (1000 * 1000 * 1000).

(** ** The calls of a thread *)
Inductive call :=
  | CYield | CExit | CSetPriority (p : Z) | CSetLevel (l : intr_level)
  | CSemaInit (n : N) (v : Z) | CSemaDown (n : N) | CSemaTryDown (n : N) | CSemaUp (n : N)
  | CLockInit (l : loc) | CLockAcquire (l : loc) | CLockTryAcquire (l : loc) | CLockRelease (l : loc)
  | CCondInit (c : loc) | CCondWait (c l : loc) | CCondSignal (c l : loc) | CCondBroadcast (c l : loc)
  | CSleep (n : Z) | CCreate (page : option tptr) (prio : Z).
Definition exec_call (c : call) : M kernel unit :=
  match c with
  | CYield => thread_yield
  | CExit => thread_exit
  | CSetPriority p => thread_set_priority p
  | CSetLevel l => run intr_set_level l; retM tt
  | CSemaInit n v => sema_init (SPlain n) v
  | CSemaDown n => sema_down (SPlain n)
  | CSemaTryDown n => run sema_try_down (SPlain n); retM tt
  | CSemaUp n => sema_up (SPlain n)
  | CLockInit l => lock_init l
  | CLockAcquire l => lock_acquire l
  | CLockTryAcquire l => run lock_try_acquire l; retM tt
  | CLockRelease l => lock_release l
  | CCondInit c => cond_init c
  | CCondWait c l => cond_wait c l
  | CCondSignal c l => cond_signal c l
  | CCondBroadcast c l => cond_broadcast c l
  | CSleep n => timer_sleep n
  | CCreate page prio => run thread_create page prio None; retM tt
  end.
(** What a caller must respect: an object is initialised once or while nobody
    waits on it, a [struct thread] is created in a page that holds none. *)
Definition call_ok (k : kernel) (c : call) : Prop :=
  match c with
  | CSemaInit n _ => ∀ sm, semas k !! SPlain n = Some sm → waiters sm = []
  | CLockInit l => semas k !! SLock l = None
  | CCreate (Some t) _ => threads k !! t = None
  | _ => True
  end.
(** The thread is inside [timer_sleep], in [blocked_list] but not yet blocked,
    with interrupts on. *)
Definition in_sleep_window (k : kernel) : Prop :=
  ∃ th r, threads k !! cur k = Some th ∧ prog th = ISleep :: r.

(** One step of the machine: the running thread starts a kernel call, goes on
    with one it is in, or is interrupted by the timer.  [race] says whether the
    timer may interrupt inside the window of [timer_sleep]. *)
Inductive step (race : bool) (k : kernel) : kernel → Prop :=
  | step_call c th k' :
      threads k !! cur k = Some th → prog th = [] → call_ok k c →
      exec_call c k = Ret (tt, k') → step race k k'
  | step_next k' : exec_next k = Ret (tt, k') → step race k k'
  | step_timer k' :
      intr k = INTR_ON → (race = false → ¬ in_sleep_window k) →
      intr_handler_timer k = Ret (tt, k') → step race k k'.
