(* ===== verification/KernelInv.v ===== *)
(** * The scheduler invariant

    [kinv] is the discipline of the kernel's thread queues (the comment above
    [struct thread] in thread.h): one thread runs; the ready list holds exactly
    the ready threads; a blocked thread is in exactly one queue, the one its
    saved instructions wait on.  The file proves that every step of the machine
    preserves it, except a timer interrupt inside the window of [timer_sleep]
    where the code leaves interrupts on. *)

From stdpp Require Import base numbers list gmap sorting.
From S2P Require Import Prelude KList KListOps FixedPoint Thread Synch Timer.
Local Open Scope Z_scope.

(** ** Views of the state *)
Definition st (k : kernel) (t : tptr) : option thread_status := status <$> threads k !! t.
Definition pg (k : kernel) (t : tptr) : list instr :=
  match threads k !! t with Some th => prog th | None => [] end.
Definition par (k : kernel) (t : tptr) : option tptr :=
  match threads k !! t with Some th => parent th | None => None end.
Definition bt (k : kernel) (t : tptr) : Z :=
  match threads k !! t with Some th => blocked_ticks th | None => 0 end.
Definition wt (k : kernel) (s : sema_id) : list tptr :=
  match semas k !! s with Some sm => waiters sm | None => [] end.

Definition is_unblock (i : instr) : Prop := match i with IUnblock _ => True | _ => False end.
#[global] Instance is_unblock_dec i : Decision (is_unblock i).
Proof. destruct i; apply _. Defined.
Definition instr_ok (k : kernel) (t : tptr) (i : instr) : Prop :=
  match i with
  | ISemaDown (SWait x) | ISemaWait (SWait x) _ => x = t
  | IIdle | IHlt => idle_thread k = Some t
  | ISetIdle => False
  | _ => True
  end.
Definition idle_instr (i : instr) : Prop :=
  match i with ISetLevel _ | IIret | ISemaUp _ | IIdle | IHlt => True | _ => False end.
(** Where a blocked thread [t] is, by the head of its saved instructions. *)
Definition blocked_at (k : kernel) (t : tptr) : Prop :=
  match pg k t with
  | ISemaWait s _ :: _ => t ∈ wt k s
  | ISleepWake _ :: _ => t ∈ blocked_list k
  | IHlt :: _ => idle_thread k = Some t
  | IStart :: _ => ∃ p, par k t = Some p ∧ IUnblock t ∈ pg k p
  | _ => False
  end.

(** [live]: the current thread is running (it is not between the change of its
    status and the end of [schedule]).  [hole]: a blocked thread that has been
    taken off its queue and is about to be unblocked. *)
Record kinv (live : bool) (hole : option tptr) (k : kernel) : Prop := {
  i_cur : is_Some (threads k !! cur k) ∧ (live = true → st k (cur k) = Some THREAD_RUNNING);
  i_run t : st k t = Some THREAD_RUNNING → live = true ∧ t = cur k;
  i_ready_nd : NoDup (ready_list k);
  i_ready t : t ∈ ready_list k → st k t = Some THREAD_READY;
  i_ready_all t : st k t = Some THREAD_READY → t ∈ ready_list k ∨ idle_thread k = Some t;
  i_sema_nd s : NoDup (wt k s);
  i_sema s t : t ∈ wt k s →
    st k t = Some THREAD_BLOCKED ∧ hole ≠ Some t ∧ ∃ old r, pg k t = ISemaWait s old :: r;
  i_slept_nd : NoDup (blocked_list k);
  i_slept t : t ∈ blocked_list k → hole ≠ Some t ∧
    ((st k t = Some THREAD_BLOCKED ∧ ∃ old r, pg k t = ISleepWake old :: r) ∨
     (live = true ∧ t = cur k ∧ ∃ r, pg k t = ISleep :: r));
  i_sorted : StronglySorted (λ a b, bt k a ≤ bt k b) (blocked_list k);
  i_blocked t : st k t = Some THREAD_BLOCKED → hole = Some t ∨ blocked_at k t;
  i_hole t : hole = Some t →
    st k t = Some THREAD_BLOCKED ∧ idle_thread k ≠ Some t ∧ ∀ p, IUnblock t ∉ pg k p;
  i_unblock p t : IUnblock t ∈ pg k p →
    st k t = Some THREAD_BLOCKED ∧ par k t = Some p ∧ ∃ r, pg k t = IStart :: r;
  i_unblock1 p : (length (filter is_unblock (pg k p)) ≤ 1)%nat;
  i_prog t i : i ∈ pg k t → instr_ok k t i;
  i_sleep t : ISleep ∈ pg k t → live = true ∧ t = cur k ∧ t ∈ blocked_list k ∧
    ∃ r, pg k t = ISleep :: r ∧ ISleep ∉ r;
  i_idle t : idle_thread k = Some t → is_Some (threads k !! t) ∧ Forall idle_instr (pg k t) ∧
    (last (pg k t) = Some IIdle ∨ last (pg k t) = Some IHlt);
  i_dying t : st k t = Some THREAD_DYING → pg k t = [];
  i_all_nd : NoDup (all_list k);
  i_all t : t ∈ all_list k ↔ ∃ s, st k t = Some s ∧ s ≠ THREAD_DYING }.

(** ** Symbolic execution *)
Section wp_ops.
  Implicit Types (k : kernel) (t : tptr).
Lemma wp_get_thread t (Q : thread → kernel → Prop) k :
  (∀ th, threads k !! t = Some th → Q th k) → wp (get_thread t) Q k.
Proof. unfold wp, get_thread. destruct (threads k !! t); auto. Qed.
Lemma wp_get_sema s (Q : semaphore → kernel → Prop) k :
  (∀ sm, semas k !! s = Some sm → Q sm k) → wp (get_sema s) Q k.
Proof. unfold wp, get_sema. destruct (semas k !! s); auto. Qed.
Lemma wp_get_holder l (Q : option tptr → kernel → Prop) k :
  (∀ h, holders k !! l = Some h → Q h k) → wp (get_holder l) Q k.
Proof. unfold wp, get_holder. destruct (holders k !! l); auto. Qed.
Lemma wp_get_cond c (Q : list tptr → kernel → Prop) k :
  (∀ ws, conds k !! c = Some ws → Q ws k) → wp (get_cond c) Q k.
Proof. unfold wp, get_cond. destruct (conds k !! c); auto. Qed.
Lemma wp_mod_thread t f (Q : unit → kernel → Prop) k :
  (∀ th, threads k !! t = Some th → Q tt (set_threads (<[t := f th]> (threads k)) k)) →
  wp (mod_thread t f) Q k.
Proof. intros H. apply wp_bind, wp_get_thread. intros th Hth. by apply wp_modify, H. Qed.
Lemma wp_on_links {A} (m : M heap A) (Q : A → kernel → Prop) k :
  (∀ a h, Q a (set_links h k)) → wp (on_links m) Q k.
Proof. intros H. unfold wp, on_links. destruct (m (links k)) as [[a h]| |]; auto. Qed.
Lemma wp_thread_current (Q : tptr → kernel → Prop) k :
  (∀ th, threads k !! cur k = Some th → status th = THREAD_RUNNING → Q (cur k) k) →
  wp thread_current Q k.
Proof.
  intros H. apply wp_bind, wp_bind. apply wp_get_thread. intros th Hth.
  apply wp_bind, wp_assert. intros Hs%bool_decide_eq_true. by eapply wp_ret, H.
Qed.
Lemma wp_intr_set_level l (Q : intr_level → kernel → Prop) k :
  (∀ old, Q old (set_intr l k)) → wp (intr_set_level l) Q k.
Proof.
  intros H. destruct l; simpl.
  - by apply wp_bind, wp_bind, wp_modify, wp_ret.
  - apply wp_bind, wp_bind. apply wp_bind, wp_assert. intros _. by apply wp_bind, wp_modify, wp_ret.
Qed.
Lemma wp_intr_disable (Q : intr_level → kernel → Prop) k :
  Q (intr k) (set_intr INTR_OFF k) → wp intr_disable Q k.
Proof. intros H. by apply wp_bind, wp_bind, wp_modify, wp_ret. Qed.
Lemma wp_assert_not_ctx (Q : unit → kernel → Prop) k : Q tt k → wp assert_not_intr_context Q k.
Proof. intros H. apply wp_bind, wp_assert. by intros _. Qed.
Lemma wp_assert_off (Q : unit → kernel → Prop) k :
  (intr k = INTR_OFF → Q tt k) → wp assert_intr_off Q k.
Proof. intros H. apply wp_bind, wp_assert. intros E%bool_decide_eq_true. auto. Qed.
End wp_ops.

(** ** Changes that the invariant does not see *)
(** [same k k']: the two states agree on everything the invariant mentions. *)
Record same (k k' : kernel) : Prop := {
  s_dom t : is_Some (threads k !! t) → is_Some (threads k' !! t);
  s_st t : st k' t = st k t;
  s_pg t : pg k' t = pg k t;
  s_par t : par k' t = par k t;
  s_bt t : bt k' t = bt k t;
  s_wt s : wt k' s = wt k s;
  s_cur : cur k' = cur k;
  s_ready : ready_list k' = ready_list k;
  s_slept : blocked_list k' = blocked_list k;
  s_all : all_list k' = all_list k;
  s_idle : idle_thread k' = idle_thread k }.
Lemma same_refl k : same k k.
Proof. by split. Qed.
Lemma same_trans k1 k2 k3 : same k1 k2 → same k2 k3 → same k1 k3.
Proof. intros [] []. split; intros; try congruence; auto. Qed.
Lemma blocked_at_same k k' t : same k k' → blocked_at k t → blocked_at k' t.
Proof.
  intros []. unfold blocked_at. rewrite s_pg0, s_slept0, s_idle0.
  destruct (pg k t) as [|[] ?]; try done; [|by rewrite s_wt0].
  intros (p & Hp & Hu). exists p. by rewrite s_par0, s_pg0.
Qed.
Lemma instr_ok_same k k' t i : idle_thread k' = idle_thread k → instr_ok k t i → instr_ok k' t i.
Proof. unfold instr_ok. intros ->. done. Qed.
Lemma kinv_same b h k k' : same k k' → kinv b h k → kinv b h k'.
Proof.
  intros S []. pose proof S as [].
  split; rewrite ?s_cur0, ?s_ready0, ?s_slept0, ?s_all0, ?s_idle0; intros;
    rewrite ?s_wt0, ?s_st0, ?s_pg0, ?s_par0 in *; eauto.
  - destruct i_cur0. eauto.
  - eapply (StronglySorted_ext_in (λ a b, bt k a ≤ bt k b)); [|done]. intros. by rewrite !s_bt0.
  - destruct (i_blocked0 t) as [?|?]; [done|by left|right]. by eapply blocked_at_same.
  - destruct (i_hole0 t) as (? & ? & Hp); [done|]. split_and!; [done..|]. intros p. rewrite s_pg0. apply Hp.
  - eapply instr_ok_same, i_prog0; done.
  - destruct (i_idle0 t) as (? & ? & ?); [done|]. split_and!; auto.
Qed.

(** ** Updating one thread *)
Section upd.
  Context (k k' : kernel) (c : tptr) (th' : thread).
  Hypothesis Hupd : threads k' = <[c := th']> (threads k).
Lemma st_upd t : st k' t = if decide (c = t) then Some (status th') else st k t.
Proof. unfold st. rewrite Hupd, lookup_insert. by case_decide. Qed.
Lemma pg_upd t : pg k' t = if decide (c = t) then prog th' else pg k t.
Proof. unfold pg. rewrite Hupd, lookup_insert. by case_decide. Qed.
Lemma par_upd t : par k' t = if decide (c = t) then parent th' else par k t.
Proof. unfold par. rewrite Hupd, lookup_insert. by case_decide. Qed.
Lemma bt_upd t : bt k' t = if decide (c = t) then blocked_ticks th' else bt k t.
Proof. unfold bt. rewrite Hupd, lookup_insert. by case_decide. Qed.
Lemma dom_upd t : is_Some (threads k' !! t) ↔ c = t ∨ is_Some (threads k !! t).
Proof. rewrite Hupd, lookup_insert. case_decide; naive_solver. Qed.
End upd.
Lemma st_of k t th : threads k !! t = Some th → st k t = Some (status th).
Proof. unfold st. by intros ->. Qed.
Lemma pg_of k t th : threads k !! t = Some th → pg k t = prog th.
Proof. unfold pg. by intros ->. Qed.
Lemma par_of k t th : threads k !! t = Some th → par k t = parent th.
Proof. unfold par. by intros ->. Qed.
Lemma bt_of k t th : threads k !! t = Some th → bt k t = blocked_ticks th.
Proof. unfold bt. by intros ->. Qed.

(** The lists, the semaphore queues and the current thread are the same. *)
Record queues_eq (k k' : kernel) : Prop := {
  q_wt s : wt k' s = wt k s;
  q_cur : cur k' = cur k;
  q_ready : ready_list k' = ready_list k;
  q_slept : blocked_list k' = blocked_list k;
  q_all : all_list k' = all_list k;
  q_idle : idle_thread k' = idle_thread k }.

(** Rewrites the views of [k'] through the update [H], and cases on the thread. *)
Ltac upd H :=
  repeat match goal with
  | |- context [st ?k' ?t] => rewrite (st_upd _ k' _ _ H t)
  | |- context [pg ?k' ?t] => rewrite (pg_upd _ k' _ _ H t)
  | |- context [par ?k' ?t] => rewrite (par_upd _ k' _ _ H t)
  | |- context [bt ?k' ?t] => rewrite (bt_upd _ k' _ _ H t)
  end.

(** A change of a thread that keeps its status, saved instructions, parent and
    wake-up time. *)
Lemma same_upd k k' t th th' :
  threads k !! t = Some th → threads k' = <[t := th']> (threads k) → queues_eq k k' →
  status th' = status th → prog th' = prog th → parent th' = parent th →
  blocked_ticks th' = blocked_ticks th → same k k'.
Proof.
  intros Hth Hupd [] Hs Hp Hpar Hb. split; try done.
  - intros x Hx. rewrite (dom_upd _ _ _ _ Hupd). auto.
  - intros x. rewrite (st_upd _ _ _ _ Hupd). case_decide; [subst|done]. by rewrite (st_of _ _ _ Hth), Hs.
  - intros x. rewrite (pg_upd _ _ _ _ Hupd). case_decide; [subst|done]. by rewrite (pg_of _ _ _ Hth), Hp.
  - intros x. rewrite (par_upd _ _ _ _ Hupd). case_decide; [subst|done]. by rewrite (par_of _ _ _ Hth), Hpar.
  - intros x. rewrite (bt_upd _ _ _ _ Hupd). case_decide; [subst|done]. by rewrite (bt_of _ _ _ Hth), Hb.
Qed.

(** ** The central lemma

    A transition that concerns one thread [c], the running one or, between two
    threads, any: the record of [c] changes, and [c] enters or leaves queues.
    If the new state treats [c] well ([local]) and does not touch the others
    ([off]), the invariant holds. *)
Record off (c : tptr) (hole hole' : option tptr) (k k' : kernel) : Prop := {
  off_ready t : t ≠ c → t ∈ ready_list k' ↔ t ∈ ready_list k;
  off_slept t : t ≠ c → t ∈ blocked_list k' ↔ t ∈ blocked_list k;
  off_all t : t ≠ c → t ∈ all_list k' ↔ t ∈ all_list k;
  off_wt s t : t ≠ c → t ∈ wt k' s ↔ t ∈ wt k s;
  off_hole t : t ≠ c → hole' = Some t ↔ hole = Some t;
  off_idle : idle_thread k' = idle_thread k;
  off_ready_nd : NoDup (ready_list k');
  off_slept_nd : NoDup (blocked_list k');
  off_all_nd : NoDup (all_list k');
  off_wt_nd s : NoDup (wt k' s);
  off_sorted : StronglySorted (λ a b, bt k' a ≤ bt k' b) (blocked_list k') }.
Record local (c : tptr) (th' : thread) (live' : bool) (hole' : option tptr) (k k' : kernel) : Prop := {
  lo_parent : parent th' = par k c;
  lo_unblock t : IUnblock t ∈ prog th' ↔ IUnblock t ∈ pg k c;
  lo_unblock1 : (length (filter is_unblock (prog th')) ≤ 1)%nat;
  lo_target p : IUnblock c ∉ pg k p;
  lo_cur : is_Some (threads k' !! cur k') ∧ (live' = true → cur k' = c → status th' = THREAD_RUNNING);
  lo_run : status th' = THREAD_RUNNING → live' = true ∧ cur k' = c;
  lo_ready : c ∈ ready_list k' → status th' = THREAD_READY;
  lo_ready_all : status th' = THREAD_READY → c ∈ ready_list k' ∨ idle_thread k = Some c;
  lo_sema s : c ∈ wt k' s →
    status th' = THREAD_BLOCKED ∧ hole' ≠ Some c ∧ ∃ old r, prog th' = ISemaWait s old :: r;
  lo_slept : c ∈ blocked_list k' → hole' ≠ Some c ∧
    ((status th' = THREAD_BLOCKED ∧ ∃ old r, prog th' = ISleepWake old :: r) ∨
     (live' = true ∧ cur k' = c ∧ ∃ r, prog th' = ISleep :: r));
  lo_blocked : status th' = THREAD_BLOCKED → hole' = Some c ∨ blocked_at k' c;
  lo_hole : hole' = Some c → status th' = THREAD_BLOCKED ∧ idle_thread k ≠ Some c;
  lo_prog i : i ∈ prog th' → instr_ok k c i;
  lo_sleep : ISleep ∈ prog th' → live' = true ∧ cur k' = c ∧ c ∈ blocked_list k' ∧
    ∃ r, prog th' = ISleep :: r ∧ ISleep ∉ r;
  lo_idle : idle_thread k = Some c →
    Forall idle_instr (prog th') ∧ (last (prog th') = Some IIdle ∨ last (prog th') = Some IHlt);
  lo_dying : status th' = THREAD_DYING → prog th' = [];
  lo_all : c ∈ all_list k' ↔ status th' ≠ THREAD_DYING }.

Section central.
  Context (live live' : bool) (hole hole' : option tptr) (k k' : kernel) (c : tptr) (th' : thread).
  Hypothesis Hk : kinv live hole k.
  (** [c] is the only thread that can be running, or it is not the current
      thread and the current thread stays. *)
  Hypothesis Hlive :
    ((live = true → c = cur k) ∧ (live' = true → cur k' = c)) ∨
    (cur k ≠ c ∧ cur k' = cur k ∧ live' = live).
  Hypothesis Hupd : threads k' = <[c := th']> (threads k).
  Hypothesis Hoff : off c hole hole' k k'.
  Hypothesis Hlocal : local c th' live' hole' k k'.

Lemma st_c : st k' c = Some (status th').
Proof. upd Hupd. by rewrite decide_True. Qed.
Lemma pg_c : pg k' c = prog th'.
Proof. upd Hupd. by rewrite decide_True. Qed.
Lemma st_off t : t ≠ c → st k' t = st k t.
Proof. intros Ht. upd Hupd. by rewrite decide_False. Qed.
Lemma pg_off t : t ≠ c → pg k' t = pg k t.
Proof. intros Ht. upd Hupd. by rewrite decide_False. Qed.
Lemma par_same t : par k' t = par k t.
Proof. upd Hupd. case_decide; [subst|done]. apply Hlocal. Qed.
Lemma unblock_same t x : IUnblock t ∈ pg k' x ↔ IUnblock t ∈ pg k x.
Proof.
  destruct (decide (x = c)) as [->|]; [rewrite pg_c; apply Hlocal|by rewrite pg_off].
Qed.
Lemma off_running t : t ≠ c → live = true → t = cur k → live' = true ∧ t = cur k'.
Proof. naive_solver. Qed.
Lemma blocked_at_off t : t ≠ c → blocked_at k t → blocked_at k' t.
Proof.
  intros Ht. unfold blocked_at. rewrite pg_off, (off_idle _ _ _ _ _ Hoff) by done.
  destruct (pg k t) as [|[] ?]; try done.
  - intros (p & Hp & Hu). exists p. by rewrite par_same, unblock_same.
  - by apply Hoff.
  - by apply Hoff.
Qed.

Ltac on_c t :=
  destruct (decide (t = c)) as [->|Ht];
  [rewrite ?st_c, ?pg_c|rewrite ?st_off, ?pg_off by done].

Lemma kinv_central : kinv live' hole' k'.
Proof.
  pose proof Hk as []. pose proof Hoff as []. pose proof Hlocal as [].
  split; try done; rewrite ?off_idle0.
  - destruct lo_cur0 as [? Hr]. split; [done|]. intros Hl.
    destruct (decide (cur k' = c)) as [Hc|Hc]; [rewrite Hc, st_c; by rewrite Hr|].
    destruct Hlive as [[_ Hl2]|(? & -> & <-)]; [by destruct Hc; apply Hl2|]. rewrite st_off by done. by apply i_cur0.
  - intros t. on_c t; [intros [= ?]; naive_solver|]. intros [??]%i_run0. by apply off_running.
  - intros t. on_c t; [intros ?%lo_ready0; congruence|]. rewrite off_ready0 by done. auto.
  - intros t. on_c t; [intros [= ?]; auto|]. rewrite off_ready0 by done. auto.
  - intros s t. on_c t; [intros (-> & ?)%lo_sema0; done|]. rewrite off_wt0 by done.
    intros (? & Hh & ?)%i_sema0. split_and!; try done. by rewrite off_hole0.
  - intros t. on_c t.
    + intros [? [[-> ?]|(-> & <- & ?)]]%lo_slept0; split; auto.
    + rewrite off_slept0 by done. intros [Hh [?|(? & ? & ?)]]%i_slept0; split; try by rewrite off_hole0.
      * by left.
      * right. edestruct (off_running t); eauto.
  - intros t. on_c t; [intros [= ?]; auto|]. rewrite off_hole0 by done.
    intros [?|?]%i_blocked0; [by left|right]. by apply blocked_at_off.
  - intros t. on_c t.
    + intros [-> ?]%lo_hole0. split_and!; try done. intros p. by rewrite unblock_same.
    + rewrite off_hole0 by done. intros (? & ? & Hp)%i_hole0. split_and!; try done.
      intros p. by rewrite unblock_same.
  - intros p t. rewrite unblock_same, par_same. intros Hu.
    destruct (decide (t = c)) as [->|Ht]; [by destruct (lo_target0 p)|].
    rewrite st_off, pg_off by done. by apply i_unblock0.
  - intros p. on_c p; auto.
  - intros t i. on_c t; intros Hi; eapply instr_ok_same; eauto.
  - intros t. on_c t; [intros (? & ? & ?)%lo_sleep0; naive_solver|].
    rewrite off_slept0 by done. intros (? & ? & ?)%i_sleep0. edestruct (off_running t); eauto.
  - intros t Hi. rewrite (dom_upd _ _ _ _ Hupd). on_c t; [naive_solver|].
    destruct (i_idle0 t Hi). auto.
  - intros t. on_c t; [intros [= ?]; auto|]. apply i_dying0.
  - intros t. on_c t; [rewrite lo_all0; naive_solver|]. rewrite off_all0 by done. apply i_all0.
Qed.
End central.

Lemma off_queues live c h k k' :
  kinv live h k → queues_eq k k' → (∀ t, t ∈ blocked_list k → bt k' t = bt k t) → off c h h k k'.
Proof.
  intros [] [] Hbt. split; try done; intros; rewrite ?q_ready0, ?q_slept0, ?q_all0, ?q_wt0; try done.
  eapply (StronglySorted_ext_in (λ a b, bt k a ≤ bt k b)); [|done]. intros. by rewrite !Hbt.
Qed.

(** ** The running thread *)
Section current.
  Context (h : option tptr) (k : kernel) (th : thread).
  Hypothesis Hk : kinv true h k.
  Hypothesis Hth : threads k !! cur k = Some th.

Lemma cur_running : status th = THREAD_RUNNING.
Proof.
  destruct (i_cur _ _ _ Hk) as [_ Hr]. rewrite (st_of _ _ _ Hth) in Hr.
  specialize (Hr eq_refl). congruence.
Qed.
Lemma cur_st s : st k (cur k) = Some s → s = THREAD_RUNNING.
Proof. rewrite (st_of _ _ _ Hth), cur_running. congruence. Qed.
Lemma cur_not_ready : cur k ∉ ready_list k.
Proof. intros ?%(i_ready _ _ _ Hk)%cur_st. done. Qed.
Lemma cur_not_waiting s : cur k ∉ wt k s.
Proof. intros (?%cur_st & _)%(i_sema _ _ _ Hk). done. Qed.
Lemma cur_not_slept : ISleep ∉ prog th → cur k ∉ blocked_list k.
Proof.
  intros Hs [_ [[?%cur_st _]|(_ & _ & r & Hp)]]%(i_slept _ _ _ Hk); [done|].
  rewrite (pg_of _ _ _ Hth) in Hp. rewrite Hp in Hs. apply Hs. by left.
Qed.
Lemma cur_not_target p : IUnblock (cur k) ∉ pg k p.
Proof. intros (?%cur_st & _)%(i_unblock _ _ _ Hk). done. Qed.
Lemma cur_not_hole : h ≠ Some (cur k).
Proof. intros (?%cur_st & _)%(i_hole _ _ _ Hk). done. Qed.
Lemma cur_all : cur k ∈ all_list k.
Proof. apply (i_all _ _ _ Hk). exists THREAD_RUNNING. by rewrite (st_of _ _ _ Hth), cur_running. Qed.
Lemma cur_unblock1 : (length (filter is_unblock (prog th)) ≤ 1)%nat.
Proof. rewrite <-(pg_of _ _ _ Hth). apply Hk. Qed.
Lemma cur_prog i : i ∈ prog th → instr_ok k (cur k) i.
Proof. rewrite <-(pg_of _ _ _ Hth). apply Hk. Qed.
Lemma cur_idle : idle_thread k = Some (cur k) →
  Forall idle_instr (prog th) ∧ (last (prog th) = Some IIdle ∨ last (prog th) = Some IHlt).
Proof. rewrite <-(pg_of _ _ _ Hth). intros (_ & ?)%(i_idle _ _ _ Hk). done. Qed.

(** Conditions on new saved instructions [p'] of the running thread. *)
Record prog_change (p' : list instr) : Prop := {
  pc_unblock t : IUnblock t ∈ p' ↔ IUnblock t ∈ prog th;
  pc_unblock1 : (length (filter is_unblock p') ≤ 1)%nat;
  pc_ok i : i ∈ p' → instr_ok k (cur k) i;
  pc_sleep : ISleep ∉ p';
  pc_sleep' : ISleep ∉ prog th;
  pc_idle : idle_thread k = Some (cur k) →
    Forall idle_instr p' ∧ (last p' = Some IIdle ∨ last p' = Some IHlt) }.

Lemma kinv_prog k' th' :
  threads k' = <[cur k := th']> (threads k) → queues_eq k k' → prog_change (prog th') →
  status th' = status th → parent th' = parent th → kinv true h k'.
Proof.
  intros Hupd Hq [] Hst Hpar. pose proof cur_running as Hrun. rewrite Hrun in Hst.
  pose proof (cur_not_slept pc_sleep'0) as Hns.
  apply (kinv_central true true h h k k' (cur k) th'); try done.
  - left. by rewrite (q_cur _ _ Hq).
  - eapply off_queues; [done..|]. intros t Ht. upd Hupd. rewrite decide_False; [done|congruence].
  - pose proof Hq as []. split; rewrite ?q_cur0, ?q_ready0, ?q_slept0, ?q_all0, ?Hst; try done.
    + by rewrite Hpar, (par_of _ _ _ Hth).
    + intros t. by rewrite (pg_of _ _ _ Hth).
    + apply cur_not_target.
    + split; [rewrite (dom_upd _ _ _ _ Hupd); by left|done].
    + by intros ?%cur_not_ready.
    + intros s. rewrite q_wt0. by intros ?%cur_not_waiting.
    + by intros ?%cur_not_hole.
    + split; [done|]. intros _. apply cur_all.
Qed.

(** The running thread stops running: [READY], [BLOCKED] or [DYING]. *)
Lemma kinv_stop k' th' :
  threads k' = <[cur k := th']> (threads k) → cur k' = cur k →
  off (cur k) h h k k' → ISleep ∉ prog th' →
  (∀ t, IUnblock t ∈ prog th' ↔ IUnblock t ∈ prog th) →
  (length (filter is_unblock (prog th')) ≤ 1)%nat →
  (∀ i, i ∈ prog th' → instr_ok k (cur k) i) →
  (idle_thread k = Some (cur k) →
    Forall idle_instr (prog th') ∧ (last (prog th') = Some IIdle ∨ last (prog th') = Some IHlt)) →
  parent th' = parent th → status th' ≠ THREAD_RUNNING →
  (cur k ∈ ready_list k' → status th' = THREAD_READY) →
  (status th' = THREAD_READY → cur k ∈ ready_list k' ∨ idle_thread k = Some (cur k)) →
  (∀ s, cur k ∈ wt k' s → status th' = THREAD_BLOCKED ∧ ∃ old r, prog th' = ISemaWait s old :: r) →
  (cur k ∈ blocked_list k' →
     status th' = THREAD_BLOCKED ∧ ∃ old r, prog th' = ISleepWake old :: r) →
  (status th' = THREAD_BLOCKED → blocked_at k' (cur k)) →
  (status th' = THREAD_DYING → prog th' = []) →
  (cur k ∈ all_list k' ↔ status th' ≠ THREAD_DYING) →
  kinv false h k'.
Proof.
  pose proof cur_not_hole as Hh. intros Hupd Hcur Hoff Hsl Hun Hun1 Hok Hidle Hpar Hnr Hrd Hra Hwt Hbl Hba Hdy Hal.
  apply (kinv_central true false h h k k' (cur k) th'); try done; [by left|].
  split; try done.
  - by rewrite Hpar, (par_of _ _ _ Hth).
  - intros t. by rewrite (pg_of _ _ _ Hth).
  - apply cur_not_target.
  - split; [rewrite (dom_upd _ _ _ _ Hupd), Hcur; by left|done].
  - intros s Hin. destruct (Hwt s Hin). done.
  - intros Hin. destruct (Hbl Hin). split; [done|by left].
  - by intros ?%Hba; right.
Qed.
End current.

(** ** Switching to a thread *)
Lemma kinv_switch k k' n thn :
  kinv false None k → threads k !! n = Some thn →
  threads k' = <[n := set_status THREAD_RUNNING thn]> (threads k) → cur k' = n →
  (∀ t, t ≠ n → t ∈ ready_list k' ↔ t ∈ ready_list k) → n ∉ ready_list k' → NoDup (ready_list k') →
  (∀ s, wt k' s = wt k s) → blocked_list k' = blocked_list k → all_list k' = all_list k →
  idle_thread k' = idle_thread k →
  (∀ s, n ∉ wt k s) → n ∉ blocked_list k → (∀ p, IUnblock n ∉ pg k p) → status thn ≠ THREAD_DYING →
  kinv true None k'.
Proof.
  intros Hk Hn Hupd Hcur Hr Hnr Hrnd Hwt Hbl Hal Hid Hnw Hnb Hnt Hnd. pose proof Hk as [].
  apply (kinv_central false true None None k k' n (set_status THREAD_RUNNING thn)); try done.
  - by left.
  - split; try done; rewrite ?Hbl, ?Hal; try done.
    + intros s t. by rewrite Hwt.
    + intros s. by rewrite Hwt.
    + eapply (StronglySorted_ext_in (λ a b, bt k a ≤ bt k b)); [|done].
      intros a b Ha Hb. upd Hupd. rewrite !decide_False by congruence. done.
  - split; simpl; rewrite ?Hcur, ?Hbl, ?Hal; try done.
    + by rewrite (par_of _ _ _ Hn).
    + intros t. by rewrite (pg_of _ _ _ Hn).
    + rewrite <-(pg_of _ _ _ Hn). done.
    + split; [rewrite (dom_upd _ _ _ _ Hupd); by left|done].
    + intros s. rewrite Hwt. by intros ?%Hnw.
    + rewrite <-(pg_of _ _ _ Hn). auto.
    + rewrite <-(pg_of _ _ _ Hn). by intros (? & _)%i_sleep0.
    + rewrite <-(pg_of _ _ _ Hn). intros (_ & ?)%i_idle0. done.
    + split; [done|]. intros _. apply i_all0. exists (status thn). by rewrite (st_of _ _ _ Hn).
Qed.

(** The page of a dead thread is freed. *)
Lemma kinv_delete k p :
  kinv true None k → st k p = Some THREAD_DYING →
  kinv true None (free_thread p k).
Proof.
  intros Hk Hp. set (k' := free_thread _ _). pose proof Hk as [].
  assert (∀ t, t ≠ p → threads k' !! t = threads k !! t) as Et
    by (intros t Ht; simpl; by rewrite lookup_delete_ne).
  assert (∀ t s, st k t = Some s → s ≠ THREAD_DYING → st k' t = Some s) as Est.
  { intros t s Ht Hs. unfold st. rewrite Et; [done|]. intros ->. congruence. }
  assert (∀ t s, st k' t = Some s → st k t = Some s ∧ t ≠ p) as Est'.
  { intros t s Ht. destruct (decide (t = p)) as [->|Hne].
    - unfold st in Ht. simpl in Ht. by rewrite lookup_delete_eq in Ht.
    - unfold st in *. by rewrite Et in Ht. }
  assert (∀ t, pg k' t = pg k t) as Epg.
  { intros t. destruct (decide (t = p)) as [->|Hne]; [|unfold pg; by rewrite Et].
    rewrite (i_dying0 p Hp). unfold pg. simpl. by rewrite lookup_delete_eq. }
  assert (∀ t, t ≠ p → par k' t = par k t ∧ bt k' t = bt k t) as Epb
    by (intros t Ht; unfold par, bt; by rewrite Et).
  assert (p ∉ blocked_list k) as Hpb.
  { intros [_ [[? _]|(_ & _ & r & Hr)]]%i_slept0; [congruence|]. by rewrite (i_dying0 p Hp) in Hr. }
  assert (p ≠ cur k) as Hpc by (intros ->; destruct i_cur0 as [_ Hr]; rewrite Hr in Hp; done).
  split; rewrite ?Epg; try done.
  - rewrite Et by done. destruct i_cur0 as [? Hr]. split; [done|]. intros _. apply Est; [auto|done].
  - intros t [? _]%Est'. auto.
  - intros t Ht. apply Est; [auto|done].
  - intros t [? _]%Est'. auto.
  - intros s t (? & ? & ?)%i_sema0. rewrite Epg. split_and!; try done. by apply Est.
  - intros t Ht. destruct (i_slept0 t Ht) as [? [[? ?]|?]]; rewrite Epg; split; try done; [left|by right].
    split; [by apply Est|done].
  - eapply (StronglySorted_ext_in (λ a b, bt k a ≤ bt k b)); [|done].
    intros a b Ha Hb. by rewrite (proj2 (Epb a ltac:(by intros ->))), (proj2 (Epb b ltac:(by intros ->))).
  - intros t [Ht Hne]%Est'. destruct (i_blocked0 t Ht) as [?|Ha]; [by left|right].
    unfold blocked_at in *. rewrite Epg. destruct (pg k t) as [|[] ?]; try done.
    destruct Ha as (q & Hq & Hu). exists q. rewrite Epg. split; [|done]. by rewrite (proj1 (Epb _ Hne)).
  - intros q t. rewrite !Epg. intros (Hs & Hq & ?)%i_unblock0.
    assert (t ≠ p) as Hne by (intros ->; congruence).
    rewrite (proj1 (Epb _ Hne)). split_and!; try done. by apply Est.
  - intros q. by rewrite Epg.
  - intros t i. rewrite Epg. apply i_prog0.
  - intros t. rewrite Epg. apply i_sleep0.
  - intros t Ht. rewrite Epg. destruct (i_idle0 t Ht) as (? & ? & Hl). split_and!; try done.
    rewrite Et; [done|]. intros ->. rewrite (i_dying0 p Hp) in Hl. by destruct Hl.
  - intros t [? _]%Est'. rewrite Epg. auto.
  - intros t. change (all_list k') with (all_list k). rewrite i_all0. split.
    + intros (s & ? & ?). exists s. split; [by apply Est|done].
    + intros (s & [? _]%Est' & ?). eauto.
Qed.

(** ** schedule *)
Lemma wp_next_thread (Q : option tptr → kernel → Prop) k :
  (ready_list k = [] → Q (idle_thread k) k) →
  (∀ t ts, ready_list k = t :: ts → Q (Some t) (set_ready_list ts k)) →
  wp next_thread_to_run Q k.
Proof. intros H1 H2. unfold wp, next_thread_to_run. destruct (ready_list k); auto. Qed.

Lemma wp_schedule_tail k prev :
  kinv true None (set_threads (<[cur k := set_status THREAD_RUNNING
    (default (Thread 0 THREAD_BLOCKED 0 0 0 false None []) (threads k !! cur k))]> (threads k)) k) →
  wp (thread_schedule_tail prev) (λ _, kinv true None) k.
Proof.
  intros Hk. apply wp_bind. change (wp (λ k0, Ret (cur k0, k0)) ?Q k) with (Q (cur k) k). cbv beta.
  apply wp_bind, wp_assert_off. intros _. apply wp_bind, wp_mod_thread. intros th Hth.
  rewrite Hth in Hk. simpl in Hk. apply wp_bind, wp_modify.
  set (k1 := set_thread_ticks 0 _).
  assert (kinv true None k1) as Hk1 by (eapply kinv_same; [|exact Hk]; by split).
  destruct prev as [p|]; [|by apply wp_ret].
  apply wp_bind, wp_get_thread. intros thp Hp. apply wp_bind, wp_get.
  destruct (bool_decide_reflect (status thp = THREAD_DYING)) as [Hd|]; [|by apply wp_ret].
  destruct (negb _); simpl; [|by apply wp_ret]. apply wp_bind, wp_assert. intros _. apply wp_modify.
  apply kinv_delete; [done|]. by rewrite (st_of _ _ _ Hp), Hd.
Qed.

(** A thread that can be switched to: [next] taken off the ready list, or the
    idle thread. *)
Lemma switch_target k n thn k1 :
  kinv false None k → threads k !! n = Some thn →
  (ready_list k = [] ∧ idle_thread k = Some n ∧ k1 = k) ∨
  (∃ ts, ready_list k = n :: ts ∧ k1 = set_ready_list ts k) →
  kinv true None (set_threads (<[n := set_status THREAD_RUNNING thn]> (threads k1)) (set_cur n k1)).
Proof.
  intros Hk Hn Hcase. pose proof Hk as [].
  destruct Hcase as [(Hr & Hi & ->)|(ts & Hr & ->)]; eapply (kinv_switch k); try done; simpl.
  - rewrite Hr. apply not_elem_of_nil.
  - intros s (_ & _ & old & r & Hp)%i_sema0. destruct (i_idle0 n Hi) as (_ & Hf & _).
    rewrite Hp in Hf. by apply Forall_cons in Hf as [? _].
  - intros [_ [[_ (old & r & Hp)]|(? & _)]]%i_slept0; [|done].
    destruct (i_idle0 n Hi) as (_ & Hf & _). rewrite Hp in Hf. by apply Forall_cons in Hf as [? _].
  - intros p (_ & _ & r & Hp)%i_unblock0. destruct (i_idle0 n Hi) as (_ & Hf & _).
    rewrite Hp in Hf. by apply Forall_cons in Hf as [? _].
  - intros Hd. destruct (i_idle0 n Hi) as (_ & _ & Hl). rewrite (i_dying0 n) in Hl; [by destruct Hl|].
    by rewrite (st_of _ _ _ Hn), Hd.
  - intros t Ht. rewrite Hr. rewrite elem_of_cons. naive_solver.
  - rewrite Hr in i_ready_nd0. by apply NoDup_cons in i_ready_nd0 as [? _].
  - rewrite Hr in i_ready_nd0. by apply NoDup_cons in i_ready_nd0 as [_ ?].
  - intros s (Hb & _)%i_sema0. rewrite (i_ready0 n) in Hb; [done|]. rewrite Hr. by left.
  - intros [_ [[Hb _]|(? & _)]]%i_slept0; [|done]. rewrite (i_ready0 n) in Hb; [done|]. rewrite Hr. by left.
  - intros p (Hb & _)%i_unblock0. rewrite (i_ready0 n) in Hb; [done|]. rewrite Hr. by left.
  - intros Hd. specialize (i_ready0 n). rewrite (st_of _ _ _ Hn), Hd, Hr in i_ready0.
    by discriminate i_ready0; left.
Qed.

Lemma wp_schedule k : kinv false None k → wp schedule (λ _, kinv true None) k.
Proof.
  intros Hk. apply wp_bind. change (wp running_thread ?Q k) with (Q (cur k) k). cbv beta.
  assert (∀ next k1, cur k1 = cur k → threads k1 = threads k →
    (∀ n, next = Some n → (ready_list k = [] ∧ idle_thread k = Some n ∧ k1 = k) ∨
       (∃ ts, ready_list k = n :: ts ∧ k1 = set_ready_list ts k)) →
    wp (run assert_intr_off; do th <- get_thread (cur k);
        run assertM (negb (bool_decide (status th = THREAD_RUNNING)));
        match next with
        | None => panicM
        | Some next =>
            do k0 <- getM; run assertM (is_thread next k0);
            if negb (cur k =? next)%N
            then run modifyM (set_cur next); thread_schedule_tail (Some (cur k))
            else thread_schedule_tail None
        end) (λ _, kinv true None) k1) as Hrest.
  { intros next k1 Hc Ht Hn. apply wp_bind, wp_assert_off. intros _.
    apply wp_bind, wp_get_thread. intros th Hth. apply wp_bind, wp_assert. intros _.
    destruct next as [n|]; [|done]. apply wp_bind, wp_get. apply wp_bind, wp_assert.
    intros [thn Hthn]%bool_decide_eq_true. rewrite Ht in Hthn.
    pose proof (switch_target k n thn k1 Hk Hthn (Hn n eq_refl)) as Hsw.
    destruct (N.eqb_spec (cur k) n) as [Hcn|Hcn]; simpl.
    - apply wp_schedule_tail. rewrite Ht, Hc, Hcn, Hthn. simpl.
      eapply kinv_same; [|exact Hsw]. rewrite Ht. split; try done. simpl. congruence.
    - apply wp_bind, wp_modify, wp_schedule_tail. simpl. rewrite Ht, Hthn. by rewrite Ht in Hsw. }
  apply wp_bind, wp_next_thread.
  - intros Hr. apply Hrest; [done..|]. intros n Hn. by left.
  - intros t ts Hr. apply (Hrest (Some t)); [done..|]. intros n [= ->]. right. eauto.
Qed.
