(* ===== verification/KernelOps.v ===== *)
(** * Every kernel operation preserves the scheduler invariant

    Symbolic execution of thread.c, synch.c and timer.c over [kinv]. *)

From stdpp Require Import base numbers list gmap sorting.
From S2P Require Import Prelude KList KListOps FixedPoint Thread Synch Timer KernelInv.
Local Open Scope Z_scope.

(** Steps through binds, asserts, reads and writes. *)
Ltac wp_step :=
  match goal with
  | |- wp (bindM _ _) _ _ => apply wp_bind
  | |- wp (retM _) _ _ => apply wp_ret
  | |- wp panicM _ _ => done
  | |- wp getM _ _ => apply wp_get
  | |- wp (modifyM _) _ _ => apply wp_modify
  | |- wp (assertM _) _ _ => apply wp_assert; intros ?
  | |- wp running_thread ?Q ?k => change (Q (cur k) k); cbv beta
  | |- wp intr_get_level ?Q ?k => change (Q (intr k) k); cbv beta
  | |- wp intr_context ?Q ?k => change (Q (in_external_intr k) k); cbv beta
  | |- wp (put_thread _ _) _ _ => apply wp_modify
  | |- wp (put_sema _ _) _ _ => apply wp_modify
  | |- wp (put_holder _ _) _ _ => apply wp_modify
  | |- wp (put_cond _ _) _ _ => apply wp_modify
  | |- wp intr_disable _ _ => apply wp_intr_disable
  | |- wp (intr_set_level _) _ _ => apply wp_intr_set_level; intros ?
  | |- wp assert_not_intr_context _ _ => apply wp_assert_not_ctx
  | |- wp assert_intr_off _ _ => apply wp_assert_off; intros ?
  end.
Ltac wps := repeat wp_step.

(** The parts of the invariant as hypotheses. *)
Ltac kinv_facts Hk :=
  pose proof (i_cur _ _ _ Hk) as i_cur0;
  pose proof (i_run _ _ _ Hk) as i_run0;
  pose proof (i_ready_nd _ _ _ Hk) as i_ready_nd0;
  pose proof (i_ready _ _ _ Hk) as i_ready0;
  pose proof (i_ready_all _ _ _ Hk) as i_ready_all0;
  pose proof (i_sema_nd _ _ _ Hk) as i_sema_nd0;
  pose proof (i_sema _ _ _ Hk) as i_sema0;
  pose proof (i_slept_nd _ _ _ Hk) as i_slept_nd0;
  pose proof (i_slept _ _ _ Hk) as i_slept0;
  pose proof (i_sorted _ _ _ Hk) as i_sorted0;
  pose proof (i_blocked _ _ _ Hk) as i_blocked0;
  pose proof (i_hole _ _ _ Hk) as i_hole0;
  pose proof (i_unblock _ _ _ Hk) as i_unblock0;
  pose proof (i_unblock1 _ _ _ Hk) as i_unblock10;
  pose proof (i_prog _ _ _ Hk) as i_prog0;
  pose proof (i_sleep _ _ _ Hk) as i_sleep0;
  pose proof (i_idle _ _ _ Hk) as i_idle0;
  pose proof (i_dying _ _ _ Hk) as i_dying0;
  pose proof (i_all_nd _ _ _ Hk) as i_all_nd0;
  pose proof (i_all _ _ _ Hk) as i_all0.

(** A state that differs from [k] only in what the invariant does not see. *)
Ltac invisible H := eapply kinv_same; [|exact H]; by split.

(** ** Unblocking *)
Lemma wp_thread_unblock k t :
  kinv true (Some t) k →
  wp (thread_unblock t) (λ _ k', kinv true None k' ∧ cur k' = cur k ∧
    (∀ x, pg k' x = pg k x) ∧ blocked_list k' = blocked_list k) k.
Proof.
  intros Hk. kinv_facts Hk. unfold thread_unblock. wp_step. apply wp_get_thread. intros th Hth.
  wps. apply wp_mod_thread. simpl. intros th' Hth'. rewrite Hth in Hth'. injection Hth' as <-. wps.
  destruct (i_hole0 t eq_refl) as (Hst & Hni & Hnt). pose proof (st_of _ _ _ Hth) as Hst'.
  destruct i_cur0 as [Hcs Hcr]. specialize (Hcr eq_refl).
  assert (cur k ≠ t) as Hct by (intros Hc; rewrite Hc in Hcr; congruence).
  assert (t ∉ ready_list k) as Hnr by (intros ?%i_ready0; congruence).
  split_and!; [|done| |done].
  2:{ intros x. unfold pg. simpl. rewrite lookup_insert.
      destruct (decide (t = x)) as [<-|]; [by rewrite Hth|done]. }
  eapply (kinv_central true true (Some t) None k _ t (set_status THREAD_READY th)); [done|by right|done|..].
  - split; simpl; try done.
    + intros x Hx. rewrite elem_of_app, list_elem_of_singleton. naive_solver.
    + intros x Hx. naive_solver.
    + apply NoDup_app. split_and!; [done| |apply NoDup_singleton].
      intros x Hx ->%list_elem_of_singleton. done.
    + eapply (StronglySorted_ext_in (λ a b, bt k a ≤ bt k b)); [|done].
      intros a b Ha Hb. unfold bt. simpl. rewrite !lookup_insert_ne; [done|..];
        intros <-; destruct (i_slept0 t); done.
  - split; simpl; try done.
    + by rewrite (par_of _ _ _ Hth).
    + intros x. by rewrite (pg_of _ _ _ Hth).
    + rewrite <-(pg_of _ _ _ Hth). done.
    + rewrite lookup_insert_ne by done. split; done.
    + intros _. left. apply elem_of_app. right. by left.
    + intros s (_ & ? & _)%i_sema0. done.
    + intros [? _]%i_slept0. done.
    + rewrite <-(pg_of _ _ _ Hth). auto.
    + rewrite <-(pg_of _ _ _ Hth). intros (_ & ? & _)%i_sleep0. done.
    + split; [done|]. intros _. apply i_all0. eauto.
Qed.

(** ** Blocking, yielding, exiting *)
Lemma wp_thread_block k :
  (∀ th, threads k !! cur k = Some th →
     kinv false None (set_threads (<[cur k := set_status THREAD_BLOCKED th]> (threads k)) k)) →
  wp thread_block (λ _, kinv true None) k.
Proof.
  intros Hk. unfold thread_block. wps. apply wp_thread_current. intros _ _ _.
  wps. apply wp_mod_thread. intros th Hth. apply wp_schedule. auto.
Qed.

Section running.
  Context (k : kernel) (th : thread).
  Hypothesis Hk : kinv true None k.
  Hypothesis Hth : threads k !! cur k = Some th.
  Hypothesis Hns : ISleep ∉ prog th.

Lemma wp_thread_yield : wp thread_yield (λ _, kinv true None) k.
Proof.
  unfold thread_yield. wps. apply wp_thread_current. intros th0 Hth0 _. rewrite Hth in Hth0.
  injection Hth0 as <-. wps.
  assert (∀ k1, threads k1 = threads k → cur k1 = cur k → (∀ s, wt k1 s = wt k s) →
    blocked_list k1 = blocked_list k → all_list k1 = all_list k → idle_thread k1 = idle_thread k →
    (idle_thread k = Some (cur k) ∧ ready_list k1 = ready_list k ∨
     idle_thread k ≠ Some (cur k) ∧ ready_list k1 = ready_list k ++ [cur k]) →
    wp (run mod_thread (cur k) (set_status THREAD_READY);
        run push_prog (cur k) (ISetLevel (intr k)); schedule) (λ _, kinv true None) k1) as Hrest.
  { intros k1 Ht Hc Hw Hb Ha Hi Hr. wps. apply wp_mod_thread. rewrite Ht. intros th1 Hth1.
    rewrite Hth in Hth1. injection Hth1 as <-. simpl. wps. apply wp_mod_thread. simpl.
    rewrite lookup_insert_eq. intros th1 [= <-]. apply wp_schedule. simpl. rewrite insert_insert_eq.
    pose proof (cur_not_ready _ _ _ Hk Hth) as Hnr. pose proof (cur_not_slept _ _ _ Hk Hth Hns) as Hnb.
    kinv_facts Hk.
    eapply (kinv_stop None k th Hk Hth); try done; simpl; rewrite ?Hb, ?Ha.
    - split; simpl; rewrite ?Hb, ?Ha; try done.
      + intros t Hne. destruct Hr as [[_ ->]|[_ ->]]; [done|].
        rewrite elem_of_app, list_elem_of_singleton. naive_solver.
      + intros s t. unfold wt. simpl. fold (wt k1 s). by rewrite Hw.
      + destruct Hr as [[_ ->]|[_ ->]]; [done|]. apply NoDup_app. split_and!; [done| |apply NoDup_singleton].
        intros x Hx ->%list_elem_of_singleton. done.
      + intros s. unfold wt. simpl. fold (wt k1 s). by rewrite Hw.
      + eapply (StronglySorted_ext_in (λ a b, bt k a ≤ bt k b)); [|done].
        intros a b Ha' Hb'. unfold bt. simpl. rewrite !lookup_insert_ne; [done|congruence..].
    - rewrite elem_of_cons. naive_solver.
    - intros t. rewrite elem_of_cons. naive_solver.
    - rewrite filter_cons_False by tauto. by eapply cur_unblock1.
    - intros i [->|Hi']%elem_of_cons; [done|]. by eapply cur_prog.
    - intros Hi'. destruct (cur_idle _ _ _ Hk Hth Hi') as [Hf Hl]. split; [by constructor|].
      destruct (prog th); [by destruct Hl|done].
    - intros _. destruct Hr as [[? _]|[_ ->]]; [by right|left]. apply elem_of_app. right. by left.
    - intros s. unfold wt. simpl. fold (wt k1 s). rewrite Hw. by intros ?%(cur_not_waiting _ _ _ Hk Hth).
    - by intros ?%Hnb.
    - split; [done|]. intros _. by eapply cur_all. }
  simpl. destruct (bool_decide_reflect (idle_thread k = Some (cur k))) as [Hi|Hi]; wp_step.
  - apply Hrest; auto.
  - apply Hrest; auto.
Qed.

Lemma wp_thread_exit : prog th = [] → wp thread_exit (λ _, kinv true None) k.
Proof.
  intros Hp. unfold thread_exit. wps. apply wp_thread_current. intros _ _ _. wps.
  apply wp_mod_thread. simpl. intros th0 Hth0. rewrite Hth in Hth0. injection Hth0 as <-.
  apply wp_schedule. pose proof (cur_not_slept _ _ _ Hk Hth Hns) as Hnb. kinv_facts Hk.
  assert (idle_thread k ≠ Some (cur k)) as Hi.
  { intros Hi. destruct (cur_idle _ _ _ Hk Hth Hi) as [_ Hl]. rewrite Hp in Hl. by destruct Hl. }
  eapply (kinv_stop None k th Hk Hth); try done; simpl.
  - split; simpl; try done.
    + intros t Ht. rewrite list_elem_of_filter. naive_solver.
    + by apply NoDup_filter.
    + eapply (StronglySorted_ext_in (λ a b, bt k a ≤ bt k b)); [|done].
      intros a b Ha Hb. unfold bt. simpl. rewrite !lookup_insert_ne; [done|congruence..].
  - by eapply cur_unblock1.
  - intros i Hi'. by eapply cur_prog.
  - by intros ?%(cur_not_ready _ _ _ Hk Hth).
  - intros s. by intros ?%(cur_not_waiting _ _ _ Hk Hth).
  - rewrite list_elem_of_filter. naive_solver.
Qed.
End running.

(** ** Semaphores *)
Lemma same_value k s sm v :
  semas k !! s = Some sm → same k (set_semas (<[s := Semaphore v (waiters sm)]> (semas k)) k).
Proof.
  intros Hs. split; try done. intros s'. unfold wt. simpl. rewrite lookup_insert.
  destruct (decide (s = s')) as [<-|]; [by rewrite Hs|done].
Qed.
Lemma wt_push k s s' sm t :
  semas k !! s = Some sm →
  wt (set_semas (<[s := Semaphore (value sm) (waiters sm ++ [t])]> (semas k)) k) s' =
  if decide (s = s') then wt k s' ++ [t] else wt k s'.
Proof.
  intros Hs. unfold wt. simpl. rewrite lookup_insert.
  destruct (decide (s = s')) as [<-|]; [by rewrite Hs|done].
Qed.

Section sema.
  Context (k : kernel) (th : thread).
  Hypothesis Hk : kinv true None k.
  Hypothesis Hth : threads k !! cur k = Some th.
  Hypothesis Hns : ISleep ∉ prog th.

Lemma wp_sema_down_loop s old :
  idle_thread k ≠ Some (cur k) → (∀ x, s = SWait x → x = cur k) →
  wp (sema_down_loop s old) (λ _, kinv true None) k.
Proof.
  intros Hni Hsw. unfold sema_down_loop. wps. apply wp_get_sema. intros sm Hsm.
  destruct (value sm =? 0).
  2:{ wps. eapply kinv_same; [|exact Hk].
      eapply same_trans; [by apply (same_value k s sm)|by split]. }
  wps. apply wp_thread_current. intros _ _ _. wps. apply wp_mod_thread. simpl. intros th0 Hth0.
  rewrite Hth in Hth0. injection Hth0 as <-. apply wp_thread_block. simpl.
  rewrite lookup_insert_eq. intros th0 [= <-]. rewrite insert_insert_eq.
  pose proof (cur_not_slept _ _ _ Hk Hth Hns) as Hnb.
  pose proof (cur_not_waiting _ _ _ Hk Hth) as Hnw. kinv_facts Hk.
  match goal with |- kinv _ _ ?kk => set (k2 := kk) end.
  assert (∀ s', wt k2 s' = if decide (s = s') then wt k s' ++ [cur k] else wt k s')
    as Hwt by (intros s'; by apply (wt_push k)).
  assert (∀ s', cur k ∈ wt k2 s' → s = s') as Hwc.
  { intros s'. rewrite Hwt. case_decide; [done|]. by intros ?%Hnw. }
  eapply (kinv_stop None k th Hk Hth k2); try done; simpl.
  - split; simpl; try done.
    + intros s' t Ht. rewrite Hwt. case_decide; [|done].
      rewrite elem_of_app, list_elem_of_singleton. naive_solver.
    + intros s'. rewrite Hwt. case_decide; [|done].
      apply NoDup_app. split_and!; [done| |apply NoDup_singleton].
      intros x Hx ->%list_elem_of_singleton. by destruct (Hnw s').
    + eapply (StronglySorted_ext_in (λ a b, bt k a ≤ bt k b)); [|done].
      intros a b Ha Hb. unfold bt. simpl. rewrite !lookup_insert_ne; [done|congruence..].
  - rewrite elem_of_cons. naive_solver.
  - intros t. rewrite elem_of_cons. naive_solver.
  - rewrite filter_cons_False by tauto. by eapply cur_unblock1.
  - intros i [->|Hi]%elem_of_cons; [|by eapply cur_prog]. simpl. destruct s; try done. by apply Hsw.
  - by intros ?%(cur_not_ready _ _ _ Hk Hth).
  - intros s' <-%Hwc. eauto.
  - intros _. unfold blocked_at, pg. simpl. rewrite lookup_insert_eq. simpl.
    rewrite Hwt, decide_True by done. apply elem_of_app. right. by left.
  - split; [done|]. intros _. by eapply cur_all.
Qed.
End sema.

(** A blocked thread leaves the queue it waits in. *)
Lemma kinv_hole k k' t th :
  kinv true None k → threads k !! t = Some th → status th = THREAD_BLOCKED →
  threads k' = threads k → cur k' = cur k → all_list k' = all_list k →
  ready_list k' = ready_list k → idle_thread k' = idle_thread k →
  (∀ s x, x ≠ t → x ∈ wt k' s ↔ x ∈ wt k s) → (∀ s, t ∉ wt k' s) → (∀ s, NoDup (wt k' s)) →
  (∀ x, x ≠ t → x ∈ blocked_list k' ↔ x ∈ blocked_list k) → t ∉ blocked_list k' →
  NoDup (blocked_list k') → StronglySorted (λ a b, bt k a ≤ bt k b) (blocked_list k') →
  idle_thread k ≠ Some t → (∀ p, IUnblock t ∉ pg k p) → kinv true (Some t) k'.
Proof.
  intros Hk Hth Hb Ht Hc Ha Hr Hi Hw1 Hw2 Hw3 Hs1 Hs2 Hs3 Hs4 Hni Hnt. kinv_facts Hk.
  pose proof (st_of _ _ _ Hth) as Hst. destruct i_cur0 as [Hcs Hcr]. specialize (Hcr eq_refl).
  assert (cur k ≠ t) as Hct by (intros Hc'; rewrite Hc' in Hcr; congruence).
  assert (t ∉ ready_list k) as Hnr by (intros ?%i_ready0; congruence).
  eapply (kinv_central true true None (Some t) k k' t th); [done|right; by rewrite Hc| |..].
  - rewrite Ht. by rewrite insert_id.
  - split; rewrite ?Hr, ?Ha; try done; [naive_solver|].
    eapply StronglySorted_ext_in; [|exact Hs4]. intros. unfold bt in *. by rewrite Ht.
  - split; rewrite ?Hr, ?Ha, ?Hc, ?Hb; try done.
    + by rewrite (par_of _ _ _ Hth).
    + intros x. by rewrite (pg_of _ _ _ Hth).
    + rewrite <-(pg_of _ _ _ Hth). done.
    + rewrite Ht. done.
    + intros s ?%Hw2. done.
    + intros _. by left.
    + rewrite <-(pg_of _ _ _ Hth). auto.
    + rewrite <-(pg_of _ _ _ Hth). intros (_ & ? & _)%i_sleep0. done.
    + split; [done|]. intros _. apply i_all0. rewrite Hst, Hb. eauto.
Qed.

(** Taking the first waiter off the queue of a semaphore. *)
Lemma kinv_pop_waiter k s sm t ws v :
  kinv true None k → semas k !! s = Some sm → waiters sm = t :: ws →
  kinv true (Some t) (set_semas (<[s := Semaphore v ws]> (semas k)) k).
Proof.
  intros Hk Hsm Hws. kinv_facts Hk.
  assert (wt k s = t :: ws) as Hwt by (unfold wt; by rewrite Hsm).
  destruct (i_sema0 s t) as (Hst & _ & old & r & Hp); [rewrite Hwt; by left|].
  pose proof Hst as Hst'. unfold st in Hst'. destruct (threads k !! t) as [th|] eqn:Hth; [|done].
  simpl in Hst'. injection Hst' as Hst'. set (k' := set_semas _ _).
  assert (∀ s', wt k' s' = if decide (s = s') then ws else wt k s') as Hwt'.
  { intros s'. unfold wt. simpl. rewrite lookup_insert. by case_decide. }
  pose proof (i_sema_nd0 s) as Hnd. rewrite Hwt in Hnd. apply NoDup_cons in Hnd as [Hnt Hnd].
  eapply (kinv_hole k k' t th); try done.
  - intros s' x Hx. rewrite Hwt'. case_decide; [subst s'; rewrite Hwt, elem_of_cons; naive_solver|done].
  - intros s'. rewrite Hwt'. case_decide; [done|]. intros (_ & _ & old' & r' & Hp')%i_sema0. congruence.
  - intros s'. rewrite Hwt'. by case_decide.
  - intros [_ [[_ (? & ? & ?)]|(_ & _ & ? & ?)]]%i_slept0; congruence.
  - intros Hi. destruct (i_idle0 t Hi) as (_ & Hf & _). rewrite Hp in Hf. by apply Forall_cons in Hf as [? _].
  - intros p (_ & _ & ? & ?)%i_unblock0. congruence.
Qed.
(** Taking a sleeping thread off [blocked_list]. *)
Lemma kinv_pop_sleeper k t :
  kinv true None k → t ∈ blocked_list k → ISleep ∉ pg k t →
  kinv true (Some t) (set_blocked_list (filter (λ x, x ≠ t) (blocked_list k)) k).
Proof.
  intros Hk Ht Hns. kinv_facts Hk.
  destruct (i_slept0 t Ht) as [_ [[Hst (old & r & Hp)]|(_ & _ & r & Hp)]].
  2:{ rewrite Hp in Hns. destruct Hns. by left. }
  pose proof Hst as Hst'. unfold st in Hst'. destruct (threads k !! t) as [th|] eqn:Hth; [|done].
  simpl in Hst'. injection Hst' as Hst'.
  eapply (kinv_hole k _ t th); try done; simpl.
  - intros s (_ & _ & ? & ? & ?)%i_sema0. congruence.
  - intros x Hx. rewrite list_elem_of_filter. naive_solver.
  - rewrite list_elem_of_filter. naive_solver.
  - by apply NoDup_filter.
  - by apply StronglySorted_filter.
  - intros Hi. destruct (i_idle0 t Hi) as (_ & Hf & _). rewrite Hp in Hf. by apply Forall_cons in Hf as [? _].
  - intros p (_ & _ & ? & ?)%i_unblock0. congruence.
Qed.

Lemma wp_sema_up k s : kinv true None k → wp (sema_up s) (λ _, kinv true None) k.
Proof.
  intros Hk. unfold sema_up. wps. apply wp_get_sema. simpl. intros sm Hsm. wps.
  assert (∀ k1, kinv true None k1 →
    wp (do sm <- get_sema s; run put_sema s (Semaphore (u32 (value sm + 1)) (waiters sm));
        run intr_set_level (intr k); retM tt) (λ _, kinv true None) k1) as Hrest.
  { intros k1 Hk1. wps. apply wp_get_sema. intros sm1 Hsm1. wps.
    eapply kinv_same; [|exact Hk1]. eapply same_trans; [by apply (same_value k1 s sm1)|by split]. }
  assert (kinv true None (set_intr INTR_OFF k)) as Hk0 by (invisible Hk).
  destruct (waiters sm) as [|t ws] eqn:Hws; [wp_step; by apply Hrest|].
  do 2 wp_step. eapply wp_mono.
  - apply wp_thread_unblock. by eapply kinv_pop_waiter.
  - intros _ k' [Hk' _]. by apply Hrest.
Qed.
Lemma wp_sema_try_down k s : kinv true None k → wp (sema_try_down s) (λ _, kinv true None) k.
Proof.
  intros Hk. unfold sema_try_down. wps. apply wp_get_sema. simpl. intros sm Hsm. wps.
  destruct (0 <? value sm); wps; [|invisible Hk].
  eapply kinv_same; [|exact Hk]. eapply same_trans; [by apply (same_value k s sm)|by split].
Qed.

(** ** Saving and dropping instructions *)
Definition plain (k : kernel) (i : instr) : Prop :=
  instr_ok k (cur k) i ∧ ¬ is_unblock i ∧ i ≠ ISleep ∧ (idle_thread k = Some (cur k) → idle_instr i).
Section push.
  Context (h : option tptr) (k : kernel) (th : thread).
  Hypothesis Hk : kinv true h k.
  Hypothesis Hth : threads k !! cur k = Some th.
  Hypothesis Hns : ISleep ∉ prog th.

Lemma prog_change_app il : Forall (plain k) il → prog_change k th (il ++ prog th).
Proof.
  intros His. split; try done.
  - intros t. rewrite elem_of_app. split; [|auto]. intros [Hi|?]; [|done].
    eapply Forall_forall in His as (_ & Hu & _); [|exact Hi]. by destruct Hu.
  - rewrite filter_app, length_app, (proj2 (length_zero_iff_nil _)); [by eapply cur_unblock1|].
    apply filter_none. intros i Hi. by eapply Forall_forall in His as (_ & ? & _); [|exact Hi].
  - intros i [Hi|Hi]%elem_of_app; [|by eapply cur_prog].
    by eapply Forall_forall in His as (? & _); [|exact Hi].
  - intros [Hi|?]%elem_of_app; [|done]. by eapply Forall_forall in His as (_ & _ & ? & _); [|exact Hi].
  - intros Hid. destruct (cur_idle _ _ _ Hk Hth Hid) as [Hf Hl]. split.
    + apply Forall_app. split; [|done]. eapply Forall_impl; [exact His|]. intros i (_ & _ & _ & ?). auto.
    + destruct (prog th) as [|i r] eqn:Hp; [by destruct Hl|]. by rewrite last_app_cons.
Qed.
Lemma kinv_push k' il :
  Forall (plain k) il → threads k' = <[cur k := set_prog (il ++ prog th) th]> (threads k) →
  queues_eq k k' → kinv true h k'.
Proof. intros His Hupd Hq. eapply (kinv_prog h k th Hk Hth k'); try done. by apply prog_change_app. Qed.
End push.

Lemma kinv_pop k th i r :
  kinv true None k → threads k !! cur k = Some th → prog th = i :: r → i ≠ ISleep → ¬ is_unblock i →
  kinv true None (set_threads (<[cur k := set_prog (after i r) th]> (threads k)) k) ∧ ISleep ∉ after i r.
Proof.
  intros Hk Hth Hp Hi Hu. kinv_facts Hk. pose proof (pg_of _ _ _ Hth) as Hpg.
  assert (ISleep ∉ prog th) as Hns.
  { rewrite <-Hpg. intros (_ & _ & _ & r' & Hr & _)%i_sleep0. rewrite Hpg, Hp in Hr. congruence. }
  assert (∀ j, j ∈ after i r → j ∈ r ∨ (j = IIdle ∧ i = IHlt) ∨ (j = IHlt ∧ i = IIdle)) as Haf.
  { intros j. destruct i; simpl; rewrite ?elem_of_cons; naive_solver. }
  assert (∀ j, j ∈ r → j ∈ after i r) as Haf' by (destruct i; simpl; try done; by right).
  assert (ISleep ∉ after i r) as Hna.
  { intros [?|[[? _]|[? _]]]%Haf; [|done..]. apply Hns. rewrite Hp. by right. }
  split; [|done]. eapply (kinv_prog None k th Hk Hth); try done. split; try done; simpl.
  - intros t. rewrite Hp, elem_of_cons. split.
    + intros [?|[[? _]|[? _]]]%Haf; auto; done.
    + intros [<-|?]; [by destruct Hu|auto].
  - pose proof (cur_unblock1 _ _ _ Hk Hth) as H1. rewrite Hp, filter_cons_False in H1 by done.
    destruct i; simpl; try done; by rewrite filter_cons_False by tauto.
  - intros j [?|[[-> ->]|[-> ->]]]%Haf.
    + apply (cur_prog _ _ _ Hk Hth). rewrite Hp. by right.
    + apply (cur_prog _ _ _ Hk Hth IHlt). rewrite Hp. by left.
    + apply (cur_prog _ _ _ Hk Hth IIdle). rewrite Hp. by left.
  - intros Hid. destruct (cur_idle _ _ _ Hk Hth Hid) as [Hf Hl]. rewrite Hp in Hf, Hl.
    apply Forall_cons in Hf as [Hfi Hfr]. split; [destruct i; simpl; try done; by constructor|].
    destruct r as [|j r]; [destruct i; simpl in *; naive_solver|]. destruct i; done.
Qed.

(** ** Creation *)
(** [thread_create] reaches its [thread_unblock]. *)
Lemma kinv_pop_unblock k th t r :
  kinv true None k → threads k !! cur k = Some th → prog th = IUnblock t :: r →
  kinv true (Some t) (set_threads (<[cur k := set_prog r th]> (threads k)) k).
Proof.
  intros Hk Hth Hp. kinv_facts Hk. pose proof (pg_of _ _ _ Hth) as Hpg.
  set (k' := set_threads _ _).
  assert (threads k' = <[cur k := set_prog r th]> (threads k)) as Hupd by done.
  destruct (i_unblock0 (cur k) t) as (Hst & Hpar & r' & Hpt); [rewrite Hpg, Hp; by left|].
  assert (cur k ≠ t) as Hct.
  { intros <-. destruct i_cur0 as [_ Hr]. rewrite Hr in Hst; done. }
  assert (∀ x, st k' x = st k x) as Est.
  { intros x. upd Hupd. destruct (decide (cur k = x)) as [<-|]; [by rewrite (st_of _ _ _ Hth)|done]. }
  assert (∀ x, par k' x = par k x) as Epar.
  { intros x. upd Hupd. destruct (decide (cur k = x)) as [<-|]; [by rewrite (par_of _ _ _ Hth)|done]. }
  assert (∀ x, cur k ≠ x → pg k' x = pg k x) as Epg by (intros x Hx; upd Hupd; by rewrite decide_False).
  assert (pg k' (cur k) = r) as Epc by (upd Hupd; by rewrite decide_True).
  pose proof (cur_unblock1 _ _ _ Hk Hth) as H1. rewrite Hp, filter_cons_True in H1 by done. simpl in H1.
  assert (∀ x, IUnblock x ∉ r) as Hnr.
  { intros x Hx. assert (IUnblock x ∈ filter is_unblock r) as Hf by (by apply list_elem_of_filter).
    destruct (filter is_unblock r); [by apply elem_of_nil in Hf|simpl in H1; lia]. }
  assert (∀ x p, IUnblock x ∈ pg k' p → cur k ≠ p ∧ IUnblock x ∈ pg k p) as Hun.
  { intros x p Hu. destruct (decide (cur k = p)) as [<-|Hne]; [by destruct (Hnr x); rewrite <-Epc|].
    split; [done|]. by rewrite <-Epg. }
  assert (∀ x i, i ∈ pg k' x → i ∈ pg k x) as Hsub.
  { intros x i. destruct (decide (cur k = x)) as [<-|]; [|by rewrite Epg]. rewrite Epc, Hpg, Hp. by right. }
  assert (∀ x, st k x = Some THREAD_BLOCKED → cur k ≠ x) as Hb.
  { intros x Hx <-. destruct i_cur0 as [_ Hr]. rewrite Hr in Hx; done. }
  split; try done; try (intros x; rewrite ?Est; by auto).
  - destruct i_cur0. split; [rewrite (dom_upd _ _ _ _ Hupd); auto|]. intros _. rewrite Est. auto.
  - intros s x (Hs & Hh & old & q & Hq)%i_sema0. rewrite Est, Epg by auto. split_and!; eauto.
    intros [= <-]. congruence.
  - intros x [_ [[Hs (old & q & Hq)]|(_ & -> & q & Hq)]]%i_slept0.
    + rewrite Est, Epg by auto. split; [|eauto]. intros [= <-]. congruence.
    + rewrite Hpg, Hp in Hq. done.
  - eapply (StronglySorted_ext_in (λ a b, bt k a ≤ bt k b)); [|done]. intros a b _ _. upd Hupd.
    destruct (decide (cur k = a)) as [<-|], (decide (cur k = b)) as [<-|];
      rewrite ?(bt_of _ _ _ Hth); done.
  - intros x. rewrite Est. intros Hs. destruct (decide (t = x)) as [<-|Hne]; [by left|right].
    destruct (i_blocked0 x Hs) as [?|Ha]; [done|]. unfold blocked_at in *. rewrite Epg by auto.
    destruct (pg k x) as [|[] ?]; try done. destruct Ha as (p & Hpx & Hu). exists p. rewrite Epar.
    split; [done|]. rewrite Epg; [done|]. intros <-. rewrite Hpg, Hp in Hu.
    apply elem_of_cons in Hu as [[= ?]|Hu]; [congruence|]. by destruct (Hnr x).
  - intros x [= <-]. rewrite Est. split_and!; try done.
    + intros Hi. destruct (i_idle0 t Hi) as (_ & Hf & _). rewrite Hpt in Hf. by apply Forall_cons in Hf as [? _].
    + intros p [Hne Hu]%Hun. apply i_unblock0 in Hu as (_ & Hpar' & _). congruence.
  - intros p x [Hne Hu]%Hun. destruct (i_unblock0 p x Hu) as (Hs & ? & ?).
    by rewrite Est, Epar, Epg by auto.
  - intros p. destruct (decide (cur k = p)) as [<-|]; [|by rewrite Epg].
    rewrite Epc. rewrite filter_none; [simpl; lia|]. intros i Hi Hu. destruct i; try done. by destruct (Hnr t0).
  - intros x i Hi. apply (i_prog0 x). by apply Hsub.
  - intros x Hx%Hsub. destruct (i_sleep0 x Hx) as (_ & -> & _ & q & Hq & _). rewrite Hpg, Hp in Hq. done.
  - intros x Hx. destruct (i_idle0 x Hx) as (Hd & Hf & Hl). rewrite (dom_upd _ _ _ _ Hupd).
    destruct (decide (cur k = x)) as [<-|]; [|by rewrite Epg; auto].
    rewrite Hpg, Hp in Hf. by apply Forall_cons in Hf as [? _].
  - intros x. rewrite Est. intros Hs. destruct (decide (cur k = x)) as [<-|]; [|rewrite Epg by done; auto].
    destruct i_cur0 as [_ Hr]. rewrite Hr in Hs; done.
Qed.

Definition creation (t : tptr) : list instr :=
  [ILockAcquire tid_lock; IAllocTid t; ILockRelease tid_lock; IUnblock t].
Lemma kinv_create k k' th t thn :
  kinv true None k → threads k !! cur k = Some th → prog th = [] → idle_thread k ≠ Some (cur k) →
  threads k !! t = None →
  (∀ x, threads k' !! x = if decide (t = x) then Some thn
                          else if decide (cur k = x) then Some (set_prog (creation t) th)
                          else threads k !! x) →
  status thn = THREAD_BLOCKED → parent thn = Some (cur k) → prog thn = [IStart] →
  (∀ s, wt k' s = wt k s) → cur k' = cur k → ready_list k' = ready_list k →
  blocked_list k' = blocked_list k → all_list k' = all_list k ++ [t] →
  idle_thread k' = idle_thread k → kinv true None k'.
Proof.
  intros Hk Hth Hp Hni Hnew Hupd Hs Hpar Hpn Hw Hc Hr Hb Ha Hi. kinv_facts Hk.
  pose proof (pg_of _ _ _ Hth) as Hpg. rewrite Hp in Hpg.
  assert (cur k ≠ t) as Hct by (intros <-; congruence).
  assert (st k t = None) as Hst by (unfold st; by rewrite Hnew).
  assert (st k' t = Some THREAD_BLOCKED ∧ pg k' t = [IStart] ∧ par k' t = Some (cur k)) as (Hst' & Hpt & Hpr).
  { unfold st, pg, par. rewrite Hupd, decide_True by done. simpl. by rewrite Hs, Hpn, Hpar. }
  assert (∀ x, x ≠ t → st k' x = st k x ∧ par k' x = par k x ∧ bt k' x = bt k x) as Eo.
  { intros x Hx. unfold st, par, bt. rewrite Hupd, decide_False by done.
    destruct (decide (cur k = x)) as [<-|]; [by rewrite Hth|done]. }
  assert (∀ x, x ≠ t → cur k ≠ x → pg k' x = pg k x) as Epg
    by (intros x ? ?; unfold pg; by rewrite Hupd, !decide_False).
  assert (pg k' (cur k) = creation t) as Epc by (unfold pg; by rewrite Hupd, decide_False, decide_True).
  assert (∀ x s, st k x = Some s → x ≠ t) as Hne by (intros x s ? ->; congruence).
  assert (∀ x, st k x = Some THREAD_BLOCKED → cur k ≠ x) as Hcb.
  { intros x Hx <-. destruct i_cur0 as [_ Hrun]. rewrite Hrun in Hx; done. }
  assert (∀ x p, IUnblock x ∈ pg k' p ↔ (x = t ∧ p = cur k) ∨ IUnblock x ∈ pg k p) as Hun.
  { intros x p. destruct (decide (p = t)) as [->|]; [|destruct (decide (cur k = p)) as [<-|]].
    - rewrite Hpt, list_elem_of_singleton. unfold pg. rewrite Hnew. rewrite elem_of_nil. naive_solver.
    - rewrite Epc, Hpg. unfold creation. rewrite !elem_of_cons, elem_of_nil. naive_solver.
    - rewrite Epg by done. naive_solver. }
  assert (∀ x, x ∈ blocked_list k → x ≠ t) as Hbt.
  { intros x [_ [[? _]|(_ & -> & _)]]%i_slept0; [by eapply Hne|done]. }
  split; rewrite ?Hc, ?Hr, ?Hb, ?Hi; try done.
  - rewrite Hupd, decide_False, decide_True by done. split; [done|]. intros _.
    rewrite (proj1 (Eo _ Hct)). by apply i_cur0.
  - intros x. destruct (decide (x = t)) as [->|Hx]; [by rewrite Hst'|]. rewrite (proj1 (Eo _ Hx)). auto.
  - intros x Hx%i_ready0. by rewrite (proj1 (Eo _ (Hne _ _ Hx))).
  - intros x. destruct (decide (x = t)) as [->|Hx]; [by rewrite Hst'|]. rewrite (proj1 (Eo _ Hx)). auto.
  - intros s. by rewrite Hw.
  - intros s x. rewrite Hw. intros (Hx & ? & Hp')%i_sema0. pose proof (Hne _ _ Hx).
    by rewrite (proj1 (Eo x ltac:(done))), Epg by auto.
  - intros x Hx. pose proof (Hbt x Hx) as Hxt. destruct (i_slept0 x Hx) as [_ [[Hs' Hp']|(_ & -> & r & Hr')]].
    + split; [done|]. left. by rewrite (proj1 (Eo _ Hxt)), Epg by auto.
    + by rewrite Hpg in Hr'.
  - eapply (StronglySorted_ext_in (λ a b, bt k a ≤ bt k b)); [|done]. intros a b Hia Hib.
    destruct (Eo a (Hbt _ Hia)) as (_ & _ & Ea), (Eo b (Hbt _ Hib)) as (_ & _ & Eb). by rewrite Ea, Eb.
  - intros x. destruct (decide (x = t)) as [->|Hx].
    + intros _. right. unfold blocked_at. rewrite Hpt. exists (cur k). split; [done|]. apply Hun. by left.
    + rewrite (proj1 (Eo _ Hx)). intros Hs'. destruct (i_blocked0 x Hs') as [?|Hat]; [by left|right].
      unfold blocked_at in *. rewrite Epg, Hb, Hi by auto. destruct (pg k x) as [|[] ?]; try done.
      * destruct Hat as (p & Hp' & Hu). exists p. destruct (Eo x Hx) as (_ & -> & _).
        split; [done|]. apply Hun. by right.
      * by rewrite Hw.
  - intros p x [[-> ->]|Hu]%Hun; [by eauto|]. destruct (i_unblock0 p x Hu) as (Hs' & Hp' & Hr').
    pose proof (Hne _ _ Hs') as Hx. destruct (Eo x Hx) as (-> & -> & _). by rewrite Epg by auto.
  - intros p. destruct (decide (p = t)) as [->|]; [rewrite Hpt; vm_compute; lia|].
    destruct (decide (cur k = p)) as [<-|]; [rewrite Epc; vm_compute; lia|by rewrite Epg].
  - intros x i Hin. apply (instr_ok_same k); [done|]. destruct (decide (x = t)) as [->|].
    { rewrite Hpt in Hin. by apply list_elem_of_singleton in Hin as ->. }
    destruct (decide (cur k = x)) as [<-|]; [|rewrite Epg in Hin by done; auto].
    rewrite Epc in Hin. unfold creation in Hin. rewrite !elem_of_cons, elem_of_nil in Hin. naive_solver.
  - intros x Hin. destruct (decide (x = t)) as [->|]; [rewrite Hpt in Hin; set_solver|].
    destruct (decide (cur k = x)) as [<-|]; [rewrite Epc in Hin; unfold creation in Hin; set_solver|].
    rewrite Epg in Hin by done. destruct (i_sleep0 x Hin) as (_ & ? & _). congruence.
  - intros x Hx. destruct (i_idle0 x Hx) as ([thx Hd] & Hf & Hl).
    assert (x ≠ t) by (intros ->; congruence). assert (cur k ≠ x) by congruence.
    rewrite Epg by done. split_and!; try done. rewrite Hupd, !decide_False by done. eauto.
  - intros x. destruct (decide (x = t)) as [->|Hx]; [by rewrite Hst'|]. rewrite (proj1 (Eo _ Hx)).
    intros Hs'. rewrite Epg; [auto|done|]. intros <-. destruct i_cur0 as [_ Hrun]. rewrite Hrun in Hs'; done.
  - rewrite Ha. apply NoDup_app. split_and!; [done| |apply NoDup_singleton].
    intros x (s & Hx & _)%i_all0 ->%list_elem_of_singleton. congruence.
  - intros x. rewrite Ha, elem_of_app, list_elem_of_singleton, i_all0.
    destruct (decide (x = t)) as [->|Hx]; [|rewrite (proj1 (Eo _ Hx)); naive_solver].
    split; [|auto]. intros _. rewrite Hst'. eauto.
Qed.
