(* ===== verification/KernelSafety.v ===== *)
(** * The scheduler invariant holds in every reachable state

    The remaining operations, the theorem that every step preserves [kinv], the
    state the kernel boots into, and the race of [timer_sleep]. *)

From stdpp Require Import base numbers list gmap sorting.
From S2P Require Import Prelude KList KListOps FixedPoint Thread Synch Timer KernelInv KernelOps.
Local Open Scope Z_scope.

(** ** Operations of a thread that is not the idle thread *)
Section ops.
  Context (k : kernel) (th : thread).
  Hypothesis Hk : kinv true None k.
  Hypothesis Hth : threads k !! cur k = Some th.
  Hypothesis Hns : ISleep ∉ prog th.
  Hypothesis Hni : idle_thread k ≠ Some (cur k).

Lemma plain_ok il : Forall (λ i, instr_ok k (cur k) i ∧ ¬ is_unblock i ∧ i ≠ ISleep) il → Forall (plain k) il.
Proof. intros H. eapply Forall_impl; [exact H|]. intros i (? & ? & ?). by split_and!. Qed.

Ltac plain_list := repeat (apply Forall_cons_2; [by unfold plain; simpl; split_and!; try tauto|]); apply Forall_nil_2.

Lemma wp_sema_down s :
  (∀ x, s = SWait x → x = cur k) → wp (sema_down s) (λ _, kinv true None) k.
Proof.
  intros Hs. unfold sema_down. wps.
  apply (wp_sema_down_loop (set_intr INTR_OFF k) th); try done. invisible Hk.
Qed.

Lemma wp_held l (Q : bool → kernel → Prop) :
  (∀ b, Q b k) → wp (lock_held_by_current_thread l) Q k.
Proof.
  intros H. unfold lock_held_by_current_thread. wps. apply wp_get_holder. intros h Hh.
  wps. apply wp_thread_current. intros _ _ _. by apply wp_ret.
Qed.
Lemma wp_lock_acquire l : wp (lock_acquire l) (λ _, kinv true None) k.
Proof.
  unfold lock_acquire. wps. apply wp_held. intros []; wps; [done|].
  apply wp_thread_current. intros _ _ _. wps. apply wp_on_links. intros _ lh.
  apply wp_mod_thread. simpl. intros th0 Hth0. rewrite Hth in Hth0. injection Hth0 as <-.
  eapply (kinv_push None k th Hk Hth Hns _ [ISemaDown (SLock l); ISetHolder l]); [|done|done].
  apply plain_ok. plain_list.
Qed.
Lemma wp_lock_set_holder l : wp (lock_set_holder l) (λ _, kinv true None) k.
Proof. unfold lock_set_holder. wps. apply wp_thread_current. intros _ _ _. wps. invisible Hk. Qed.
Lemma wp_lock_try_acquire l : wp (lock_try_acquire l) (λ _, kinv true None) k.
Proof.
  unfold lock_try_acquire. wps. apply wp_held. intros b. wps.
  unfold sema_try_down. wps. apply wp_get_sema. simpl. intros sm Hs. destruct (0 <? value sm); wps.
  2:{ invisible Hk. }
  apply wp_thread_current. intros _ _ _.
  apply wp_mod_thread. simpl. intros th0 Hth0. rewrite Hth in Hth0. injection Hth0 as <-.
  apply wp_ret. match goal with |- kinv _ _ (set_threads _ ?kk) => set (k1 := kk) end.
  assert (kinv true None k1) as Hk1.
  { eapply kinv_same; [|exact Hk]. split; try done. intros s. unfold wt. simpl. rewrite lookup_insert.
    destruct (decide (SLock l = s)) as [<-|]; [by rewrite Hs|done]. }
  eapply (kinv_push None k1 th Hk1 Hth Hns _ [ISetHolder l]); [|done|done].
  apply Forall_cons_2; [|apply Forall_nil_2]. unfold plain. simpl. split_and!; try done; tauto.
Qed.
Lemma wp_lock_release l : wp (lock_release l) (λ _, kinv true None) k.
Proof.
  unfold lock_release. wps. apply wp_held. intros b. wps.
  apply wp_thread_current. intros _ _ _. wps. apply wp_on_links. intros _ lh. wps.
  apply wp_mod_thread. simpl. intros th0 Hth0. rewrite Hth in Hth0. injection Hth0 as <-.
  eapply (kinv_push None k th Hk Hth Hns _ [ISemaUp (SLock l)]); [|done|done].
  apply plain_ok. plain_list.
Qed.

(** Nobody else waits on the semaphore in a thread's own stack frame. *)
Lemma own_semaphore_free : wt k (SWait (cur k)) = [].
Proof.
  destruct (wt k (SWait (cur k))) as [|x ws] eqn:Hw; [done|]. exfalso.
  destruct (i_sema _ _ _ Hk (SWait (cur k)) x) as (Hb & _ & old & r & Hp); [rewrite Hw; by left|].
  assert (instr_ok k x (ISemaWait (SWait (cur k)) old)) as Hx.
  { apply (i_prog _ _ _ Hk). rewrite Hp. by left. }
  simpl in Hx. rewrite <-Hx in Hb. destruct (i_cur _ _ _ Hk) as [_ Hr]. rewrite Hr in Hb; done.
Qed.
Lemma same_sema_init s v : wt k s = [] → same k (set_semas (<[s := Semaphore v []]> (semas k)) k).
Proof.
  intros Hw. split; try done. intros s'. unfold wt in *. simpl. rewrite lookup_insert.
  destruct (decide (s = s')) as [<-|]; [by rewrite Hw|done].
Qed.
Lemma wp_cond_wait c l : wp (cond_wait c l) (λ _, kinv true None) k.
Proof.
  unfold cond_wait. wps. apply wp_held. intros b. wps.
  apply wp_thread_current. intros _ _ _. unfold sema_init. wps. apply wp_get_cond. intros ws Hws. wps.
  apply wp_mod_thread. simpl. intros th0 Hth0. rewrite Hth in Hth0. injection Hth0 as <-.
  set (k1 := set_semas (<[SWait (cur k) := Semaphore 0 []]> (semas k)) k).
  assert (same k k1) as Hs by apply same_sema_init, own_semaphore_free.
  assert (kinv true None k1) as Hk1 by (by eapply kinv_same).
  eapply (kinv_push None k1 th Hk1 Hth Hns _ [ILockRelease l; ISemaDown (SWait (cur k)); ILockAcquire l]);
    [|done|done].
  plain_list.
Qed.
Lemma wp_cond_signal c l : wp (cond_signal c l) (λ _, kinv true None) k.
Proof.
  unfold cond_signal. wps. apply wp_held. intros b. wps. apply wp_get_cond. intros ws Hws.
  destruct ws as [|w ws]; wps; [done|]. apply wp_sema_up. invisible Hk.
Qed.
End ops.

Lemma wp_cond_broadcast_loop n c l k :
  kinv true None k → wp (cond_broadcast_loop n c l) (λ _, kinv true None) k.
Proof.
  revert k. induction n as [|n IH]; intros k Hk; simpl; wps; apply wp_get_cond; intros [|w ws] Hws; try done.
  wp_step. eapply wp_mono; [by apply wp_cond_signal|]. intros ? k' Hk'. by apply IH.
Qed.

(** ** Sleeping *)
Section sleep.
  Context (k : kernel) (th : thread).
  Hypothesis Hk : kinv true None k.
  Hypothesis Hth : threads k !! cur k = Some th.

Lemma slept_exists t : t ∈ blocked_list k → is_Some (threads k !! t).
Proof.
  intros [_ [[Hs _]|(_ & -> & _)]]%(i_slept _ _ _ Hk); [|eauto].
  unfold st in Hs. destruct (threads k !! t); [eauto|done].
Qed.
(** [bt]-ordered insertion of the running thread. *)
Lemma insert_sorted (f : tptr → Z) t l :
  StronglySorted (λ a b, f a ≤ f b) l →
  StronglySorted (λ a b, f a ≤ f b) (insert_ordered (λ a b, f a <? f b) t l).
Proof.
  intros Hs.
  assert (∀ l, StronglySorted (λ a b, f a ≤ f b) l ↔ ordered (λ a b, f a <? f b) l) as Heq.
  { intros l'. split; intros; eapply StronglySorted_ext_in; eauto; intros a b _ _; simpl;
      rewrite Z.ltb_ge; done. }
  apply Heq, insert_ordered_ordered; [| |by apply Heq].
  - intros a b c. rewrite !Z.ltb_ge. lia.
  - intros a b. rewrite Z.ltb_lt, Z.ltb_ge. lia.
Qed.
Lemma kinv_sleep k' th' :
  prog th = [] → idle_thread k ≠ Some (cur k) →
  threads k' = <[cur k := th']> (threads k) → prog th' = [ISleep] → status th' = THREAD_RUNNING →
  parent th' = parent th → cur k' = cur k → ready_list k' = ready_list k → all_list k' = all_list k →
  idle_thread k' = idle_thread k → (∀ s, wt k' s = wt k s) →
  blocked_list k' = insert_ordered (λ a b, bt k' a <? bt k' b) (cur k) (blocked_list k) →
  kinv true None k'.
Proof.
  intros Hp Hni Hupd Hp' Hs Hpar Hc Hr Ha Hi Hw Hb.
  assert (ISleep ∉ prog th) as Hns by (rewrite Hp; set_solver).
  pose proof (cur_not_slept _ _ _ Hk Hth Hns) as Hnb. kinv_facts Hk.
  assert (blocked_list k' ≡ₚ cur k :: blocked_list k) as Hperm by (rewrite Hb; apply insert_ordered_perm).
  apply (kinv_central true true None None k k' (cur k) th'); try done; [by left|..].
  - split; rewrite ?Hr, ?Ha; try done.
    + intros t Ht. rewrite Hperm, elem_of_cons. naive_solver.
    + intros s t _. by rewrite Hw.
    + rewrite Hperm. by apply NoDup_cons.
    + intros s. by rewrite Hw.
    + rewrite Hb. apply insert_sorted.
      eapply (StronglySorted_ext_in (λ a b, bt k a ≤ bt k b)); [|done].
      intros a b Hia Hib. upd Hupd. rewrite !decide_False by congruence. done.
  - split; rewrite ?Hr, ?Ha, ?Hp', ?Hs, ?Hc; try done.
    + by rewrite Hpar, (par_of _ _ _ Hth).
    + intros t. rewrite (pg_of _ _ _ Hth), Hp. set_solver.
    + vm_compute; lia.
    + by apply (cur_not_target _ _ _ Hk Hth).
    + split; [rewrite (dom_upd _ _ _ _ Hupd); by left|done].
    + by intros ?%(cur_not_ready _ _ _ Hk Hth).
    + intros s. rewrite Hw. by intros ?%(cur_not_waiting _ _ _ Hk Hth).
    + intros _. split; [done|]. right. eauto.
    + intros i ->%list_elem_of_singleton. done.
    + intros _. split_and!; try done; [rewrite Hperm; by left|]. exists []. split; [done|set_solver].
    + split; [done|]. intros _. by eapply cur_all.
Qed.

Lemma wp_timer_sleep n : prog th = [] → idle_thread k ≠ Some (cur k) →
  wp (timer_sleep n) (λ _, kinv true None) k.
Proof.
  intros Hp Hni. unfold timer_sleep, timer_ticks. wps. apply wp_thread_current. intros _ _ _.
  wps. apply wp_mod_thread. simpl. intros th0 Hth0. rewrite Hth in Hth0. injection Hth0 as <-.
  wps. apply wp_mod_thread. simpl. rewrite lookup_insert_eq. intros th0 [= <-]. simpl.
  rewrite insert_insert_eq. match goal with |- kinv _ _ ?kk => set (k' := kk) end.
  assert (status th = THREAD_RUNNING) as Hrun by (by eapply cur_running).
  eapply (kinv_sleep k'); try done; [by rewrite Hp|]. simpl. apply insert_ordered_ext. intros x Hx.
  unfold compare_thread, bt. simpl. rewrite !lookup_insert_eq.
  destruct (decide (cur k = x)) as [<-|Hne]; [by rewrite !lookup_insert_eq|].
  rewrite !lookup_insert_ne by done. by destruct (slept_exists x Hx) as [thx ->].
Qed.
(** The rest of [timer_sleep], with interrupts off. *)
Lemma wp_timer_sleep_block r :
  prog th = ISleep :: r →
  wp timer_sleep_block (λ _, kinv true None) (set_threads (<[cur k := set_prog r th]> (threads k)) k).
Proof.
  intros Hp. unfold timer_sleep_block. wps. apply wp_thread_current. intros _ _ _. wps.
  apply wp_mod_thread. simpl. rewrite lookup_insert_eq. intros th0 [= <-]. simpl. rewrite insert_insert_eq.
  apply wp_thread_block. simpl. rewrite lookup_insert_eq. intros th0 [= <-]. rewrite insert_insert_eq.
  kinv_facts Hk. pose proof (pg_of _ _ _ Hth) as Hpg.
  destruct (i_sleep0 (cur k)) as (_ & _ & Hin & r' & Hr' & Hnr); [rewrite Hpg, Hp; by left|].
  rewrite Hpg, Hp in Hr'. injection Hr' as <-.
  assert (idle_thread k ≠ Some (cur k)) as Hni.
  { intros Hi. destruct (i_idle0 _ Hi) as (_ & Hf & _). rewrite Hpg, Hp in Hf. by apply Forall_cons in Hf as [? _]. }
  eapply (kinv_stop None k th Hk Hth); try done; simpl.
  - eapply off_queues; [done..|]. intros t Ht. unfold bt. simpl. rewrite lookup_insert.
    destruct (decide (cur k = t)) as [<-|]; [by rewrite Hth|done].
  - rewrite elem_of_cons. naive_solver.
  - intros t. rewrite Hp, !elem_of_cons. naive_solver.
  - pose proof (cur_unblock1 _ _ _ Hk Hth) as H1. rewrite Hp, filter_cons_False in H1 by tauto.
    by rewrite filter_cons_False by tauto.
  - intros i [->|Hi]%elem_of_cons; [done|]. eapply (cur_prog _ _ _ Hk Hth). rewrite Hp. by right.
  - by intros ?%(cur_not_ready _ _ _ Hk Hth).
  - intros s. by intros ?%(cur_not_waiting _ _ _ Hk Hth).
  - eauto.
  - intros _. unfold blocked_at, pg. simpl. by rewrite lookup_insert_eq.
  - split; [done|]. intros _. by eapply cur_all.
Qed.
End sleep.

(** ** The timer interrupt *)
Lemma wp_check_blocked now l k :
  kinv true None k → l = blocked_list k → ISleep ∉ pg k (cur k) →
  wp (repeated_check_blocked_list l now)
     (λ _ k', kinv true None k' ∧ cur k' = cur k ∧ ∀ x, pg k' x = pg k x) k.
Proof.
  revert k. induction l as [|t l IH]; intros k Hk Hl Hns; simpl; [by apply wp_ret|].
  wp_step. apply wp_get_thread. intros th Hth. destruct (blocked_ticks th <=? now); [|by apply wp_ret].
  do 3 wp_step.
  assert (ISleep ∉ pg k t) as Hnt.
  { intros Hi. destruct (i_sleep _ _ _ Hk t Hi) as (_ & -> & _). done. }
  assert (filter (λ x, x ≠ t) (blocked_list k) = l) as Hfl.
  { pose proof (i_slept_nd _ _ _ Hk) as ND. rewrite <-Hl in *. apply NoDup_cons in ND as [Hn _].
    rewrite filter_cons_False by naive_solver. apply filter_all. intros x Hx ->. done. }
  eapply wp_mono; [apply wp_thread_unblock, kinv_pop_sleeper; [done| |done]; rewrite <-Hl; by left|].
  intros ? k1 (Hk1 & Hc1 & Hp1 & Hb1). simpl in *.
  eapply wp_mono; [apply IH; [done|by rewrite Hb1, Hfl|by rewrite Hc1, Hp1]|].
  intros ? k2 (Hk2 & Hc2 & Hp2). split_and!; [done|congruence|]. intros x. by rewrite Hp2, Hp1.
Qed.

Lemma wp_thread_tick k : kinv true None k → wp thread_tick (λ _ k', same k k' ∧ kinv true None k') k.
Proof.
  intros Hk. unfold thread_tick. wps. apply wp_thread_current. intros th Hth _. wps.
  apply wp_get_thread. intros th' _. wps.
  assert (∀ k1, same k k1 → wp (run modifyM (set_thread_ticks (u32 (thread_ticks k + 1)));
    if TIME_SLICE <=? u32 (thread_ticks k + 1) then intr_yield_on_return else retM tt)
    (λ _ k', same k k' ∧ kinv true None k') k1) as Hrest.
  { intros k1 Hs. wps. destruct (TIME_SLICE <=? _); unfold intr_yield_on_return; wps.
    all: assert (same k (set_thread_ticks (u32 (thread_ticks k + 1)) k1)) as Hs1
      by (eapply same_trans; [exact Hs|by split]).
    - assert (same k (set_yield_on_return true (set_thread_ticks (u32 (thread_ticks k + 1)) k1))) as Hs2
        by (eapply same_trans; [exact Hs1|by split]).
      split; [done|by eapply kinv_same].
    - split; [done|by eapply kinv_same]. }
  destruct (bool_decide _); [|destruct (pagedir th')]; wp_step; apply Hrest; by split.
Qed.

Lemma wp_timer_interrupt k :
  kinv true None k → ISleep ∉ pg k (cur k) →
  wp timer_interrupt (λ _ k', kinv true None k' ∧ cur k' = cur k ∧ ∀ x, pg k' x = pg k x) k.
Proof.
  intros Hk Hns. unfold timer_interrupt, unblock_thread_with_enough_ticks. wps. simpl.
  set (k0 := set_ticks _ k). assert (kinv true None k0) as Hk0 by (invisible Hk).
  eapply wp_mono; [by apply (wp_check_blocked _ _ k0)|]. intros ? k1 (Hk1 & Hc1 & Hp1). simpl in *.
  wps. apply wp_thread_current. intros th Hth _. wps. apply wp_mod_thread. intros th0 Hth0.
  rewrite Hth in Hth0. injection Hth0 as <-.
  set (th' := if bool_decide _ then _ else _). set (k2 := set_threads _ k1).
  assert (same k1 k2) as Hs.
  { eapply (same_upd k1 k2 (cur k1) th th'); try done; unfold th'; by destruct (bool_decide _). }
  eapply wp_mono; [apply wp_thread_tick; by eapply kinv_same|]. intros ? k3 [Hs3 Hk3]. simpl.
  split_and!; [done|by rewrite (s_cur _ _ Hs3), (s_cur _ _ Hs), Hc1|].
  intros x. by rewrite (s_pg _ _ Hs3), (s_pg _ _ Hs), Hp1.
Qed.

Lemma wp_intr_handler_timer k :
  kinv true None k → ISleep ∉ pg k (cur k) → wp intr_handler_timer (λ _, kinv true None) k.
Proof.
  intros Hk Hns. unfold intr_handler_timer. wps. simpl.
  set (k0 := set_yield_on_return false _). assert (kinv true None k0) as Hk0 by (invisible Hk).
  eapply wp_mono; [by apply (wp_timer_interrupt k0)|]. intros ? k1 (Hk1 & Hc1 & Hp1). simpl in *. wps. simpl.
  destruct (yield_on_return _); [|wp_step; invisible Hk1].
  wps. simpl. apply wp_mod_thread. simpl. intros th Hth.
  assert (ISleep ∉ prog th) as Hns'.
  { rewrite <-(pg_of _ _ _ Hth), Hp1, Hc1. done. }
  eapply wp_thread_yield; simpl; [|apply lookup_insert_eq|simpl; rewrite elem_of_cons; naive_solver].
  eapply (kinv_push None k1 th Hk1 Hth Hns' _ [IIret]); [|done|done].
  apply Forall_cons_2; [|apply Forall_nil_2]. unfold plain. simpl. split_and!; try done; tauto.
Qed.

(** ** Creating a thread *)
Lemma wp_thread_create k th page prio :
  kinv true None k → threads k !! cur k = Some th → prog th = [] → idle_thread k ≠ Some (cur k) →
  (∀ t, page = Some t → threads k !! t = None) →
  wp (thread_create page prio None) (λ _, kinv true None) k.
Proof.
  intros Hk Hth Hp Hni Hpage. unfold thread_create. destruct page as [t|]; [|by apply wp_ret].
  specialize (Hpage t eq_refl). assert (cur k ≠ t) as Hct by (intros <-; congruence).
  unfold init_thread. wps.
  assert ((0 <? Z.of_nat (length (all_list k))) = true) as Hne.
  { apply Z.ltb_lt. pose proof (cur_all _ _ _ Hk Hth) as Hin.
    destruct (all_list k); [by apply elem_of_nil in Hin|simpl; lia]. }
  rewrite Hne. wps. apply wp_thread_current. intros _ _ _. wps. simpl.
  apply wp_on_links. intros _ lh. wps. simpl.
  apply wp_mod_thread. simpl. rewrite lookup_insert_ne by done. intros th0 Hth0.
  rewrite Hth in Hth0. injection Hth0 as <-. wps. apply wp_mod_thread. simpl.
  rewrite lookup_insert_ne by done. rewrite lookup_insert_eq. intros th0 [= <-]. wps.
  eapply (kinv_create k _ th t (Thread 0 THREAD_BLOCKED prio 0 0 false (Some (cur k)) [IStart]));
    try done; simpl.
  intros x. rewrite Hp. destruct (decide (t = x)) as [<-|Htx]; [by rewrite lookup_insert_eq|].
  rewrite lookup_insert_ne by done. destruct (decide (cur k = x)) as [<-|]; [by rewrite lookup_insert_eq|].
  by rewrite !lookup_insert_ne.
Qed.

(** ** Every step *)
Lemma exec_call_kinv k th c k' :
  kinv true None k → threads k !! cur k = Some th → prog th = [] → call_ok k c →
  exec_call c k = Ret (tt, k') → kinv true None k'.
Proof.
  intros Hk Hth Hp Hc Hex. revert Hex. apply wp_run with (Q := λ _, kinv true None).
  assert (ISleep ∉ prog th) as Hns by (rewrite Hp; set_solver).
  assert (idle_thread k ≠ Some (cur k)) as Hni.
  { intros Hi. destruct (cur_idle _ _ _ Hk Hth Hi) as [_ Hl]. rewrite Hp in Hl. by destruct Hl. }
  destruct c; simpl in *; wps.
  - by eapply wp_thread_yield.
  - by eapply wp_thread_exit.
  - unfold thread_set_priority. wps. apply wp_thread_current. intros th0 Hth0 _.
    apply wp_mod_thread. intros th1 Hth1. eapply kinv_same; [|exact Hk]. by eapply same_upd.
  - invisible Hk.
  - unfold sema_init. wps. eapply kinv_same; [|exact Hk]. apply same_sema_init. unfold wt.
    destruct (semas k !! SPlain n) eqn:E; [by apply Hc|done].
  - by apply (wp_sema_down k th).
  - eapply wp_mono; [by apply wp_sema_try_down|]. intros ? k1 Hk1. by apply wp_ret.
  - by apply wp_sema_up.
  - unfold lock_init, sema_init. wps. eapply kinv_same; [|exact Hk].
    eapply same_trans; [apply (same_sema_init k (SLock l) 1); unfold wt; by rewrite Hc|by split].
  - by eapply wp_lock_acquire.
  - eapply wp_mono; [by eapply wp_lock_try_acquire|]. intros ? k1 Hk1. by apply wp_ret.
  - by eapply wp_lock_release.
  - unfold cond_init. wps. invisible Hk.
  - by eapply wp_cond_wait.
  - by eapply wp_cond_signal.
  - unfold cond_broadcast. wps. apply wp_get_cond. intros ws _. by apply wp_cond_broadcast_loop.
  - by eapply wp_timer_sleep.
  - eapply wp_mono; [eapply wp_thread_create; try done|].
    + intros t ->. done.
    + intros ? k1 Hk1. by apply wp_ret.
Qed.

(** The idle thread blocks. *)
Lemma wp_idle_block k th r :
  kinv true None k → threads k !! cur k = Some th → prog th = IHlt :: r → ISleep ∉ prog th →
  idle_thread k = Some (cur k) → wp thread_block (λ _, kinv true None) (set_intr INTR_OFF k).
Proof.
  intros Hk Hth Hp Hns Hi. apply wp_thread_block. simpl. intros th0 Hth0.
  rewrite Hth in Hth0. injection Hth0 as <-. pose proof (cur_not_slept _ _ _ Hk Hth Hns) as Hnb.
  eapply (kinv_stop None k th Hk Hth); try done; simpl.
  - eapply off_queues; [done..|]. intros t Ht. unfold bt. simpl. rewrite lookup_insert_ne; [done|congruence].
  - by eapply cur_unblock1.
  - intros i Hin. by eapply cur_prog.
  - intros _. by eapply cur_idle.
  - by intros ?%(cur_not_ready _ _ _ Hk Hth).
  - intros s. by intros ?%(cur_not_waiting _ _ _ Hk Hth).
  - intros _. unfold blocked_at, pg. simpl. by rewrite lookup_insert_eq; simpl; rewrite Hp.
  - split; [done|]. intros _. by eapply cur_all.
Qed.
Lemma exec_next_kinv k k' : kinv true None k → exec_next k = Ret (tt, k') → kinv true None k'.
Proof.
  intros Hk Hex. revert Hex. apply wp_run with (Q := λ _, kinv true None).
  unfold exec_next. wps. apply wp_get_thread. intros th Hth.
  destruct (prog th) as [|i r] eqn:Hp; [done|]. wps.
  destruct (decide (i = ISleep)) as [->|Hsl]; [by eapply wp_timer_sleep_block|].
  destruct (decide (is_unblock i)) as [Hu|Hu].
  { destruct i; try done. simpl. eapply wp_mono; [apply wp_thread_unblock; by eapply kinv_pop_unblock|].
    by intros ? k1 [? _]. }
  destruct (kinv_pop k th i r Hk Hth Hp Hsl Hu) as [Hk0 Hns].
  set (th0 := set_prog (after i r) th) in *. set (k0 := set_threads _ k) in *.
  assert (threads k0 !! cur k0 = Some th0) as Hth0 by apply lookup_insert_eq.
  assert (instr_ok k (cur k) i) as Hok by (apply (cur_prog _ _ _ Hk Hth); rewrite Hp; by left).
  assert (¬ idle_instr i → idle_thread k0 ≠ Some (cur k0)) as Hni.
  { intros Hn Hi. destruct (cur_idle _ _ _ Hk Hth Hi) as [Hf _]. rewrite Hp in Hf.
    by apply Forall_cons in Hf as [? _]. }
  destruct i; simpl in *; wps; try done; try (by invisible Hk0).
  - apply (wp_intr_set_level INTR_ON). intros old. wps. invisible Hk0.
  - apply (wp_sema_down k0 th0); auto. intros x ->. done.
  - apply (wp_sema_down_loop k0 th0); auto. intros x ->. done.
  - by apply wp_sema_up.
  - eapply (wp_lock_acquire k0 th0); auto.
  - by apply wp_lock_set_holder.
  - eapply (wp_lock_release k0 th0); auto.
  - unfold allocate_tid. wps. apply wp_mod_thread. simpl. intros th1 Hth1.
    eapply kinv_same; [|exact Hk0]. by eapply (same_upd k0).
  - by eapply (wp_idle_block k0 th0).
Qed.

Lemma step_kinv k k' : kinv true None k → step false k k' → kinv true None k'.
Proof.
  intros Hk [c th k1 Hth Hp Hc Hex|k1 Hex|k1 Hi Hw Hex].
  - by eapply exec_call_kinv.
  - by eapply exec_next_kinv.
  - revert Hex. apply wp_run with (Q := λ _, kinv true None). apply wp_intr_handler_timer; [done|].
    intros Hin. destruct (i_sleep _ _ _ Hk _ Hin) as (_ & _ & _ & r & Hr & _).
    apply (Hw eq_refl). unfold in_sleep_window, pg in *.
    destruct (threads k !! cur k) as [th|] eqn:Hth; [eauto|done].
Qed.

(** ** Booting *)
Fixpoint exec_n (n : nat) : M kernel unit :=
  match n with O => retM tt | S n => run exec_next; exec_n n end.
(** Before [thread_init]: the page at 4096 is the stack of the loader, and
    [tid_lock] is in zeroed memory. *)
Definition loader_kernel : kernel :=
  Kernel ∅ 4096%N [] [] [] None None ∅ ∅ ∅ {[ lockElem tid_lock := ListElem NULL NULL ]}
    INTR_OFF false false 0 0 0 0 0 1.
(** [thread_init], then [thread_start] with a page for the idle thread, until
    the initial thread returns from it. *)
Definition boot : M kernel unit :=
  run thread_init; run exec_n 6; run thread_start (Some 8192%N); exec_n 14.
Definition boot_kernel : kernel :=
  match boot loader_kernel with Ret (_, k) => k | _ => loader_kernel end.
Lemma boot_Ret : boot loader_kernel = Ret (tt, boot_kernel).
Proof. vm_compute. reflexivity. Qed.

Definition main_thread : thread := Thread 1 THREAD_RUNNING 31 0 0 false None [].
Definition idle_thread_0 : thread := Thread 2 THREAD_BLOCKED 0 0 0 false (Some 4096%N) [IHlt].
Lemma kinv_boot k :
  threads k = <[4096%N := main_thread]> (<[8192%N := idle_thread_0]> ∅) →
  semas k = <[SLock 8 := Semaphore 1 []]> (<[SPlain 0 := Semaphore 0 []]> ∅) →
  cur k = 4096%N → ready_list k = [] → blocked_list k = [] → all_list k = [4096%N; 8192%N] →
  idle_thread k = Some 8192%N → kinv true None k.
Proof.
  intros Et Es Ec Er Eb Ea Ei.
  assert (∀ t, st k t = if decide (4096%N = t) then Some THREAD_RUNNING
    else if decide (8192%N = t) then Some THREAD_BLOCKED else None) as Est.
  { intros t. unfold st. rewrite Et, !lookup_insert. repeat case_decide; done. }
  assert (∀ t, pg k t = if decide (4096%N = t) then []
    else if decide (8192%N = t) then [IHlt] else []) as Epg.
  { intros t. unfold pg. rewrite Et, !lookup_insert. repeat case_decide; done. }
  assert (∀ s, wt k s = []) as Ewt.
  { intros s. unfold wt. rewrite Es, !lookup_insert. repeat case_decide; done. }
  split; rewrite ?Ec, ?Er, ?Eb, ?Ea, ?Ei.
  - rewrite Et, lookup_insert_eq, Est, decide_True by done. eauto.
  - intros t. rewrite Est. repeat case_decide; naive_solver.
  - apply NoDup_nil_2.
  - by intros t ?%elem_of_nil.
  - intros t. rewrite Est. repeat case_decide; naive_solver.
  - intros s. rewrite Ewt. apply NoDup_nil_2.
  - intros s t. rewrite Ewt. by intros ?%elem_of_nil.
  - apply NoDup_nil_2.
  - by intros t ?%elem_of_nil.
  - constructor.
  - intros t. rewrite Est. unfold blocked_at. rewrite Epg, Ei. repeat case_decide; naive_solver.
  - done.
  - intros p t. rewrite Epg. repeat case_decide; set_solver.
  - intros p. rewrite Epg. repeat case_decide; vm_compute; lia.
  - intros t i. rewrite Epg. unfold instr_ok. rewrite Ei. repeat case_decide; set_solver.
  - intros t. rewrite Epg. repeat case_decide; set_solver.
  - intros t [= <-]. rewrite Epg, Et, lookup_insert_ne, lookup_insert_eq by done. simpl.
    split_and!; [eauto|by constructor|auto].
  - intros t. rewrite Est, Epg. repeat case_decide; naive_solver.
  - by apply (bool_decide_unpack _); vm_compute.
  - intros t. rewrite Est. rewrite !elem_of_cons, elem_of_nil.
    repeat case_decide; naive_solver.
Qed.
Lemma boot_kinv : kinv true None boot_kernel.
Proof. apply kinv_boot; vm_compute; reflexivity. Qed.
