(* ===== verification/KernelProps.v ===== *)
(** * Properties of the thread scheduler, the semaphores and the timer

    The scheduler invariant in every reachable state, the exact effect of
    [sema_up], of the timer's wake-up and of [schedule], and the race in
    [timer_sleep]. *)

From stdpp Require Import base numbers list gmap sorting relations.
From S2P Require Import Prelude KList KListOps FixedPoint Thread Synch Timer.
From S2P Require Import KernelInv KernelOps KernelSafety.
Local Open Scope Z_scope.

Lemma reachable_kinv k : rtc (step false) boot_kernel k → kinv true None k.
Proof.
  intros Hr. eapply (rtc_ind_r (kinv true None) boot_kernel); [apply boot_kinv| |exact Hr].
  intros k1 k2 _ Hs Hk. by eapply step_kinv.
Qed.
(** C7. From the state the kernel boots into, however the threads' kernel calls
    and the timer interrupts interleave (an interrupt inside the window of
    [timer_sleep] excepted), the scheduler invariant holds: exactly one thread
    runs, the ready list holds exactly the ready threads, each blocked thread is
    in exactly the queue it waits in, and sleepers are ordered by wake-up time. *)
Theorem scheduler_invariant k : rtc (step false) boot_kernel k → kinv true None k.
Proof. apply reachable_kinv. Qed.
(** A computation that returns, and the state it returns in. *)
Definition final (m : M kernel unit) (k : kernel) : kernel :=
  match m k with Ret (_, k') => k' | _ => k end.
Definition returns (m : M kernel unit) (k : kernel) : bool :=
  match m k with Ret _ => true | _ => false end.
Lemma final_Ret m k : returns m k = true → m k = Ret (tt, final m k).
Proof. unfold returns, final. by destruct (m k) as [[[] k']| |]. Qed.
Lemma reach_next k : returns exec_next k = true → rtc (step false) k (final exec_next k).
Proof. intros H. apply rtc_once, step_next. by apply final_Ret. Qed.
Lemma reach_n n k : returns (exec_n n) k = true → rtc (step false) k (final (exec_n n) k).
Proof.
  intros H%final_Ret. revert k H. generalize (final (exec_n n)). intros f k H. revert H. generalize (f k).
  clear f. intros k'. revert k. induction n as [|n IH]; intros k; simpl; [intros [= ->]; apply rtc_refl|].
  intros ([] & k1 & E1 & E2)%bindM_inv. eapply rtc_l; [by apply step_next|by apply IH].
Qed.

(** The initial thread creates a thread at 12288 and finishes the creation. *)
Definition idle_prog (k : kernel) : bool :=
  match threads k !! cur k with Some th => bool_decide (prog th = []) | None => false end.
Definition created : kernel := final (exec_call (CCreate (Some 12288%N) 31)) boot_kernel.
Definition after_create : kernel := final (exec_n 7) created.
Lemma after_create_reachable : rtc (step false) boot_kernel after_create.
Proof.
  eapply rtc_l; [|apply (reach_n 7 created); vm_compute; reflexivity].
  apply (step_call false _ (CCreate (Some 12288%N) 31) main_thread); vm_compute; reflexivity.
Qed.
Lemma scheduler_invariant_witness :
  kinv true None after_create ∧ ready_list after_create = [12288%N].
Proof. split; [apply (scheduler_invariant after_create), after_create_reachable|by vm_compute]. Defined.

(** ** The race of timer_sleep *)
Lemma step_weaken k k' : step false k k' → step true k k'.
Proof. intros []; [by eapply step_call|by eapply step_next|by eapply step_timer]. Qed.
Lemma reach_weaken k k' : rtc (step false) k k' → rtc (step true) k k'.
Proof. apply rtc_subrel. apply step_weaken. Qed.
Definition sleeping : kernel := final (exec_call (CSleep 100)) after_create.
Definition ticked (n : nat) : kernel := Nat.iter n (final intr_handler_timer) sleeping.
Lemma ticked_S n : ticked (S n) = final intr_handler_timer (ticked n).
Proof. done. Qed.
Lemma ticked_step n :
  intr (ticked n) = INTR_ON → returns intr_handler_timer (ticked n) = true →
  step true (ticked n) (ticked (S n)).
Proof. intros Hi Hr. apply step_timer; [done|done|]. rewrite ticked_S. by apply final_Ret. Qed.
Lemma sleeping_step : step true after_create (ticked 0).
Proof.
  apply (step_call true after_create (CSleep 100) main_thread).
  - vm_compute. reflexivity.
  - reflexivity.
  - exact I.
  - change (ticked 0) with (final (exec_call (CSleep 100)) after_create).
    apply final_Ret. vm_compute. reflexivity.
Qed.
(** A timer interrupt between the insertion in [blocked_list] and
    [intr_disable] that ends the time slice puts the [elem] of the sleeping
    thread on the ready list while it is still in [blocked_list]. *)
Lemma timer_sleep_race :
  ∃ k, rtc (step true) boot_kernel k ∧ 4096%N ∈ ready_list k ∧ 4096%N ∈ blocked_list k.
Proof.
  exists (ticked 4). split; [|split; apply (bool_decide_unpack _); vm_compute; exact I].
  transitivity after_create; [apply reach_weaken, after_create_reachable|].
  apply (rtc_l _ _ (ticked 0)); [apply sleeping_step|].
  apply (rtc_l _ _ (ticked 1)); [apply (ticked_step 0); vm_compute; reflexivity|].
  apply (rtc_l _ _ (ticked 2)); [apply (ticked_step 1); vm_compute; reflexivity|].
  apply (rtc_l _ _ (ticked 3)); [apply (ticked_step 2); vm_compute; reflexivity|].
  apply rtc_once, (ticked_step 3); vm_compute; reflexivity.
Qed.

(** ** Waking threads *)
Definition unblocked (t : tptr) (th : thread) (k : kernel) : kernel :=
  set_threads (<[t := set_status THREAD_READY th]> (threads k))
    (set_ready_list (ready_list k ++ [t]) k).
(** Interrupts can be restored: they are off, or this is no interrupt handler. *)
Definition can_restore (k : kernel) : Prop := intr k = INTR_OFF ∨ in_external_intr k = false.
Lemma intr_disable_Ret k : intr_disable k = Ret (intr k, set_intr INTR_OFF k).
Proof. done. Qed.
Lemma intr_set_level_Ret l k :
  l = INTR_OFF ∨ in_external_intr k = false → intr_set_level l k = Ret (intr k, set_intr l k).
Proof.
  intros H. destruct l; [done|]. destruct H as [|H]; [done|].
  unfold intr_set_level, intr_enable, bindM, intr_get_level, intr_context. simpl. by rewrite H.
Qed.
Lemma set_intr_id k k' : k = k' → set_intr (intr k) k' = k.
Proof. intros <-. by destruct k. Qed.
Lemma thread_unblock_Ret k t th :
  threads k !! t = Some th → status th = THREAD_BLOCKED → can_restore k →
  thread_unblock t k = Ret (tt, unblocked t th k).
Proof.
  intros Hth Hs Hr. unfold thread_unblock, mod_thread, get_thread, put_thread.
  erewrite bindM_Ret by (simpl; rewrite Hth; done).
  rewrite (bindM_Ret _ _ _ _ _ (intr_disable_Ret k)).
  rewrite bool_decide_eq_true_2 by done.
  unfold bindM at 1 2 3 4. simpl. rewrite Hth. simpl. unfold bindM.
  rewrite intr_set_level_Ret by done. simpl. by destruct k.
Qed.

Lemma check_blocked_Ret now l k :
  l = blocked_list k → NoDup l → StronglySorted (λ a b, bt k a ≤ bt k b) l →
  (∀ t, t ∈ l → st k t = Some THREAD_BLOCKED) → can_restore k →
  ∃ k', repeated_check_blocked_list l now k = Ret (tt, k') ∧
    ready_list k' = ready_list k ++ filter (λ t, bt k t ≤ now) l ∧
    blocked_list k' = filter (λ t, now < bt k t) l ∧
    (∀ t, st k' t = if decide (t ∈ l ∧ bt k t ≤ now) then Some THREAD_READY else st k t) ∧
    (∀ t, bt k' t = bt k t ∧ pg k' t = pg k t) ∧ semas k' = semas k ∧ cur k' = cur k.
Proof.
  revert k. induction l as [|t l IH]; intros k Hl ND Hs Hb Hr; simpl.
  { exists k. rewrite app_nil_r, <-Hl. by split_and!. }
  pose proof (Hb t ltac:(by left)) as Ht. unfold st in Ht.
  destruct (threads k !! t) as [th|] eqn:Hth; [|done]. simpl in Ht. injection Ht as Ht.
  erewrite bindM_Ret by (unfold get_thread; rewrite Hth; done).
  assert (bt k t = blocked_ticks th) as Hbt by (by apply bt_of).
  apply NoDup_cons in ND as [Hni ND]. inversion_clear Hs as [|? ? Hs' Hf].
  destruct (Z.leb_spec (blocked_ticks th) now) as [Hle|Hgt].
  - erewrite (bindM_Ret (modifyM _)) by done.
    set (k1 := set_blocked_list _ k). assert (blocked_list k1 = l) as Hl1.
    { simpl. rewrite <-Hl, filter_cons_False by naive_solver. apply filter_all. by intros x Hx ->. }
    rewrite (bindM_Ret _ _ _ _ _ (thread_unblock_Ret k1 t th Hth Ht Hr)).
    set (k2 := unblocked t th k1).
    assert (threads k2 = <[t := set_status THREAD_READY th]> (threads k)) as Hupd by done.
    assert (∀ x, bt k2 x = bt k x ∧ pg k2 x = pg k x) as Eb.
    { intros x. rewrite (bt_upd _ _ _ _ Hupd), (pg_upd _ _ _ _ Hupd).
      destruct (decide (t = x)) as [<-|]; [|done]. by rewrite Hbt, (pg_of _ _ _ Hth). }
    assert (∀ x, st k2 x = if decide (t = x) then Some THREAD_READY else st k x) as Est
      by (intros x; apply (st_upd _ _ _ _ Hupd)).
    destruct (IH k2) as (k' & E & Hrl & Hbl & Hst & Hsame & Hse & Hc).
    + done.
    + done.
    + eapply StronglySorted_ext_in; [|exact Hs']. intros a b _ _. by rewrite !(proj1 (Eb _)).
    + intros x Hx. rewrite Est, decide_False; [apply Hb; by right|by intros <-].
    + done.
    + exists k'. split_and!; try done.
      * rewrite Hrl. simpl. rewrite filter_cons_True, <-(assoc_L (++)) by lia. simpl.
        do 2 f_equal. apply list_filter_iff. intros x. by rewrite (proj1 (Eb x)).
      * rewrite Hbl, filter_cons_False by lia. apply list_filter_iff. intros x. by rewrite (proj1 (Eb x)).
      * intros x. rewrite Hst, Est. pose proof (proj1 (Eb x)) as Ex.
        destruct (decide (x ∈ t :: l ∧ bt k x ≤ now)) as [[[->|Hx]%elem_of_cons Hn]|Hx].
        -- rewrite (decide_True (P := t = t)) by done. by case_decide.
        -- by rewrite decide_True by (by rewrite Ex).
        -- rewrite !decide_False; [done|..].
           ++ intros <-. apply Hx. split; [by left|lia].
           ++ rewrite Ex. intros [? ?]. apply Hx. split; [by right|done].
      * intros x. destruct (Hsame x) as [-> ->]. apply Eb.
  - exists k. assert (∀ x, x ∈ t :: l → now < bt k x) as Hlate.
    { intros x [->|Hx]%elem_of_cons; [lia|]. eapply Forall_forall in Hf; [|exact Hx]. simpl in Hf. lia. }
    split_and!; try done.
    + rewrite filter_none, app_nil_r; [done|]. intros x Hx%Hlate. lia.
    + rewrite <-Hl. symmetry. by apply filter_all.
    + intros x. rewrite decide_False; [done|]. intros [Hx%Hlate ?]. lia.
Qed.

(** C9. The wake-up of the timer interrupt at time NOW, from any state that
    satisfies the scheduler invariant, in which the running thread is not inside
    the window of [timer_sleep] and in which interrupts are off or no interrupt
    handler runs (so that [intr_set_level] may restore the level), returns and
    moves exactly the sleepers whose time has come to the end of the ready list,
    in order of wake-up time; the others keep sleeping. *)
Theorem timer_wakeup k now :
  kinv true None k → ¬ in_sleep_window k → can_restore k →
  ∃ k', unblock_thread_with_enough_ticks now k = Ret (tt, k') ∧
    ready_list k' = ready_list k ++ filter (λ t, bt k t ≤ now) (blocked_list k) ∧
    blocked_list k' = filter (λ t, now < bt k t) (blocked_list k) ∧
    (∀ t, st k' t = if decide (t ∈ blocked_list k ∧ bt k t ≤ now) then Some THREAD_READY else st k t) ∧
    semas k' = semas k ∧ cur k' = cur k.
Proof.
  intros Hk Hw Hr. destruct (check_blocked_Ret now (blocked_list k) k) as (k' & E & ? & ? & ? & _ & ? & ?).
  - done.
  - apply Hk.
  - apply Hk.
  - intros t [_ [[? _]|(_ & -> & r & Hp)]]%(i_slept _ _ _ Hk); [done|]. destruct Hw.
    unfold in_sleep_window, pg in *. destruct (threads k !! cur k) as [th|] eqn:Hth; [eauto|done].
  - done.
  - exists k'. split_and!; try done.
Qed.
(** The initial thread sleeps until time 100. *)
Definition slept : kernel := final exec_next sleeping.
Lemma slept_reachable : rtc (step false) boot_kernel slept.
Proof.
  transitivity after_create; [apply after_create_reachable|].
  apply (rtc_l _ _ sleeping); [|apply reach_next; vm_compute; reflexivity].
  apply (step_call false after_create (CSleep 100) main_thread).
  - vm_compute. reflexivity.
  - reflexivity.
  - exact I.
  - change sleeping with (final (exec_call (CSleep 100)) after_create).
    apply final_Ret. vm_compute. reflexivity.
Qed.
Lemma timer_wakeup_witness :
  ∃ k', unblock_thread_with_enough_ticks 100 slept = Ret (tt, k') ∧
    ready_list k' = ready_list slept ++ filter (λ t, bt slept t ≤ 100) (blocked_list slept) ∧
    blocked_list k' = filter (λ t, 100 < bt slept t) (blocked_list slept) ∧
    (∀ t, st k' t = if decide (t ∈ blocked_list slept ∧ bt slept t ≤ 100)
                    then Some THREAD_READY else st slept t) ∧
    semas k' = semas slept ∧ cur k' = cur slept.
Proof.
  apply (timer_wakeup slept 100).
  - apply reachable_kinv, slept_reachable.
  - intros (th & r & Hth & Hp).
    assert (prog <$> threads slept !! cur slept = Some [IStart]) as H by (vm_compute; reflexivity).
    rewrite Hth in H. simpl in H. congruence.
  - left. vm_compute. reflexivity.
Defined.

(** [sema_up], from any state that satisfies the scheduler invariant,
    returns, adds one to the value, and readies the thread that has waited
    longest, if any, behind the threads that are ready. *)
Theorem sema_up_fifo k s sm :
  kinv true None k → semas k !! s = Some sm → can_restore k →
  ∃ k', sema_up s k = Ret (tt, k') ∧
    semas k' = <[s := Semaphore (u32 (value sm + 1)) (tl (waiters sm))]> (semas k) ∧
    ready_list k' = ready_list k ++ take 1 (waiters sm) ∧
    (∀ t, st k' t = if decide (hd_error (waiters sm) = Some t) then Some THREAD_READY else st k t) ∧
    cur k' = cur k ∧ intr k' = intr k.
Proof.
  intros Hk Hs Hr. unfold sema_up. rewrite (bindM_Ret _ _ _ _ _ (intr_disable_Ret k)).
  erewrite bindM_Ret by (unfold get_sema; simpl; rewrite Hs; done).
  destruct (waiters sm) as [|t ws] eqn:Hw.
  - rewrite bindM_Ret with (a := tt) (s' := set_intr INTR_OFF k) by done.
    erewrite bindM_Ret by (unfold get_sema; simpl; rewrite Hs; done).
    erewrite bindM_Ret by done. unfold bindM. rewrite intr_set_level_Ret by done.
    eexists. split; [done|]. simpl. by rewrite Hw, app_nil_r.
  - destruct (i_sema _ _ _ Hk s t) as (Ht & _); [unfold wt; rewrite Hs, Hw; by left|].
    unfold st in Ht. destruct (threads k !! t) as [th|] eqn:Hth; [|done]. simpl in Ht. injection Ht as Ht.
    set (k1 := set_semas (<[s := Semaphore (value sm) ws]> (semas k)) (set_intr INTR_OFF k)).
    rewrite bindM_Ret with (a := tt) (s' := unblocked t th k1).
    2:{ erewrite bindM_Ret by done. apply (thread_unblock_Ret k1); [done|done|by left]. }
    erewrite bindM_Ret by (unfold get_sema; simpl; rewrite lookup_insert_eq; done).
    erewrite bindM_Ret by done. unfold bindM. rewrite intr_set_level_Ret by done.
    eexists. split; [done|]. simpl. rewrite insert_insert_eq. split_and!; try done.
    intros x. unfold st. simpl. rewrite lookup_insert. by repeat case_decide; simplify_eq.
Qed.
(** The initial thread waits on the semaphore 7 that it initialised to 0. *)
Definition initialised : kernel := final (exec_call (CSemaInit 7 0)) after_create.
Definition waiting : kernel := final (exec_call (CSemaDown 7)) initialised.
Lemma waiting_reachable : rtc (step false) boot_kernel waiting.
Proof.
  transitivity after_create; [apply after_create_reachable|].
  apply (rtc_l _ _ initialised); [|apply rtc_once].
  - apply (step_call false after_create (CSemaInit 7 0) main_thread);
      [vm_compute; reflexivity|reflexivity| |].
    + intros sm Hs. assert (semas after_create !! SPlain 7 = None) as Hn by (vm_compute; reflexivity).
      congruence.
    + change initialised with (final (exec_call (CSemaInit 7 0)) after_create).
      apply final_Ret. vm_compute. reflexivity.
  - apply (step_call false initialised (CSemaDown 7) main_thread);
      [vm_compute; reflexivity|reflexivity|exact I|].
    change waiting with (final (exec_call (CSemaDown 7)) initialised).
    apply final_Ret. vm_compute. reflexivity.
Qed.
Lemma sema_up_fifo_witness :
  ∃ k', sema_up (SPlain 7) waiting = Ret (tt, k') ∧
    semas k' = <[SPlain 7 := Semaphore (u32 (0 + 1)) []]> (semas waiting) ∧
    ready_list k' = ready_list waiting ++ [4096%N] ∧
    (∀ t, st k' t = if decide (Some 4096%N = Some t) then Some THREAD_READY else st waiting t) ∧
    cur k' = cur waiting ∧ intr k' = intr waiting.
Proof.
  apply (sema_up_fifo waiting (SPlain 7) (Semaphore 0 [4096%N])).
  - apply reachable_kinv, waiting_reachable.
  - vm_compute. reflexivity.
  - right. vm_compute. reflexivity.
Defined.

(** ** Round robin *)
Lemma assert_intr_off_Ret k : intr k = INTR_OFF → assert_intr_off k = Ret (tt, k).
Proof. intros H. unfold assert_intr_off, bindM, intr_get_level. simpl. by rewrite H. Qed.
(** What switching to [n] does when the thread switched from is not dying. *)
Lemma schedule_tail_Ret k prev thn :
  threads k !! cur k = Some thn → intr k = INTR_OFF →
  (∀ p, prev = Some p → p ≠ cur k ∧ ∃ thp, threads k !! p = Some thp ∧ status thp ≠ THREAD_DYING) →
  thread_schedule_tail prev k =
  Ret (tt, set_thread_ticks 0
    (set_threads (<[cur k := set_status THREAD_RUNNING thn]> (threads k)) k)).
Proof.
  intros Hn Hi Hp. unfold thread_schedule_tail, mod_thread, get_thread, put_thread.
  erewrite bindM_Ret by done. rewrite (bindM_Ret _ _ _ _ _ (assert_intr_off_Ret k Hi)).
  erewrite (bindM_Ret _ _ k tt) by (unfold bindM; simpl; by rewrite Hn).
  erewrite bindM_Ret by done. destruct prev as [p|]; [|done].
  destruct (Hp p eq_refl) as (Hpc & thp & Hthp & Hd).
  unfold bindM at 1. simpl. rewrite lookup_insert_ne, Hthp by done. unfold bindM. simpl.
  by rewrite bool_decide_eq_false_2.
Qed.
(** Switching from a ready or blocked thread to the head of the ready list. *)
Lemma schedule_Ret k thc n ts thn :
  intr k = INTR_OFF → threads k !! cur k = Some thc → status thc ≠ THREAD_RUNNING →
  status thc ≠ THREAD_DYING → ready_list k = n :: ts → threads k !! n = Some thn →
  schedule k = Ret (tt, set_thread_ticks 0
    (set_threads (<[n := set_status THREAD_RUNNING thn]> (threads k)) (set_cur n (set_ready_list ts k)))).
Proof.
  intros Hi Hc Hr Hd Hrl Hn. unfold schedule. erewrite bindM_Ret by done.
  erewrite (bindM_Ret next_thread_to_run _ k (Some n)) by (unfold next_thread_to_run; by rewrite Hrl).
  rewrite (bindM_Ret _ _ _ _ _ (assert_intr_off_Ret (set_ready_list ts k) Hi)).
  erewrite bindM_Ret by (unfold get_thread; simpl; rewrite Hc; done).
  erewrite bindM_Ret by (by rewrite bool_decide_eq_false_2). erewrite bindM_Ret by done.
  erewrite bindM_Ret by (unfold is_thread; simpl; by rewrite bool_decide_eq_true_2 by eauto).
  destruct (N.eqb_spec (cur k) n) as [E|E]; simpl.
  - subst n. rewrite (schedule_tail_Ret (set_ready_list ts k) None thn); [by destruct k|done|done|done].
  - erewrite bindM_Ret by done.
    rewrite (schedule_tail_Ret (set_cur n (set_ready_list ts k)) (Some (cur k)) thn); [done|done|done|].
    intros p [= <-]. split; [done|]. eauto.
Qed.
(** The running thread and the threads in line exist. *)
Definition line_ok k : Prop :=
  (∃ th, threads k !! cur k = Some th ∧ status th = THREAD_RUNNING) ∧ ∀ t, t ∈ ready_list k → is_Some (threads k !! t).
Lemma kinv_line k : kinv true None k → is_Some (threads k !! cur k) → line_ok k.
Proof.
  intros Hk [th Hc]. split; [exists th; split; [done|by apply (cur_running None k th Hk Hc)]|].
  intros t Ht. apply (i_ready _ _ _ Hk) in Ht. unfold st in Ht. destruct (threads k !! t); [eauto|done].
Qed.
Lemma thread_yield_rotates k th :
  line_ok k → in_external_intr k = false → threads k !! cur k = Some th → idle_thread k ≠ Some (cur k) →
  ∃ k', thread_yield k = Ret (tt, k') ∧
    cur k' :: ready_list k' = ready_list k ++ [cur k] ∧
    st k' (cur k') = Some THREAD_RUNNING ∧ thread_ticks k' = 0 ∧
    (cur k' ≠ cur k → st k' (cur k) = Some THREAD_READY) ∧
    prog <$> threads k' !! cur k = Some (ISetLevel (intr k) :: prog th) ∧
    line_ok k' ∧ in_external_intr k' = false ∧ idle_thread k' = idle_thread k.
Proof.
  intros [(th' & Hc' & Hst) Hready] Hx Hc Hni. rewrite Hc in Hc'. injection Hc' as <-.
  unfold thread_yield.
  erewrite bindM_Ret by (unfold thread_current, bindM, running_thread, get_thread; simpl; rewrite Hc;
    simpl; by rewrite bool_decide_eq_true_2).
  erewrite bindM_Ret by (unfold assert_not_intr_context, bindM, intr_context; simpl; by rewrite Hx).
  rewrite (bindM_Ret _ _ _ _ _ (intr_disable_Ret k)). erewrite bindM_Ret by done.
  rewrite bool_decide_eq_false_2 by done. erewrite bindM_Ret by done.
  erewrite bindM_Ret by (unfold mod_thread, get_thread, bindM; simpl; rewrite Hc; done).
  erewrite bindM_Ret
    by (unfold push_prog, mod_thread, get_thread, bindM; simpl; rewrite lookup_insert_eq; done).
  destruct (ready_list k ++ [cur k]) as [|n ts] eqn:Hrl; [by destruct (ready_list k)|].
  set (k2 := set_threads _ _).
  assert (∀ t, t ∈ n :: ts → is_Some (threads k2 !! t)) as Hex.
  { intros t Ht. unfold k2. simpl. rewrite insert_insert_eq, lookup_insert. case_decide; [eauto|]. rewrite <-Hrl in Ht.
    apply elem_of_app in Ht as [Ht|Ht%list_elem_of_singleton]; [by apply Hready|by subst]. }
  destruct (Hex n) as [thn Hn]; [by left|].
  rewrite (schedule_Ret k2 (set_prog (ISetLevel (intr k) :: prog th) (set_status THREAD_READY th)) n ts thn);
    [|done|by unfold k2; simpl; rewrite lookup_insert_eq|done|done|done|done].
  eexists. split; [done|]. split; [done|]. unfold st. cbn [threads cur ready_list set_thread_ticks set_threads set_cur set_ready_list].
  split; [by rewrite lookup_insert_eq|]. split; [done|]. split_and!.
  - intros Hne. unfold k2. simpl. rewrite lookup_insert_ne by done. by rewrite insert_insert_eq, lookup_insert_eq.
  - unfold k2 in *. simpl in *. rewrite insert_insert_eq in *. rewrite lookup_insert. case_decide as Hd.
    + subst n. rewrite lookup_insert_eq in Hn. by simplify_eq.
    + by rewrite lookup_insert_eq.
  - split; simpl; [exists (set_status THREAD_RUNNING thn); by rewrite lookup_insert_eq|].
    intros t Ht. rewrite lookup_insert. case_decide; [eauto|]. apply Hex. by right.
  - done.
  - done.
Qed.
(** Round robin: from every reachable state, [thread_yield] of a thread
    other than the idle thread returns, and rotates the sequence made of the
    running thread and the ready list by one: the thread at the front of the
    ready list runs (the yielding thread itself if the list was empty), with a
    fresh time slice, and the yielding thread is last in line, ready, and will
    restore its interrupt level when it runs again. *)
Theorem thread_yield_round_robin k th :
  kinv true None k → in_external_intr k = false → threads k !! cur k = Some th →
  idle_thread k ≠ Some (cur k) →
  ∃ k', thread_yield k = Ret (tt, k') ∧
    cur k' :: ready_list k' = ready_list k ++ [cur k] ∧
    st k' (cur k') = Some THREAD_RUNNING ∧ thread_ticks k' = 0 ∧
    (cur k' ≠ cur k → st k' (cur k) = Some THREAD_READY) ∧
    prog <$> threads k' !! cur k = Some (ISetLevel (intr k) :: prog th).
Proof.
  intros Hk Hx Hc Hni. destruct (thread_yield_rotates k th) as (k' & H1 & H2 & H3 & H4 & H5 & H6 & _); [|done..|by exists k'].
  apply kinv_line; eauto.
Qed.
Lemma thread_yield_round_robin_witness :
  ∃ k', thread_yield waiting = Ret (tt, k') ∧
    cur k' :: ready_list k' = ready_list waiting ++ [cur waiting] ∧
    st k' (cur k') = Some THREAD_RUNNING ∧ thread_ticks k' = 0 ∧
    (cur k' ≠ cur waiting → st k' (cur waiting) = Some THREAD_READY) ∧
    prog <$> threads k' !! cur waiting = Some [ISetLevel (intr waiting); IStart].
Proof.
  apply (thread_yield_round_robin waiting (Thread 3 THREAD_RUNNING PRI_DEFAULT 0 0 false (Some 4096%N) [IStart])).
  - apply reachable_kinv, waiting_reachable.
  - vm_compute. reflexivity.
  - vm_compute. reflexivity.
  - vm_compute. congruence.
Defined.
