(* ===== verification/KernelFair.v ===== *)
(** * The ready list is fair

    Along any run of the kernel no thread overtakes another in the ready list,
    and the time slice takes the processor away from a thread after
    [TIME_SLICE] timer interrupts: a ready thread that does not get the
    processor bounds the number of timer interrupts of the run. *)

From stdpp Require Import base numbers list gmap relations.
From S2P Require Import Prelude KList FixedPoint Thread Synch Timer KernelInv KernelOps KernelSafety KernelProps.
Local Open Scope Z_scope.

(** ** Operations that do not switch threads *)
(** The same thread runs, the timer counters are as they were, and threads
    only joined the ready list at its end. *)
Definition calm (k k' : kernel) : Prop :=
  cur k' = cur k ∧ thread_ticks k' = thread_ticks k ∧ ticks k' = ticks k ∧
  ∃ new, ready_list k' = ready_list k ++ new.
(** The first ready thread got the processor, for a new time slice. *)
Definition dispatched (k k' : kernel) : Prop :=
  thread_ticks k' = 0 ∧
  ∀ t r, ready_list k = t :: r → cur k' = t ∧ ∃ new, ready_list k' = r ++ new.
Definition advances (k k' : kernel) : Prop := calm k k' ∨ dispatched k k'.

Lemma calm_refl k : calm k k.
Proof. split_and!; try done. exists []. by rewrite app_nil_r. Qed.
Lemma calm_trans k1 k2 k3 : calm k1 k2 → calm k2 k3 → calm k1 k3.
Proof.
  intros (? & ? & ? & n1 & E1) (? & ? & ? & n2 & E2). split_and!; try congruence.
  exists (n1 ++ n2). by rewrite E2, E1, app_assoc.
Qed.
(** What is appended before a switch does not matter. *)
Lemma dispatched_after k1 k2 k3 new :
  ready_list k2 = ready_list k1 ++ new → dispatched k2 k3 → dispatched k1 k3.
Proof.
  intros Hr (? & Hd). split; [done|]. intros t r Ht. rewrite Ht in Hr.
  destruct (Hd t (r ++ new) Hr) as (? & n & ->). split; [done|]. exists (new ++ n). by rewrite app_assoc.
Qed.
Lemma advances_after k1 k2 k3 : calm k1 k2 → advances k2 k3 → advances k1 k3.
Proof.
  intros Hc [Hm|Hd]; [left; by eapply calm_trans|right].
  destruct Hc as (_ & _ & _ & n & Hn). by eapply dispatched_after.
Qed.

(** [steady m]: running [m] is calm; [fair m]: it may end in a switch. *)
Definition steady {A} (m : M kernel A) : Prop := ∀ k, wp m (λ _, calm k) k.
Definition fair {A} (m : M kernel A) : Prop := ∀ k, wp m (λ _, advances k) k.

Lemma steady_fair {A} (m : M kernel A) : steady m → fair m.
Proof. intros H k. eapply wp_mono; [apply H|]. intros a k' Hk. by left. Qed.
Lemma steady_bind {A B} (m : M kernel A) (f : A → M kernel B) :
  steady m → (∀ a, steady (f a)) → steady (bindM m f).
Proof.
  intros Hm Hf k. apply wp_bind. eapply wp_mono; [apply Hm|]. intros a k1 H1.
  eapply wp_mono; [apply Hf|]. intros b k2. by apply calm_trans.
Qed.
Lemma fair_bind {A B} (m : M kernel A) (f : A → M kernel B) :
  steady m → (∀ a, fair (f a)) → fair (bindM m f).
Proof.
  intros Hm Hf k. apply wp_bind. eapply wp_mono; [apply Hm|]. intros a k1 H1.
  eapply wp_mono; [apply Hf|]. intros b k2. by apply advances_after.
Qed.
Lemma steady_ret {A} (a : A) : steady (retM a).
Proof. intros k. apply wp_ret, calm_refl. Qed.
Lemma steady_panic {A} : steady (panicM : M kernel A).
Proof. by intros k. Qed.
Lemma steady_nofuel {A} : steady (λ _, NoFuel : outcome (A * kernel)).
Proof. by intros k. Qed.
Lemma steady_assert b : steady (assertM b).
Proof. intros k. apply wp_assert. intros _. apply calm_refl. Qed.
Lemma steady_read {A} (f : kernel → A) : steady (λ k, Ret (f k, k)).
Proof. intros k. apply calm_refl. Qed.
Lemma steady_get : steady getM.
Proof. intros k. apply calm_refl. Qed.
Lemma steady_modify (f : kernel → kernel) :
  (∀ k, cur (f k) = cur k) → (∀ k, thread_ticks (f k) = thread_ticks k) → (∀ k, ticks (f k) = ticks k) →
  (∀ k, ready_list (f k) = ready_list k) → steady (modifyM f).
Proof. intros H1 H2 H3 H4 k. apply wp_modify. split_and!; auto. exists []. by rewrite app_nil_r. Qed.
Lemma steady_append t : steady (modifyM (λ k, set_ready_list (ready_list k ++ [t]) k)).
Proof. intros k. apply wp_modify. split_and!; try done. by exists [t]. Qed.
Lemma steady_get_thread t : steady (get_thread t).
Proof. intros k. apply wp_get_thread. intros. apply calm_refl. Qed.
Lemma steady_get_sema s : steady (get_sema s).
Proof. intros k. apply wp_get_sema. intros. apply calm_refl. Qed.
Lemma steady_get_holder x : steady (get_holder x).
Proof. intros k. apply wp_get_holder. intros. apply calm_refl. Qed.
Lemma steady_get_cond c : steady (get_cond c).
Proof. intros k. apply wp_get_cond. intros. apply calm_refl. Qed.
Lemma steady_on_links {A} (m : M heap A) : steady (on_links m).
Proof. intros k. apply wp_on_links. intros a h. split_and!; try done. exists []. by rewrite app_nil_r. Qed.

Create HintDb steady.
#[export] Hint Resolve steady_ret steady_panic steady_nofuel steady_assert steady_read steady_get steady_append
  steady_get_thread steady_get_sema steady_get_holder steady_get_cond steady_on_links steady_fair : steady.
#[export] Hint Extern 1 (steady (modifyM _)) => (apply steady_modify; by intros []) : steady.
(** Follows the structure of a function. *)
Ltac steadies :=
  repeat match goal with
  | |- steady (bindM _ _) => apply steady_bind; [|intros ?]
  | |- fair (bindM _ _) => apply fair_bind; [|intros ?]
  | |- steady (match ?x with _ => _ end) => destruct x eqn:?
  | |- fair (match ?x with _ => _ end) => destruct x eqn:?
  end; eauto with steady.

Lemma steady_put_thread t th : steady (put_thread t th).
Proof. unfold put_thread. steadies. Qed.
#[export] Hint Resolve steady_put_thread : steady.
Lemma steady_mod_thread t f : steady (mod_thread t f).
Proof. unfold mod_thread. steadies. Qed.
Lemma steady_put_sema s sm : steady (put_sema s sm).
Proof. unfold put_sema. steadies. Qed.
Lemma steady_put_holder l h : steady (put_holder l h).
Proof. unfold put_holder. steadies. Qed.
Lemma steady_put_cond c ws : steady (put_cond c ws).
Proof. unfold put_cond. steadies. Qed.
#[export] Hint Resolve steady_mod_thread steady_put_sema steady_put_holder steady_put_cond : steady.
Lemma steady_push_prog t i : steady (push_prog t i).
Proof. unfold push_prog. steadies. Qed.
Lemma steady_disable : steady intr_disable.
Proof. unfold intr_disable, intr_get_level. steadies. Qed.
Lemma steady_enable : steady intr_enable.
Proof. unfold intr_enable, intr_get_level, intr_context. steadies. Qed.
#[export] Hint Resolve steady_push_prog steady_disable steady_enable : steady.
Lemma steady_set_level x : steady (intr_set_level x).
Proof. unfold intr_set_level. steadies. Qed.
Lemma steady_not_ctx : steady assert_not_intr_context.
Proof. unfold assert_not_intr_context, intr_context. steadies. Qed.
Lemma steady_off : steady assert_intr_off.
Proof. unfold assert_intr_off, intr_get_level. steadies. Qed.
Lemma steady_running : steady running_thread.
Proof. apply steady_read. Qed.
#[export] Hint Resolve steady_set_level steady_not_ctx steady_off steady_running : steady.
Lemma steady_current : steady thread_current.
Proof. unfold thread_current. steadies. Qed.
#[export] Hint Resolve steady_current : steady.
Lemma steady_unblock t : steady (thread_unblock t).
Proof. unfold thread_unblock. steadies. Qed.
#[export] Hint Resolve steady_unblock : steady.

(** ** The switch *)
Lemma schedule_tail_keeps prev k :
  wp (thread_schedule_tail prev) (λ _ k', thread_ticks k' = 0 ∧ cur k' = cur k ∧ ready_list k' = ready_list k) k.
Proof.
  unfold thread_schedule_tail. wps. apply wp_mod_thread. intros th _. wps.
  destruct prev as [p|]; wps; [|done]. apply wp_get_thread. intros thp _. wps.
  destruct (_ && _); wps; done.
Qed.
(** From the choice of the next thread on. *)
Lemma schedule_dispatches k : wp schedule (λ _, dispatched k) k.
Proof.
  unfold schedule. wps. apply wp_next_thread.
  - intros Hn. wps. apply wp_get_thread. intros thc _. wps. destruct (idle_thread k) as [i|]; wps.
    case_match; wps; (eapply wp_mono; [apply schedule_tail_keeps|]); intros [] k' (? & _); split; congruence.
  - intros t ts Hn. wps. apply wp_get_thread. intros thc _. wps.
    destruct (N.eqb_spec (cur k) t) as [E|E]; simpl; wps; (eapply wp_mono; [apply schedule_tail_keeps|]);
      intros [] k' (Ht & Hc & Hr); (split; [done|]); intros t' r Htr; rewrite Hn in Htr; injection Htr as <- <-;
      simpl in *; (split; [congruence|]); exists []; by rewrite app_nil_r.
Qed.
Lemma fair_schedule : fair schedule.
Proof. intros k. eapply wp_mono; [apply schedule_dispatches|]. intros [] k' H. by right. Qed.
#[export] Hint Resolve fair_schedule : steady.
Lemma fair_block : fair thread_block.
Proof. unfold thread_block. steadies. Qed.
Lemma yield_dispatches k : wp thread_yield (λ _, dispatched k) k.
Proof.
  unfold thread_yield. wps. apply wp_thread_current. intros th _ _. wps.
  destruct (bool_decide _); wps; apply wp_mod_thread; intros th1 _; wps; apply wp_mod_thread; intros th2 _;
    (eapply wp_mono; [apply schedule_dispatches|]); intros [] k'.
  - apply (dispatched_after _ _ _ []). simpl. by rewrite app_nil_r.
  - by apply (dispatched_after _ _ _ [cur k]).
Qed.
Lemma fair_yield : fair thread_yield.
Proof. intros k. eapply wp_mono; [apply yield_dispatches|]. intros [] k' H. by right. Qed.
#[export] Hint Resolve fair_block fair_yield : steady.

(** ** The calls and the saved instructions *)
Lemma fair_exit : fair thread_exit.
Proof. unfold thread_exit. steadies. Qed.
Lemma fair_down_loop s old : fair (sema_down_loop s old).
Proof. unfold sema_down_loop. steadies. Qed.
#[export] Hint Resolve fair_exit fair_down_loop : steady.
Lemma fair_down s : fair (sema_down s).
Proof. unfold sema_down. steadies. Qed.
Lemma steady_try_down s : steady (sema_try_down s).
Proof. unfold sema_try_down. steadies. Qed.
Lemma steady_up s : steady (sema_up s).
Proof. unfold sema_up. steadies. Qed.
Lemma steady_held l : steady (lock_held_by_current_thread l).
Proof. unfold lock_held_by_current_thread. steadies. Qed.
#[export] Hint Resolve fair_down steady_try_down steady_up steady_held : steady.
Lemma steady_acquire l : steady (lock_acquire l).
Proof. unfold lock_acquire. steadies. Qed.
Lemma steady_try_acquire l : steady (lock_try_acquire l).
Proof. unfold lock_try_acquire. steadies. Qed.
Lemma steady_release l : steady (lock_release l).
Proof. unfold lock_release. steadies. Qed.
Lemma steady_sema_init s v : steady (sema_init s v).
Proof. unfold sema_init. steadies. Qed.
#[export] Hint Resolve steady_acquire steady_try_acquire steady_release steady_sema_init : steady.
Lemma steady_wait c l : steady (cond_wait c l).
Proof. unfold cond_wait. steadies. Qed.
Lemma steady_signal c l : steady (cond_signal c l).
Proof. unfold cond_signal. steadies. Qed.
#[export] Hint Resolve steady_wait steady_signal : steady.
Lemma steady_broadcast_loop n c l : steady (cond_broadcast_loop n c l).
Proof. induction n; simpl; steadies. Qed.
Lemma steady_sleep n : steady (timer_sleep n).
Proof. unfold timer_sleep, timer_ticks, set_thread_blocked_ticks, intr_get_level. steadies. Qed.
Lemma steady_init_thread t prio : steady (init_thread t prio).
Proof. unfold init_thread. steadies. Qed.
#[export] Hint Resolve steady_broadcast_loop steady_sleep steady_init_thread : steady.
Lemma fair_call c : fair (exec_call c).
Proof.
  destruct c; simpl; unfold thread_set_priority, lock_init, cond_init, cond_broadcast, thread_create; steadies.
Qed.
Lemma fair_instr i : fair (exec_instr i).
Proof. destruct i; simpl; unfold lock_set_holder, timer_sleep_block, allocate_tid; steadies. Qed.
#[export] Hint Resolve fair_instr : steady.
Lemma fair_next : fair exec_next.
Proof. unfold exec_next. steadies. Qed.

(** ** The timer interrupt *)
Lemma steady_wake l now : steady (repeated_check_blocked_list l now).
Proof. induction l; simpl; steadies. Qed.
#[export] Hint Resolve steady_wake : steady.
(** The counters of a timer interrupt: the time slice, and whether it is over. *)
Definition ticked_once (k k' : kernel) : Prop :=
  cur k' = cur k ∧ ticks k' = i64 (ticks k + 1) ∧ (∃ new, ready_list k' = ready_list k ++ new) ∧
  thread_ticks k' = u32 (thread_ticks k + 1) ∧
  (TIME_SLICE ≤ thread_ticks k' → yield_on_return k' = true).
Lemma thread_tick_counts k :
  wp thread_tick (λ _ k', cur k' = cur k ∧ ticks k' = ticks k ∧ ready_list k' = ready_list k ∧
    thread_ticks k' = u32 (thread_ticks k + 1) ∧
    (TIME_SLICE ≤ thread_ticks k' → yield_on_return k' = true)) k.
Proof.
  unfold thread_tick, intr_yield_on_return. wps. apply wp_thread_current. intros _ _ _. wps.
  apply wp_get_thread. intros th _. wps.
  do 2 try case_match; wps; destruct (Z.leb_spec TIME_SLICE (u32 (thread_ticks k + 1))); wps; simpl; split_and!; try done; lia.
Qed.
Lemma timer_interrupt_counts k : wp timer_interrupt (λ _, ticked_once k) k.
Proof.
  unfold timer_interrupt, unblock_thread_with_enough_ticks. wps.
  eapply wp_mono; [apply steady_wake|]. intros [] k1 (Hc & Ht & Hk & Hr). wps.
  apply wp_thread_current. intros _ _ _. wps. apply wp_mod_thread. intros th _.
  eapply wp_mono; [apply thread_tick_counts|]. intros [] k2 (Hc2 & Hk2 & Hr2 & Ht2 & Hy).
  simpl in *. destruct Hr as [new Hr]. split_and!; try congruence; [|done]. exists new. congruence.
Qed.
Lemma timer_counts k :
  wp intr_handler_timer (λ _ k', (ticked_once k k' ∧ thread_ticks k' < TIME_SLICE) ∨ dispatched k k') k.
Proof.
  unfold intr_handler_timer. wps. eapply wp_mono; [apply timer_interrupt_counts|].
  intros [] k1 (Hc & Hk & (new & Hr) & Ht & Hy). wps. simpl in *.
  destruct (yield_on_return k1) eqn:Ey; wps.
  - apply wp_mod_thread. intros th _. wps. eapply wp_mono; [apply yield_dispatches|]. intros [] k2 Hd.
    right. by eapply (dispatched_after _ _ _ new).
  - left. unfold ticked_once. simpl. split_and!; eauto.
    destruct (Z.lt_ge_cases (thread_ticks k1) TIME_SLICE) as [|?%Hy]; [done|congruence].
Qed.

(** ** Runs *)
Lemma step_fair race k k' :
  step race k k' →
  advances k k' ∨ (ticked_once k k' ∧ thread_ticks k' < TIME_SLICE).
Proof.
  intros [c th k1 _ _ _ Hex|k1 Hex|k1 _ _ Hex].
  - left. exact (wp_run _ _ _ _ _ (fair_call c k) Hex).
  - left. exact (wp_run _ _ _ _ _ (fair_next k) Hex).
  - destruct (wp_run _ _ _ _ _ (timer_counts k) Hex) as [?|?]; [by right|left; by right].
Qed.
Lemma slice_step race k k' :
  step race k k' → 0 ≤ thread_ticks k < TIME_SLICE → 0 ≤ thread_ticks k' < TIME_SLICE.
Proof.
  intros [[(_ & -> & _)|(-> & _)]|[(_ & _ & _ & -> & _) ?]]%step_fair Hk; [done|done|].
  split; [apply u32_range|done].
Qed.
Lemma reachable_slice race k : rtc (step race) boot_kernel k → 0 ≤ thread_ticks k < TIME_SLICE.
Proof.
  intros Hr. revert k Hr. apply (rtc_ind_r (λ k, 0 ≤ thread_ticks k < TIME_SLICE)); [by vm_compute|].
  intros k k' _ Hs Hk. by eapply slice_step.
Qed.

(** A run in which [t] never gets the processor, with the number of its timer
    interrupts: these are the steps that change the time. *)
Inductive waits (race : bool) (t : tptr) : nat → kernel → kernel → Prop :=
  | waits_refl k : waits race t 0 k k
  | waits_step n k1 k2 k3 :
      step race k1 k2 → cur k2 ≠ t → waits race t n k2 k3 →
      waits race t (if decide (ticks k2 = ticks k1) then n else S n) k1 k3.

(** The slices of the threads in front of [t] and what is left of the running
    thread's slice bound the timer interrupts. *)
Lemma waits_bound race t n k k' p :
  waits race t n k k' → 0 ≤ thread_ticks k < TIME_SLICE → ready_list k !! p = Some t →
  Z.of_nat n + thread_ticks k < TIME_SLICE * (Z.of_nat p + 1).
Proof.
  intros Hw. revert p. induction Hw as [k|n k1 k2 k3 Hs Hc Hw IH]; intros p Hk Hp;
    [unfold TIME_SLICE in *; lia|].
  pose proof (slice_step _ _ _ Hs Hk) as Hk2.
  assert (∀ m, (if decide (ticks k2 = ticks k1) then n else S n) = m → (m ≤ S n)%nat) as Hm
    by (intros m <-; case_decide; lia).
  destruct (step_fair _ _ _ Hs) as [[(_ & Ht & Hq & new & Hr)|[Ht Hd]]|[(_ & Hq & (new & Hr) & Ht & _) Hl]].
  - rewrite decide_True by done. rewrite <-Ht. apply IH; [done|]. rewrite Hr. by apply lookup_app_l_Some.
  - destruct (ready_list k1) as [|x r] eqn:Er; [done|]. destruct (Hd x r eq_refl) as [Hx [new Hr]].
    destruct p as [|p]; [simpl in Hp; congruence|].
    assert (Z.of_nat n + thread_ticks k2 < TIME_SLICE * (Z.of_nat p + 1)) as HI
      by (apply IH; [done|]; rewrite Hr; by apply lookup_app_l_Some).
    specialize (Hm _ eq_refl). unfold TIME_SLICE in *. lia.
  - assert (Z.of_nat n + thread_ticks k2 < TIME_SLICE * (Z.of_nat p + 1)) as HI
      by (apply IH; [done|]; rewrite Hr; by apply lookup_app_l_Some).
    specialize (Hm _ eq_refl). rewrite Ht in HI. unfold TIME_SLICE in *. rewrite u32_small in HI by lia. lia.
Qed.

(** Three timer interrupts, the last number that leaves the processor to the
    thread in front. *)
Definition interrupted (n : nat) : kernel := Nat.iter n (final intr_handler_timer) after_create.
Lemma interrupted_step n :
  intr (interrupted n) = INTR_ON → returns intr_handler_timer (interrupted n) = true →
  idle_prog (interrupted n) = true → step false (interrupted n) (interrupted (S n)).
Proof.
  intros Hi Hr Hp. apply step_timer; [done| |by apply final_Ret].
  intros _ (th & r & Hth & Hpr). unfold idle_prog in Hp. rewrite Hth, Hpr in Hp. done.
Qed.
Lemma interrupted_wait t m n k :
  step false (interrupted n) (interrupted (S n)) → (cur (interrupted (S n)) =? t)%N = false →
  (ticks (interrupted (S n)) =? ticks (interrupted n)) = false →
  waits false t m (interrupted (S n)) k → waits false t (S m) (interrupted n) k.
Proof.
  intros Hs Hc%N.eqb_neq Ht%Z.eqb_neq Hw. pose proof (waits_step _ _ _ _ _ _ Hs Hc Hw) as H.
  by rewrite decide_False in H.
Qed.
Lemma interrupted_waits : waits false 12288 3 (interrupted 0) (interrupted 3).
Proof.
  do 3 (apply interrupted_wait; [apply interrupted_step; vm_compute; reflexivity|vm_compute; reflexivity..|]).
  apply waits_refl.
Qed.
Lemma interrupted_reachable : rtc (step false) boot_kernel (interrupted 0).
Proof. unfold interrupted. cbn [Nat.iter nat_rect]. exact after_create_reachable. Qed.
