(* ===== verification/KernelLocks.v ===== *)
(** * Mutual exclusion of locks

    A lock has one token: it is in the semaphore ([value] 1), with the holder,
    or with a thread that is between the semaphore and the [holder] field in
    [lock_acquire], [lock_try_acquire] or [lock_release].  The file shows that
    the operations that do not concern a lock leave its token alone ([quiet]),
    that the lock operations move it, and so that in every reachable state at
    most one thread owns the lock.  The result also covers the interleavings
    inside the window of [timer_sleep]. *)

From stdpp Require Import base numbers list gmap sorting.
From S2P Require Import Prelude KList KListRepr KListOps FixedPoint Thread Synch Timer KernelInv KernelOps KernelSafety KernelProps.
Local Open Scope Z_scope.

(** ** The token in the saved instructions *)
(** What executing an instruction takes from ([-1]) or gives to ([+1]) the rest
    of the state. *)
Definition weight (l : loc) (i : instr) : Z :=
  match i with
  | ISetHolder x => if decide (x = l) then 1 else 0
  | ISemaUp s => if decide (s = SLock l) then 1 else 0
  | ISemaDown s | ISemaWait s _ => if decide (s = SLock l) then -1 else 0
  | _ => 0
  end.
Definition rel (l : loc) (p : list instr) : list instr := filter (λ i, weight l i ≠ 0) p.
Fixpoint tok (l : loc) (p : list instr) : Z :=
  match p with [] => 0 | i :: r => weight l i + tok l r end.
(** No part of the instructions gives back a token it has not got. *)
Fixpoint covered (l : loc) (p : list instr) : Prop :=
  match p with [] => True | i :: r => 0 ≤ weight l i + tok l r ∧ covered l r end.

Lemma rel_cons0 l i p : weight l i = 0 → rel l (i :: p) = rel l p.
Proof. intros H. unfold rel. by rewrite filter_cons_False by (rewrite H; auto). Qed.
Lemma tok_rel l p : tok l (rel l p) = tok l p.
Proof.
  induction p as [|i p IH]; [done|]. unfold rel in *. rewrite filter_cons.
  case_decide as H; simpl; [by rewrite IH|]. lia.
Qed.
Lemma covered_nonneg l p : covered l p → 0 ≤ tok l p.
Proof. destruct p; simpl; [lia|tauto]. Qed.
Lemma covered_rel l p : covered l (rel l p) ↔ covered l p.
Proof.
  induction p as [|i p IH]; [done|]. destruct (decide (weight l i = 0)) as [H|H].
  - rewrite rel_cons0 by done. simpl. rewrite IH. split; [|tauto]. intros Hc. split; [|done].
    apply covered_nonneg in Hc. lia.
  - unfold rel. rewrite filter_cons_True by done. fold (rel l p). simpl. by rewrite IH, tok_rel.
Qed.

(** ** Operations that leave the lock alone *)
Section lock.
  Context (l : loc).
Definition sval (k : kernel) : option Z := value <$> semas k !! SLock l.
Definition dead_ok (k : kernel) : Prop := ∀ t, st k t = Some THREAD_DYING → rel l (pg k t) = [].
Definition lsame (k k' : kernel) : Prop := dead_ok k →
  dead_ok k' ∧ (∀ t, rel l (pg k' t) = rel l (pg k t)) ∧ sval k' = sval k ∧ holders k' !! l = holders k !! l.
Definition quiet {A} (m : M kernel A) : Prop := ∀ k, wp m (λ _, lsame k) k.

Lemma lsame_refl k : lsame k k.
Proof. intros H. by split_and!. Qed.
Lemma lsame_trans k1 k2 k3 : lsame k1 k2 → lsame k2 k3 → lsame k1 k3.
Proof.
  intros H12 H23 H1. destruct (H12 H1) as (H2 & ? & ? & ?). destruct (H23 H2) as (? & Hr & ? & ?).
  split_and!; [done|intros t; by rewrite Hr|congruence|congruence].
Qed.
Lemma quiet_bind {A B} (m : M kernel A) (f : A → M kernel B) :
  quiet m → (∀ a, quiet (f a)) → quiet (bindM m f).
Proof.
  intros Hm Hf k. apply wp_bind. eapply wp_mono; [apply Hm|]. intros a k1 H1.
  eapply wp_mono; [apply Hf|]. intros b k2. by apply lsame_trans.
Qed.
Lemma quiet_ret {A} (a : A) : quiet (retM a).
Proof. intros k. apply wp_ret, lsame_refl. Qed.
Lemma quiet_panic {A} : quiet (panicM : M kernel A).
Proof. by intros k. Qed.
Lemma quiet_assert b : quiet (assertM b).
Proof. intros k. apply wp_assert. intros _. apply lsame_refl. Qed.
Lemma quiet_read {A} (f : kernel → A) : quiet (λ k, Ret (f k, k)).
Proof. intros k. apply lsame_refl. Qed.
Lemma quiet_get : quiet getM.
Proof. intros k. apply lsame_refl. Qed.
(** A change of the globals only. *)
Lemma quiet_modify (f : kernel → kernel) :
  (∀ k, threads (f k) = threads k) → (∀ k, semas (f k) = semas k) → (∀ k, holders (f k) = holders k) →
  quiet (modifyM f).
Proof.
  intros Ht Hs Hh k. apply wp_modify. unfold lsame, dead_ok, st, pg, sval. rewrite Ht, Hs, Hh. done.
Qed.
Lemma quiet_get_thread t : quiet (get_thread t).
Proof. intros k. apply wp_get_thread. intros. apply lsame_refl. Qed.
Lemma quiet_mod_thread t f :
  (∀ th, rel l (prog (f th)) = rel l (prog th)) →
  (∀ th, status (f th) = THREAD_DYING → status th = THREAD_DYING) →
  quiet (mod_thread t f).
Proof.
  intros Hp Hs k. apply wp_mod_thread. intros th Hth Hd. unfold dead_ok, st, pg in *. simpl.
  split_and!; try done; intros x.
  - rewrite lookup_insert. destruct (decide (t = x)) as [<-|]; [|apply Hd].
    simpl. intros [= Hx%Hs]. rewrite Hp. specialize (Hd t). rewrite Hth in Hd. apply Hd. simpl. by rewrite Hx.
  - rewrite lookup_insert. destruct (decide (t = x)) as [<-|]; [by rewrite Hth, Hp|done].
Qed.
Lemma quiet_status t s : s ≠ THREAD_DYING → quiet (mod_thread t (set_status s)).
Proof. intros Hs. apply quiet_mod_thread; [done|]. by intros th. Qed.
Lemma quiet_push t i : weight l i = 0 → quiet (push_prog t i).
Proof. intros Hw. apply quiet_mod_thread; [|done]. intros th. by apply rel_cons0. Qed.
Lemma quiet_on_links {A} (m : M heap A) : quiet (on_links m).
Proof. intros k. by apply wp_on_links. Qed.
Lemma quiet_get_sema s : quiet (get_sema s).
Proof. intros k. apply wp_get_sema. intros. apply lsame_refl. Qed.
Lemma quiet_put_sema s sm : s ≠ SLock l → quiet (put_sema s sm).
Proof.
  intros Hs k. apply wp_modify. intros Hd. split_and!; try done. unfold sval. simpl.
  by rewrite lookup_insert_ne.
Qed.
Lemma quiet_get_holder x : quiet (get_holder x).
Proof. intros k. apply wp_get_holder. intros. apply lsame_refl. Qed.
Lemma quiet_put_holder x h : x ≠ l → quiet (put_holder x h).
Proof. intros Hx k. apply wp_modify. intros Hd. split_and!; try done. simpl. by rewrite lookup_insert_ne. Qed.
Lemma quiet_get_cond c : quiet (get_cond c).
Proof. intros k. apply wp_get_cond. intros. apply lsame_refl. Qed.
Lemma quiet_put_cond c ws : quiet (put_cond c ws).
Proof. by apply quiet_modify. Qed.
Lemma quiet_delete prev (k : kernel) :
  (∃ th, threads k !! prev = Some th ∧ status th = THREAD_DYING) →
  lsame k (free_thread prev k).
Proof.
  intros (th & Hth & Hs) Hd. unfold dead_ok, st, pg in *. simpl. split_and!; try done; intros x.
  - destruct (decide (prev = x)) as [<-|]; [by rewrite lookup_delete_eq|by rewrite lookup_delete_ne by done; auto].
  - destruct (decide (prev = x)) as [<-|]; [|by rewrite lookup_delete_ne].
    rewrite lookup_delete_eq. specialize (Hd prev). rewrite Hth in *. simpl in Hd. by rewrite Hd by by rewrite Hs.
Qed.
End lock.

(** Proves that a function is [quiet] by its structure. *)
Ltac quiet_step :=
  first
  [ done
  | apply quiet_ret | apply quiet_panic | apply quiet_assert | apply quiet_get | apply quiet_read
  | apply quiet_get_thread | apply quiet_on_links | apply quiet_get_sema | apply quiet_get_holder
  | apply quiet_get_cond | apply quiet_put_cond
  | apply quiet_put_sema; congruence | apply quiet_put_holder; congruence
  | apply quiet_status; congruence | apply quiet_push; reflexivity
  | apply quiet_mod_thread; by intros []
  | apply quiet_modify; by intros []
  | match goal with
    | |- quiet _ (bindM _ _) => apply quiet_bind; [|intros ?]
    | |- quiet _ (match ?x with _ => _ end) => destruct x eqn:?
    end ].
Ltac quiets := repeat quiet_step.

Section quiet_ops.
  Context (l : loc).
Lemma quiet_set_level x : quiet l (intr_set_level x).
Proof. unfold intr_set_level, intr_enable, intr_disable, intr_get_level, intr_context. quiets. Qed.
Lemma quiet_disable : quiet l intr_disable.
Proof. unfold intr_disable, intr_get_level. quiets. Qed.
Lemma quiet_not_ctx : quiet l assert_not_intr_context.
Proof. unfold assert_not_intr_context, intr_context. quiets. Qed.
Lemma quiet_off : quiet l assert_intr_off.
Proof. unfold assert_intr_off, intr_get_level. quiets. Qed.
Lemma quiet_current : quiet l thread_current.
Proof. unfold thread_current, running_thread. quiets. Qed.
Lemma quiet_next : quiet l next_thread_to_run.
Proof. intros k. unfold wp, next_thread_to_run. destruct (ready_list k); [apply lsame_refl|by intros Hd]. Qed.
Lemma quiet_schedule_tail prev : quiet l (thread_schedule_tail prev).
Proof.
  unfold thread_schedule_tail. apply quiet_bind; [apply quiet_read|intros cur].
  apply quiet_bind; [apply quiet_off|intros _]. apply quiet_bind; [by apply quiet_status|intros _].
  apply quiet_bind; [by apply quiet_modify|intros _]. destruct prev as [prev|]; [|apply quiet_ret].
  intros k. apply wp_bind, wp_get_thread. intros th Hth. apply wp_bind, wp_get.
  destruct (bool_decide (status th = THREAD_DYING)) eqn:Hd; simpl; [|apply lsame_refl].
  destruct (negb _); [|apply lsame_refl]. apply wp_bind, wp_assert. intros _. apply wp_modify.
  apply quiet_delete. apply bool_decide_eq_true in Hd. eauto.
Qed.
Lemma quiet_schedule : quiet l schedule.
Proof.
  unfold schedule, running_thread. pose proof quiet_schedule_tail. pose proof quiet_next. pose proof quiet_off.
  quiets.
Qed.
Lemma quiet_block : quiet l thread_block.
Proof.
  unfold thread_block. pose proof quiet_schedule. pose proof quiet_not_ctx. pose proof quiet_off.
  pose proof quiet_current. quiets.
Qed.
Lemma quiet_unblock t : quiet l (thread_unblock t).
Proof. unfold thread_unblock. pose proof quiet_disable. pose proof quiet_set_level. quiets. Qed.
Lemma quiet_yield : quiet l thread_yield.
Proof.
  unfold thread_yield. pose proof quiet_schedule. pose proof quiet_not_ctx. pose proof quiet_disable.
  pose proof quiet_current. quiets.
Qed.
Lemma quiet_check_blocked ts now : quiet l (repeated_check_blocked_list ts now).
Proof. pose proof quiet_unblock. induction ts; simpl; quiets. Qed.
Lemma quiet_tick : quiet l thread_tick.
Proof. unfold thread_tick, intr_yield_on_return, intr_context. pose proof quiet_current. quiets. Qed.
Lemma quiet_timer_interrupt : quiet l timer_interrupt.
Proof.
  unfold timer_interrupt, unblock_thread_with_enough_ticks. pose proof quiet_current.
  pose proof quiet_check_blocked. pose proof quiet_tick. quiets.
  apply quiet_mod_thread; intros th; by destruct (bool_decide _).
Qed.
Lemma quiet_timer : quiet l intr_handler_timer.
Proof.
  unfold intr_handler_timer, running_thread, intr_context. pose proof quiet_off. pose proof quiet_not_ctx.
  pose proof quiet_timer_interrupt. pose proof quiet_yield. quiets.
Qed.
Lemma quiet_sema_init s v : s ≠ SLock l → quiet l (sema_init s v).
Proof. intros. unfold sema_init. quiets. Qed.
Lemma quiet_sema_down_loop s old : s ≠ SLock l → quiet l (sema_down_loop s old).
Proof.
  intros Hs. unfold sema_down_loop. pose proof quiet_current. pose proof quiet_block.
  pose proof quiet_set_level. quiets. apply quiet_push. simpl. by rewrite decide_False.
Qed.
Lemma quiet_sema_down s : s ≠ SLock l → quiet l (sema_down s).
Proof.
  intros Hs. unfold sema_down. pose proof (quiet_sema_down_loop s). pose proof quiet_not_ctx.
  pose proof quiet_disable. quiets. auto.
Qed.
Lemma quiet_sema_try_down s : s ≠ SLock l → quiet l (sema_try_down s).
Proof. intros Hs. unfold sema_try_down. pose proof quiet_disable. pose proof quiet_set_level. quiets. Qed.
Lemma quiet_sema_up s : s ≠ SLock l → quiet l (sema_up s).
Proof.
  intros Hs. unfold sema_up. pose proof quiet_disable. pose proof quiet_set_level.
  pose proof quiet_unblock. quiets.
Qed.
Lemma quiet_held x : quiet l (lock_held_by_current_thread x).
Proof. unfold lock_held_by_current_thread. pose proof quiet_current. quiets. Qed.
(** Pushing several instructions that do not concern the lock. *)
Lemma quiet_pushes t il : Forall (λ i, weight l i = 0) il → quiet l (mod_thread t (λ th, set_prog (il ++ prog th) th)).
Proof.
  intros H. apply quiet_mod_thread; [|done]. intros th. simpl. unfold rel. rewrite filter_app.
  rewrite (filter_none _ il); [done|]. intros i Hi Hn. by eapply Forall_forall in H.
Qed.
(** Acquiring any lock starts without a change of tokens: what is pushed takes
    one and gives it back. *)
Lemma quiet_lock_acquire x : x ≠ l → quiet l (lock_acquire x).
Proof.
  intros Hx. unfold lock_acquire. pose proof quiet_not_ctx. pose proof quiet_held. pose proof quiet_current.
  quiets. apply quiet_pushes. repeat apply Forall_cons_2; simpl; try apply Forall_nil_2; apply decide_False; congruence.
Qed.
Lemma quiet_lock_try_acquire x : x ≠ l → quiet l (lock_try_acquire x).
Proof.
  intros Hx. unfold lock_try_acquire. pose proof quiet_held. pose proof quiet_current.
  pose proof (quiet_sema_try_down (SLock x)). quiets; [apply H1; congruence|].
  apply quiet_push. simpl. by apply decide_False.
Qed.
Lemma quiet_lock_release x : x ≠ l → quiet l (lock_release x).
Proof.
  intros Hx. unfold lock_release. pose proof quiet_held. pose proof quiet_current. quiets.
  apply quiet_push. simpl. apply decide_False. congruence.
Qed.
Lemma quiet_set_holder x : x ≠ l → quiet l (lock_set_holder x).
Proof. intros Hx. unfold lock_set_holder. pose proof quiet_current. quiets. Qed.
Lemma quiet_cond_wait c x : quiet l (cond_wait c x).
Proof.
  unfold cond_wait. pose proof quiet_held. pose proof quiet_current. pose proof quiet_not_ctx. quiets.
Qed.
Lemma quiet_cond_signal c x : quiet l (cond_signal c x).
Proof.
  unfold cond_signal. pose proof quiet_held. pose proof quiet_not_ctx. quiets.
  apply quiet_sema_up. congruence.
Qed.
Lemma quiet_cond_broadcast_loop n c x : quiet l (cond_broadcast_loop n c x).
Proof. pose proof quiet_cond_signal. induction n; simpl; quiets. Qed.
Lemma quiet_timer_sleep n : quiet l (timer_sleep n).
Proof.
  unfold timer_sleep, timer_ticks, set_thread_blocked_ticks, intr_get_level. pose proof quiet_disable.
  pose proof quiet_set_level. pose proof quiet_current. quiets.
Qed.
Lemma quiet_sleep_block : quiet l timer_sleep_block.
Proof. unfold timer_sleep_block. pose proof quiet_disable. pose proof quiet_current. pose proof quiet_block. quiets. Qed.
End quiet_ops.

(** ** Where the token is *)
Inductive place := Free | Held | InThread (t : tptr) | Limbo.
#[global] Instance place_eq_dec : EqDecision place.
Proof. solve_decision. Defined.
(** [Limbo]: in the middle of an operation. *)
Record at_place (l : loc) (o : place) (k : kernel) : Prop := {
  a_dead : dead_ok l k;
  a_value : sval l k = Some (if decide (o = Free) then 1 else 0);
  a_holder : ∃ h, holders k !! l = Some h ∧ (h ≠ None ↔ o = Held);
  a_tok t : tok l (pg k t) = if decide (o = InThread t) then 1 else 0;
  a_covered t : covered l (pg k t) }.
(** Before [lock_init]. *)
Definition uninit (l : loc) (k : kernel) : Prop :=
  dead_ok l k ∧ sval l k = None ∧ holders k !! l = None ∧ ∀ t, rel l (pg k t) = [].
Definition linv (l : loc) (k : kernel) : Prop := (∃ o, o ≠ Limbo ∧ at_place l o k) ∨ uninit l k.

Section moves.
  Context (l : loc).
Lemma at_place_lsame o k k' : lsame l k k' → at_place l o k → at_place l o k'.
Proof.
  intros Hs []. destruct (Hs a_dead0) as (? & Hr & Hv & Hh). split; try done.
  - by rewrite Hv.
  - by rewrite Hh.
  - intros t. by rewrite <-tok_rel, Hr, tok_rel.
  - intros t. by rewrite <-covered_rel, Hr, covered_rel.
Qed.
Lemma linv_lsame k k' : lsame l k k' → linv l k → linv l k'.
Proof.
  intros Hs [(o & Ho & Ha)|(Hd & Hv & Hh & Hr)].
  - left. exists o. split; [done|]. by eapply at_place_lsame.
  - destruct (Hs Hd) as (? & Hr' & Hv' & Hh'). right. split_and!; [done|congruence|congruence|].
    intros t. by rewrite Hr'.
Qed.
Lemma wp_quiet {A} (m : M kernel A) o k : quiet l m → at_place l o k → wp m (λ _, at_place l o) k.
Proof. intros Hq Ha. eapply wp_mono; [apply Hq|]. intros a k' Hs. by apply (at_place_lsame o k k'). Qed.
Lemma wp_quiet_linv {A} (m : M kernel A) k : quiet l m → linv l k → wp m (λ _, linv l) k.
Proof. intros Hq Ha. eapply wp_mono; [apply Hq|]. intros a k' Hs. by apply (linv_lsame k k'). Qed.

(** A change of the instructions of one thread, of the value and of the holder. *)
Lemma at_place_move o o' k k' c th th' :
  at_place l o k → threads k !! c = Some th → status th ≠ THREAD_DYING →
  threads k' = <[c := th']> (threads k) → status th' = status th →
  covered l (prog th') → tok l (prog th') = (if decide (o' = InThread c) then 1 else 0) →
  (∀ x, x ≠ c → o' = InThread x ↔ o = InThread x) →
  sval l k' = Some (if decide (o' = Free) then 1 else 0) →
  (∃ h, holders k' !! l = Some h ∧ (h ≠ None ↔ o' = Held)) →
  at_place l o' k'.
Proof.
  intros [] Hth Hnd Hupd Hst Hcov Htok Hx Hv Hh.
  split; try done; [intros t Ht|intros t|intros t]; rewrite ?(pg_upd _ _ _ _ Hupd), ?(st_upd _ _ _ _ Hupd) in *;
    destruct (decide (c = t)) as [<-|Hct]; try done.
  - congruence.
  - by apply a_dead0.
  - rewrite a_tok0. repeat case_decide; naive_solver.
Qed.

Lemma holder_free o o' (m : option (option tptr)) :
  o ≠ Held → o' ≠ Held → (∃ h, m = Some h ∧ (h ≠ None ↔ o = Held)) → ∃ h, m = Some h ∧ (h ≠ None ↔ o' = Held).
Proof. intros Ho Ho' (h & Hh & Hiff). exists h. rewrite Hiff. split; [done|]. by split. Qed.

(** The running thread is about to execute an instruction of the lock. *)
Lemma popped_alive k c th i r o :
  at_place l o k → threads k !! c = Some th → prog th = i :: r → weight l i ≠ 0 → status th ≠ THREAD_DYING.
Proof.
  intros [] Hth Hp Hw Hd. specialize (a_dead0 c). rewrite (st_of _ _ _ Hth), Hd, (pg_of _ _ _ Hth), Hp in a_dead0.
  unfold rel in a_dead0. rewrite filter_cons_True in a_dead0 by done. by specialize (a_dead0 eq_refl).
Qed.
(** An instruction that gives the token back: the thread has it. *)
Lemma pop_give k th i r o :
  at_place l o k → threads k !! cur k = Some th → prog th = i :: r → weight l i = 1 →
  at_place l Limbo (set_threads (<[cur k := set_prog r th]> (threads k)) k).
Proof.
  intros Ha Hth Hp Hw. pose proof (popped_alive k (cur k) th i r o Ha Hth Hp) as Hal.
  pose proof Ha as []. specialize (a_tok0 (cur k)). specialize (a_covered0 (cur k)).
  rewrite (pg_of _ _ _ Hth), Hp in *. simpl in *. destruct a_covered0 as [_ Hcov].
  pose proof (covered_nonneg _ _ Hcov).
  assert (o = InThread (cur k)) as -> by (case_decide; [done|lia]).
  rewrite decide_True in a_tok0 by done.
  eapply (at_place_move (InThread (cur k)) Limbo k _ (cur k) th); try done.
  - apply Hal. lia.
  - simpl. lia.
  - intros x Hx. split; congruence.
  - by eapply holder_free, a_holder0.
Qed.

(** ** The operations on the lock *)
Lemma wp_down_loop k th i r old o :
  at_place l o k → o ≠ Limbo → threads k !! cur k = Some th → prog th = i :: r → weight l i = -1 →
  ∀ lv, wp (sema_down_loop (SLock l) old) (λ _ k', ∃ o, o ≠ Limbo ∧ at_place l o k')
    (set_intr lv (set_threads (<[cur k := set_prog r th]> (threads k)) k)).
Proof.
  intros Ha Ho Hth Hp Hw lv. pose proof (popped_alive k (cur k) th i r o Ha Hth Hp) as Hal.
  pose proof Ha as []. specialize (a_tok0 (cur k)). specialize (a_covered0 (cur k)).
  rewrite (pg_of _ _ _ Hth), Hp in *. simpl in *. destruct a_covered0 as [Hnn Hcov].
  unfold sema_down_loop. apply wp_bind, wp_get_sema. simpl. intros sm Hs. unfold sval in a_value0.
  rewrite Hs in a_value0. simpl in a_value0. injection a_value0 as Hval.
  destruct (Z.eqb_spec (value sm) 0) as [H0|H0].
  - apply wp_bind, wp_thread_current. simpl. intros _ _ _. apply wp_bind, wp_modify. simpl.
    apply wp_bind, wp_mod_thread. simpl. rewrite lookup_insert_eq. intros th0 [= <-]. rewrite insert_insert_eq.
    eapply wp_mono; [apply (wp_quiet _ o); [apply quiet_block|]|intros; by exists o].
    eapply (at_place_move o o k _ (cur k) th); try done; simpl.
    + apply Hal. lia.
    + rewrite decide_True by done. split; [lia|done].
    + rewrite decide_True by done. lia.
    + unfold sval. simpl. rewrite lookup_insert_eq. simpl. by rewrite Hval.
  - destruct (decide (o = Free)) as [->|]; [|lia].
    apply wp_bind, wp_modify. simpl. eapply wp_mono; [apply (wp_quiet _ (InThread (cur k)))|intros; by exists (InThread (cur k))].
    + pose proof (quiet_set_level l old). quiets.
    + eapply (at_place_move Free (InThread (cur k)) k _ (cur k) th); try done; simpl.
      * apply Hal. lia.
      * rewrite decide_True by done. rewrite decide_False in a_tok0 by done. lia.
      * intros x Hx. split; congruence.
      * unfold sval. simpl. rewrite lookup_insert_eq. simpl. by rewrite Hval.
      * by eapply holder_free, a_holder0.
Qed.
Lemma wp_lock_up k : at_place l Limbo k → wp (sema_up (SLock l)) (λ _, at_place l Free) k.
Proof.
  intros Ha. unfold sema_up. apply wp_bind.
  eapply wp_mono; [apply (wp_quiet _ Limbo); [apply quiet_disable|done]|]. clear k Ha. intros old k Ha.
  apply wp_bind, wp_get_sema. intros sm Hs. apply wp_bind.
  assert (wp match waiters sm with [] => retM tt
             | t :: ws => run put_sema (SLock l) (Semaphore (value sm) ws); thread_unblock t end
    (λ _, at_place l Limbo) k) as Hw.
  { destruct (waiters sm) as [|t ws]; [done|]. apply wp_bind, wp_modify.
    apply wp_quiet; [apply quiet_unblock|]. eapply at_place_lsame; [|exact Ha]. intros Hd. split_and!; try done.
    unfold sval. simpl. by rewrite lookup_insert_eq, Hs. }
  eapply wp_mono; [exact Hw|]. clear k Ha Hs Hw. intros ? k Ha.
  apply wp_bind, wp_get_sema. clear sm. intros sm Hs. apply wp_bind, wp_modify.
  apply wp_quiet; [pose proof (quiet_set_level l old); quiets|].
  pose proof Ha as []. unfold sval in a_value0. rewrite Hs in a_value0. simpl in a_value0. injection a_value0 as Hval.
  split; try done.
  - unfold sval. simpl. rewrite lookup_insert_eq. simpl. by rewrite Hval.
  - by eapply holder_free, a_holder0.
Qed.
Lemma wp_limbo_push k th i :
  at_place l Limbo k → weight l i = 1 → threads k !! cur k = Some th → status th = THREAD_RUNNING →
  wp (push_prog (cur k) i) (λ _ k', at_place l (InThread (cur k)) k') k.
Proof.
  intros Ha Hw Hth Hr. apply wp_mod_thread. intros th0 Hth0.
  rewrite Hth in Hth0. injection Hth0 as <-. pose proof Ha as [].
  specialize (a_tok0 (cur k)). specialize (a_covered0 (cur k)). rewrite (pg_of _ _ _ Hth) in *. simpl in *.
  eapply (at_place_move Limbo (InThread (cur k)) k _ (cur k) th); try done; simpl.
  - congruence.
  - rewrite Hw. split; [lia|done].
  - rewrite decide_True by done. lia.
  - intros x Hx. split; congruence.
  - by eapply holder_free, a_holder0.
Qed.
Lemma wp_acquire o k : at_place l o k → wp (lock_acquire l) (λ _, at_place l o) k.
Proof.
  intros Ha. unfold lock_acquire. apply wp_bind.
  eapply wp_mono; [apply (wp_quiet _ o); [apply quiet_not_ctx|done]|]. clear k Ha. intros ? k Ha.
  apply wp_bind. eapply wp_mono; [apply (wp_quiet _ o); [apply quiet_held|done]|]. clear k Ha. intros [] k Ha; [done|].
  apply wp_bind, wp_thread_current. intros th Hth Hr. apply wp_bind, wp_on_links. intros _ lh.
  apply wp_mod_thread. simpl. intros th0 Hth0. rewrite Hth in Hth0. injection Hth0 as <-.
  pose proof Ha as []. specialize (a_tok0 (cur k)). specialize (a_covered0 (cur k)).
  rewrite (pg_of _ _ _ Hth) in *. pose proof (covered_nonneg _ _ a_covered0).
  eapply (at_place_move o o k _ (cur k) th); try done; simpl; rewrite ?decide_True by done.
  - congruence.
  - split; [lia|]. split; [lia|done].
  - rewrite <-a_tok0. lia.
Qed.
Lemma wp_try_acquire o k :
  at_place l o k → o ≠ Limbo → wp (lock_try_acquire l) (λ _ k', ∃ o, o ≠ Limbo ∧ at_place l o k') k.
Proof.
  intros Ha Ho. unfold lock_try_acquire. apply wp_bind.
  eapply wp_mono; [apply (wp_quiet _ o); [apply quiet_held|done]|]. clear k Ha. intros b k Ha.
  apply wp_bind, wp_assert. intros _. unfold sema_try_down. apply wp_bind, wp_bind.
  eapply wp_mono; [apply (wp_quiet _ o); [apply quiet_disable|done]|]. clear k Ha. intros old k Ha.
  apply wp_bind, wp_get_sema. intros sm Hs. apply wp_bind.
  destruct (Z.ltb_spec 0 (value sm)) as [H0|H0].
  2:{ apply wp_ret, wp_bind. eapply wp_mono; [apply (wp_quiet _ o); [apply quiet_set_level|done]|]. intros ? k' Hk'. by exists o. }
  pose proof Ha as []. unfold sval in a_value0. rewrite Hs in a_value0. injection a_value0 as Hval.
  destruct (decide (o = Free)) as [->|]; [|lia].
  apply wp_bind, wp_modify, wp_ret, wp_bind.
  eapply wp_mono; [apply (wp_quiet _ Limbo); [apply quiet_set_level|]|].
  { split; try done; [|by eapply holder_free, a_holder0].
    unfold sval. simpl. rewrite lookup_insert_eq. simpl. by rewrite Hval. }
  clear k Ha Hs a_dead0 a_holder0 a_tok0 a_covered0. intros ? k Ha. apply wp_ret, wp_bind.
  apply wp_bind, wp_thread_current. intros th Hth Hr.
  eapply wp_mono; [apply (wp_limbo_push k th); [done| |done|done]; simpl; by rewrite decide_True|].
  intros ? k' Hk'. apply wp_ret. by exists (InThread (cur k)).
Qed.
Lemma wp_release o k :
  at_place l o k → wp (lock_release l) (λ _ k', ∃ o, o ≠ Limbo ∧ at_place l o k') k.
Proof.
  intros Ha. unfold lock_release, lock_held_by_current_thread. apply wp_bind, wp_bind, wp_get_holder. intros h Hh.
  apply wp_bind, wp_thread_current. intros th Hth Hr. apply wp_ret, wp_bind, wp_assert.
  intros ->%bool_decide_eq_true. pose proof Ha as [].
  assert (o = Held) as -> by (destruct a_holder0 as (h & Hh' & Hiff); apply Hiff; congruence).
  apply wp_bind, wp_thread_current. intros _ _ _. apply wp_bind, wp_on_links. intros _ lh.
  apply wp_bind, wp_modify. simpl.
  set (k1 := set_holders (<[l := None]> (holders k)) (set_links lh k)).
  assert (at_place l Limbo k1) as Ha1.
  { split; try done. exists None. simpl. by rewrite lookup_insert_eq. }
  eapply wp_mono; [apply (wp_limbo_push k1 th); [done| |done|done]; simpl; by rewrite decide_True|].
  intros ? k' Hk'. by exists (InThread (cur k1)).
Qed.
Lemma wp_init k : uninit l k → wp (lock_init l) (λ _, at_place l Free) k.
Proof.
  intros (Hd & _ & _ & Hr). unfold lock_init, sema_init. apply wp_bind, wp_modify, wp_bind, wp_modify, wp_modify. split; try done.
  - unfold sval. simpl. by rewrite lookup_insert_eq.
  - exists None. simpl. by rewrite lookup_insert_eq.
  - intros t. change (tok l (pg k t) = 0). by rewrite <-tok_rel, Hr.
  - intros t. change (covered l (pg k t)). by rewrite <-covered_rel, Hr.
Qed.
End moves.

(** ** Every step *)
Section steps.
  Context (l : loc).
Lemma lsame_upd k k' t th th' :
  threads k !! t = Some th → threads k' = <[t := th']> (threads k) → rel l (prog th') = rel l (prog th) →
  (status th' = THREAD_DYING → status th = THREAD_DYING ∨ prog th = []) →
  semas k' = semas k → holders k' = holders k → lsame l k k'.
Proof.
  intros Hth Hupd Hr Hs Hsem Hh Hd. unfold sval. rewrite Hsem, Hh. split_and!; try done; intros x.
  - rewrite (st_upd _ _ _ _ Hupd), (pg_upd _ _ _ _ Hupd). destruct (decide (t = x)) as [<-|]; [|apply Hd].
    intros [= Hx]. rewrite Hr. destruct (Hs Hx) as [E| ->]; [|done]. specialize (Hd t).
    rewrite (st_of _ _ _ Hth), (pg_of _ _ _ Hth), E in Hd. by apply Hd.
  - rewrite (pg_upd _ _ _ _ Hupd). destruct (decide (t = x)) as [<-|]; [|done].
    by rewrite (pg_of _ _ _ Hth), Hr.
Qed.
Lemma wp_exit_linv k th :
  linv l k → threads k !! cur k = Some th → prog th = [] → wp thread_exit (λ _, linv l) k.
Proof.
  intros Hl Hth Hp. unfold thread_exit. wps. apply wp_thread_current. intros _ _ _. wps.
  apply wp_mod_thread. simpl. intros th0 Hth0. rewrite Hth in Hth0. injection Hth0 as <-.
  apply (wp_quiet_linv l); [apply quiet_schedule|]. eapply linv_lsame; [|exact Hl].
  eapply (lsame_upd k _ (cur k) th); try done. by right.
Qed.
Lemma wp_create_linv k th page prio :
  linv l k → threads k !! cur k = Some th → (∀ t, page = Some t → threads k !! t = None) →
  wp (thread_create page prio None) (λ _, linv l) k.
Proof.
  intros Hl Hth Hpage. unfold thread_create. destruct page as [t|]; [|by apply wp_ret].
  specialize (Hpage t eq_refl). assert (cur k ≠ t) as Hct by (intros <-; congruence).
  unfold init_thread. wps. simpl.
  assert (∀ (m : M kernel (option tptr)), m = (if 0 <? Z.of_nat (length (all_list k))
      then do c <- thread_current; retM (Some c) else retM None) → ∀ Q : option tptr → kernel → Prop,
      (∀ par, Q par k) → wp m Q k) as Hpar.
  { intros m -> Q HQ. destruct (0 <? _); [|by apply wp_ret].
    apply wp_bind, wp_thread_current. intros _ _ _. by apply wp_ret. }
  apply (Hpar _ eq_refl). intros pa. wps. simpl.
  apply wp_on_links. intros _ lh. wps. simpl.
  apply wp_mod_thread. simpl. rewrite lookup_insert_ne by done. intros th0 Hth0.
  rewrite Hth in Hth0. injection Hth0 as <-. wps. apply wp_mod_thread. simpl.
  rewrite lookup_insert_ne by done. rewrite lookup_insert_eq. intros th0 [= <-]. wps.
  eapply linv_lsame; [|exact Hl]. intros Hd. unfold dead_ok, st, pg in *. simpl.
  split_and!; try done; intros x; specialize (Hd x); rewrite !lookup_insert.
  - destruct (decide (t = x)) as [<-|]; [done|]. destruct (decide (cur k = x)) as [<-|]; [|done].
    rewrite Hth in Hd. by simpl in *.
  - destruct (decide (t = x)) as [<-|]; [by rewrite Hpage|].
    destruct (decide (cur k = x)) as [<-|]; [|done]. by rewrite Hth.
Qed.

(** Operations on the lock before [lock_init] panic. *)
Lemma uninit_held k (Q : bool → kernel → Prop) : uninit l k → wp (lock_held_by_current_thread l) Q k.
Proof. intros (_ & _ & Hh & _). apply wp_bind, wp_get_holder. congruence. Qed.
Ltac uninit_case := 
  match goal with H : uninit _ _ |- _ =>
    unfold lock_acquire, lock_try_acquire, lock_release; wps; by apply uninit_held end.
Lemma linv_acquire k : linv l k → wp (lock_acquire l) (λ _, linv l) k.
Proof.
  intros [(o & Ho & Ha)|Hu]; [|uninit_case].
  eapply wp_mono; [by apply wp_acquire|]. intros ? k' Hk'. left. eauto.
Qed.
Lemma linv_try_acquire k : linv l k → wp (lock_try_acquire l) (λ _, linv l) k.
Proof.
  intros [(o & Ho & Ha)|Hu]; [|uninit_case].
  eapply wp_mono; [by eapply wp_try_acquire|]. intros ? k' Hk'. by left.
Qed.
Lemma linv_release k : linv l k → wp (lock_release l) (λ _, linv l) k.
Proof.
  intros [(o & Ho & Ha)|Hu]; [|uninit_case].
  eapply wp_mono; [by eapply wp_release|]. intros ? k' Hk'. by left.
Qed.

Lemma linv_init k : linv l k → semas k !! SLock l = None → wp (lock_init l) (λ _, linv l) k.
Proof.
  intros [(o & Ho & Ha)|Hu] Hs.
  - pose proof (a_value _ _ _ Ha) as Hv. unfold sval in Hv. by rewrite Hs in Hv.
  - eapply wp_mono; [by apply wp_init|]. intros ? k' Hk'. left. by exists Free.
Qed.
Lemma quiet_run {A} (m : M kernel A) : quiet l m → quiet l (run m; retM tt).
Proof. intros. quiets. Qed.
Lemma wp_run_ret {A} (m : M kernel A) (k : kernel) : wp m (λ _, linv l) k → wp (run m; retM tt) (λ _, linv l) k.
Proof. intros H. apply wp_bind. eapply wp_mono; [exact H|]. intros ? k' Hk'. by apply wp_ret. Qed.

Lemma exec_call_linv k th c :
  linv l k → threads k !! cur k = Some th → prog th = [] → call_ok k c → wp (exec_call c) (λ _, linv l) k.
Proof.
  intros Hl Hth Hp Hc. destruct c as [| | | | | | | |x|x|x|x| | | | | |]; simpl in *;
    try (destruct (decide (x = l)) as [->|Hx]); try (by eapply wp_exit_linv);
    try (by apply linv_acquire); try (by apply linv_release); try (by apply linv_init);
    try (by apply wp_run_ret, linv_try_acquire);
    try (apply wp_run_ret; by eapply wp_create_linv; [| |intros ? ->]);
    apply wp_quiet_linv; try exact Hl; try apply quiet_run.
  - apply quiet_yield.
  - unfold thread_set_priority. pose proof (quiet_current l). quiets.
  - apply quiet_set_level.
  - by apply quiet_sema_init.
  - by apply quiet_sema_down.
  - by apply quiet_sema_try_down.
  - by apply quiet_sema_up.
  - unfold lock_init, sema_init. quiets.
  - by apply quiet_lock_acquire.
  - by apply quiet_lock_try_acquire.
  - by apply quiet_lock_release.
  - apply quiet_put_cond.
  - apply quiet_cond_wait.
  - apply quiet_cond_signal.
  - unfold cond_broadcast. pose proof (quiet_cond_broadcast_loop l). quiets.
  - apply quiet_timer_sleep.
Qed.

(** An instruction that does not move the token. *)
Lemma exec_instr_quiet i : weight l i = 0 → i ≠ ILockAcquire l → i ≠ ILockRelease l → quiet l (exec_instr i).
Proof.
  intros Hw Ha Hr. destruct i; simpl in *; try case_decide; try done.
  all: try (apply quiet_modify; by intros []).
  - pose proof (quiet_set_level l old). quiets.
  - pose proof (quiet_set_level l INTR_ON) as Hq. simpl in Hq. quiets.
  - by apply quiet_sema_down.
  - by apply quiet_sema_down_loop.
  - by apply quiet_sema_up.
  - apply quiet_lock_acquire. congruence.
  - by apply quiet_set_holder.
  - apply quiet_lock_release. congruence.
  - apply quiet_sleep_block.
  - pose proof (quiet_set_level l old). quiets.
  - unfold allocate_tid. quiets.
  - apply quiet_unblock.
  - pose proof (quiet_current l). quiets.
  - pose proof (quiet_disable l). pose proof (quiet_block l). quiets.
Qed.
(** Taking the next instruction of the running thread. *)
Lemma popped_linv k th i r :
  linv l k → threads k !! cur k = Some th → prog th = i :: r → weight l i = 0 →
  linv l (set_threads (<[cur k := set_prog (after i r) th]> (threads k)) k).
Proof.
  intros Hl Hth Hp Hw. eapply linv_lsame; [|exact Hl]. eapply (lsame_upd k _ (cur k) th); try done; [|by left].
  simpl. rewrite Hp, (rel_cons0 l i) by done. by destruct i.
Qed.
(** An instruction that moves it: the lock is initialised. *)
Lemma weighted_place k th i r :
  linv l k → threads k !! cur k = Some th → prog th = i :: r → weight l i ≠ 0 → ∃ o, o ≠ Limbo ∧ at_place l o k.
Proof.
  intros [?|(_ & _ & _ & Hr)] Hth Hp Hw; [done|]. specialize (Hr (cur k)).
  rewrite (pg_of _ _ _ Hth), Hp in Hr. unfold rel in Hr. by rewrite filter_cons_True in Hr.
Qed.
Lemma exec_weighted k th i r :
  linv l k → threads k !! cur k = Some th → prog th = i :: r → weight l i ≠ 0 →
  wp (exec_instr i) (λ _, linv l) (set_threads (<[cur k := set_prog r th]> (threads k)) k).
Proof.
  intros Hl Hth Hp Hw. destruct (weighted_place k th i r Hl Hth Hp Hw) as (o & Ho & Ha).
  assert (weight l i = 1 → at_place l Limbo (set_threads (<[cur k := set_prog r th]> (threads k)) k)) as Hg.
  { by eapply pop_give. }
  assert (∀ old lv, weight l i = -1 → wp (sema_down_loop (SLock l) old) (λ _, linv l)
    (set_intr lv (set_threads (<[cur k := set_prog r th]> (threads k)) k))) as Hd.
  { intros old lv Hwi. eapply wp_mono; [by eapply wp_down_loop|]. intros ? k' Hk'. by left. }
  destruct i; simpl in *; try done; case_decide; try done; subst.
  - unfold sema_down. wps. by apply Hd.
  - specialize (Hd old (intr k) eq_refl).
    by replace (set_intr _ _) with (set_threads (<[cur k := set_prog r th]> (threads k)) k) in Hd by (by destruct k).
  - eapply wp_mono; [by apply wp_lock_up, Hg|]. intros ? k' Hk'. left. by exists Free.
  - unfold lock_set_holder. apply wp_bind, wp_thread_current. intros _ _ _. apply wp_modify. simpl.
    left. exists Held. split; [done|]. destruct (Hg eq_refl). split; try done.
    exists (Some (cur k)). simpl. rewrite lookup_insert_eq. split; [done|]. done.
Qed.
Lemma exec_next_linv k : linv l k → wp exec_next (λ _, linv l) k.
Proof.
  intros Hl. unfold exec_next. wps. apply wp_get_thread. intros th Hth.
  destruct (prog th) as [|i r] eqn:Hp; [done|]. wps.
  destruct (decide (weight l i = 0)) as [Hw|Hw].
  2:{ replace (after i r) with r by (by destruct i). by eapply exec_weighted. }
  pose proof (popped_linv k th i r Hl Hth Hp Hw) as Hl'.
  destruct (decide (i = ILockAcquire l)) as [->|]; [by apply linv_acquire|].
  destruct (decide (i = ILockRelease l)) as [->|]; [by apply linv_release|].
  apply wp_quiet_linv; [by apply exec_instr_quiet|done].
Qed.
Lemma step_linv race k k' : linv l k → step race k k' → linv l k'.
Proof.
  intros Hl [c th k1 Hth Hp Hc Hex|k1 Hex|k1 Hi Hw Hex]; revert Hex;
    [eapply (wp_run _ (λ _, linv l)), exec_call_linv|apply (wp_run _ (λ _, linv l)), exec_next_linv
    |apply (wp_run _ (λ _, linv l)), wp_quiet_linv; [apply quiet_timer|]]; done.
Qed.
End steps.

(** ** The theorem *)
Lemma linv_boot l k :
  threads k = <[4096%N := main_thread]> (<[8192%N := idle_thread_0]> ∅) →
  semas k = <[SLock tid_lock := Semaphore 1 []]> (<[SPlain 0 := Semaphore 0 []]> ∅) →
  holders k = <[tid_lock := None]> ∅ → linv l k.
Proof.
  intros Et Es Eh.
  assert (∀ t, rel l (pg k t) = []) as Hr.
  { intros t. unfold pg. rewrite Et, !lookup_insert. repeat case_decide; done. }
  assert (dead_ok l k) as Hd by (by intros t _).
  destruct (decide (l = tid_lock)) as [->|Hl].
  - left. exists Free. split; [done|]. split; try done.
    + unfold sval. by rewrite Es, lookup_insert_eq.
    + exists None. by rewrite Eh, lookup_insert_eq.
    + intros t. by rewrite <-tok_rel, Hr.
    + intros t. by rewrite <-covered_rel, Hr.
  - right. unfold uninit, sval. split_and!; try done.
    + by rewrite Es, !lookup_insert_ne by congruence.
    + by rewrite Eh, !lookup_insert_ne.
Qed.
Lemma boot_linv l : linv l boot_kernel.
Proof. apply linv_boot; vm_compute; reflexivity. Qed.
Lemma reachable_linv race l k : rtc (step race) boot_kernel k → linv l k.
Proof.
  intros Hr. revert k Hr. refine (rtc_ind_r (linv l) boot_kernel (boot_linv l) _).
  intros k k' _ Hs Hl. by eapply step_linv.
Qed.

(** [t] has passed the semaphore of the lock and not given it back: it is the
    holder, or it is about to become the holder in [lock_acquire] or
    [lock_try_acquire], or it is in [lock_release] before [sema_up]. *)
Definition owns (l : loc) (k : kernel) (t : tptr) : Prop :=
  holders k !! l = Some (Some t) ∨ ISetHolder l ∈ take 1 (rel l (pg k t)) ∨
  ISemaUp (SLock l) ∈ take 1 (rel l (pg k t)).
Lemma owns_tok l k t o : at_place l o k → owns l k t → o = Held ∧ holders k !! l = Some (Some t) ∨ o = InThread t.
Proof.
  intros [] Ho. assert (∀ i, weight l i = 1 → i ∈ take 1 (rel l (pg k t)) → o = InThread t) as Hw.
  { intros i Hi Hin. specialize (a_tok0 t). specialize (a_covered0 t).
    rewrite <-tok_rel in a_tok0. rewrite <-covered_rel in a_covered0.
    destruct (rel l (pg k t)) as [|i' r]; [by apply elem_of_nil in Hin|].
    apply list_elem_of_singleton in Hin as <-. simpl in *. destruct a_covered0 as [_ Hc%covered_nonneg].
    case_decide; [done|lia]. }
  destruct Ho as [Hh|[Hin|Hin]].
  - left. destruct a_holder0 as (h & Hh' & Hiff). split; [|done]. apply Hiff. congruence.
  - right. eapply Hw; [|exact Hin]. simpl. by rewrite decide_True.
  - right. eapply Hw; [|exact Hin]. simpl. by rewrite decide_True.
Qed.

(** C8. Mutual exclusion of [lock_acquire], [lock_try_acquire] and
    [lock_release]: in every state the kernel reaches from its boot state, under
    any interleaving of threads and timer interrupts, two threads that own the
    same lock are the same thread; and while a thread owns it, the value of its
    semaphore is 0, so that no other thread gets past [sema_down]. *)
Theorem lock_mutual_exclusion race l k t1 t2 :
  rtc (step race) boot_kernel k → owns l k t1 → owns l k t2 →
  t1 = t2 ∧ value <$> semas k !! SLock l = Some 0.
Proof.
  intros Hr H1 H2. destruct (reachable_linv race l k Hr) as [(o & Ho & Ha)|(_ & _ & Hh & Hrel)].
  - pose proof (a_value _ _ _ Ha) as Hv.
    destruct (owns_tok l k t1 o Ha H1) as [[-> E1]| ->], (owns_tok l k t2 _ Ha H2) as [[? E2]|?]; simplify_eq; done.
  - exfalso. unfold owns in H1. rewrite Hh, Hrel in H1. simpl in H1. set_solver.
Qed.
(** The initial thread takes the lock at 200 and yields; the other thread waits
    for the lock. *)
Lemma reach_call c k :
  idle_prog k = true → call_ok k c → returns (exec_call c) k = true → rtc (step false) k (final (exec_call c) k).
Proof.
  unfold idle_prog. destruct (threads k !! cur k) as [th|] eqn:Hth; [|done].
  intros Hp%bool_decide_eq_true Hc Hr. apply rtc_once. eapply step_call; [done..|]. by apply final_Ret.
Qed.
Definition locked : kernel :=
  final (exec_n 2) (final (exec_call (CLockAcquire 200)) (final (exec_call (CLockInit 200)) after_create)).
Definition contended : kernel :=
  final (exec_n 1) (final (exec_call (CLockAcquire 200)) (final (exec_n 1) (final (exec_call CYield) locked))).
Lemma contended_reachable : rtc (step false) boot_kernel contended.
Proof.
  transitivity after_create; [apply after_create_reachable|].
  etransitivity; [apply (reach_call (CLockInit 200)); vm_compute; reflexivity|].
  etransitivity; [apply (reach_call (CLockAcquire 200)); [vm_compute; reflexivity|exact I|vm_compute; reflexivity]|].
  etransitivity; [apply (reach_n 2); vm_compute; reflexivity|].
  etransitivity; [apply (reach_call CYield); [vm_compute; reflexivity|exact I|vm_compute; reflexivity]|].
  etransitivity; [apply (reach_n 1); vm_compute; reflexivity|].
  etransitivity; [apply (reach_call (CLockAcquire 200)); [vm_compute; reflexivity|exact I|vm_compute; reflexivity]|].
  apply (reach_n 1). vm_compute. reflexivity.
Qed.
Lemma lock_mutual_exclusion_witness :
  wt contended (SLock 200) = [12288%N] ∧ owns 200 contended 4096 ∧
  (∀ t, owns 200 contended t → 4096%N = t ∧ value <$> semas contended !! SLock 200 = Some 0).
Proof.
  split; [vm_compute; reflexivity|].
  assert (owns 200 contended 4096) as Ho by (left; vm_compute; reflexivity).
  split; [exact Ho|]. intros t Ht.
  exact (lock_mutual_exclusion false 200 contended 4096 t contended_reachable Ho Ht).
Defined.

(** ** The list of locks *)
(** Following two chains that agree up to a node [e] of the first one leads
    through the same nodes to [e]. *)
Lemma linked_same_prefix h h' p A e B q zs :
  linked h p (A ++ e :: B) q → (∀ a, a ∈ A → h' !! a = h !! a) → A ≠ [] → first_of zs NULL = first_of A NULL →
  linked h' p zs NULL → ∃ C, zs = A ++ e :: C.
Proof.
  revert p zs. induction A as [|a A IH]; intros p zs Hl Hf HA Hz Hl'; [done|].
  destruct zs as [|z zs]; simpl in *.
  { destruct Hl as (Hn & _). congruence. }
  subst z. destruct Hl as (Hn & Ha & Hl), Hl' as (_ & Ha' & Hl').
  rewrite Hf, Ha in Ha' by set_solver. injection Ha' as Hnext.
  destruct A as [|b A].
  - simpl in Hnext. destruct zs as [|z zs]; simpl in *; [|subst; eauto]. destruct Hl as (? & _). congruence.
  - destruct (IH a zs) as [C ->]; [done|set_solver|done|by simpl in *|done|]. by exists C.
Qed.
(** A node that has moved to another list ends the list it was in. *)
Lemma stolen_node h h' l l' xs ys e :
  list_repr h l xs → e ∈ xs → (∀ a, a ∈ nodes l xs → a ≠ e → h' !! a = h !! a) →
  list_repr h' l' (ys ++ [e]) → (∀ a, a ∈ nodes l xs → a ∉ head l' :: ys) → ∀ zs, ¬ list_repr h' l zs.
Proof.
  intros [Hnd Hl] (A & B & ->)%list_elem_of_split Hf [_ Hl'] Hdis zs [_ Hz].
  unfold nodes in *. rewrite <-app_assoc in *. simpl in Hl, Hnd.
  destruct (linked_same_prefix h h' NULL (head l :: A) e (B ++ [tail l]) NULL (head l :: zs ++ [tail l])) as [C HC].
  - by rewrite <-app_comm_cons.
  - intros a Ha. apply Hf; [set_solver|]. intros ->. apply NoDup_cons in Hnd as [Hh Hnd].
    apply NoDup_app in Hnd as (_ & Hnd & _). set_solver.
  - done.
  - done.
  - done.
  - rewrite HC in Hz. apply linked_lookup in Hz as [_ Hz].
    apply (linked_lookup _ _ (head l' :: ys) e [tail l']) in Hl' as [_ Hl'].
    rewrite Hl' in Hz. injection Hz as Hz _. simpl in Hz.
    apply (Hdis (last_of (head l) A)).
    + destruct A as [|x A]; [by left|]. right. apply elem_of_app. left. by apply last_of_elem.
    + rewrite <-Hz. destruct ys as [|y ys]; [by left|]. right. by apply last_of_elem.
Qed.

(** C13. [lock_acquire] by a thread other than the holder destroys the holder's
    list of locks.  [lockElem] is put in the [locks] list of the caller before
    the caller waits for the lock, while it is still in the list of the thread
    that holds the lock: whatever the two lists held, as long as they shared no
    node, the caller's list now ends in the lock and the nodes of the holder
    do not form a list any more. *)
Theorem lock_acquire_corrupts_locks k th l h xs ys :
  threads k !! cur k = Some th → status th = THREAD_RUNNING → in_external_intr k = false →
  holders k !! l = Some (Some h) → h ≠ cur k →
  list_repr (links k) (locks_of h) xs → lockElem l ∈ xs →
  list_repr (links k) (locks_of (cur k)) ys →
  (∀ a, a ∈ nodes (locks_of h) xs → a ∉ nodes (locks_of (cur k)) ys) →
  ∃ k', lock_acquire l k = Ret (tt, k') ∧
    list_repr (links k') (locks_of (cur k)) (ys ++ [lockElem l]) ∧
    ∀ zs, ¬ list_repr (links k') (locks_of h) zs.
Proof.
  intros Hth Hst Hx Hh Hne Hl He Hm Hdis.
  assert (thread_current k = Ret (cur k, k)) as Hcur.
  { unfold thread_current, bindM, running_thread, get_thread. rewrite Hth. by rewrite bool_decide_eq_true_2. }
  assert (lockElem l ∈ nodes (locks_of h) xs) as He' by (unfold nodes; set_solver).
  destruct (list_push_back_repr (links k) (locks_of (cur k)) ys Hm (lockElem l)) as (h' & Hp & Hr & Hf);
    [by eapply linked_not_null; [apply Hl|]|by eapply linked_is_Some; [apply Hl|]|by apply Hdis|].
  eexists. split.
  - unfold lock_acquire. rewrite (bindM_Ret _ _ k tt k) by (unfold assert_not_intr_context, bindM, intr_context; by rewrite Hx).
    rewrite (bindM_Ret _ _ k false k).
    2:{ unfold lock_held_by_current_thread, bindM at 1, get_holder. rewrite Hh, (bindM_Ret _ _ _ _ _ Hcur).
        unfold retM. by rewrite bool_decide_eq_false_2 by congruence. }
    rewrite (bindM_Ret _ _ _ _ _ Hcur). rewrite (bindM_Ret _ _ k tt (set_links h' k)) by (unfold on_links; by rewrite Hp).
    unfold mod_thread, bindM, get_thread. simpl. by rewrite Hth.
  - simpl. split; [done|]. eapply (stolen_node (links k) h' _ (locks_of (cur k)) xs ys); [done|done| |done|].
    + intros a Ha Hae. apply Hf. intros [->|?]%elem_of_cons; [done|by eapply Hdis].
    + intros a Ha [->|Hy]%elem_of_cons; eapply Hdis; try done; unfold nodes; set_solver.
Qed.
(** The thread at 12288 asks for the lock the thread at 4096 holds. *)
Definition asking : kernel := final (exec_n 1) (final (exec_call CYield) locked).
Lemma lock_acquire_corrupts_locks_witness :
  holders asking !! 200%N = Some (Some 4096%N) ∧ cur asking = 12288%N ∧
  ∃ k', lock_acquire 200 asking = Ret (tt, k') ∧
    list_repr (links k') (locks_of 12288) ([] ++ [lockElem 200]) ∧
    ∀ zs, ¬ list_repr (links k') (locks_of 4096) zs.
Proof.
  split; [vm_compute; reflexivity|]. split; [vm_compute; reflexivity|].
  replace 12288%N with (cur asking) by (vm_compute; reflexivity).
  apply (lock_acquire_corrupts_locks asking (Thread 3 THREAD_RUNNING 31 0 0 false (Some 4096%N) []) 200 4096 [lockElem 200] []).
  - vm_compute. reflexivity.
  - reflexivity.
  - vm_compute. reflexivity.
  - vm_compute. reflexivity.
  - vm_compute. congruence.
  - split; [apply (bool_decide_unpack _); vm_compute; reflexivity|]. vm_compute. split_and!; try reflexivity; congruence.
  - by left.
  - split; [apply (bool_decide_unpack _); vm_compute; reflexivity|]. vm_compute. split_and!; try reflexivity; congruence.
  - replace (cur asking) with 12288%N by (vm_compute; reflexivity). 
    unfold nodes, locks_of. simpl. intros a Ha Hb. set_solver.
Defined.
