(* ===== verification/Arith64.v ===== *)
(** * lib/arithmetic.c: 64-bit division

    The division routines that GCC calls, from the 32-bit [divl] instruction.
    A trap of the instruction (#DE) is [Panic]. *)

From stdpp Require Import base numbers.
From S2P Require Import Prelude.
Local Open Scope Z_scope.

(** ** The code *)
Definition divl (n d : Z) : outcome Z :=
  let n1 := u32 (Z.shiftr n 32) in
  let n0 := u32 n in
  if d =? 0 then Panic
  else let q := (n1 * 2 ^ 32 + n0) `div` d in
       if q <? 2 ^ 32 then Ret q else Panic.
Definition nlz (x : Z) : Z :=
  let n := 0 in
  let '(n, x) := if x <=? 0x0000FFFF then (n + 16, u32 (Z.shiftl x 16)) else (n, x) in
  let '(n, x) := if x <=? 0x00FFFFFF then (n + 8, u32 (Z.shiftl x 8)) else (n, x) in
  let '(n, x) := if x <=? 0x0FFFFFFF then (n + 4, u32 (Z.shiftl x 4)) else (n, x) in
  let '(n, x) := if x <=? 0x3FFFFFFF then (n + 2, u32 (Z.shiftl x 2)) else (n, x) in
  if x <=? 0x7FFFFFFF then n + 1 else n.
Definition udiv64 (n d : Z) : outcome Z :=
  if Z.shiftr d 32 =? 0 then
    let b := u64 (Z.shiftl 1 32) in
    let n1 := u32 (Z.shiftr n 32) in
    let n0 := u32 n in
    let d0 := u32 d in
    if d0 =? 0 then Panic
    else try q <- divl (u64 (u64 (b * (n1 `mod` d0)) + n0)) d0;
         Ret (u64 (q + u64 (b * (n1 `div` d0))))
  else if n <? d then Ret 0
  else
    let d1 := u32 (Z.shiftr d 32) in
    let s := nlz d1 in
    try q0 <- divl (Z.shiftr n 1) (u32 (Z.shiftr (u64 (Z.shiftl d s)) 32));
    let q := Z.shiftr q0 (31 - s) in
    Ret (if u64 (n - u64 (u64 (q - 1) * d)) <? d then u64 (q - 1) else q).
Definition umod64 (n d : Z) : outcome Z :=
  try q <- udiv64 n d; Ret (u32 (u64 (n - u64 (d * q)))).
Definition sdiv64 (n d : Z) : outcome Z :=
  let n_abs := if 0 <=? n then u64 n else u64 (- u64 n) in
  let d_abs := if 0 <=? d then u64 d else u64 (- u64 d) in
  try q_abs <- udiv64 n_abs d_abs;
  Ret (if Bool.eqb (n <? 0) (d <? 0) then i64 q_abs else i64 (- i64 q_abs)).
Definition smod64 (n d : Z) : outcome Z :=
  try q <- sdiv64 n d; Ret (i32 (i64 (n - i64 (d * q)))).
Definition __divdi3 (n d : Z) : outcome Z := sdiv64 n d.
Definition __moddi3 (n d : Z) : outcome Z := smod64 n d.
Definition __udivdi3 (n d : Z) : outcome Z := udiv64 n d.
Definition __umoddi3 (n d : Z) : outcome Z := umod64 n d.

(** ** [nlz] normalises *)
Lemma shiftl_mul x k : 0 ≤ k → Z.shiftl x k = x * 2 ^ k.
Proof. intros. by rewrite Z.shiftl_mul_pow2. Qed.
Lemma shiftr_div x k : 0 ≤ k → Z.shiftr x k = x `div` 2 ^ k.
Proof. intros. by rewrite Z.shiftr_div_pow2. Qed.
(** One step of the search: [k] bits of [x] are zero iff [x] is at most [b]. *)
Lemma nlz_step x k b :
  0 ≤ k → 0 < x → b = 2 ^ (32 - k) - 1 → k ≤ 32 → x ≤ b → u32 (Z.shiftl x k) = x * 2 ^ k.
Proof.
  intros Hk Hx -> Hk' Hb. rewrite shiftl_mul by done. apply u32_small.
  pose proof (Z.pow_pos_nonneg 2 k ltac:(lia) Hk). split; [nia|].
  replace (2 ^ 32) with (2 ^ (32 - k) * 2 ^ k) by (rewrite <-Z.pow_add_r by lia; f_equal; lia). nia.
Qed.
Lemma nlz_normalises x :
  0 < x < 2 ^ 32 → 0 ≤ nlz x ≤ 31 ∧ 2 ^ 31 ≤ x * 2 ^ nlz x < 2 ^ 32.
Proof.
  intros Hx. unfold nlz.
  destruct (Z.leb_spec x 0x0000FFFF); [rewrite (nlz_step x 16 0x0000FFFF) by (done || lia)|];
  (match goal with |- context [Z.leb ?y 0x00FFFFFF] => destruct (Z.leb_spec y 0x00FFFFFF) end;
    [rewrite (nlz_step _ 8 0x00FFFFFF) by (done || lia)|]);
  (match goal with |- context [Z.leb ?y 0x0FFFFFFF] => destruct (Z.leb_spec y 0x0FFFFFFF) end;
    [rewrite (nlz_step _ 4 0x0FFFFFFF) by (done || lia)|]);
  (match goal with |- context [Z.leb ?y 0x3FFFFFFF] => destruct (Z.leb_spec y 0x3FFFFFFF) end;
    [rewrite (nlz_step _ 2 0x3FFFFFFF) by (done || lia)|]);
  (match goal with |- context [Z.leb ?y 0x7FFFFFFF] => destruct (Z.leb_spec y 0x7FFFFFFF) end);
  simpl; lia.
Qed.

(** ** Unsigned division *)
Lemma divl_Ret n d :
  0 ≤ n < 2 ^ 64 → 0 < d → n < d * 2 ^ 32 → divl n d = Ret (n `div` d).
Proof.
  intros Hn Hd Hq. unfold divl. rewrite shiftr_div by lia.
  assert (u32 (n `div` 2 ^ 32) * 2 ^ 32 + u32 n = n) as ->.
  { rewrite (u32_small (n `div` 2 ^ 32)) by (split; [apply Z.div_pos; lia|apply Z.div_lt_upper_bound; lia]).
    unfold u32. pose proof (Z.div_mod n (2 ^ 32)). lia. }
  destruct (Z.eqb_spec d 0); [lia|].
  destruct (Z.ltb_spec (n `div` d) (2 ^ 32)) as [|H]; [done|].
  pose proof (Z.div_lt_upper_bound n d (2 ^ 32) Hd Hq). lia.
Qed.
(** The comment in the source: a divisor of 32 bits. *)
Lemma udiv64_short n d :
  0 ≤ n < 2 ^ 64 → 0 < d < 2 ^ 32 → udiv64 n d = Ret (n `div` d).
Proof.
  intros Hn Hd. unfold udiv64. rewrite !shiftr_div by lia. rewrite Z.div_small by lia. simpl (0 =? 0).
  rewrite (u32_small d) by lia. destruct (Z.eqb_spec d 0); [lia|].
  change (u64 (Z.shiftl 1 32)) with (2 ^ 32).
  assert (0 ≤ n `div` 2 ^ 32 < 2 ^ 32) as Hn1.
  { split; [apply Z.div_pos; lia|apply Z.div_lt_upper_bound; lia]. }
  rewrite (u32_small (n `div` 2 ^ 32)) by done. set (n1 := n `div` 2 ^ 32) in *.
  pose proof (u32_range n). pose proof (Z.mod_pos_bound n1 d ltac:(lia)).
  assert (2 ^ 32 * (n1 `mod` d) + u32 n < d * 2 ^ 32) by nia.
  rewrite (u64_small (2 ^ 32 * (n1 `mod` d))) by nia. rewrite u64_small by nia.
  rewrite divl_Ret by (done || nia). simpl obind. f_equal.
  assert (n = 2 ^ 32 * n1 + u32 n) as Hnn by (unfold n1, u32; apply Z.div_mod; lia).
  assert ((2 ^ 32 * (n1 `mod` d) + u32 n) `div` d + 2 ^ 32 * (n1 `div` d) = n `div` d) as E.
  { rewrite <-Z.div_add by lia. f_equal. pose proof (Z.div_mod n1 d). lia. }
  assert (0 ≤ n `div` d < 2 ^ 64) by (split; [apply Z.div_pos; lia|apply Z.div_lt_upper_bound; nia]).
  assert (0 ≤ n1 `div` d < 2 ^ 32) by (split; [apply Z.div_pos; lia|apply Z.div_lt_upper_bound; nia]).
  rewrite (u64_small (2 ^ 32 * (n1 `div` d))), E by lia. by apply u64_small.
Qed.
(** The estimate of Hacker's Delight: dividing by [D], the leading 32 bits of
    [d], is off by at most one. *)
Lemma estimate n d s D :
  0 ≤ s ≤ 31 → 0 ≤ n < 2 ^ 64 → 2 ^ 31 * 2 ^ (32 - s) ≤ D → D ≤ d → d < D + 2 ^ (32 - s) →
  n `div` d ≤ n `div` D ≤ n `div` d + 1.
Proof.
  intros Hs Hn HD Hd Hd2. set (P := 2 ^ (32 - s)) in *.
  assert (∃ R, P * R = 2 ^ 33 ∧ 2 ≤ P ∧ 2 ≤ R) as (R & HR & HP & HR2).
  { exists (2 ^ (s + 1)). unfold P. rewrite <-Z.pow_add_r by lia. split; [f_equal; lia|].
    split; [apply (Z.pow_le_mono_r 2 1); lia|apply (Z.pow_le_mono_r 2 1); lia]. }
  assert (n `div` D ≤ n `div` (2 ^ 31 * P)) as HQ by (apply Z.div_le_compat_l; lia).
  assert (n `div` (2 ^ 31 * P) < R) as HQ2.
  { apply Z.div_lt_upper_bound; [lia|]. replace (2 ^ 31 * P * R) with (2 ^ 31 * (P * R)) by ring. lia. }
  split; [apply Z.div_le_compat_l; lia|].
  assert (n `div` D < n `div` d + 2); [|lia]. apply Z.div_lt_upper_bound; [lia|].
  set (Q := n `div` d). assert (n < (Q + 1) * d).
  { pose proof (Z.mul_succ_div_gt n d ltac:(lia)). unfold Q. lia. }
  assert (Q ≤ n `div` D) by (unfold Q; apply Z.div_le_compat_l; lia).
  assert (0 ≤ Q) by (apply Z.div_pos; lia).
  assert ((Q + 1) * d ≤ (Q + 1) * (D + P - 1)) by (apply Z.mul_le_mono_nonneg_l; lia).
  assert ((Q + 1) * (P - 1) ≤ R * (P - 1)) by (apply Z.mul_le_mono_nonneg_r; lia).
  assert (R * (P - 1) ≤ 2 ^ 31 * P) by nia. nia.
Qed.
(** The last step: the estimate [q] is corrected by one multiplication. *)
Lemma correct_estimate n d q :
  0 ≤ n < 2 ^ 64 → 0 < d ≤ n → n `div` d ≤ q ≤ n `div` d + 1 →
  (if u64 (n - u64 (u64 (q - 1) * d)) <? d then u64 (q - 1) else q) = n `div` d.
Proof.
  intros Hn Hd Hq. assert (1 ≤ n `div` d) by (apply Z.div_le_lower_bound; lia).
  pose proof (Z.div_mod n d ltac:(lia)). pose proof (Z.mod_pos_bound n d ltac:(lia)).
  assert (d * (n `div` d) ≤ n) by lia.
  assert (n `div` d ≤ n) by (apply Z.div_le_upper_bound; nia).
  rewrite (u64_small (q - 1)) by lia. rewrite (u64_small ((q - 1) * d)) by nia. rewrite u64_small by nia.
  destruct (Z.ltb_spec (n - (q - 1) * d) d); [nia|]. nia.
Qed.
Lemma udiv64_long n d :
  0 ≤ n < 2 ^ 64 → 2 ^ 32 ≤ d < 2 ^ 64 → udiv64 n d = Ret (n `div` d).
Proof.
  intros Hn Hd. unfold udiv64.
  assert (0 < d `div` 2 ^ 32 < 2 ^ 32) as Hd1.
  { split; [apply Z.div_str_pos; lia|apply Z.div_lt_upper_bound; lia]. }
  rewrite (shiftr_div d 32) by lia. destruct (Z.eqb_spec (d `div` 2 ^ 32) 0); [lia|].
  destruct (Z.ltb_spec n d) as [|Hnd]; [by rewrite Z.div_small by lia|].
  rewrite (u32_small (d `div` 2 ^ 32)) by lia.
  destruct (nlz_normalises (d `div` 2 ^ 32) Hd1) as [Hs Hnorm]. set (s := nlz (d `div` 2 ^ 32)) in *.
  pose proof (Z.div_mod d (2 ^ 32) ltac:(lia)) as Edm. pose proof (Z.mod_pos_bound d (2 ^ 32) ltac:(lia)).
  set (d1 := d `div` 2 ^ 32) in *. set (P := 2 ^ (32 - s)).
  assert (2 ^ s * P = 2 ^ 32) as HP by (unfold P; rewrite <-Z.pow_add_r by lia; f_equal; lia).
  assert (0 < 2 ^ s ∧ 0 < P) as [Hs0 HP0] by (split; apply Z.pow_pos_nonneg; lia).
  assert (d1 + 1 ≤ P) as Hd1P by nia.
  assert (d * 2 ^ s < 2 ^ 64) as Hv by nia.
  rewrite (shiftl_mul d) by lia. rewrite (u64_small (d * 2 ^ s)) by nia. rewrite !shiftr_div by lia.
  assert ((d * 2 ^ s) `div` 2 ^ 32 = d `div` P) as ->.
  { rewrite <-HP, (Z.mul_comm d). apply Z.div_mul_cancel_l; lia. }
  assert (2 ^ 31 ≤ d `div` P < 2 ^ 32) as Hv1.
  { split; [apply Z.div_le_lower_bound; nia|apply Z.div_lt_upper_bound; nia]. }
  rewrite (u32_small (d `div` P)) by lia. set (v1 := d `div` P) in *.
  assert (0 ≤ n `div` 2 ^ 1 < 2 ^ 63) as Hn2 by (split; [apply Z.div_pos; lia|apply Z.div_lt_upper_bound; lia]).
  rewrite divl_Ret by lia. simpl obind. f_equal.
  assert (0 < 2 ^ (31 - s)) by (apply Z.pow_pos_nonneg; lia).
  rewrite (shiftr_div _ (31 - s)), !Z.div_div by lia.
  assert (2 ^ 1 * (v1 * 2 ^ (31 - s)) = v1 * P) as E.
  { unfold P. replace (32 - s) with (1 + (31 - s)) by lia. rewrite Z.pow_add_r by lia. ring. }
  rewrite E. apply correct_estimate; [done|lia|].
  pose proof (Z.div_mod d P ltac:(lia)). pose proof (Z.mod_pos_bound d P HP0).
  apply (estimate n d s); fold P; unfold v1 in *; nia.
Qed.
Lemma udiv64_Ret n d : 0 ≤ n < 2 ^ 64 → 0 < d < 2 ^ 64 → udiv64 n d = Ret (n `div` d).
Proof.
  intros. destruct (Z.lt_ge_cases d (2 ^ 32)); [apply udiv64_short|apply udiv64_long]; lia.
Qed.

(** ** Properties *)
Lemma u64_opp z : 0 < z ≤ 2 ^ 63 → u64 (- u64 (- z)) = z.
Proof.
  intros Hz. unfold u64. replace ((- z) `mod` 2 ^ 64) with (2 ^ 64 - z); [|apply Z.mod_unique with (-1); lia].
  symmetry. apply Z.mod_unique with (-1); lia.
Qed.
Lemma abs_of n : - 2 ^ 63 ≤ n < 2 ^ 63 → (if 0 <=? n then u64 n else u64 (- u64 n)) = Z.abs n.
Proof.
  intros Hn. destruct (Z.leb_spec 0 n); [rewrite u64_small; lia|].
  rewrite Z.abs_neq by lia. rewrite <-(Z.opp_involutive n) at 1. apply u64_opp. lia.
Qed.
(** The quotient that [sdiv64] computes from the absolute values. *)
Lemma signed_quotient n d :
  - 2 ^ 63 ≤ n < 2 ^ 63 → d ≠ 0 →
  (if Bool.eqb (n <? 0) (d <? 0) then i64 (Z.abs n `div` Z.abs d) else i64 (- i64 (Z.abs n `div` Z.abs d)))
  = i64 (Z.quot n d).
Proof.
  intros Hn Hd. rewrite Z.quot_div by done.
  assert (0 ≤ Z.abs n `div` Z.abs d ≤ 2 ^ 63) as Hq.
  { split; [apply Z.div_pos; lia|apply Z.div_le_upper_bound; nia]. }
  destruct (decide (n = 0)) as [->|Hn0]; [rewrite Z.div_0_l by lia; by destruct (Bool.eqb _ _)|].
  set (q := Z.abs n `div` Z.abs d) in *.
  assert (i64 (- i64 q) = i64 (- q)) as Hopp.
  { destruct (decide (q = 2 ^ 63)) as [->|]; [done|]. by rewrite (i64_small q) by lia. }
  destruct (Z.ltb_spec n 0), (Z.ltb_spec d 0); simpl; rewrite ?Hopp; f_equal.
  - rewrite (Z.sgn_neg n), (Z.sgn_neg d) by lia. lia.
  - rewrite (Z.sgn_neg n), (Z.sgn_pos d) by lia. lia.
  - rewrite (Z.sgn_pos n), (Z.sgn_neg d) by lia. lia.
  - rewrite (Z.sgn_pos n), (Z.sgn_pos d) by lia. lia.
Qed.

(** C12. 64-bit division: for all operands with a nonzero divisor [divl] does
    not trap, the unsigned routine returns the quotient, and the signed one the
    quotient rounded toward zero (which wraps around only for
    [INT64_MIN / -1]). *)
Theorem div64_correct n d n' d' :
  0 ≤ n < 2 ^ 64 → 0 < d < 2 ^ 64 →
  - 2 ^ 63 ≤ n' < 2 ^ 63 → - 2 ^ 63 ≤ d' < 2 ^ 63 → d' ≠ 0 →
  __udivdi3 n d = Ret (n `div` d) ∧ __divdi3 n' d' = Ret (i64 (Z.quot n' d')).
Proof.
  intros Hn Hd Hn' Hd' H0. split; [by apply udiv64_Ret|].
  unfold __divdi3, sdiv64. rewrite !abs_of by done. rewrite udiv64_Ret by lia. simpl obind.
  f_equal. by apply signed_quotient.
Qed.
Lemma div64_correct_witness :
  __udivdi3 18446744073709551615 4294967297 = Ret 4294967295 ∧
  __divdi3 (-9223372036854775808) 4294967297 = Ret (-2147483647).
Proof. apply (div64_correct 18446744073709551615 4294967297 (-9223372036854775808) 4294967297); by vm_compute. Defined.

(** 64-bit remainder: the routines return the remainder modulo 2^32 only,
    because [umod64] and [smod64] return a 32-bit integer; so the result is
    right exactly when the remainder fits in 32 bits. *)
Theorem mod64_truncates n d n' d' :
  0 ≤ n < 2 ^ 64 → 0 < d < 2 ^ 64 →
  - 2 ^ 63 ≤ n' < 2 ^ 63 → - 2 ^ 63 ≤ d' < 2 ^ 63 → d' ≠ 0 →
  __umoddi3 n d = Ret (u32 (n `mod` d)) ∧ __moddi3 n' d' = Ret (i32 (Z.rem n' d')).
Proof.
  intros Hn Hd Hn' Hd' H0. split.
  - unfold __umoddi3, umod64. rewrite udiv64_Ret by done. simpl obind. do 2 f_equal.
    pose proof (Z.div_mod n d ltac:(lia)). pose proof (Z.mod_pos_bound n d ltac:(lia)).
    assert (0 ≤ n `div` d) by (apply Z.div_pos; lia).
    rewrite (u64_small (d * (n `div` d))) by nia. rewrite u64_small by lia. lia.
  - unfold __moddi3, smod64, sdiv64. rewrite !abs_of by done. rewrite udiv64_Ret by lia. simpl obind.
    do 2 f_equal. rewrite signed_quotient by done.
    pose proof (Z.quot_rem n' d' H0). pose proof (Z.rem_bound_abs n' d' H0).
    assert (- 2 ^ 63 ≤ Z.rem n' d' < 2 ^ 63) by lia.
    enough (i64 (n' - i64 (d' * i64 (Z.quot n' d'))) = i64 (Z.rem n' d')) as -> by (by rewrite i64_small).
    destruct (i64_eqm (Z.quot n' d')) as [k1 ->].
    replace (d' * (Z.quot n' d' + k1 * 2 ^ 64)) with (d' * Z.quot n' d' + d' * k1 * 2 ^ 64) by ring.
    rewrite i64_add_mult. destruct (i64_eqm (d' * Z.quot n' d')) as [k2 ->].
    replace (n' - (d' * Z.quot n' d' + k2 * 2 ^ 64)) with (Z.rem n' d' + - k2 * 2 ^ 64) by lia.
    apply i64_add_mult.
Qed.
Lemma mod64_truncates_witness :
  __umoddi3 4294967297 8589934592 = Ret 1 ∧
  __moddi3 (-9223372036854775808) 4294967298 = Ret (-2).
Proof.
  apply (mod64_truncates 4294967297 8589934592 (-9223372036854775808) 4294967298);
    by vm_compute.
Defined.
