(* ===== verification/Memory.v ===== *)
(** * Byte memory

    The memory that the functions on strings and blocks of bytes work on: a
    finite map from addresses to bytes (integers between 0 and 255).  An access
    to an address that is not mapped is a page fault of the kernel ([Panic]). *)

From stdpp Require Import base numbers list gmap.
From S2P Require Import Prelude.
Local Open Scope N_scope.

Abbreviation addr := N.
Abbreviation mem := (gmap addr Z).
Definition null : addr := 0.

Definition load (p : addr) : M mem Z := λ m,
  match m !! p with Some b => Ret (b, m) | None => Panic end.
Definition store (p : addr) (b : Z) : M mem unit := λ m,
  match m !! p with Some _ => Ret (tt, <[p := b]> m) | None => Panic end.

(** ** Blocks of bytes *)
(** The bytes [bs] are at [p]; [n] bytes are mapped at [p]. *)
Definition bytes_at (m : mem) (p : addr) (bs : list Z) : Prop :=
  ∀ i b, bs !! i = Some b → m !! (p + N.of_nat i) = Some b.
Definition mapped (m : mem) (p : addr) (n : nat) : Prop :=
  ∀ i, (i < n)%nat → is_Some (m !! (p + N.of_nat i)).
(** The memory after the bytes [bs] have been stored at [p]. *)
Fixpoint write_bytes (p : addr) (bs : list Z) (m : mem) : mem :=
  match bs with [] => m | b :: bs => <[p := b]> (write_bytes (p + 1) bs m) end.

Lemma bytes_at_cons m p b bs : bytes_at m p (b :: bs) ↔ m !! p = Some b ∧ bytes_at m (p + 1) bs.
Proof.
  unfold bytes_at. split.
  - intros H. split.
    + specialize (H 0%nat b eq_refl). by rewrite N.add_0_r in H.
    + intros i x Hx. specialize (H (S i) x Hx). by replace (p + 1 + N.of_nat i) with (p + N.of_nat (S i)) by lia.
  - intros [Hb H] [|i] x Hx; simpl in Hx.
    + injection Hx as <-. by rewrite N.add_0_r.
    + replace (p + N.of_nat (S i)) with (p + 1 + N.of_nat i) by lia. auto.
Qed.
Lemma bytes_at_nil m p : bytes_at m p [].
Proof. intros i b Hi. by rewrite lookup_nil in Hi. Qed.
Lemma bytes_at_app m p bs1 bs2 :
  bytes_at m p (bs1 ++ bs2) ↔ bytes_at m p bs1 ∧ bytes_at m (p + N.of_nat (length bs1)) bs2.
Proof.
  revert p. induction bs1 as [|b bs1 IH]; intros p; simpl.
  - rewrite N.add_0_r. pose proof (bytes_at_nil m p). tauto.
  - rewrite !bytes_at_cons, IH. replace (p + 1 + N.of_nat (length bs1)) with (p + N.of_nat (S (length bs1))) by lia. tauto.
Qed.
Lemma bytes_at_ext m m' p bs :
  (∀ a, p ≤ a < p + N.of_nat (length bs) → m' !! a = m !! a) → bytes_at m p bs → bytes_at m' p bs.
Proof. intros Hext H i b Hi. rewrite Hext; [by apply H|]. apply lookup_lt_Some in Hi. lia. Qed.
Lemma bytes_at_insert m p bs a b :
  a < p ∨ p + N.of_nat (length bs) ≤ a → bytes_at m p bs → bytes_at (<[a := b]> m) p bs.
Proof. intros Ha. apply bytes_at_ext. intros x Hx. rewrite lookup_insert_ne; [done|lia]. Qed.
Lemma bytes_at_mapped m p bs : bytes_at m p bs → mapped m p (length bs).
Proof. intros H i Hi. apply lookup_lt_is_Some in Hi as [b Hb]. rewrite (H i b Hb). eauto. Qed.
Lemma bytes_at_inj m p bs bs' : length bs = length bs' → bytes_at m p bs → bytes_at m p bs' → bs = bs'.
Proof.
  intros Hl H1 H2. apply list_eq. intros i. destruct (bs !! i) as [b|] eqn:Hb.
  - pose proof (lookup_lt_Some _ _ _ Hb) as Hi. rewrite Hl in Hi. apply lookup_lt_is_Some in Hi as [b' Hb'].
    rewrite Hb'. apply H1 in Hb. apply H2 in Hb'. congruence.
  - apply lookup_ge_None in Hb. symmetry. apply lookup_ge_None. lia.
Qed.
Lemma mapped_S m p n : mapped m p (S n) ↔ is_Some (m !! p) ∧ mapped m (p + 1) n.
Proof.
  unfold mapped. split.
  - intros H. split; [specialize (H 0%nat); rewrite N.add_0_r in H; apply H; lia|].
    intros i Hi. replace (p + 1 + N.of_nat i) with (p + N.of_nat (S i)) by lia. apply H. lia.
  - intros [H0 H] [|i] Hi; [by rewrite N.add_0_r|].
    replace (p + N.of_nat (S i)) with (p + 1 + N.of_nat i) by lia. apply H. lia.
Qed.
Lemma mapped_insert m p n a b : mapped m p n → mapped (<[a := b]> m) p n.
Proof. intros H i Hi. rewrite lookup_insert. case_decide; [eauto|by apply H]. Qed.
Lemma mapped_le m p n n' : (n' ≤ n)%nat → mapped m p n → mapped m p n'.
Proof. intros Hn H i Hi. apply H. lia. Qed.

Lemma lookup_write_bytes p bs m a :
  write_bytes p bs m !! a =
  if decide (p ≤ a < p + N.of_nat (length bs)) then bs !! N.to_nat (a - p) else m !! a.
Proof.
  revert p. induction bs as [|b bs IH]; intros p; simpl; [rewrite decide_False by lia; done|].
  rewrite lookup_insert, IH. destruct (decide (p = a)) as [<-|Hne].
  - rewrite decide_True by lia. by rewrite N.sub_diag.
  - destruct (decide (p + 1 ≤ a < p + 1 + N.of_nat (length bs))).
    + rewrite decide_True by lia. replace (N.to_nat (a - p)) with (S (N.to_nat (a - (p + 1)))) by lia. done.
    + rewrite decide_False by lia. done.
Qed.
Lemma write_bytes_at p bs m : bytes_at (write_bytes p bs m) p bs.
Proof.
  intros i b Hi. pose proof (lookup_lt_Some _ _ _ Hi). rewrite lookup_write_bytes, decide_True by lia.
  by replace (N.to_nat (p + N.of_nat i - p)) with i by lia.
Qed.
Lemma write_bytes_out p bs m a : a < p ∨ p + N.of_nat (length bs) ≤ a → write_bytes p bs m !! a = m !! a.
Proof. intros Ha. rewrite lookup_write_bytes, decide_False by lia. done. Qed.
Lemma write_bytes_insert p bs m a b :
  a < p ∨ p + N.of_nat (length bs) ≤ a → write_bytes p bs (<[a := b]> m) = <[a := b]> (write_bytes p bs m).
Proof.
  revert p. induction bs as [|x bs IH]; intros p Ha; simpl in *; [done|].
  rewrite IH by lia. apply insert_insert_ne. lia.
Qed.
Lemma write_bytes_app p bs1 bs2 m :
  write_bytes p (bs1 ++ bs2) m = write_bytes p bs1 (write_bytes (p + N.of_nat (length bs1)) bs2 m).
Proof.
  revert p. induction bs1 as [|b bs1 IH]; intros p; simpl; [by rewrite N.add_0_r|].
  rewrite IH. by replace (p + 1 + N.of_nat (length bs1)) with (p + N.of_nat (S (length bs1))) by lia.
Qed.
Lemma bytes_at_write m p bs q bs' :
  q + N.of_nat (length bs') ≤ p ∨ p + N.of_nat (length bs) ≤ q →
  bytes_at m p bs → bytes_at (write_bytes q bs' m) p bs.
Proof. intros Hd. apply bytes_at_ext. intros a Ha. apply write_bytes_out. lia. Qed.
(** Bytes mapped at distinct addresses: no more than the memory holds. *)
Lemma mapped_size m p n : mapped m p n → (n ≤ size m)%nat.
Proof.
  intros H. rewrite <-size_dom.
  transitivity (size (list_to_set (C := gset addr) ((λ i, p + N.of_nat i) <$> seq 0 n))).
  - rewrite size_list_to_set; [by rewrite length_fmap, length_seq|].
    apply NoDup_fmap_2; [intros i j; lia|apply NoDup_seq].
  - apply subseteq_size. intros a. rewrite elem_of_list_to_set, list_elem_of_fmap.
    intros (i & -> & Hi%elem_of_seq). apply elem_of_dom, H. lia.
Qed.

(** ** Strings *)
(** The C string [s], with its terminator, is at [p]. *)
Definition cstr (m : mem) (p : addr) (s : list Z) : Prop := bytes_at m p (s ++ [0%Z]) ∧ 0%Z ∉ s.
Lemma cstr_nil m p : cstr m p [] ↔ m !! p = Some 0%Z.
Proof. unfold cstr. simpl. rewrite bytes_at_cons. pose proof (bytes_at_nil m (p + 1)). set_solver. Qed.
Lemma cstr_cons m p c s : cstr m p (c :: s) ↔ c ≠ 0%Z ∧ m !! p = Some c ∧ cstr m (p + 1) s.
Proof.
  unfold cstr. rewrite <-app_comm_cons, bytes_at_cons, not_elem_of_cons. naive_solver.
Qed.
Lemma cstr_size m p s : cstr m p s → (length s < size m)%nat.
Proof. intros [H%bytes_at_mapped%mapped_size _]. rewrite length_app in H. simpl in H. lia. Qed.
Lemma cstr_ext m m' p s :
  (∀ a, p ≤ a ≤ p + N.of_nat (length s) → m' !! a = m !! a) → cstr m p s → cstr m' p s.
Proof.
  intros Hext [H ?]. split; [|done]. eapply bytes_at_ext; [|exact H].
  intros a. rewrite length_app. simpl. intros Ha. apply Hext. lia.
Qed.
Lemma cstr_app_drop m p s1 s2 : cstr m p (s1 ++ s2) → cstr m (p + N.of_nat (length s1)) s2.
Proof. intros [H Hn]. rewrite <-app_assoc, bytes_at_app in H. split; [apply H|]. rewrite elem_of_app in Hn. tauto. Qed.
Lemma cstr_inj m p s s' : cstr m p s → cstr m p s' → s = s'.
Proof.
  revert p s'. induction s as [|c s IH]; intros p [|c' s']; rewrite ?cstr_nil, ?cstr_cons; try done.
  - naive_solver.
  - naive_solver.
  - intros (? & ? & ?) (? & ? & ?). f_equal; [congruence|]. by eapply IH.
Qed.
#[export] Hint Resolve bytes_at_nil bytes_at_mapped write_bytes_at : pintos.
