(* ===== verification/CString.v ===== *)
(** * lib/string.c: blocks of bytes and strings

    The functions of string.c on byte memory.  A [size_t] that a loop counts
    down is a [nat].  A loop that runs to a terminator runs with a budget of
    steps; the budget is one more than the number of mapped bytes, and since
    every iteration reads the next address, a loop that has used it up has left
    the mapped memory before. *)

From stdpp Require Import base numbers list gmap.
From S2P Require Import Prelude Memory.
Local Open Scope N_scope.

Definition noFuel {A} : M mem A := λ _, NoFuel.
Definition with_budget {A} (f : nat → M mem A) : M mem A := λ m, f (S (size m)) m.
(** [ASSERT (p != NULL || size == 0)] *)
Definition assert_block (p : addr) (size : nat) : M mem unit :=
  assertM (negb (p =? null) || (size =? 0)%nat).
Definition assert_ptr (p : addr) : M mem unit := assertM (negb (p =? null)).

(** ** Blocks *)
Fixpoint copy_up (size : nat) (dst src : addr) : M mem unit :=
  match size with
  | O => retM tt
  | S size => do b <- load src; run store dst b; copy_up size (dst + 1) (src + 1)
  end.
(** [dst] and [src] point one past the bytes that are left. *)
Fixpoint copy_down (size : nat) (dst src : addr) : M mem unit :=
  match size with
  | O => retM tt
  | S size => do b <- load (src - 1); run store (dst - 1) b; copy_down size (dst - 1) (src - 1)
  end.
Definition memcpy (dst src : addr) (size : nat) : M mem addr :=
  run assert_block dst size; run assert_block src size;
  run copy_up size dst src; retM dst.
(** The pointer returned is the loop's: [dst + size] after the first loop. *)
Definition memmove (dst src : addr) (size : nat) : M mem addr :=
  run assert_block dst size; run assert_block src size;
  if dst <? src
  then run copy_up size dst src; retM (dst + N.of_nat size)
  else run copy_down size (dst + N.of_nat size) (src + N.of_nat size); retM dst.
Fixpoint memcmp_loop (size : nat) (a b : addr) : M mem Z :=
  match size with
  | O => retM 0%Z
  | S size =>
      do x <- load a; do y <- load b;
      if (x =? y)%Z then memcmp_loop size (a + 1) (b + 1) else retM (if (y <? x)%Z then 1 else -1)%Z
  end.
Definition memcmp (a b : addr) (size : nat) : M mem Z :=
  run assert_block a size; run assert_block b size; memcmp_loop size a b.
Fixpoint memchr_loop (size : nat) (block : addr) (ch : Z) : M mem (option addr) :=
  match size with
  | O => retM None
  | S size => do x <- load block; if (x =? ch)%Z then retM (Some block) else memchr_loop size (block + 1) ch
  end.
Definition memchr (block : addr) (ch : Z) (size : nat) : M mem (option addr) :=
  run assert_block block size; memchr_loop size block (u8 ch).
Fixpoint memset_loop (size : nat) (dst : addr) (value : Z) : M mem unit :=
  match size with
  | O => retM tt
  | S size => run store dst (u8 value); memset_loop size (dst + 1) value
  end.
Definition memset (dst : addr) (value : Z) (size : nat) : M mem addr :=
  run assert_block dst size; run memset_loop size dst value; retM dst.

(** ** Searching strings *)
Fixpoint strcmp_loop (fuel : nat) (a b : addr) : M mem Z :=
  match fuel with
  | O => noFuel
  | S fuel =>
      do x <- load a; do y <- load b;
      if negb (x =? 0)%Z && (x =? y)%Z then strcmp_loop fuel (a + 1) (b + 1)
      else retM (if x <? y then -1 else if y <? x then 1 else 0)%Z
  end.
Definition strcmp (a b : addr) : M mem Z :=
  run assert_ptr a; run assert_ptr b; with_budget (λ n, strcmp_loop n a b).
Fixpoint strchr_loop (fuel : nat) (string : addr) (c : Z) : M mem (option addr) :=
  match fuel with
  | O => noFuel
  | S fuel =>
      do x <- load string;
      if (x =? c)%Z then retM (Some string)
      else if (x =? 0)%Z then retM None
      else strchr_loop fuel (string + 1) c
  end.
Definition strchr (string : addr) (c : Z) : M mem (option addr) :=
  run assert_ptr string; with_budget (λ n, strchr_loop n string (u8 c)).
(** The loops of [strcspn] and [strspn]: [skip] says whether to go on at a
    character that [strchr] finds in [set]. *)
Fixpoint span_loop (fuel : nat) (skip : bool) (string set : addr) (length : N) : M mem N :=
  match fuel with
  | O => noFuel
  | S fuel =>
      do x <- load (string + length);
      if (x =? 0)%Z then retM length
      else do r <- strchr set x;
           if Bool.eqb (bool_decide (r ≠ None)) skip
           then span_loop fuel skip string set (length + 1) else retM length
  end.
Definition strcspn (string stop : addr) : M mem N := with_budget (λ n, span_loop n false string stop 0).
Definition strspn (string skip : addr) : M mem N := with_budget (λ n, span_loop n true string skip 0).
Fixpoint strpbrk_loop (fuel : nat) (string stop : addr) : M mem (option addr) :=
  match fuel with
  | O => noFuel
  | S fuel =>
      do x <- load string;
      if (x =? 0)%Z then retM None
      else do r <- strchr stop x;
           if bool_decide (r ≠ None) then retM (Some string) else strpbrk_loop fuel (string + 1) stop
  end.
Definition strpbrk (string stop : addr) : M mem (option addr) := with_budget (λ n, strpbrk_loop n string stop).
Fixpoint strrchr_loop (fuel : nat) (string : addr) (c : Z) (p : option addr) : M mem (option addr) :=
  match fuel with
  | O => noFuel
  | S fuel =>
      do x <- load string;
      if (x =? 0)%Z then retM p
      else strrchr_loop fuel (string + 1) c (if (x =? c)%Z then Some string else p)
  end.
Definition strrchr (string : addr) (c : Z) : M mem (option addr) :=
  with_budget (λ n, strrchr_loop n string (u8 c) None).
Fixpoint strlen_loop (fuel : nat) (string p : addr) : M mem N :=
  match fuel with
  | O => noFuel
  | S fuel => do x <- load p; if (x =? 0)%Z then retM (p - string) else strlen_loop fuel string (p + 1)
  end.
Definition strlen (string : addr) : M mem N :=
  run assert_ptr string; with_budget (λ n, strlen_loop n string string).
Fixpoint strnlen_loop (fuel : nat) (string : addr) (maxlen length : N) : M mem N :=
  match fuel with
  | O => noFuel
  | S fuel =>
      do x <- load (string + length);
      if negb (x =? 0)%Z && (length <? maxlen) then strnlen_loop fuel string maxlen (length + 1) else retM length
  end.
Definition strnlen (string : addr) (maxlen : N) : M mem N :=
  with_budget (λ n, strnlen_loop n string maxlen 0).
(** [k] positions are left to try, from [i]. *)
Fixpoint strstr_loop (k : nat) (haystack needle : addr) (needle_len : nat) (i : N) : M mem (option addr) :=
  match k with
  | O => retM None
  | S k =>
      do r <- memcmp (haystack + i) needle needle_len;
      if (r =? 0)%Z then retM (Some (haystack + i)) else strstr_loop k haystack needle needle_len (i + 1)
  end.
Definition strstr (haystack needle : addr) : M mem (option addr) :=
  do haystack_len <- strlen haystack; do needle_len <- strlen needle;
  if needle_len <=? haystack_len
  then strstr_loop (N.to_nat (haystack_len - needle_len + 1)) haystack needle (N.to_nat needle_len) 0
  else retM None.

(** ** Tokens *)
(** Skip DELIMITERS: [None] at the end of the string. *)
Fixpoint skip_delimiters (fuel : nat) (s delimiters : addr) : M mem (addr * bool) :=
  match fuel with
  | O => noFuel
  | S fuel =>
      do x <- load s; do r <- strchr delimiters x;
      match r with
      | None => retM (s, true)
      | Some _ => if (x =? 0)%Z then retM (s, false) else skip_delimiters fuel (s + 1) delimiters
      end
  end.
Fixpoint skip_token (fuel : nat) (s delimiters : addr) : M mem addr :=
  match fuel with
  | O => noFuel
  | S fuel =>
      do x <- load s; do r <- strchr delimiters x;
      match r with None => skip_token fuel (s + 1) delimiters | Some _ => retM s end
  end.
(** [save_ptr] is the value of the variable; the new one is returned with the
    token. *)
Definition strtok_r (s : option addr) (delimiters : addr) (save_ptr : addr) : M mem (option addr * addr) :=
  run assert_ptr delimiters;
  let s := match s with Some s => s | None => save_ptr end in
  run assert_ptr s;
  do '(s, found) <- with_budget (λ n, skip_delimiters n s delimiters);
  if found : bool then
    let token := s in
    do s <- with_budget (λ n, skip_token n s delimiters);
    do x <- load s;
    if (x =? 0)%Z then retM (Some token, s)
    else run store s 0%Z; retM (Some token, s + 1)
  else retM (None, s).

(** The loop of the example: all tokens, the next call continuing from the
    saved position. *)
Fixpoint strtok_all (fuel : nat) (s : option addr) (delimiters save_ptr : addr) : M mem (list addr) :=
  match fuel with
  | O => noFuel
  | S fuel =>
      do '(token, save_ptr) <- strtok_r s delimiters save_ptr;
      match token with
      | None => retM []
      | Some token => do ts <- strtok_all fuel None delimiters save_ptr; retM (token :: ts)
      end
  end.

(** ** Bounded copies *)
Definition strlcpy (dst src : addr) (size : N) : M mem N :=
  run assert_ptr dst; run assert_ptr src;
  do src_len <- strlen src;
  run (if 0 <? size then
         let dst_len := size - 1 in
         let dst_len := if src_len <? dst_len then src_len else dst_len in
         run memcpy dst src (N.to_nat dst_len); store (dst + dst_len) 0%Z
       else retM tt);
  retM src_len.
Definition strlcat (dst src : addr) (size : N) : M mem N :=
  run assert_ptr dst; run assert_ptr src;
  do src_len <- strlen src; do dst_len <- strlen dst;
  run (if (0 <? size) && (dst_len <? size) then
         let copy_cnt := size - dst_len - 1 in
         let copy_cnt := if src_len <? copy_cnt then src_len else copy_cnt in
         run memcpy (dst + dst_len) src (N.to_nat copy_cnt); store (dst + dst_len + copy_cnt) 0%Z
       else retM tt);
  retM (src_len + dst_len).
