(* ===== verification/CStringSpec.v ===== *)
(** * Correctness of lib/string.c

    Each function against a function on lists of bytes: copies of overlapping
    blocks, the lexicographic order for [strcmp], first occurrences for the
    searches, the words of a string for [strtok_r] and truncation for [strlcpy]
    and [strlcat].  Every statement is total: the call returns. *)

From stdpp Require Import base numbers list gmap.
From S2P Require Import Prelude Memory CString.
Local Open Scope N_scope.

(** ** Reading and writing *)
Lemma load_byte_Ret m p b : m !! p = Some b → load p m = Ret (b, m).
Proof. unfold load. by intros ->. Qed.
Lemma store_Ret m p b : is_Some (m !! p) → store p b m = Ret (tt, <[p := b]> m).
Proof. unfold store. by intros [? ->]. Qed.
Lemma assert_ptr_Ret m p : p ≠ null → assert_ptr p m = Ret (tt, m).
Proof. intros Hp. unfold assert_ptr. apply assertM_true. by apply negb_true_iff, N.eqb_neq. Qed.
Lemma assert_block_Ret m p n : p ≠ null ∨ n = 0%nat → assert_block p n m = Ret (tt, m).
Proof.
  intros Hp. unfold assert_block. apply assertM_true. destruct (N.eqb_spec p null); [|done].
  destruct Hp as [| ->]; done.
Qed.
(** Executes the next read of mapped memory. *)
Ltac rd H := rewrite (bindM_Ret _ _ _ _ _ (load_byte_Ret _ _ _ H)).

(** ** Blocks *)
Lemma copy_up_Ret n dst src m bs :
  length bs = n → bytes_at m src bs → mapped m dst n → dst ≤ src ∨ src + N.of_nat n ≤ dst →
  copy_up n dst src m = Ret (tt, write_bytes dst bs m).
Proof.
  revert dst src m bs. induction n as [|n IH]; intros dst src m [|b bs] Hl; try done.
  intros [Hb Hbs]%bytes_at_cons [Hd Hm]%mapped_S Hov. injection Hl as Hl. simpl. rd Hb.
  rewrite (bindM_Ret _ _ _ _ _ (store_Ret _ _ b Hd)).
  rewrite (IH _ _ _ bs); [by rewrite write_bytes_insert by lia|done| | |lia].
  - apply bytes_at_insert; [lia|done].
  - by apply mapped_insert.
Qed.
Lemma copy_down_Ret n dst src m bs :
  length bs = n → bytes_at m src bs → mapped m dst n → src ≤ dst →
  copy_down n (dst + N.of_nat n) (src + N.of_nat n) m = Ret (tt, write_bytes dst bs m).
Proof.
  revert m bs. induction n as [|n IH]; intros m bs Hl Hb Hm Hov; [by destruct bs|].
  destruct bs as [|b bs _] using rev_ind; [done|]. rewrite length_app in Hl. simpl in Hl.
  apply bytes_at_app in Hb as [Hbs [Hb _]%bytes_at_cons]. replace (length bs) with n in Hb by lia.
  cbn [copy_down]. replace (src + N.of_nat (S n) - 1) with (src + N.of_nat n) by lia.
  replace (dst + N.of_nat (S n) - 1) with (dst + N.of_nat n) by lia. rd Hb.
  rewrite (bindM_Ret _ _ _ _ _ (store_Ret _ _ b (Hm n ltac:(lia)))).
  rewrite (IH _ bs); [|lia| | |done].
  - rewrite write_bytes_app. simpl. by replace (length bs) with n by lia.
  - apply bytes_at_insert; [lia|done].
  - apply mapped_insert. eapply mapped_le; [|done]. lia.
Qed.
Lemma memcpy_Ret dst src m bs :
  bytes_at m src bs → mapped m dst (length bs) → dst ≠ null ∧ src ≠ null ∨ bs = [] →
  dst ≤ src ∨ src + N.of_nat (length bs) ≤ dst →
  memcpy dst src (length bs) m = Ret (dst, write_bytes dst bs m).
Proof.
  intros Hb Hm Hn Hov. unfold memcpy.
  rewrite (bindM_Ret _ _ _ _ _ (assert_block_Ret m dst (length bs) ltac:(destruct Hn as [[]| ->]; auto))).
  rewrite (bindM_Ret _ _ _ _ _ (assert_block_Ret m src (length bs) ltac:(destruct Hn as [[]| ->]; auto))).
  by rewrite (bindM_Ret _ _ _ _ _ (copy_up_Ret _ dst src m bs eq_refl Hb Hm Hov)).
Qed.
Lemma memcmp_loop_Ret n a b m xs ys :
  length xs = n → length ys = n → bytes_at m a xs → bytes_at m b ys →
  ∃ r, memcmp_loop n a b m = Ret (r, m) ∧ (r = 0%Z ↔ xs = ys).
Proof.
  revert a b xs ys. induction n as [|n IH]; intros a b [|x xs] [|y ys] Hx Hy; try done.
  { intros _ _. by exists 0%Z. }
  intros [Ha Hxs]%bytes_at_cons [Hb Hys]%bytes_at_cons. simpl. rd Ha. rd Hb.
  destruct (Z.eqb_spec x y) as [->|Hne].
  - injection Hx as Hx. injection Hy as Hy. destruct (IH _ _ xs ys Hx Hy Hxs Hys) as (r & -> & Hr).
    exists r. split; [done|]. rewrite Hr. naive_solver.
  - eexists. split; [done|]. destruct (Z.ltb_spec y x); naive_solver.
Qed.

(** ** Strings *)
Lemma strlen_loop_Ret fuel string p m s :
  cstr m p s → (length s < fuel)%nat → string ≤ p →
  strlen_loop fuel string p m = Ret (p + N.of_nat (length s) - string, m).
Proof.
  revert p s. induction fuel as [|fuel IH]; intros p [|c s]; simpl; [lia|lia|..].
  - intros H0%cstr_nil _ Hp. rd H0. simpl. by rewrite N.add_0_r.
  - intros (Hc & Hb & Hs)%cstr_cons Hf Hp. rd Hb. destruct (Z.eqb_spec c 0); [done|].
    rewrite (IH _ s) by (done || lia). do 2 f_equal. lia.
Qed.
Lemma strlen_Ret m p s : cstr m p s → p ≠ null → strlen p m = Ret (N.of_nat (length s), m).
Proof.
  intros Hs Hp. unfold strlen, with_budget. rewrite (bindM_Ret _ _ _ _ _ (assert_ptr_Ret m p Hp)).
  rewrite (strlen_loop_Ret _ _ _ _ s) by (done || pose proof (cstr_size _ _ _ Hs); lia). do 2 f_equal. lia.
Qed.
Lemma strchr_loop_Ret fuel p c m s :
  cstr m p s → (length s < fuel)%nat →
  strchr_loop fuel p c m = Ret ((λ '(i, _), p + N.of_nat i) <$> list_find (λ x, x = c) (s ++ [0%Z]), m).
Proof.
  revert p s. induction fuel as [|fuel IH]; intros p [|x s]; [simpl; lia|simpl; lia|..].
  - intros H0%cstr_nil _. simpl. rd H0. destruct (Z.eqb_spec 0 c) as [<-|Hc]; simpl.
    + by rewrite N.add_0_r.
    + by rewrite decide_False.
  - intros (Hx0 & Hx & Hs)%cstr_cons Hf. simpl in Hf |- *. rd Hx. destruct (Z.eqb_spec x c) as [<-|Hc].
    + rewrite decide_True by done. simpl. by rewrite N.add_0_r.
    + destruct (Z.eqb_spec x 0); [done|]. rewrite decide_False by done. rewrite (IH _ s) by (done || lia).
      do 2 f_equal. destruct (list_find _ _) as [[i y]|]; simpl; [|done]. f_equal. lia.
Qed.
Lemma strchr_Ret m p c s :
  cstr m p s → p ≠ null → (0 ≤ c < 256)%Z →
  strchr p c m = Ret ((λ '(i, _), p + N.of_nat i) <$> list_find (λ x, x = c) (s ++ [0%Z]), m).
Proof.
  intros Hs Hp Hc. unfold strchr, with_budget. rewrite (bindM_Ret _ _ _ _ _ (assert_ptr_Ret m p Hp)).
  unfold u8. rewrite Z.mod_small by done. apply strchr_loop_Ret; [done|]. pose proof (cstr_size _ _ _ Hs). lia.
Qed.
(** As a test: the result is a pointer iff the character is in the string or is
    the terminator. *)
Lemma strchr_test m p c s :
  cstr m p s → p ≠ null → (0 ≤ c < 256)%Z →
  ∃ r, strchr p c m = Ret (r, m) ∧ (r ≠ None ↔ c ∈ s ∨ c = 0%Z).
Proof.
  intros Hs Hp Hc. eexists. split; [by apply strchr_Ret|].
  destruct (list_find (λ x, x = c) (s ++ [0%Z])) as [[i y]|] eqn:E; simpl.
  - apply list_find_Some in E as (Hi & -> & _). apply list_elem_of_lookup_2 in Hi.
    apply elem_of_app in Hi as [|?%list_elem_of_singleton]; [naive_solver|]. split; [by right|done].
  - apply list_find_None in E. apply Forall_app in E as [E1 E2]. rewrite Forall_forall in E1.
    apply Forall_cons in E2 as [E2 _]. split; [done|]. intros [Hin| ->]; [by destruct (E1 c Hin)|done].
Qed.

(** ** strcmp: the lexicographic order *)
Fixpoint lex (a b : list Z) : Z :=
  match a, b with
  | [], [] => 0
  | [], _ => -1
  | _, [] => 1
  | x :: a, y :: b => if x =? y then lex a b else if x <? y then -1 else 1
  end%Z.
Definition bytes (s : list Z) : Prop := Forall (λ b, 0 ≤ b < 256)%Z s.
Lemma strcmp_loop_Ret fuel p q m a b :
  cstr m p a → cstr m q b → bytes a → bytes b → (length a < fuel)%nat →
  strcmp_loop fuel p q m = Ret (lex a b, m).
Proof.
  revert p q a b. induction fuel as [|fuel IH]; intros p q a b Ha Hb Ba Bb Hf; [lia|]. simpl.
  destruct a as [|x a], b as [|y b]; rewrite ?cstr_nil, ?cstr_cons in *.
  - rd Ha. rd Hb. done.
  - destruct Hb as (Hy0 & Hy & Hb). rd Ha. rd Hy. apply Forall_cons in Bb as [Hyb _]. simpl.
    destruct (Z.ltb_spec 0 y); [done|lia].
  - destruct Ha as (Hx0 & Hx & Ha). rd Hx. rd Hb. apply Forall_cons in Ba as [Hxb _].
    destruct (Z.eqb_spec x 0); [done|]. simpl. destruct (Z.ltb_spec x 0); [lia|].
    destruct (Z.ltb_spec 0 x); [done|lia].
  - destruct Ha as (Hx0 & Hx & Ha), Hb as (Hy0 & Hy & Hb). rd Hx. rd Hy.
    apply Forall_cons in Ba as [_ Ba]. apply Forall_cons in Bb as [_ Bb].
    destruct (Z.eqb_spec x 0); [done|]. simpl. destruct (Z.eqb_spec x y) as [->|].
    + apply IH; try done. simpl in Hf. lia.
    + destruct (Z.ltb_spec x y); [done|]. destruct (Z.ltb_spec y x); [done|lia].
Qed.
Lemma lex_refl a : lex a a = 0%Z.
Proof. induction a as [|x a IH]; simpl; [done|]. by rewrite Z.eqb_refl. Qed.
Lemma lex_0 a b : lex a b = 0%Z ↔ a = b.
Proof.
  split; [|intros ->; apply lex_refl]. revert b. induction a as [|x a IH]; intros [|y b]; simpl; try done.
  destruct (Z.eqb_spec x y) as [->|]; [intros; by f_equal; auto|]. by destruct (x <? y)%Z.
Qed.
Lemma lex_opp a b : lex a b = (- lex b a)%Z.
Proof.
  revert b. induction a as [|x a IH]; intros [|y b]; simpl; try done.
  rewrite (Z.eqb_sym y x). destruct (Z.eqb_spec x y); [apply IH|].
  destruct (Z.ltb_spec x y), (Z.ltb_spec y x); simpl; lia.
Qed.
Lemma lex_trans a b c : (lex a b < 0)%Z → (lex b c < 0)%Z → (lex a c < 0)%Z.
Proof.
  revert b c. induction a as [|x a IH]; intros [|y b] [|z c]; simpl; try lia; try done.
  destruct (Z.eqb_spec x y) as [->|].
  - destruct (Z.eqb_spec y z); [apply IH|]. done.
  - destruct (Z.ltb_spec x y); [|lia]. intros _. destruct (Z.eqb_spec y z) as [->|].
    + destruct (Z.eqb_spec x z); [done|]. destruct (Z.ltb_spec x z); lia.
    + destruct (Z.ltb_spec y z); [|lia]. intros _. destruct (Z.eqb_spec x z); [lia|].
      destruct (Z.ltb_spec x z); lia.
Qed.

(** ** strtok_r: the words of a string *)
(** The maximal runs of characters that are not in [ds]. *)
Fixpoint words (ds s : list Z) : list (list Z) :=
  match s with
  | [] => []
  | c :: s' =>
      if bool_decide (c ∈ ds) then words ds s'
      else match s' with
           | [] => [[c]]
           | c' :: _ =>
               if bool_decide (c' ∈ ds) then [c] :: words ds s'
               else match words ds s' with [] => [[c]] | w :: ws => (c :: w) :: ws end
           end
  end.
(** The longest prefix whose characters satisfy [P], and the rest. *)
Fixpoint span (P : Z → bool) (s : list Z) : list Z * list Z :=
  match s with
  | [] => ([], [])
  | c :: s' => if P c then let '(a, b) := span P s' in (c :: a, b) else ([], s)
  end.
Definition in_set (ds : list Z) (c : Z) : bool := bool_decide (c ∈ ds).
Definition not_in_set (ds : list Z) (c : Z) : bool := negb (bool_decide (c ∈ ds)).
Lemma span_app P s : s = fst (span P s) ++ snd (span P s).
Proof. induction s as [|c s IH]; simpl; [done|]. destruct (P c); [|done]. destruct (span P s). simpl in *. by rewrite <-IH. Qed.
Lemma span_all P s : Forall (λ c, P c = true) (fst (span P s)).
Proof.
  induction s as [|c s IH]; simpl; [constructor|]. destruct (P c) eqn:E; [|constructor].
  destruct (span P s). simpl in *. by constructor.
Qed.
Lemma span_stop P s c r : snd (span P s) = c :: r → P c = false.
Proof.
  induction s as [|x s IH]; simpl; [done|]. destruct (P x) eqn:E; [by destruct (span P s)|].
  simpl. intros [= <- <-]. done.
Qed.
Lemma words_skip ds sk s : Forall (λ c, in_set ds c = true) sk → words ds (sk ++ s) = words ds s.
Proof. induction 1 as [|c sk Hc _ IH]; [done|]. simpl. unfold in_set in Hc. by rewrite Hc. Qed.
Lemma words_token ds tok rest :
  tok ≠ [] → Forall (λ c, not_in_set ds c = true) tok → (∀ c r, rest = c :: r → not_in_set ds c = false) →
  words ds (tok ++ rest) = tok :: words ds (drop 1 rest).
Proof.
  intros Hne Hall Hr.
  assert (words ds rest = words ds (drop 1 rest)) as Hrest.
  { destruct rest as [|c r]; [done|]. specialize (Hr c r eq_refl). unfold not_in_set in Hr.
    apply negb_false_iff in Hr. simpl. by rewrite Hr. }
  induction Hall as [|c tok Hc Hall IH]; [done|]. unfold not_in_set in Hc. apply negb_true_iff in Hc.
  cbn [app words]. rewrite Hc. destruct Hall as [|c' tok Hc' Hall].
  - simpl. destruct rest as [|x r]; [done|]. specialize (Hr x r eq_refl). unfold not_in_set in Hr.
    apply negb_false_iff in Hr. by rewrite Hr, Hrest.
  - cbn [app]. unfold not_in_set in Hc'. apply negb_true_iff in Hc'. rewrite Hc'.
    change (c' :: tok ++ rest) with ((c' :: tok) ++ rest). by rewrite IH.
Qed.

Section tokens.
  Context (d : addr) (ds : list Z).
  Hypothesis Hd0 : d ≠ null.

Lemma delimiter_test m c :
  cstr m d ds → (0 ≤ c < 256)%Z → ∃ r, strchr d c m = Ret (r, m) ∧ (r ≠ None ↔ c ∈ ds ∨ c = 0%Z).
Proof. intros Hd Hc. by apply strchr_test. Qed.
Lemma skip_delimiters_Ret fuel p m s :
  cstr m d ds → cstr m p s → bytes s → (length s < fuel)%nat →
  skip_delimiters fuel p d m =
  Ret ((p + N.of_nat (length (fst (span (in_set ds) s))),
        match snd (span (in_set ds) s) with [] => false | _ => true end), m).
Proof.
  intros Hd. revert p s. induction fuel as [|fuel IH]; intros p s Hs Bs Hf; [lia|]. cbn [skip_delimiters].
  destruct s as [|c s].
  - apply cstr_nil in Hs. rd Hs. destruct (delimiter_test m 0 Hd) as (r & Hr & Hiff); [lia|].
    rewrite (bindM_Ret _ _ _ _ _ Hr). destruct r as [r|]; [simpl; by rewrite N.add_0_r|].
    exfalso. by apply Hiff; [right|].
  - apply cstr_cons in Hs as (Hc0 & Hc & Hs). apply Forall_cons in Bs as [Bc Bs]. rd Hc.
    destruct (delimiter_test m c Hd) as (r & Hr & Hiff); [done|].
    rewrite (bindM_Ret _ _ _ _ _ Hr). simpl span. unfold in_set at 1 3. destruct r as [r|].
    + rewrite bool_decide_eq_true_2 by naive_solver. destruct (Z.eqb_spec c 0); [done|].
      rewrite (IH _ s) by (done || simpl in Hf; lia). destruct (span _ s); simpl.
      do 3 f_equal. lia.
    + rewrite bool_decide_eq_false_2 by naive_solver. simpl. by rewrite N.add_0_r.
Qed.
Lemma skip_token_Ret fuel p m s :
  cstr m d ds → cstr m p s → bytes s → (length s < fuel)%nat →
  skip_token fuel p d m = Ret (p + N.of_nat (length (fst (span (not_in_set ds) s))), m).
Proof.
  intros Hd. revert p s. induction fuel as [|fuel IH]; intros p s Hs Bs Hf; [lia|]. cbn [skip_token].
  destruct s as [|c s].
  - apply cstr_nil in Hs. rd Hs. destruct (delimiter_test m 0 Hd) as (r & Hr & Hiff); [lia|].
    rewrite (bindM_Ret _ _ _ _ _ Hr). destruct r as [r|]; [simpl; by rewrite N.add_0_r|].
    exfalso. by apply Hiff; [right|].
  - apply cstr_cons in Hs as (Hc0 & Hc & Hs). apply Forall_cons in Bs as [Bc Bs]. rd Hc.
    destruct (delimiter_test m c Hd) as (r & Hr & Hiff); [done|].
    rewrite (bindM_Ret _ _ _ _ _ Hr). simpl span. unfold not_in_set at 1. destruct r as [r|].
    + rewrite bool_decide_eq_true_2 by naive_solver. simpl. by rewrite N.add_0_r.
    + rewrite bool_decide_eq_false_2 by naive_solver. simpl. rewrite (IH _ s) by (done || simpl in Hf; lia).
      destruct (span _ s); simpl. do 2 f_equal. lia.
Qed.

(** One call: the string is skipped delimiters, a token and the rest. *)
Lemma strtok_r_Ret o save p m s sk s1 tok rest :
  cstr m d ds → match o with Some s => s | None => save end = p → p ≠ null → cstr m p s → bytes s →
  span (in_set ds) s = (sk, s1) → span (not_in_set ds) s1 = (tok, rest) →
  let q := p + N.of_nat (length sk) in
  let e := q + N.of_nat (length tok) in
  strtok_r o d save m =
  match s1, rest with
  | [], _ => Ret ((None, p + N.of_nat (length s)), m)
  | _, [] => Ret ((Some q, e), m)
  | _, _ :: _ => Ret ((Some q, e + 1), <[e := 0%Z]> m)
  end.
Proof.
  intros Hd Hp Hp0 Hs Bs E1 E2 q e. unfold strtok_r.
  rewrite (bindM_Ret _ _ _ _ _ (assert_ptr_Ret m d Hd0)). rewrite Hp.
  rewrite (bindM_Ret _ _ _ _ _ (assert_ptr_Ret m p Hp0)). pose proof (cstr_size _ _ _ Hs) as Hsz.
  rewrite (bindM_Ret (with_budget (λ n, skip_delimiters n p d)) _ _ _ _
    (skip_delimiters_Ret (S (size m)) p m s Hd Hs Bs ltac:(lia))).
  pose proof (span_app (in_set ds) s) as Es. rewrite E1 in Es |- *. simpl in Es |- *. fold q.
  destruct s1 as [|c s2]; [rewrite app_nil_r in Es; by rewrite Es|].
  pose proof (cstr_app_drop m p sk (c :: s2) ltac:(by rewrite <-Es)) as Hq. fold q in Hq.
  assert (bytes (c :: s2)) as B1 by (unfold bytes in *; rewrite Es in Bs; by apply Forall_app in Bs as [_ ?]).
  pose proof (cstr_size _ _ _ Hq) as Hsz1.
  rewrite (bindM_Ret (with_budget (λ n, skip_token n q d)) _ _ _ _
    (skip_token_Ret (S (size m)) q m (c :: s2) Hd Hq B1 ltac:(lia))).
  pose proof (span_app (not_in_set ds) (c :: s2)) as Et. rewrite E2 in Et |- *. simpl fst in Et |- *. simpl snd in Et.
  fold e. rewrite Et in Hq. apply cstr_app_drop in Hq. fold e in Hq. destruct rest as [|x rest].
  - apply cstr_nil in Hq. by rd Hq.
  - apply cstr_cons in Hq as (Hx0 & Hx & _). rd Hx. destruct (Z.eqb_spec x 0); [done|].
    by rewrite (bindM_Ret _ _ _ _ _ (store_Ret m e 0 ltac:(eauto))).
Qed.
(** What one call does to the string: the words are the token and the words of
    the rest, and only delimiters of the string are overwritten. *)
Definition outside (p : addr) (n : nat) (a : addr) : Prop := a < p ∨ p + N.of_nat n ≤ a.
Lemma strtok_r_step o save p m s :
  cstr m d ds → match o with Some s => s | None => save end = p → p ≠ null → cstr m p s → bytes s →
  (∃ save', strtok_r o d save m = Ret ((None, save'), m) ∧ words ds s = []) ∨
  (∃ q save' m' tok s', strtok_r o d save m = Ret ((Some q, save'), m') ∧
    words ds s = tok :: words ds s' ∧ cstr m' q tok ∧ cstr m' save' s' ∧ bytes s' ∧
    (length s' < length s)%nat ∧ p ≤ save' ∧ save' + N.of_nat (length s') ≤ p + N.of_nat (length s) ∧
    (p ≤ q ∧ q + N.of_nat (length tok) ≤ p + N.of_nat (length s)) ∧
    (∀ a, q ≤ a ≤ q + N.of_nat (length tok) → outside save' (length s') a) ∧
    ∀ a, outside p (length s) a → m' !! a = m !! a).
Proof.
  intros Hd Hp Hp0 Hs Bs.
  destruct (span (in_set ds) s) as [sk s1] eqn:E1, (span (not_in_set ds) s1) as [tok rest] eqn:E2.
  rewrite (strtok_r_Ret o save p m s sk s1 tok rest) by done.
  pose proof (span_app (in_set ds) s) as Es. pose proof (span_all (in_set ds) s) as As.
  pose proof (span_stop (in_set ds) s) as Ss. rewrite E1 in Es, As, Ss.
  pose proof (span_app (not_in_set ds) s1) as Et. pose proof (span_all (not_in_set ds) s1) as At.
  pose proof (span_stop (not_in_set ds) s1) as St. rewrite E2 in Et, At, St. simpl in *.
  assert (words ds s = words ds s1) as Hws by (rewrite Es; by apply words_skip).
  destruct s1 as [|c s2]; [left; eauto|right].
  assert (tok ≠ []) as Hne.
  { intros ->. simpl in Et. subst rest. specialize (St c s2 eq_refl). specialize (Ss c s2 eq_refl).
    unfold not_in_set, in_set in *. by rewrite Ss in St. }
  assert (words ds s = tok :: words ds (drop 1 rest)) as Hw.
  { rewrite Hws, Et. by apply words_token. }
  rewrite Es, Et in Hs, Bs, Hw |- *. clear Es Et E1 E2 As At Ss St Hws Hp.
  set (q := p + N.of_nat (length sk)). set (e := q + N.of_nat (length tok)).
  pose proof (cstr_app_drop _ _ _ _ Hs) as Hq. fold q in Hq. pose proof (cstr_app_drop _ _ _ _ Hq) as He. fold e in He.
  assert (bytes rest) as Br.
  { unfold bytes in *. by apply Forall_app in Bs as [_ [_ ?]%Forall_app]. }
  assert ((0 < length tok)%nat) by (destruct tok; [done|simpl; lia]).
  assert ((0%Z ∉ tok) ∧ bytes_at m q tok) as [Hn0 Hbt].
  { destruct Hq as [Hq Hn]. rewrite <-app_assoc, bytes_at_app in Hq. rewrite elem_of_app in Hn. naive_solver. }
  destruct rest as [|x rest].
  - exists q, e, m, tok, []. rewrite !length_app. simpl. split_and!; try done; unfold outside; try lia.
    split; [|done]. apply bytes_at_app. split; [done|]. exact (proj1 He).
  - exists q, (e + 1), (<[e := 0%Z]> m), tok, rest. rewrite !length_app. simpl.
    apply cstr_cons in He as (_ & _ & He). apply Forall_cons in Br as [_ Br].
    split_and!; try done; unfold outside; try lia.
    + split; [|done]. apply bytes_at_app. split; [by apply bytes_at_insert; [unfold e; lia|]|].
      apply bytes_at_cons. fold e. by rewrite lookup_insert_eq.
    + eapply cstr_ext; [|done]. intros a Ha. rewrite lookup_insert_ne; [done|lia].
    + intros a Ha. rewrite lookup_insert_ne; [done|lia].
Qed.
(** A string within the [n] bytes at [p]. *)
Definition cstr_in (m : mem) (p : addr) (n : nat) (q : addr) (s : list Z) : Prop :=
  cstr m q s ∧ p ≤ q ∧ q + N.of_nat (length s) ≤ p + N.of_nat n.
Lemma strtok_all_Ret n o save p m s :
  cstr m d ds → (∀ a, d ≤ a ≤ d + N.of_nat (length ds) → outside p (length s) a) →
  match o with Some s => s | None => save end = p → p ≠ null → cstr m p s → bytes s → (length s < n)%nat →
  ∃ ts m', strtok_all n o d save m = Ret (ts, m') ∧ Forall2 (cstr_in m' p (length s)) ts (words ds s) ∧
    ∀ a, outside p (length s) a → m' !! a = m !! a.
Proof.
  revert o save p m s. induction n as [|n IH]; intros o save p m s Hd Hdis Hp Hp0 Hs Bs Hn; [lia|].
  cbn [strtok_all].
  destruct (strtok_r_step o save p m s) as [(sv & E & Hw)|(q & sv & m1 & tok & s' & E & Hw & Ht & Hs' & Bs' & Hl & Hsv & Hsl & Hqr & Hq & Hfr)];
    try done; rewrite (bindM_Ret _ _ _ _ _ E), Hw.
  { exists [], m. split_and!; [done|constructor|done]. }
  assert (∀ a, outside p (length s) a → outside sv (length s') a) as Hout by (unfold outside in *; intros; lia).
  destruct (IH None sv sv m1 s') as (ts & m2 & E2 & Hts & Hfr2); try done.
  - eapply cstr_ext; [|exact Hd]. intros a Ha. by apply Hfr, Hdis.
  - intros a Ha. by apply Hout, Hdis.
  - unfold null in *; lia.
  - lia.
  - exists (q :: ts), m2. rewrite (bindM_Ret _ _ _ _ _ E2). split_and!; [done| |].
    + constructor; [split; [|done]; eapply cstr_ext; [|exact Ht]; intros a Ha; by apply Hfr2, Hq|].
      eapply Forall2_impl; [exact Hts|]. intros t w (Hc & ? & ?). split; [done|]. lia.
    + intros a Ha. rewrite Hfr2 by auto. by apply Hfr.
Qed.
End tokens.

(** ** Bounded copies *)
(** The string that [strlcpy] leaves in a buffer of [size] bytes. *)
Definition truncated (size : N) (s : list Z) : list Z := take (N.to_nat (size - 1)) s.
Lemma not_elem_take (n : nat) (s : list Z) x : x ∉ s → x ∉ take n s.
Proof. intros H Hx. apply H. rewrite <-(take_drop n s), elem_of_app. by left. Qed.
(** A copy of the first [n] characters and a terminator. *)
Lemma copy_terminated dst src n m s :
  cstr m src s → (n ≤ length s)%nat → dst ≠ null → src ≠ null → mapped m dst (S n) →
  dst + N.of_nat n < src ∨ src + N.of_nat n ≤ dst →
  ∃ m', (run memcpy dst src n; store (dst + N.of_nat n) 0%Z) m = Ret (tt, m') ∧
    cstr m' dst (take n s) ∧ ∀ a, outside dst (S n) a → m' !! a = m !! a.
Proof.
  intros [Hs Hn0] Hn Hd Hsrc Hm Hov.
  assert (length (take n s) = n) as Hl by (rewrite length_take; lia).
  assert (bytes_at m src (take n s)) as Hb.
  { apply bytes_at_app in Hs as [Hs _]. rewrite <-(take_drop n s) in Hs. by apply bytes_at_app in Hs as [? _]. }
  pose proof (memcpy_Ret dst src m (take n s) Hb) as Hc. rewrite Hl in Hc.
  rewrite (bindM_Ret _ _ _ _ _ (Hc ltac:(eapply mapped_le; [|done]; lia) ltac:(auto) ltac:(lia))).
  rewrite store_Ret by (rewrite write_bytes_out by (rewrite Hl; lia); apply Hm; lia).
  eexists. split; [done|]. split.
  - split; [|by apply not_elem_take]. apply bytes_at_app. rewrite Hl. split.
    + apply bytes_at_insert; [rewrite Hl; lia|apply write_bytes_at].
    + apply bytes_at_cons. split; [by rewrite lookup_insert_eq|apply bytes_at_nil].
  - intros a Ha. unfold outside in Ha. rewrite lookup_insert_ne by lia. apply write_bytes_out. rewrite Hl. lia.
Qed.

(** ** strstr: the first occurrence *)
Definition occurs_at (needle haystack : list Z) (i : nat) : Prop :=
  take (length needle) (drop i haystack) = needle.
Lemma memcmp_Ret a b m xs ys :
  length xs = length ys → bytes_at m a xs → bytes_at m b ys → a ≠ null → b ≠ null →
  ∃ r, memcmp a b (length ys) m = Ret (r, m) ∧ (r = 0%Z ↔ xs = ys).
Proof.
  intros Hl Hx Hy Ha Hb. unfold memcmp.
  rewrite (bindM_Ret _ _ _ _ _ (assert_block_Ret m a (length ys) ltac:(auto))).
  rewrite (bindM_Ret _ _ _ _ _ (assert_block_Ret m b (length ys) ltac:(auto))).
  by apply memcmp_loop_Ret.
Qed.
Lemma strstr_loop_Ret k h n m hs ns i :
  cstr m h hs → cstr m n ns → h ≠ null → n ≠ null → (i + k = length hs - length ns + 1)%nat →
  (length ns ≤ length hs)%nat → (∀ j, (j < i)%nat → ¬ occurs_at ns hs j) →
  ∃ r, strstr_loop k h n (length ns) (N.of_nat i) m = Ret (r, m) ∧
    match r with
    | Some q => ∃ j, q = h + N.of_nat j ∧ occurs_at ns hs j ∧ ∀ j', (j' < j)%nat → ¬ occurs_at ns hs j'
    | None => ∀ j, (j ≤ length hs - length ns)%nat → ¬ occurs_at ns hs j
    end.
Proof.
  intros Hh Hn Nh Nn. revert i. induction k as [|k IH]; intros i Hi Hle Hno; cbn [strstr_loop].
  { exists None. split; [done|]. intros j Hj. apply Hno. lia. }
  assert (bytes_at m (h + N.of_nat i) (take (length ns) (drop i hs))) as Hb.
  { destruct Hh as [Hh _]. apply bytes_at_app in Hh as [Hh _]. rewrite <-(take_drop i hs) in Hh.
    apply bytes_at_app in Hh as [_ Hh]. rewrite length_take_le in Hh by lia.
    rewrite <-(take_drop (length ns) (drop i hs)) in Hh. by apply bytes_at_app in Hh as [? _]. }
  destruct (memcmp_Ret (h + N.of_nat i) n m (take (length ns) (drop i hs)) ns) as (r & E & Hr); try done.
  - rewrite length_take, length_drop. lia.
  - destruct Hn as [Hn _]. by apply bytes_at_app in Hn as [? _].
  - unfold null in *. lia.
  - rewrite (bindM_Ret _ _ _ _ _ E). destruct (Z.eqb_spec r 0) as [H0|H0].
    + eexists. split; [done|]. exists i. split; [done|]. split; [by apply Hr|done].
    + replace (N.of_nat i + 1) with (N.of_nat (S i)) by lia. apply IH; [lia|done|].
      intros j Hj Hoc. destruct (decide (j = i)) as [->|]; [by apply H0, Hr|]. apply (Hno j); [lia|done].
Qed.

(** ** Properties *)
(** C14. [memmove] on blocks that may overlap in either direction: it returns,
    the destination holds the bytes the source held before the call, nothing
    else changes.  The pointer it returns is the destination only when the
    destination is not below the source; otherwise it is the end of the
    destination block. *)
Theorem memmove_overlap dst src m bs :
  bytes_at m src bs → mapped m dst (length bs) → dst ≠ null → src ≠ null →
  ∃ m', memmove dst src (length bs) m =
      Ret (if dst <? src then dst + N.of_nat (length bs) else dst, m') ∧
    bytes_at m' dst bs ∧ ∀ a, outside dst (length bs) a → m' !! a = m !! a.
Proof.
  intros Hb Hm Hd Hs. exists (write_bytes dst bs m). split_and!.
  - unfold memmove. rewrite (bindM_Ret _ _ _ _ _ (assert_block_Ret m dst (length bs) ltac:(auto))).
    rewrite (bindM_Ret _ _ _ _ _ (assert_block_Ret m src (length bs) ltac:(auto))).
    destruct (N.ltb_spec dst src).
    + by rewrite (bindM_Ret _ _ _ _ _ (copy_up_Ret _ dst src m bs eq_refl Hb Hm ltac:(lia))).
    + by rewrite (bindM_Ret _ _ _ _ _ (copy_down_Ret _ dst src m bs eq_refl Hb Hm ltac:(lia))).
  - apply write_bytes_at.
  - intros a Ha. by apply write_bytes_out.
Qed.
Definition mem_of (p : addr) (bs : list Z) : mem := write_bytes p bs ∅.
Lemma memmove_overlap_witness :
  ∃ m', memmove 101 100 3 (mem_of 100 [1; 2; 3; 4]%Z) = Ret (101, m') ∧
    bytes_at m' 101 [1; 2; 3]%Z ∧ ∀ a, outside 101 3 a → m' !! a = mem_of 100 [1; 2; 3; 4]%Z !! a.
Proof.
  apply (memmove_overlap 101 100 (mem_of 100 [1; 2; 3; 4]%Z) [1; 2; 3]%Z); try done.
  - apply (proj1 (proj1 (bytes_at_app _ 100 [1; 2; 3] [4])%Z (write_bytes_at _ _ _))).
  - apply (bytes_at_mapped _ 101 [2; 3; 4]%Z).
    exact (proj2 (proj1 (bytes_at_cons _ 100 1 [2; 3; 4])%Z (write_bytes_at _ _ _))).
Defined.

(** [strcmp] is the lexicographic order on unsigned bytes: it returns 0 for
    equal strings only, it changes sign when its arguments are exchanged, and
    it is transitive. *)
Theorem strcmp_order m p q r a b c :
  cstr m p a → cstr m q b → cstr m r c → bytes a → bytes b → bytes c →
  p ≠ null → q ≠ null → r ≠ null →
  ∃ ab ba bc ac, strcmp p q m = Ret (ab, m) ∧ strcmp q p m = Ret (ba, m) ∧
    strcmp q r m = Ret (bc, m) ∧ strcmp p r m = Ret (ac, m) ∧
    (ab = 0%Z ↔ a = b) ∧ ab = (- ba)%Z ∧ ((ab < 0)%Z → (bc < 0)%Z → (ac < 0)%Z) ∧ ab = lex a b.
Proof.
  assert (∀ x y s t, cstr m x s → cstr m y t → bytes s → bytes t → x ≠ null → y ≠ null →
    strcmp x y m = Ret (lex s t, m)) as Hs.
  { intros x y s t Hx Hy Bs Bt Nx Ny. unfold strcmp, with_budget.
    rewrite (bindM_Ret _ _ _ _ _ (assert_ptr_Ret m x Nx)), (bindM_Ret _ _ _ _ _ (assert_ptr_Ret m y Ny)).
    apply strcmp_loop_Ret; try done. pose proof (cstr_size _ _ _ Hx). lia. }
  intros. exists (lex a b), (lex b a), (lex b c), (lex a c).
  do 4 (split; [by apply Hs|]). split; [apply lex_0|]. split; [apply lex_opp|]. split; [apply lex_trans|done].
Qed.
Lemma strcmp_order_witness :
  let m := mem_of 100 [97; 98; 0; 97; 99; 0; 98; 0]%Z in
  ∃ ab ba bc ac, strcmp 100 103 m = Ret (ab, m) ∧ strcmp 103 100 m = Ret (ba, m) ∧
    strcmp 103 106 m = Ret (bc, m) ∧ strcmp 100 106 m = Ret (ac, m) ∧
    (ab = 0%Z ↔ [97; 98]%Z = [97; 99]%Z) ∧ ab = (- ba)%Z ∧
    ((ab < 0)%Z → (bc < 0)%Z → (ac < 0)%Z) ∧ ab = (-1)%Z.
Proof.
  apply (strcmp_order (mem_of 100 [97; 98; 0; 97; 99; 0; 98; 0]%Z) 100 103 106 [97; 98]%Z [97; 99]%Z [98]%Z);
    rewrite ?cstr_cons, ?cstr_nil; try done; repeat constructor; done.
Defined.

(** C15. Tokenising with [strtok_r] until it returns a null pointer ends, and
    yields pointers to exactly the words of the string: the maximal nonempty
    runs of characters that are not delimiters, in order, each terminated.
    Only bytes of the string change. *)
Theorem strtok_words m p s d ds :
  cstr m p s → cstr m d ds → bytes s → p ≠ null → d ≠ null →
  (∀ a, d ≤ a ≤ d + N.of_nat (length ds) → outside p (length s) a) →
  ∃ ts m', strtok_all (S (length s)) (Some p) d null m = Ret (ts, m') ∧
    Forall2 (cstr m') ts (words ds s) ∧ ∀ a, outside p (length s) a → m' !! a = m !! a.
Proof.
  intros Hs Hd Bs Hp Hd0 Hdis. destruct (strtok_all_Ret d ds Hd0 (S (length s)) (Some p) null p m s) as (ts & m' & E & Hts & Hfr); try done; [lia|].
  exists ts, m'. split; [done|]. split; [|done]. eapply Forall2_impl; [exact Hts|]. by intros t w [? _].
Qed.
Lemma strtok_words_witness :
  let m := mem_of 100 [32; 97; 98; 32; 32; 99; 0; 32; 0]%Z in
  ∃ ts m', strtok_all 7 (Some 100) 107 null m = Ret (ts, m') ∧
    Forall2 (cstr m') ts [[97; 98]; [99]]%Z ∧ ∀ a, outside 100 6 a → m' !! a = m !! a.
Proof.
  apply (strtok_words (mem_of 100 [32; 97; 98; 32; 32; 99; 0; 32; 0]%Z) 100 [32; 97; 98; 32; 32; 99]%Z 107 [32]%Z);
    rewrite ?cstr_cons, ?cstr_nil; try done; [repeat constructor; done|].
  unfold outside. simpl. lia.
Defined.

(** [strlcpy] never writes past the buffer: for a buffer of [size] bytes
    apart from the source it returns the length of the source, the buffer holds
    the first [size - 1] characters and a terminator, and no other byte
    changes. *)
Theorem strlcpy_bounded m dst src size s :
  cstr m src s → dst ≠ null → src ≠ null → 0 < size → mapped m dst (N.to_nat size) →
  dst + size ≤ src ∨ src + N.of_nat (length s) < dst →
  ∃ m', strlcpy dst src size m = Ret (N.of_nat (length s), m') ∧
    cstr m' dst (truncated size s) ∧ ∀ a, outside dst (N.to_nat size) a → m' !! a = m !! a.
Proof.
  intros Hs Hd Hsrc Hsz Hm Hov. unfold strlcpy.
  rewrite (bindM_Ret _ _ _ _ _ (assert_ptr_Ret m dst Hd)), (bindM_Ret _ _ _ _ _ (assert_ptr_Ret m src Hsrc)).
  rewrite (bindM_Ret _ _ _ _ _ (strlen_Ret m src s Hs Hsrc)). destruct (N.ltb_spec 0 size); [|lia].
  set (n := if N.of_nat (length s) <? size - 1 then N.of_nat (length s) else size - 1).
  assert (n = N.min (N.of_nat (length s)) (size - 1)) as Hn by (unfold n; destruct (N.ltb_spec (N.of_nat (length s)) (size - 1)); lia).
  destruct (copy_terminated dst src (N.to_nat n) m s) as (m' & E & Hc & Hfr); try done; try lia.
  { eapply mapped_le; [|done]. lia. }
  rewrite N2Nat.id in E. rewrite (bindM_Ret _ _ _ _ _ E). exists m'. split; [done|]. split.
  - unfold truncated. destruct (decide (N.of_nat (length s) ≤ size - 1)).
    + rewrite take_ge in Hc |- * by lia. done.
    + by replace (N.to_nat (size - 1)) with (N.to_nat n) by lia.
  - intros a Ha. apply Hfr. unfold outside in *. lia.
Qed.
Lemma strlcpy_bounded_witness :
  let m := mem_of 100 [0; 0; 0; 97; 98; 99; 0]%Z in
  ∃ m', strlcpy 100 103 3 m = Ret (3, m') ∧ cstr m' 100 [97; 98]%Z ∧ ∀ a, outside 100 3 a → m' !! a = m !! a.
Proof.
  apply (strlcpy_bounded (mem_of 100 [0; 0; 0; 97; 98; 99; 0]%Z) 100 103 3 [97; 98; 99]%Z);
    rewrite ?cstr_cons, ?cstr_nil; try done; [|lia].
  apply (bytes_at_mapped _ 100 [0; 0; 0]%Z).
  exact (proj1 (proj1 (bytes_at_app _ 100 [0; 0; 0] [97; 98; 99; 0])%Z (write_bytes_at _ _ _))).
Defined.

(** [strstr] returns a pointer to the first position where the needle
    occurs in the haystack, or a null pointer when it occurs nowhere. *)
Theorem strstr_first m h n hs ns :
  cstr m h hs → cstr m n ns → h ≠ null → n ≠ null →
  ∃ r, strstr h n m = Ret (r, m) ∧
    match r with
    | Some q => ∃ j, q = h + N.of_nat j ∧ occurs_at ns hs j ∧ ∀ j', (j' < j)%nat → ¬ occurs_at ns hs j'
    | None => ∀ j, ¬ occurs_at ns hs j
    end.
Proof.
  intros Hh Hn Nh Nn. unfold strstr. rewrite (bindM_Ret _ _ _ _ _ (strlen_Ret m h hs Hh Nh)).
  rewrite (bindM_Ret _ _ _ _ _ (strlen_Ret m n ns Hn Nn)). rewrite Nat2N.id.
  assert (∀ j, (length hs - length ns < j)%nat ∨ (length hs < length ns)%nat → occurs_at ns hs j → ns = [] ∧ (length hs < j)%nat) as Hlen.
  { intros j Hj Hoc. pose proof (f_equal length Hoc) as Hl. rewrite length_take, length_drop in Hl.
    destruct ns; [split; [done|]|exfalso]; cbn [length] in *; lia. }
  destruct (N.leb_spec (N.of_nat (length ns)) (N.of_nat (length hs))) as [Hle|Hgt].
  - destruct (strstr_loop_Ret (N.to_nat (N.of_nat (length hs) - N.of_nat (length ns) + 1)) h n m hs ns 0) as (r & E & Hr);
      try done; try lia. exists r. split; [done|]. destruct r; [done|]. intros j Hoc.
    destruct (decide (j ≤ length hs - length ns)%nat); [by apply (Hr j)|].
    destruct (Hlen j) as [-> _]; [lia|done|]. apply (Hr 0%nat); [lia|]. by destruct hs.
  - eexists. split; [done|]. simpl. intros j Hoc. destruct (Hlen j) as [-> _]; [lia|done|]. simpl in *. lia.
Qed.
Lemma strstr_first_witness :
  let m := mem_of 100 [97; 97; 98; 0; 97; 98; 0]%Z in
  ∃ r, strstr 100 104 m = Ret (r, m) ∧
    match r with
    | Some q => ∃ j, q = 100 + N.of_nat j ∧ occurs_at [97; 98]%Z [97; 97; 98]%Z j ∧
        ∀ j', (j' < j)%nat → ¬ occurs_at [97; 98]%Z [97; 97; 98]%Z j'
    | None => ∀ j, ¬ occurs_at [97; 98]%Z [97; 97; 98]%Z j
    end.
Proof.
  apply (strstr_first (mem_of 100 [97; 97; 98; 0; 97; 98; 0]%Z) 100 104 [97; 97; 98]%Z [97; 98]%Z);
    rewrite ?cstr_cons, ?cstr_nil; done.
Defined.
