(* ===== verification/StdlibC.v ===== *)
(** * lib/stdlib.c: atoi, sorting and searching

    [sort] and [binary_search] work on an array of [cnt] elements of [size]
    bytes: a list of blocks, with the indexes of the source (1-based in the
    heap sort).  An index outside the array is [Panic]. *)

From stdpp Require Import base numbers list gmap sorting.
From S2P Require Import Prelude Memory CString.

(** ** ctype.h *)
Section ctype.
  Local Open Scope Z_scope.
Definition isdigit (c : Z) : bool := (48 <=? c) && (c <=? 57).
Definition isspace (c : Z) : bool :=
  (c =? 32) || (c =? 12) || (c =? 10) || (c =? 13) || (c =? 9) || (c =? 11).
Definition islower (c : Z) : bool := (97 <=? c) && (c <=? 122).
Definition isupper (c : Z) : bool := (65 <=? c) && (c <=? 90).
Definition isalpha (c : Z) : bool := islower c || isupper c.
Definition isalnum (c : Z) : bool := isalpha c || isdigit c.
Definition isxdigit (c : Z) : bool := isdigit c || ((97 <=? c) && (c <=? 102)) || ((65 <=? c) && (c <=? 70)).
Definition isblank (c : Z) : bool := (c =? 32) || (c =? 9).
Definition isgraph (c : Z) : bool := (32 <? c) && (c <? 127).
Definition isprint (c : Z) : bool := (32 <=? c) && (c <? 127).
Definition iscntrl (c : Z) : bool := ((0 <=? c) && (c <? 32)) || (c =? 127).
Definition isascii (c : Z) : bool := (0 <=? c) && (c <? 128).
Definition ispunct (c : Z) : bool := isprint c && negb (isalnum c) && negb (isspace c).
Definition tolower (c : Z) : Z := if isupper c then c - 65 + 97 else c.
Definition toupper (c : Z) : Z := if islower c then c - 97 + 65 else c.
End ctype.

(** ** atoi *)
Fixpoint skip_spaces (fuel : nat) (s : addr) : M mem addr :=
  match fuel with
  | O => noFuel
  | S fuel => do c <- load s; if isspace c then skip_spaces fuel (s + 1)%N else retM s
  end.
Fixpoint parse_digits (fuel : nat) (s : addr) (value : Z) : M mem Z :=
  match fuel with
  | O => noFuel
  | S fuel =>
      do c <- load s;
      if isdigit c then parse_digits fuel (s + 1)%N (i32 (i32 (value * 10) - (c - 48))) else retM value
  end.
Definition atoi (s : addr) : M mem Z :=
  run assert_ptr s;
  do s <- with_budget (λ n, skip_spaces n s);
  do c <- load s;
  let '(s, negative) :=
    if (c =? 43)%Z then ((s + 1)%N, false) else if (c =? 45)%Z then ((s + 1)%N, true) else (s, false) in
  do value <- with_budget (λ n, parse_digits n s 0);
  retM (if negative then value else i32 (- value)).

(** ** Sorting *)
Section array.
  Abbreviation block := (list Z).
  Context (size : nat) (compare : block → block → Z).

Definition get (array : list block) (idx : nat) : outcome block :=
  match idx, array !! (idx - 1) with S _, Some b => Ret b | _, _ => Panic end.
(** The loop of [do_swap], on the blocks [a] and [b], from the byte [i] on. *)
Fixpoint swap_loop (n i : nat) (a b : block) : outcome (block * block) :=
  match n with
  | O => Ret (a, b)
  | S n =>
      match a !! i, b !! i with
      | Some x, Some y => swap_loop n (S i) (<[i := y]> a) (<[i := x]> b)
      | _, _ => Panic
      end
  end.
Definition do_swap (array : list block) (a_idx b_idx : nat) : outcome (list block) :=
  try a <- get array a_idx; try b <- get array b_idx;
  try ab <- swap_loop size 0 a b;
  Ret (<[b_idx - 1 := snd ab]> (<[a_idx - 1 := fst ab]> array)).
Definition do_compare (array : list block) (a_idx b_idx : nat) : outcome Z :=
  try a <- get array a_idx; try b <- get array b_idx; Ret (compare a b).
(** [if (idx <= cnt && do_compare (array, idx, max, ...) > 0) max = idx] *)
Definition larger (array : list block) (cnt idx max : nat) : outcome nat :=
  if (idx <=? cnt)%nat
  then try r <- do_compare array idx max; Ret (if (0 <? r)%Z then idx else max)
  else Ret max.
(** A value of type [size_t]. *)
Definition size_t (n : nat) : nat := Z.to_nat (u32 (Z.of_nat n)).
Fixpoint heapify (fuel : nat) (array : list block) (i cnt : nat) : outcome (list block) :=
  match fuel with
  | O => NoFuel
  | S fuel =>
      try max <- larger array cnt (size_t (2 * i)) i;
      try max <- larger array cnt (size_t (2 * i + 1)) max;
      if (max =? i)%nat then Ret array
      else try array <- do_swap array i max; heapify fuel array max cnt
  end.
(** The two loops of [sort], which count [i] down; an iteration of [heapify]
    at least doubles its index while [2 * i + 1] does not wrap around, so [cnt]
    iterations are enough. *)
Fixpoint build_heap (i cnt : nat) (array : list block) : outcome (list block) :=
  match i with
  | O => Ret array
  | S i' => try array <- heapify (S cnt) array i cnt; build_heap i' cnt array
  end.
Fixpoint sort_heap (i : nat) (array : list block) : outcome (list block) :=
  match i with
  | O | 1%nat => Ret array
  | S i' =>
      try array <- do_swap array 1 i;
      try array <- heapify (S i') array 1 i';
      sort_heap i' array
  end.
Definition sort (array : list block) (cnt : nat) : outcome (list block) :=
  check (negb (size =? 0)%nat);
  try array <- build_heap (cnt `div` 2) cnt array;
  sort_heap cnt array.
(** [compare_thunk] calls the comparison function. *)
Definition qsort (array : list block) (cnt : nat) : outcome (list block) := sort array cnt.

(** ** Searching *)
(** [first] and [last] as indexes of elements. *)
Fixpoint search_loop (fuel : nat) (key : block) (array : list block) (first last : nat) : outcome (option nat) :=
  if (first <? last)%nat then
    match fuel with
    | O => NoFuel
    | S fuel =>
        let range := (last - first)%nat in
        let middle := (first + range `div` 2)%nat in
        match array !! middle with
        | None => Panic
        | Some x =>
            let cmp := compare key x in
            if (cmp <? 0)%Z then search_loop fuel key array first middle
            else if (0 <? cmp)%Z then search_loop fuel key array (middle + 1) last
            else Ret (Some middle)
        end
    end
  else Ret None.
Definition binary_search (key : block) (array : list block) (cnt : nat) : outcome (option nat) :=
  search_loop cnt key array 0 cnt.
Definition bsearch (key : block) (array : list block) (cnt : nat) : outcome (option nat) :=
  binary_search key array cnt.
End array.
