(* ===== verification/StdlibSpec.v ===== *)
(** * Correctness of lib/stdlib.c

    The heap sort returns a sorted permutation, the binary search finds a match
    iff there is one, [atoi] computes the value of a decimal numeral. *)

From stdpp Require Import base numbers list gmap sorting.
From S2P Require Import Prelude Memory CString CStringSpec StdlibC.

(** ** Swapping two blocks *)
Lemma swap_loop_Ret n i (a b : list Z) :
  length a = (i + n)%nat → length b = (i + n)%nat →
  swap_loop n i a b = Ret (take i a ++ drop i b, take i b ++ drop i a).
Proof.
  revert i a b. induction n as [|n IH]; intros i a b Ha Hb; simpl.
  - rewrite !take_ge, !drop_ge, !app_nil_r by lia. done.
  - destruct (lookup_lt_is_Some_2 a i ltac:(lia)) as [x Hx].
    destruct (lookup_lt_is_Some_2 b i ltac:(lia)) as [y Hy].
    rewrite Hx, Hy, IH by (rewrite length_insert; lia). do 2 f_equal.
    + rewrite (drop_S b y i Hy). rewrite (take_S_r _ i y) by (by rewrite list_lookup_insert_eq by lia).
      rewrite take_insert_ge, <-app_assoc by lia. simpl. by rewrite drop_insert_lt by lia.
    + rewrite (drop_S a x i Hx). rewrite (take_S_r _ i x) by (by rewrite list_lookup_insert_eq by lia).
      rewrite take_insert_ge, <-app_assoc by lia. simpl. by rewrite drop_insert_lt by lia.
Qed.
Lemma insert_cons_perm {A} (l : list A) j x y : l !! j = Some y → y :: <[j := x]> l ≡ₚ x :: l.
Proof.
  revert j. induction l as [|z l IH]; intros [|j] H; simpl in *; try done.
  - injection H as ->. apply Permutation_swap.
  - etransitivity; [apply Permutation_swap|]. rewrite (IH j H). apply Permutation_swap.
Qed.
Lemma swap_perm {A} (l : list A) i j x y :
  l !! i = Some x → l !! j = Some y → <[j := x]> (<[i := y]> l) ≡ₚ l.
Proof.
  revert i j. induction l as [|z l IH]; intros [|i] [|j] Hi Hj; simpl in *; try done.
  - by injection Hi as ->.
  - injection Hi as ->. by apply insert_cons_perm.
  - injection Hj as ->. by apply insert_cons_perm.
  - apply Permutation_cons; [done|]. by apply IH.
Qed.

Lemma StronglySorted_lookup {A} (R : A → A → Prop) (l : list A) :
  (∀ i j x y, (i < j)%nat → l !! i = Some x → l !! j = Some y → R x y) → StronglySorted R l.
Proof.
  induction l as [|x l IH]; intros H; constructor.
  - apply IH. intros i j a b Hij Ha Hb. apply (H (S i) (S j)); [lia|done|done].
  - apply Forall_forall. intros y [j Hj]%list_elem_of_lookup. apply (H 0%nat (S j)); [lia|done|done].
Qed.

(** ** The heap *)
(** A [strcmp]-like comparison function. *)
Class TotalCompare {A} (compare : A → A → Z) : Prop := {
  compare_total a b : (compare a b <= 0)%Z ↔ (0 <= compare b a)%Z;
  compare_trans a b c : (0 <= compare a b)%Z → (0 <= compare b c)%Z → (0 <= compare a c)%Z }.

Section heap.
  Context (size : nat) (compare : list Z → list Z → Z) `{!TotalCompare compare}.
  Implicit Types (arr : list (list Z)).
Definition blocks arr : Prop := Forall (λ b, length b = size) arr.
Definition elt arr (k : nat) : list Z := default [] (arr !! (k - 1)).
Definition ge arr (i j : nat) : Prop := (0 <= compare (elt arr i) (elt arr j))%Z.
Definition child (p c : nat) : Prop := c = (2 * p)%nat ∨ c = (2 * p + 1)%nat.
(** Every element from [lo] on is at least its children, up to [cnt]. *)
Definition heap_from arr (lo cnt : nat) : Prop :=
  ∀ k c, (lo ≤ k)%nat → child k c → (c ≤ cnt)%nat → ge arr k c.
(** The same, except at [j], whose children are at most its parent. *)
Definition heap_but arr (lo j cnt : nat) : Prop :=
  (∀ k c, (lo ≤ k)%nat → k ≠ j → child k c → (c ≤ cnt)%nat → ge arr k c) ∧
  (∀ p c, (lo ≤ p)%nat → child p j → child j c → (c ≤ cnt)%nat → ge arr p c).

Lemma compare_refl a : (0 <= compare a a)%Z.
Proof. destruct (Z.le_ge_cases 0 (compare a a)) as [|H]; [done|]. by apply compare_total in H. Qed.
Lemma compare_flip a b : (compare a b <= 0)%Z → (0 <= compare b a)%Z.
Proof. apply compare_total. Qed.
Lemma ge_trans arr i j k : ge arr i j → ge arr j k → ge arr i k.
Proof. apply compare_trans. Qed.

Lemma get_Ret arr k : (1 ≤ k ≤ length arr)%nat → get arr k = Ret (elt arr k).
Proof.
  intros Hk. unfold get, elt. destruct k as [|k]; [lia|].
  by destruct (lookup_lt_is_Some_2 arr (S k - 1) ltac:(lia)) as [x ->].
Qed.
Definition swapped arr (i j : nat) : list (list Z) := <[j - 1 := elt arr i]> (<[i - 1 := elt arr j]> arr).
Lemma elt_lookup arr k : (1 ≤ k ≤ length arr)%nat → arr !! (k - 1) = Some (elt arr k).
Proof. intros Hk. unfold elt. by destruct (lookup_lt_is_Some_2 arr (k - 1) ltac:(lia)) as [x ->]. Qed.
Lemma do_swap_Ret arr i j :
  blocks arr → (1 ≤ i ≤ length arr)%nat → (1 ≤ j ≤ length arr)%nat → do_swap size arr i j = Ret (swapped arr i j).
Proof.
  intros Hb Hi Hj. unfold do_swap. rewrite !get_Ret by done. simpl.
  assert (∀ k, (1 ≤ k ≤ length arr)%nat → length (elt arr k) = size) as Hl.
  { intros k Hk. by apply (Forall_lookup_1 _ _ _ _ Hb (elt_lookup arr k Hk)). }
  rewrite swap_loop_Ret by (by rewrite Hl). done.
Qed.
Lemma elt_swapped arr i j k :
  (1 ≤ i ≤ length arr)%nat → (1 ≤ j ≤ length arr)%nat → (1 ≤ k)%nat →
  elt (swapped arr i j) k = elt arr (if decide (k = j) then i else if decide (k = i) then j else k).
Proof.
  intros Hi Hj Hk. unfold swapped, elt at 1. destruct (decide (k = j)) as [->|Hkj].
  - rewrite list_lookup_insert_eq by (rewrite length_insert; lia). done.
  - rewrite list_lookup_insert_ne by lia. destruct (decide (k = i)) as [->|Hki].
    + by rewrite list_lookup_insert_eq by lia.
    + by rewrite list_lookup_insert_ne by lia.
Qed.
Lemma swapped_perm arr i j : (1 ≤ i ≤ length arr)%nat → (1 ≤ j ≤ length arr)%nat → swapped arr i j ≡ₚ arr.
Proof. intros. apply swap_perm; by apply elt_lookup. Qed.
Lemma swapped_drop arr i j cnt :
  (1 ≤ i ≤ cnt)%nat → (1 ≤ j ≤ cnt)%nat → drop cnt (swapped arr i j) = drop cnt arr.
Proof. intros. unfold swapped. by rewrite !drop_insert_lt by lia. Qed.

(** The first two steps of an iteration find a largest element among [i] and
    its children. *)
Lemma larger_Ret arr cnt idx max :
  (cnt ≤ length arr)%nat → (1 ≤ idx)%nat → (1 ≤ max ≤ length arr)%nat →
  ∃ r, larger compare arr cnt idx max = Ret r ∧ (r = max ∨ r = idx ∧ (idx ≤ cnt)%nat) ∧
    ge arr r max ∧ ((idx ≤ cnt)%nat → ge arr r idx).
Proof.
  intros Hc Hi Hm. unfold larger. destruct (Nat.leb_spec idx cnt).
  - unfold do_compare. rewrite !get_Ret by lia. simpl. eexists. split; [done|].
    destruct (Z.ltb_spec 0 (compare (elt arr idx) (elt arr max))); unfold ge.
    + split; [auto|]. split; [lia|]. intros _. apply compare_refl.
    + split; [auto|]. split; [apply compare_refl|]. intros _. by apply compare_flip.
  - exists max. split; [done|]. split; [auto|]. split; [apply compare_refl|lia].
Qed.
(** One swap moves the hole down. *)
Lemma heap_but_swap arr lo j mx cnt :
  (1 ≤ lo ≤ j)%nat → (j ≤ cnt)%nat → (cnt ≤ length arr)%nat → child j mx → (mx ≤ cnt)%nat →
  (∀ c, child j c → (c ≤ cnt)%nat → ge arr mx c) → ge arr mx j →
  heap_but arr lo j cnt → heap_but (swapped arr j mx) lo mx cnt.
Proof.
  intros Hlo Hj Hcnt Hch Hmx Hmax Hge [H1 H2]. unfold child in *.
  assert (∀ k, (1 ≤ k)%nat → elt (swapped arr j mx) k =
    elt arr (if decide (k = mx) then j else if decide (k = j) then mx else k)) as He.
  { intros k Hk. apply elt_swapped; lia. }
  split.
  - intros k c Hk Hkm Hc Hcc. unfold child in Hc. unfold ge. rewrite !He by lia. rewrite (decide_False (P := k = mx)) by done.
    destruct (decide (k = j)) as [->|Hkj].
    + destruct (decide (c = mx)) as [->|]; [done|]. rewrite decide_False by lia. by apply Hmax.
    + rewrite (decide_False (P := c = mx)) by lia. destruct (decide (c = j)) as [->|].
      * apply (H2 k mx); lia.
      * apply H1; lia.
  - intros p c Hp Hpm Hc Hcc. unfold child in Hc, Hpm. assert (p = j) as -> by lia. unfold ge. rewrite !He by lia.
    rewrite decide_False by lia. rewrite decide_True by done.
    rewrite (decide_False (P := c = mx)), (decide_False (P := c = j)) by lia. apply H1; lia.
Qed.
Lemma heap_but_done arr lo j cnt :
  heap_but arr lo j cnt → (∀ c, child j c → (c ≤ cnt)%nat → ge arr j c) → heap_from arr lo cnt.
Proof.
  intros [H1 _] Hj k c Hk Hc Hcc. destruct (decide (k = j)) as [->|]; [by apply Hj|by apply H1].
Qed.
Lemma size_t_small n : (Z.of_nat n < 2 ^ 32)%Z → size_t n = n.
Proof. intros H. unfold size_t. rewrite u32_small by lia. lia. Qed.
Lemma heapify_Ret fuel arr lo j cnt :
  (Z.of_nat cnt < 2 ^ 31)%Z → (1 ≤ lo ≤ j)%nat → (j ≤ cnt)%nat → (cnt ≤ length arr)%nat → blocks arr → (cnt - j < fuel)%nat →
  heap_but arr lo j cnt →
  ∃ arr', heapify size compare fuel arr j cnt = Ret arr' ∧ arr' ≡ₚ arr ∧
    drop cnt arr' = drop cnt arr ∧ heap_from arr' lo cnt.
Proof.
  intros H31. revert arr j. induction fuel as [|fuel IH]; intros arr j Hlo Hj Hcnt Hb Hf Hh; [lia|]. cbn [heapify].
  rewrite !size_t_small by lia.
  destruct (larger_Ret arr cnt (2 * j) j) as (m1 & -> & Hm1 & Hg1 & Hc1); [done|lia|lia|]. cbn [obind].
  destruct (larger_Ret arr cnt (2 * j + 1) m1) as (m2 & -> & Hm2 & Hg2 & Hc2); [done|lia|lia|]. cbn [obind].
  assert (∀ c, child j c → (c ≤ cnt)%nat → ge arr m2 c) as Hmax.
  { intros c [->| ->] Hc; [eapply ge_trans; [exact Hg2|auto]|auto]. }
  destruct (Nat.eqb_spec m2 j) as [->|Hne].
  { exists arr. split_and!; try done. by apply (heap_but_done arr lo j). }
  assert (child j m2 ∧ (m2 ≤ cnt)%nat) as [Hch Hmc] by (unfold child; lia).
  rewrite do_swap_Ret by (done || lia). cbn [obind].
  assert (swapped arr j m2 ≡ₚ arr) as Hp by (apply swapped_perm; lia).
  destruct (IH (swapped arr j m2) m2) as (arr' & E & Hp' & Hd' & Hh'); try (unfold child in *; lia).
  - by rewrite Hp.
  - unfold blocks. by rewrite Hp.
  - apply heap_but_swap; try done. by eapply ge_trans.
  - exists arr'. split_and!; [done|by rewrite Hp'| |done]. rewrite Hd'. apply swapped_drop; lia.
Qed.

(** ** Building the heap *)
Lemma build_heap_Ret i arr cnt :
  (Z.of_nat cnt < 2 ^ 31)%Z → (i ≤ cnt)%nat → cnt = length arr → blocks arr → heap_from arr (S i) cnt →
  ∃ arr', build_heap size compare i cnt arr = Ret arr' ∧ arr' ≡ₚ arr ∧ heap_from arr' 1 cnt.
Proof.
  intros H31. revert arr. induction i as [|i IH]; intros arr Hi Hc Hb Hh; [by exists arr|]. cbn [build_heap].
  destruct (heapify_Ret (S cnt) arr (S i) (S i) cnt) as (arr1 & -> & Hp & _ & Hh1); try done; try lia.
  { split; [intros k c Hk Hne; apply Hh; lia|]. intros p c Hp [?|?]; lia. }
  cbn [obind]. destruct (IH arr1) as (arr' & E & Hp' & Hh'); try done; try lia.
  - by rewrite Hp.
  - unfold blocks. by rewrite Hp.
  - exists arr'. split_and!; [done|by rewrite Hp'|done].
Qed.
Lemma heap_root arr cnt k : heap_from arr 1 cnt → (1 ≤ k ≤ cnt)%nat → ge arr 1 k.
Proof.
  intros Hh. induction k as [k IH] using lt_wf_ind. intros Hk.
  destruct (decide (k = 1%nat)) as [->|Hne]; [apply compare_refl|].
  pose proof (Nat.div_mod k 2 ltac:(lia)). pose proof (Nat.mod_upper_bound k 2 ltac:(lia)).
  apply (ge_trans arr 1 (k `div` 2)); [apply IH; lia|]. apply Hh; [lia|unfold child; lia|lia].
Qed.

(** ** Taking the heap apart *)
(** The elements beyond [i] are at least all elements before them. *)
Definition tail_ok arr (i : nat) : Prop :=
  ∀ a b, (1 ≤ a < b)%nat → (b ≤ length arr)%nat → (i < b)%nat → ge arr b a.
Lemma elt_perm arr arr' c a :
  arr' ≡ₚ arr → drop c arr' = drop c arr → (1 ≤ a ≤ c)%nat → (c ≤ length arr)%nat →
  ∃ a', (1 ≤ a' ≤ c)%nat ∧ elt arr' a = elt arr a'.
Proof.
  intros Hp Hd Ha Hc.
  assert (take c arr' ≡ₚ take c arr) as Ht.
  { apply (Permutation_app_inv_r (drop c arr)). rewrite <-Hd at 1. by rewrite !take_drop. }
  assert (elt arr' a ∈ take c arr') as Hin.
  { apply list_elem_of_lookup. exists (a - 1)%nat. rewrite lookup_take_lt by lia.
    apply elt_lookup. rewrite Hp. lia. }
  rewrite Ht in Hin. apply list_elem_of_lookup in Hin as [k Hk].
  pose proof (lookup_lt_Some _ _ _ Hk) as Hl. rewrite length_take in Hl. rewrite lookup_take_lt in Hk by lia.
  exists (S k). split; [lia|]. unfold elt at 2. replace (S k - 1)%nat with k by lia. by rewrite Hk.
Qed.
Lemma tail_ok_perm arr arr' c :
  arr' ≡ₚ arr → drop c arr' = drop c arr → (c ≤ length arr)%nat → tail_ok arr c → tail_ok arr' c.
Proof.
  intros Hp Hd Hc Ht a b Hab Hb Hcb. rewrite Hp in Hb.
  assert (∀ k, (c < k)%nat → elt arr' k = elt arr k) as Hsame.
  { intros k Hk. unfold elt. replace (k - 1)%nat with (c + (k - 1 - c))%nat by lia.
    by rewrite <-!lookup_drop, Hd. }
  unfold ge. rewrite (Hsame b) by done. destruct (decide (a ≤ c)%nat).
  - destruct (elt_perm arr arr' c a) as (a' & Ha' & ->); try done; try lia. apply Ht; lia.
  - rewrite Hsame by lia. apply Ht; lia.
Qed.
Lemma tail_ok_swap arr i :
  (2 ≤ i ≤ length arr)%nat → heap_from arr 1 i → tail_ok arr i → tail_ok (swapped arr 1 i) (i - 1).
Proof.
  intros Hi Hh Ht a b Hab Hb Hib. unfold ge. rewrite swapped_perm in Hb by lia.
  rewrite !elt_swapped by lia. destruct (decide (b = i)) as [->|Hbi].
  - rewrite (decide_False (P := a = i)) by lia. destruct (decide (a = 1%nat)); apply (heap_root arr i); try done; lia.
  - rewrite (decide_False (P := b = 1%nat)) by lia.
    destruct (decide (a = i)) as [->|]; [apply Ht; lia|]. destruct (decide (a = 1%nat)); apply Ht; lia.
Qed.
Lemma heap_but_root arr i :
  (2 ≤ i ≤ length arr)%nat → heap_from arr 1 i → heap_but (swapped arr 1 i) 1 1 (i - 1).
Proof.
  intros Hi Hh. split.
  - intros k c Hk Hne Hc Hci. assert (k < i ∧ c < i ∧ 1 < c)%nat by (unfold child in Hc; lia).
    unfold ge. rewrite !elt_swapped by lia. rewrite !decide_False by lia. apply Hh; (done || lia).
  - intros p c Hp [?|?]; lia.
Qed.
Lemma sort_heap_Ret i arr :
  (Z.of_nat (length arr) < 2 ^ 31)%Z → (i ≤ length arr)%nat → blocks arr → heap_from arr 1 i → tail_ok arr i →
  ∃ arr', sort_heap size compare i arr = Ret arr' ∧ arr' ≡ₚ arr ∧ tail_ok arr' 1.
Proof.
  revert arr. induction i as [|i IH]; intros arr H31 Hi Hb Hh Ht.
  { exists arr. split_and!; [done..|]. intros a b Hab Hl Hb1. apply Ht; lia. }
  destruct i as [|i]; [by exists arr|]. set (n := S (S i)) in *.
  change (sort_heap size compare n arr) with
    (try arr <- do_swap size arr 1 n; try arr <- heapify size compare (S (S i)) arr 1 (S i); sort_heap size compare (S i) arr).
  rewrite do_swap_Ret by (done || lia). cbn [obind].
  assert (swapped arr 1 n ≡ₚ arr) as Hp by (apply swapped_perm; lia).
  destruct (heapify_Ret (S (S i)) (swapped arr 1 n) 1 1 (S i)) as (arr1 & -> & Hp1 & Hd1 & Hh1); try lia.
  - rewrite Hp. lia.
  - unfold blocks. by rewrite Hp.
  - apply (heap_but_root arr n); [lia|done].
  - cbn [obind]. destruct (IH arr1) as (arr' & E & Hp' & Ht').
    + by rewrite Hp1, Hp.
    + rewrite Hp1, Hp. lia.
    + unfold blocks. by rewrite Hp1, Hp.
    + done.
    + eapply tail_ok_perm; [exact Hp1|exact Hd1|rewrite Hp; lia|]. apply (tail_ok_swap arr n); [lia|done|done].
    + exists arr'. split_and!; [done|by rewrite Hp', Hp1, Hp|done].
Qed.

Lemma tail_ok_sorted arr : tail_ok arr 1 → StronglySorted (λ a b, compare a b <= 0)%Z arr.
Proof.
  intros Ht. apply StronglySorted_lookup. intros i j x y Hij Hx Hy.
  apply compare_total. pose proof (lookup_lt_Some _ _ _ Hy).
  pose proof (Ht (S i) (S j) ltac:(lia) ltac:(lia) ltac:(lia)) as Hg. unfold ge, elt in Hg.
  replace (S i - 1)%nat with i in Hg by lia. replace (S j - 1)%nat with j in Hg by lia. by rewrite Hx, Hy in Hg.
Qed.

(** ** Properties *)
(** C16. [sort] (and [qsort]) is a correct sort: on an array of blocks of [size]
    bytes, fewer than 2^31 of them so that the heap indexes of type [size_t] do
    not wrap around, with a comparison function that is a total preorder, it
    returns, the result is a permutation of the array, and each element compares
    at most to every element after it. *)
Theorem sort_sorts arr :
  size ≠ 0%nat → (Z.of_nat (length arr) < 2 ^ 31)%Z → blocks arr →
  ∃ arr', sort size compare arr (length arr) = Ret arr' ∧ arr' ≡ₚ arr ∧
    StronglySorted (λ a b, compare a b <= 0)%Z arr'.
Proof.
  intros Hs H31 Hb. unfold sort. rewrite (proj2 (Nat.eqb_neq size 0)) by done. cbn [negb assertO obind].
  destruct (build_heap_Ret (length arr `div` 2) arr (length arr)) as (arr1 & -> & Hp1 & Hh1); try done.
  - apply Nat.Div0.div_le_upper_bound; lia.
  - intros k c Hk Hc Hl. pose proof (Nat.div_mod (length arr) 2 ltac:(lia)).
    pose proof (Nat.mod_upper_bound (length arr) 2 ltac:(lia)). unfold child in Hc. lia.
  - cbn [obind]. destruct (sort_heap_Ret (length arr) arr1) as (arr' & E & Hp' & Ht').
    + by rewrite Hp1.
    + by rewrite Hp1.
    + unfold blocks. by rewrite Hp1.
    + done.
    + intros a b Hab Hl Hb'. rewrite Hp1 in Hl. lia.
    + exists arr'. split; [done|]. split; [by rewrite Hp', Hp1|]. by apply tail_ok_sorted.
Qed.
End heap.
Definition byte_compare (a b : list Z) : Z := lex a b.
#[global] Instance byte_compare_total : TotalCompare byte_compare.
Proof.
  unfold byte_compare. split.
  - intros a b. rewrite (lex_opp a b). lia.
  - intros a b c Hab Hbc. destruct (Z.le_gt_cases 0 (lex a c)) as [|Hac]; [done|].
    destruct (decide (lex a b = 0)%Z) as [->%lex_0|Hn]; [done|].
    destruct (decide (lex b c = 0)%Z) as [<-%lex_0|Hm]; [done|].
    rewrite lex_opp in Hab, Hbc, Hn, Hm.
    pose proof (lex_trans c b a ltac:(lia) ltac:(lia)) as H. rewrite lex_opp in H. lia.
Qed.
Lemma sort_sorts_witness :
  ∃ arr', sort 1 byte_compare [[3]; [1]; [2]; [1]]%Z 4 = Ret arr' ∧ arr' ≡ₚ [[3]; [1]; [2]; [1]]%Z ∧
    StronglySorted (λ a b, byte_compare a b <= 0)%Z arr'.
Proof. apply (sort_sorts 1 byte_compare [[3]; [1]; [2]; [1]]%Z); [done|done|]. repeat constructor. Defined.

(** ** Searching *)
Section search.
  Context (compare : list Z → list Z → Z) (key : list Z) (arr : list (list Z)).
  (** The array is sorted by [compare] with the key: the elements that are less
      than the key come first, those that are greater last. *)
  Hypothesis Hsorted : ∀ i j x y, (i < j)%nat → arr !! i = Some x → arr !! j = Some y →
    (compare key x < 0 → compare key y < 0)%Z ∧ (0 < compare key y → 0 < compare key x)%Z.

Lemma search_loop_Ret fuel first last :
  (first ≤ last ≤ length arr)%nat → (last - first ≤ fuel)%nat →
  (∀ i x, (i < first)%nat → arr !! i = Some x → compare key x ≠ 0%Z) →
  (∀ i x, (last ≤ i)%nat → arr !! i = Some x → compare key x ≠ 0%Z) →
  ∃ r, search_loop compare fuel key arr first last = Ret r ∧
    match r with
    | Some i => ∃ x, arr !! i = Some x ∧ compare key x = 0%Z
    | None => ∀ i x, arr !! i = Some x → compare key x ≠ 0%Z
    end.
Proof.
  revert first last. induction fuel as [|fuel IH]; intros first last Hfl Hf H1 H2; simpl.
  all: destruct (Nat.ltb_spec first last) as [Hlt|Hge]; [try lia|exists None; split; [done|];
    intros i x Hx; destruct (decide (i < first)%nat); [by apply (H1 i x)|apply (H2 i x); [lia|done]]].
  fold (Nat.div (last - first) 2).
  set (middle := (first + (last - first) `div` 2)%nat).
  assert (first ≤ middle < last)%nat as Hm.
  { unfold middle. pose proof (Nat.div_lt (last - first) 2 ltac:(lia) ltac:(lia)). lia. }
  destruct (lookup_lt_is_Some_2 arr middle ltac:(lia)) as [x Hx]. rewrite Hx.
  destruct (Z.ltb_spec (compare key x) 0) as [Hc|Hc].
  - apply IH; [lia|lia|done|]. intros i y Hi Hy. destruct (decide (i = middle)) as [->|]; [naive_solver lia|].
    destruct (Hsorted middle i x y ltac:(lia) Hx Hy) as [Hs _]. specialize (Hs Hc). lia.
  - destruct (Z.ltb_spec 0 (compare key x)) as [Hc'|Hc'].
    + apply IH; [lia|lia| |done]. intros i y Hi Hy. destruct (decide (i = middle)) as [->|]; [naive_solver lia|].
      destruct (Hsorted i middle y x ltac:(lia) Hy Hx) as [_ Hs]. specialize (Hs Hc'). lia.
    + eexists. split; [done|]. exists x. split; [done|lia].
Qed.
(** [binary_search] (and [bsearch]) on a sorted array returns after at most
    [cnt] steps, with the index of an element that compares equal to the key if
    there is one, and a null pointer otherwise. *)
Theorem binary_search_finds :
  ∃ r, binary_search compare key arr (length arr) = Ret r ∧
    match r with
    | Some i => ∃ x, arr !! i = Some x ∧ compare key x = 0%Z
    | None => ∀ i x, arr !! i = Some x → compare key x ≠ 0%Z
    end.
Proof.
  apply search_loop_Ret; [lia|lia|lia|]. intros i x Hi Hx. apply lookup_lt_Some in Hx. lia.
Qed.
End search.
Lemma binary_search_finds_witness :
  ∃ r, binary_search byte_compare [2]%Z [[1]; [2]; [4]]%Z 3 = Ret r ∧
    match r with
    | Some i => ∃ x, [[1]; [2]; [4]]%Z !! i = Some x ∧ byte_compare [2]%Z x = 0%Z
    | None => ∀ i x, [[1]; [2]; [4]]%Z !! i = Some x → byte_compare [2]%Z x ≠ 0%Z
    end.
Proof.
  apply (binary_search_finds byte_compare [2]%Z [[1]; [2]; [4]]%Z).
  intros [|[|[|i]]] [|[|[|j]]] x y Hij Hx Hy; try lia; simpl in *; simplify_eq; done.
Defined.

(** ** atoi *)
(** The value of a list of decimal digits. *)
Definition decimal (ds : list Z) : Z := fold_left (λ v d, v * 10 + (d - 48))%Z ds 0%Z.
Definition starts_with_digit (s : list Z) : bool := match s with c :: _ => isdigit c | [] => false end.
Lemma i32_step v c : i32 (i32 (i32 (- v) * 10) - (c - 48)) = i32 (- (v * 10 + (c - 48))).
Proof.
  destruct (i32_eqm (- v)) as [k ->].
  replace ((- v + k * 2 ^ 32) * 10)%Z with (- v * 10 + (k * 10) * 2 ^ 32)%Z by ring. rewrite i32_add_mult.
  destruct (i32_eqm (- v * 10)) as [k' ->].
  replace (- v * 10 + k' * 2 ^ 32 - (c - 48))%Z with (- (v * 10 + (c - 48)) + k' * 2 ^ 32)%Z by ring.
  apply i32_add_mult.
Qed.
Lemma i32_opp_i32 v : i32 (- i32 (- v)) = i32 v.
Proof.
  destruct (i32_eqm (- v)) as [k ->]. replace (- (- v + k * 2 ^ 32))%Z with (v + - k * 2 ^ 32)%Z by ring.
  apply i32_add_mult.
Qed.
Lemma parse_digits_Ret fuel p m ds rest v :
  cstr m p (ds ++ rest) → Forall (λ c, isdigit c = true) ds → starts_with_digit rest = false →
  (length (ds ++ rest) < fuel)%nat →
  parse_digits fuel p (i32 (- v)) m = Ret (i32 (- fold_left (λ v d, v * 10 + (d - 48))%Z ds v), m).
Proof.
  intros Hs Hd Hr. revert fuel p v Hs. induction Hd as [|c ds Hc Hd IH]; intros [|fuel] p v Hs Hf; simpl in *; try lia.
  - destruct rest as [|c rest]; [apply cstr_nil in Hs; by rd Hs|].
    apply cstr_cons in Hs as (_ & Hc & _). rd Hc. simpl in Hr. by rewrite Hr.
  - apply cstr_cons in Hs as (_ & Hb & Hs). rd Hb. rewrite Hc, i32_step. apply IH; [done|lia].
Qed.
Lemma skip_spaces_Ret fuel p m sp c s :
  cstr m p (sp ++ c :: s) → Forall (λ c, isspace c = true) sp → isspace c = false →
  (length sp < fuel)%nat → skip_spaces fuel p m = Ret ((p + N.of_nat (length sp))%N, m).
Proof.
  intros Hs Hsp Hc. revert fuel p Hs. induction Hsp as [|x sp Hx Hsp IH]; intros [|fuel] p Hs Hf; simpl in *; try lia.
  - apply cstr_cons in Hs as (_ & Hb & _). rd Hb. rewrite Hc. by rewrite N.add_0_r.
  - apply cstr_cons in Hs as (_ & Hb & Hs). rd Hb. rewrite Hx. rewrite IH; [|done|lia]. do 2 f_equal. lia.
Qed.
Lemma digit_not c x : isdigit c = true → (x < 48 ∨ 57 < x)%Z → c ≠ x.
Proof. unfold isdigit. rewrite andb_true_iff, !Z.leb_le. lia. Qed.
Lemma digit_not_space c : isdigit c = true → isspace c = false.
Proof. unfold isdigit, isspace. rewrite andb_true_iff, !Z.leb_le. intros. rewrite !orb_false_iff, !Z.eqb_neq. lia. Qed.

(** [atoi] on optional white space, an optional sign and a decimal numeral
    that ends at the first character that is not a digit returns its value,
    reduced to the range of [int]: exact whenever the value is representable,
    [INT_MIN] included. *)
Theorem atoi_value m p sp sign ds rest :
  cstr m p (sp ++ sign ++ ds ++ rest) → p ≠ null → Forall (λ c, isspace c = true) sp →
  sign = [] ∨ sign = [43]%Z ∨ sign = [45]%Z → ds ≠ [] → Forall (λ c, isdigit c = true) ds →
  starts_with_digit rest = false →
  atoi p m = Ret (i32 (if bool_decide (sign = [45]%Z) then - decimal ds else decimal ds), m).
Proof.
  intros Hs Hp Hsp Hsign Hne Hds Hrest. unfold atoi.
  rewrite (bindM_Ret _ _ _ _ _ (assert_ptr_Ret m p Hp)).
  assert (∃ c s, sign ++ ds ++ rest = c :: s ∧ isspace c = false) as (c & s & Ec & Hc).
  { destruct Hsign as [->|[->| ->]]; [|eauto..]. destruct ds as [|c ds]; [done|].
    apply Forall_cons in Hds as [Hc _]. exists c, (ds ++ rest). split; [done|by apply digit_not_space]. }
  pose proof (cstr_size _ _ _ Hs) as Hsz. rewrite length_app in Hsz.
  assert (cstr m p (sp ++ c :: s)) as Hs' by (by rewrite <-Ec).
  rewrite (bindM_Ret (with_budget (λ n, skip_spaces n p)) _ _ _ _
    (skip_spaces_Ret (S (size m)) p m sp c s Hs' Hsp Hc ltac:(lia))).
  set (q := (p + N.of_nat (length sp))%N). pose proof (cstr_app_drop _ _ _ _ Hs) as Hq. fold q in Hq.
  assert (∀ q', cstr m q' (ds ++ rest) →
    with_budget (λ n, parse_digits n q' 0) m = Ret (i32 (- decimal ds), m)) as Hdig.
  { intros q' Hq'. apply (parse_digits_Ret (S (size m)) q' m ds rest 0 Hq' Hds Hrest).
    pose proof (cstr_size _ _ _ Hq'). lia. }
  assert (cstr m q (c :: s)) as Hqc by (by rewrite <-Ec). apply cstr_cons in Hqc as (_ & Hb & Hqs). rd Hb.
  destruct Hsign as [->|[->| ->]]; simpl in Ec.
  - destruct ds as [|d ds]; [done|]. injection Ec as -> _. apply Forall_cons in Hds as [Hd _].
    rewrite (proj2 (Z.eqb_neq c 43)), (proj2 (Z.eqb_neq c 45)) by (apply digit_not; [done|lia]).
    rewrite (bindM_Ret _ _ _ _ _ (Hdig q Hq)). unfold retM. by rewrite i32_opp_i32.
  - injection Ec as <- <-. simpl. rewrite (bindM_Ret _ _ _ _ _ (Hdig (q + 1)%N Hqs)). unfold retM.
    by rewrite i32_opp_i32.
  - injection Ec as <- <-. simpl. by rewrite (bindM_Ret _ _ _ _ _ (Hdig (q + 1)%N Hqs)).
Qed.
Lemma atoi_value_witness :
  atoi 100 (mem_of 100 [32; 45; 50; 49; 52; 55; 52; 56; 51; 54; 52; 56; 0]%Z) =
  Ret ((-2147483648)%Z, mem_of 100 [32; 45; 50; 49; 52; 55; 52; 56; 51; 54; 52; 56; 0]%Z).
Proof.
  apply (atoi_value _ 100 [32]%Z [45]%Z [50; 49; 52; 55; 52; 56; 51; 54; 52; 56]%Z []); simpl;
    rewrite ?cstr_cons, ?cstr_nil; try done; [repeat constructor|auto|repeat constructor].
Defined.
