(* ===== verification/Stdio.v ===== *)
(** * lib/stdio.c: formatted output

    A format string is the list of its characters, without the terminator; the
    variable arguments are the 32-bit words of the argument area, from the next
    one on.  Strings are read from byte memory, and the function that takes the
    output is a parameter, with a state of its own: the buffer of [vsnprintf],
    the console, or the buffer of a user program's [vhprintf].  Reading past the
    terminator of the format or past the arguments, and writing past the digit
    buffer, is [Panic]. *)

From Stdlib Require Import Ascii String.
From stdpp Require Import base numbers list gmap.
From S2P Require Import Prelude Memory CString StdlibC.
Local Open Scope Z_scope.

Definition ch (c : ascii) : Z := Z.of_N (N_of_ascii c).
Definition str (s : string) : list Z := ch <$> list_ascii_of_string s.

(** ** Conversions *)
Definition MINUS : Z := Z.shiftl 1 0.
Definition PLUS : Z := Z.shiftl 1 1.
Definition SPACE : Z := Z.shiftl 1 2.
Definition POUND : Z := Z.shiftl 1 3.
Definition ZERO : Z := Z.shiftl 1 4.
Definition GROUP : Z := Z.shiftl 1 5.
Inductive arg_type := CHAR | SHORT | INT | INTMAX | LONG | LONGLONG | PTRDIFFT | SIZET.
Record printf_conversion := PrintfConversion { flags : Z; width : Z; precision : Z; type : arg_type }.
Definition has (c : printf_conversion) (flag : Z) : bool := negb (Z.land (flags c) flag =? 0).
Record integer_base := IntegerBase { base : Z; digits : list Z; x_ : Z; group : Z }.
Definition base_d := IntegerBase 10 (str "0123456789") 0 3.
Definition base_o := IntegerBase 8 (str "01234567") 0 3.
Definition base_x := IntegerBase 16 (str "0123456789abcdef") (ch "x") 4.
Definition base_X := IntegerBase 16 (str "0123456789ABCDEF") (ch "X") 4.

(** [*format]; [format++]. *)
Definition peek (format : list Z) : Z := match format with c :: _ => c | [] => 0 end.
Definition advance (format : list Z) : outcome (list Z) :=
  match format with _ :: format => Ret format | [] => Panic end.
(** [va_arg], of a type of 32 and of 64 bits. *)
Definition va_word (args : list Z) : outcome (Z * list Z) :=
  match args with w :: args => Ret (w, args) | [] => Panic end.
Definition va_dword (args : list Z) : outcome (Z * list Z) :=
  match args with lo :: hi :: args => Ret (lo + hi * 2 ^ 32, args) | _ => Panic end.

Fixpoint parse_flags (format : list Z) (fl : Z) : Z * list Z :=
  match format with
  | [] => (fl, [])
  | c :: rest =>
      if c =? ch "-" then parse_flags rest (Z.lor fl MINUS)
      else if c =? ch "+" then parse_flags rest (Z.lor fl PLUS)
      else if c =? ch " " then parse_flags rest (Z.lor fl SPACE)
      else if c =? ch "#" then parse_flags rest (Z.lor fl POUND)
      else if c =? ch "0" then parse_flags rest (Z.lor fl ZERO)
      else if c =? ch "'" then parse_flags rest (Z.lor fl GROUP)
      else (fl, format)
  end.
Fixpoint parse_number (format : list Z) (n : Z) : Z * list Z :=
  match format with
  | [] => (n, [])
  | c :: rest => if isdigit c then parse_number rest (i32 (n * 10 + c - 48)) else (n, format)
  end.
Definition parse_width (format args : list Z) : outcome (Z * list Z * list Z) :=
  if peek format =? ch "*" then
    try format <- advance format; try '(w, args) <- va_word args; Ret (i32 w, format, args)
  else let '(n, format) := parse_number format 0 in Ret (n, format, args).
Definition parse_precision (format args : list Z) : outcome (Z * list Z * list Z) :=
  if peek format =? ch "." then
    try format <- advance format;
    try '(p, format, args) <- parse_width format args;
    Ret (if p <? 0 then -1 else p, format, args)
  else Ret (-1, format, args).
Definition parse_type (format : list Z) : arg_type * list Z :=
  match format with
  | [] => (INT, [])
  | c :: rest =>
      if c =? ch "h" then if peek rest =? ch "h" then (CHAR, tail rest) else (SHORT, rest)
      else if c =? ch "j" then (INTMAX, rest)
      else if c =? ch "l" then if peek rest =? ch "l" then (LONGLONG, tail rest) else (LONG, rest)
      else if c =? ch "t" then (PTRDIFFT, rest)
      else if c =? ch "z" then (SIZET, rest)
      else (INT, format)
  end.
Definition parse_conversion (format args : list Z) : outcome (printf_conversion * list Z * list Z) :=
  let '(fl, format) := parse_flags format 0 in
  let fl := if Z.land fl MINUS =? 0 then fl else Z.land fl (Z.lnot ZERO) in
  let fl := if Z.land fl PLUS =? 0 then fl else Z.land fl (Z.lnot SPACE) in
  try '(w, format, args) <- parse_width format args;
  let '(w, fl) := if w <? 0 then (i32 (- w), Z.lor fl MINUS) else (w, fl) in
  try '(p, format, args) <- parse_precision format args;
  let fl := if 0 <=? p then Z.land fl (Z.lnot ZERO) else fl in
  let '(ty, format) := parse_type format in
  Ret (PrintfConversion fl w p ty, format, args).

(** ** Arguments *)
Definition i8 (z : Z) : Z := (z + 2 ^ 7) `mod` 2 ^ 8 - 2 ^ 7.
Definition i16 (z : Z) : Z := (z + 2 ^ 15) `mod` 2 ^ 16 - 2 ^ 15.
Definition signed_arg (ty : arg_type) (args : list Z) : outcome (Z * list Z) :=
  match ty with
  | CHAR => try '(w, args) <- va_word args; Ret (i8 (i32 w), args)
  | SHORT => try '(w, args) <- va_word args; Ret (i16 (i32 w), args)
  | INT | LONG | PTRDIFFT => try '(w, args) <- va_word args; Ret (i32 w, args)
  | INTMAX | LONGLONG => try '(w, args) <- va_dword args; Ret (i64 w, args)
  | SIZET =>
      try '(w, args) <- va_word args;
      Ret (if (2 ^ 32 - 1) / 2 <? w then w - (2 ^ 32 - 1) - 1 else w, args)
  end.
Definition unsigned_arg (ty : arg_type) (args : list Z) : outcome (Z * list Z) :=
  match ty with
  | CHAR => try '(w, args) <- va_word args; Ret (u8 w, args)
  | SHORT => try '(w, args) <- va_word args; Ret (u16 w, args)
  | INT | LONG | SIZET => try '(w, args) <- va_word args; Ret (w, args)
  | INTMAX | LONGLONG => try '(w, args) <- va_dword args; Ret (w, args)
  | PTRDIFFT =>
      try '(w, args) <- va_word args;
      Ret (Z.land (u64 (i32 w)) (Z.lor (Z.shiftl (2 ^ 31 - 1) 1) 1), args)
  end.

(** ** The digits of a number *)
(** [*cp++ = c], in a buffer of 64 characters. *)
Definition push (buf : list Z) (c : Z) : outcome (list Z) :=
  if (length buf <? 64)%nat then Ret (buf ++ [c]) else Panic.
Fixpoint digit_loop (fuel : nat) (c : printf_conversion) (b : integer_base)
    (value digit_cnt : Z) (buf : list Z) : outcome (list Z) :=
  if 0 <? value then
    match fuel with
    | O => NoFuel
    | S fuel =>
        try buf <- (if has c GROUP && (0 <? digit_cnt) && (digit_cnt `mod` group b =? 0) then push buf (ch ",") else Ret buf);
        match digits b !! Z.to_nat (value `mod` base b) with
        | None => Panic
        | Some d =>
            try buf <- push buf d;
            digit_loop fuel c b (value / base b) (digit_cnt + 1) buf
        end
    end
  else Ret buf.
Fixpoint zero_loop (fuel : nat) (prec : Z) (buf : list Z) : outcome (list Z) :=
  if (Z.of_nat (length buf) <? prec) && (length buf <? 63)%nat then
    match fuel with O => NoFuel | S fuel => try buf <- push buf (ch "0"); zero_loop fuel prec buf end
  else Ret buf.
(** The buffer of [format_integer], last character first. *)
Definition integer_digits (value : Z) (b : integer_base) (c : printf_conversion) : outcome (list Z) :=
  try buf <- digit_loop 64 c b value 0 [];
  try buf <- zero_loop 64 (if precision c <? 0 then 1 else precision c) buf;
  if has c POUND && (base b =? 8) && negb (bool_decide (last buf = Some (ch "0"))) then push buf (ch "0") else Ret buf.
Definition integer_sign (is_signed negative : bool) (c : printf_conversion) : Z :=
  if is_signed then
    if has c PLUS then if negative then ch "-" else ch "+"
    else if has c SPACE then if negative then ch "-" else ch " "
    else if negative then ch "-" else 0
  else 0.

(** ** Output *)
Section output.
  Context {A : Type} (output : Z → M (mem * A) unit).
Definition on_mem {X} (f : M mem X) : M (mem * A) X := λ '(m, a),
  match f m with
  | Ret (x, m) => Ret (x, (m, a))
  | Panic => Panic
  | NoFuel => NoFuel
  end.
Fixpoint output_dup_ (c : Z) (cnt : nat) : M (mem * A) unit :=
  match cnt with O => retM tt | S cnt => run output c; output_dup_ c cnt end.
Definition output_dup (c cnt : Z) : M (mem * A) unit := output_dup_ c (Z.to_nat cnt).
Fixpoint output_all (cs : list Z) : M (mem * A) unit :=
  match cs with [] => retM tt | c :: cs => run output c; output_all cs end.
Definition when (b : bool) (m : M (mem * A) unit) : M (mem * A) unit := if b then m else retM tt.

Definition format_integer (value : Z) (is_signed negative : bool) (b : integer_base) (c : printf_conversion) : M (mem * A) unit :=
  let sign := integer_sign is_signed negative c in
  let x := if has c POUND && negb (value =? 0) then x_ b else 0 in
  do buf <- liftO (integer_digits value b c);
  let pad_cnt := i32 (width c - Z.of_nat (length buf) - (if x =? 0 then 0 else 2) - (if sign =? 0 then 0 else 1)) in
  let pad_cnt := if pad_cnt <? 0 then 0 else pad_cnt in
  run when (Z.land (flags c) (Z.lor MINUS ZERO) =? 0) (output_dup (ch " ") pad_cnt);
  run when (negb (sign =? 0)) (output sign);
  run when (negb (x =? 0)) (run output (ch "0"); output x);
  run when (has c ZERO) (output_dup (ch "0") pad_cnt);
  run output_all (rev buf);
  when (has c MINUS) (output_dup (ch " ") pad_cnt).

(** The string is given by the function that reads its character [i]. *)
Fixpoint string_loop (get : Z → M (mem * A) Z) (n : nat) (i : Z) : M (mem * A) unit :=
  match n with O => retM tt | S n => do c <- get i; run output c; string_loop get n (i + 1) end.
Definition format_string (get : Z → M (mem * A) Z) (len : Z) (c : printf_conversion) : M (mem * A) unit :=
  run when ((len <? width c) && negb (has c MINUS)) (output_dup (ch " ") (width c - len));
  run string_loop get (Z.to_nat len) 0;
  when ((len <? width c) && has c MINUS) (output_dup (ch " ") (width c - len)).
Definition literal (s : list Z) (i : Z) : M (mem * A) Z :=
  match s !! Z.to_nat i with Some c => retM c | None => panicM end.

(** The conversion that the character [f] asks for; [printf] is [__printf]. *)
Definition convert (printf : list Z → list Z → M (mem * A) unit) (c : printf_conversion) (f : Z) (args : list Z) : M (mem * A) (list Z) :=
  if (f =? ch "d") || (f =? ch "i") then
    do r <- liftO (signed_arg (type c) args);
    run format_integer (if r.1 <? 0 then u64 (- r.1) else r.1) true (r.1 <? 0) base_d c; retM r.2
  else if (f =? ch "o") || (f =? ch "u") || (f =? ch "x") || (f =? ch "X") then
    do r <- liftO (unsigned_arg (type c) args);
    let b := if f =? ch "o" then base_o else if f =? ch "u" then base_d else if f =? ch "x" then base_x else base_X in
    run format_integer r.1 false false b c; retM r.2
  else if f =? ch "c" then
    do r <- liftO (va_word args);
    run format_string (literal [u8 r.1]) 1 c; retM r.2
  else if f =? ch "s" then
    do r <- liftO (va_word args);
    (if r.1 =? 0 then
       run format_string (literal (str "(null)")) (Z.min 6 (u32 (precision c))) c; retM r.2
     else
       do len <- on_mem (strnlen (Z.to_N r.1) (Z.to_N (u32 (precision c))));
       run format_string (λ i, on_mem (load (Z.to_N (r.1 + i)))) (i32 (Z.of_N len)) c; retM r.2)
  else if f =? ch "p" then
    do r <- liftO (va_word args);
    run format_integer r.1 false false base_x (PrintfConversion POUND (width c) (precision c) (type c)); retM r.2
  else if (f =? ch "f") || (f =? ch "e") || (f =? ch "E") || (f =? ch "g") || (f =? ch "G") || (f =? ch "n") then
    run printf (str "<<no %%%c in kernel>>") [f]; retM args
  else
    run printf (str "<<no %%%c conversion>>") [f]; retM args.
Fixpoint vprintf_loop (fuel : nat) (format args : list Z) : M (mem * A) unit :=
  match format with
  | [] => retM tt
  | c0 :: format1 =>
      match fuel with
      | O => λ _, NoFuel
      | S fuel =>
          if negb (c0 =? ch "%") then run output c0; vprintf_loop fuel format1 args
          else if peek format1 =? ch "%" then run output (ch "%"); vprintf_loop fuel (tail format1) args
          else
            do r <- liftO (parse_conversion format1 args);
            do args' <- convert (vprintf_loop fuel) r.1.1 (peek r.1.2) r.2;
            do format3 <- liftO (advance r.1.2);
            vprintf_loop fuel format3 args'
      end
  end.
(** [__vprintf] and [__printf]: one step per character of the format and, for a
    conversion that is not supported, the steps of the message. *)
Definition vprintf_fuel (format : list Z) : nat := (length format + 25)%nat.
Definition __vprintf (format args : list Z) : M (mem * A) unit := vprintf_loop (vprintf_fuel format) format args.
End output.

(** ** Output to a buffer *)
Record vsnprintf_aux := VsnprintfAux { p : addr; length_ : Z; max_length : Z }.
Definition vsnprintf_helper (c : Z) : M (mem * vsnprintf_aux) unit := λ '(m, aux),
  let aux' := VsnprintfAux (p aux) (i32 (length_ aux + 1)) (max_length aux) in
  if length_ aux <? max_length aux then
    (run on_mem (store (p aux) (u8 c)); putM (<[p aux := u8 c]> m, VsnprintfAux (p aux + 1) (length_ aux') (max_length aux))) (m, aux)
  else Ret (tt, (m, aux')).
Definition vsnprintf (buffer : addr) (buf_size : Z) (format args : list Z) : M mem Z := λ m,
  let aux := VsnprintfAux buffer 0 (if 0 <? buf_size then i32 (buf_size - 1) else 0) in
  match __vprintf vsnprintf_helper format args (m, aux) with
  | Ret (_, (m, aux)) =>
      (run (if 0 <? buf_size then store (p aux) 0 else retM tt); retM (length_ aux)) m
  | Panic => Panic
  | NoFuel => NoFuel
  end.
(** The variable arguments of a call are the words it passes. *)
Definition snprintf (buffer : addr) (buf_size : Z) (format : list Z) (args : list Z) : M mem Z :=
  vsnprintf buffer buf_size format args.
