(* ===== verification/Console.v ===== *)
(** * lib/kernel/console.c and lib/user/console.c: where printf writes

    The kernel's console: a lock with a depth counter around the characters
    given to the serial port and the display, as seen by one thread ([held] is
    whether it holds the lock; a lock held by another thread makes the caller
    wait, which is the scheduler's part).  A user program's [printf] collects
    the characters in a buffer of 64 and calls [write].  The helpers of
    lib/stdio.c that print, [hex_dump] and [print_human_readable_size], are here
    as well. *)

From Stdlib Require Import Ascii String.
From stdpp Require Import base numbers list gmap.
From S2P Require Import Prelude Memory CString StdlibC Stdio.
Local Open Scope Z_scope.

(** ** The kernel's console *)
Record console := Console {
  use_console_lock : bool;
  held : bool;
  console_lock_depth : Z;
  write_cnt : Z;
  in_intr : bool;            (* [intr_context ()] *)
  screen : list Z }.         (* the characters sent to the devices *)
Definition acquire_console (k : console) : outcome console :=
  if negb (in_intr k) && use_console_lock k then
    if held k then Ret (Console (use_console_lock k) (held k) (i32 (console_lock_depth k + 1)) (write_cnt k) (in_intr k) (screen k))
    else Ret (Console (use_console_lock k) true (console_lock_depth k) (write_cnt k) (in_intr k) (screen k))
  else Ret k.
(** [lock_release] asserts that the thread holds the lock. *)
Definition release_console (k : console) : outcome console :=
  if negb (in_intr k) && use_console_lock k then
    if 0 <? console_lock_depth k then
      Ret (Console (use_console_lock k) (held k) (console_lock_depth k - 1) (write_cnt k) (in_intr k) (screen k))
    else if held k then Ret (Console (use_console_lock k) false (console_lock_depth k) (write_cnt k) (in_intr k) (screen k))
    else Panic
  else Ret k.
Definition console_locked_by_current_thread (k : console) : bool := in_intr k || negb (use_console_lock k) || held k.
Definition putchar_have_lock (c : Z) (k : console) : outcome console :=
  check console_locked_by_current_thread k;
  Ret (Console (use_console_lock k) (held k) (console_lock_depth k) (i64 (write_cnt k + 1)) (in_intr k) (screen k ++ [u8 c])).
Definition console_init (k : console) : console :=
  Console true false (console_lock_depth k) (write_cnt k) (in_intr k) (screen k).
Definition console_panic (k : console) : console :=
  Console false (held k) (console_lock_depth k) (write_cnt k) (in_intr k) (screen k).

Definition on_console {X} (f : console → outcome console) (x : X) : M (mem * (console * Z)) X := λ '(m, (k, n)),
  try k <- f k; Ret (x, (m, (k, n))).
(** The second component is [char_cnt]. *)
Definition vprintf_helper (c : Z) : M (mem * (console * Z)) unit := λ '(m, (k, n)),
  try k <- putchar_have_lock c k; Ret (tt, (m, (k, i32 (n + 1)))).
(** [printf] passes its arguments on to [vprintf]. *)
Definition vprintf (format args : list Z) : M (mem * console) Z := λ '(m, k),
  match (run on_console acquire_console tt; run __vprintf vprintf_helper format args; on_console release_console tt) (m, (k, 0)) with
  | Ret (_, (m, (k, n))) => Ret (n, (m, k))
  | Panic => Panic
  | NoFuel => NoFuel
  end.
Definition printf (format : string) (args : list Z) : M (mem * console) unit :=
  run vprintf (str format) args; retM tt.
Definition on_screen (f : console → outcome console) : M (mem * console) unit := λ '(m, k), try k <- f k; Ret (tt, (m, k)).
Fixpoint puts_loop (fuel : nat) (s : addr) : M (mem * console) unit :=
  match fuel with
  | O => λ _, NoFuel
  | S fuel =>
      do c <- on_mem (load s);
      if c =? 0 then retM tt else run on_screen (putchar_have_lock c); puts_loop fuel (s + 1)
  end.
Definition puts (s : addr) : M (mem * console) Z :=
  run on_screen acquire_console;
  do st <- getM;
  run puts_loop (S (size st.1)) s;
  run on_screen (putchar_have_lock (ch "010"));
  run on_screen release_console;
  retM 0.
Fixpoint putbuf_loop (n : nat) (buffer : addr) : M (mem * console) unit :=
  match n with
  | O => retM tt
  | S n => do c <- on_mem (load buffer); run on_screen (putchar_have_lock c); putbuf_loop n (buffer + 1)
  end.
Definition putbuf (buffer : addr) (n : Z) : M (mem * console) unit :=
  run on_screen acquire_console; run putbuf_loop (Z.to_nat n) buffer; on_screen release_console.
Definition putchar (c : Z) : M (mem * console) Z :=
  run on_screen acquire_console; run on_screen (putchar_have_lock c); run on_screen release_console; retM c.
(** A 64-bit argument takes two words. *)
Definition dword (z : Z) : list Z := [u32 z; u32 (z / 2 ^ 32)].
Definition console_print_stats : M (mem * console) unit :=
  do st <- getM; run vprintf (str "Console: %lld characters output" ++ [10]) (dword (write_cnt st.2)); retM tt.

(** ** hex_dump *)
Fixpoint spaces (n : nat) (s : string) : M (mem * console) unit :=
  match n with O => retM tt | S n => run printf s []; spaces n s end.
(** The bytes from [i] to [i + n - 1] of the line, in hexadecimal; as text. *)
Fixpoint hex_bytes (n : nat) (buf : addr) (start i : Z) : M (mem * console) unit :=
  match n with
  | O => retM tt
  | S n =>
      do b <- on_mem (load (buf + Z.to_N (i - start)));
      run printf "%02hhx%c" [b; if i =? 16 / 2 - 1 then ch "-" else ch " "];
      hex_bytes n buf start (i + 1)
  end.
Fixpoint text_bytes (n : nat) (buf : addr) (start i : Z) : M (mem * console) unit :=
  match n with
  | O => retM tt
  | S n =>
      do b <- on_mem (load (buf + Z.to_N (i - start)));
      run printf "%c" [if isprint b then b else ch "."];
      text_bytes n buf start (i + 1)
  end.
Fixpoint hex_dump_loop (fuel : nat) (ofs : Z) (buf : addr) (size : Z) (ascii : bool) : M (mem * console) unit :=
  if 0 <? size then
    match fuel with
    | O => λ _, NoFuel
    | S fuel =>
        let start := ofs `mod` 16 in
        let end_ := if size <? 16 - start then start + size else 16 in
        let n := end_ - start in
        run printf "%08jx  " (dword (ofs / 16 * 16));
        run spaces (Z.to_nat start) "   ";
        run hex_bytes (Z.to_nat n) buf start start;
        run (if ascii then
               run spaces (Z.to_nat (16 - end_)) "   ";
               run printf "|" [];
               run spaces (Z.to_nat start) " ";
               run text_bytes (Z.to_nat n) buf start start;
               run spaces (Z.to_nat (16 - end_)) " ";
               printf "|" []
             else retM tt);
        run vprintf [10] [];
        hex_dump_loop fuel (u32 (ofs + n)) (buf + Z.to_N n) (size - n) ascii
    end
  else retM tt.
Definition hex_dump (ofs : Z) (buf : addr) (size : Z) (ascii : bool) : M (mem * console) unit :=
  hex_dump_loop (Z.to_nat size) ofs buf size ascii.

(** ** print_human_readable_size *)
Definition factors : list string := ["bytes"%string; "kB"%string; "MB"%string; "GB"%string; "TB"%string].
Fixpoint human_loop (fp : list string) (size : Z) : Z * string :=
  match fp with
  | [] => (size, ""%string)
  | [f] => (size, f)
  | f :: fp => if 1024 <=? size then human_loop fp (size / 1024) else (size, f)
  end.
(** The conversion %s of a constant without %: its characters. *)
Definition print_human_readable_size (size : Z) : M (mem * console) unit :=
  if size =? 1 then printf "1 byte" []
  else
    let '(size, f) := human_loop factors size in
    run vprintf (str "%llu " ++ str f) (dword size); retM tt.

(** ** A user program's console *)
(** [written]: the calls of the system call [write], in order. *)
Record vhprintf_aux := VhprintfAux { buf : list Z; char_cnt : Z; handle : Z; written : list (Z * list Z) }.
Definition flush (a : vhprintf_aux) : vhprintf_aux :=
  VhprintfAux [] (char_cnt a) (handle a)
    (if (0 <? length (buf a))%nat then written a ++ [(handle a, buf a)] else written a).
(** [*aux->p++ = c]: the buffer has 64 characters. *)
Definition add_char (c : Z) : M (mem * vhprintf_aux) unit := λ '(m, a),
  if (length (buf a) <? 64)%nat then
    let a := VhprintfAux (buf a ++ [u8 c]) (char_cnt a) (handle a) (written a) in
    let a := if (64 <=? length (buf a))%nat then flush a else a in
    Ret (tt, (m, VhprintfAux (buf a) (i32 (char_cnt a + 1)) (handle a) (written a)))
  else Panic.
Definition vhprintf (h : Z) (format args : list Z) (m : mem) : outcome (Z * list (Z * list Z)) :=
  match __vprintf add_char format args (m, VhprintfAux [] 0 h []) with
  | Ret (_, (_, a)) => let a := flush a in Ret (char_cnt a, written a)
  | Panic => Panic
  | NoFuel => NoFuel
  end.
