(* ===== verification/StdioSpec.v ===== *)
(** * What printf prints

    The characters that [__vprintf] hands to its output function do not depend on
    that function: [collect] gathers them in a list, and a simulation carries the
    list over to every other output — the buffer of [vsnprintf], the console and
    the buffer of a user program. *)

From Stdlib Require Import Ascii String.
From stdpp Require Import base numbers list gmap.
From S2P Require Import Prelude Memory CString CStringSpec StdlibC StdlibSpec Stdio Console.
Local Open Scope Z_scope.

(** ** Simulations between output functions *)
Section sim.
  Context {A1 A2 : Type} (R : mem * A1 → mem * A2 → Prop).
(** Whatever the first run does, the second does as well. *)
Definition sim {X} (c1 : M (mem * A1) X) (c2 : M (mem * A2) X) : Prop :=
  ∀ s1 s2 x s1', R s1 s2 → c1 s1 = Ret (x, s1') → ∃ s2', c2 s2 = Ret (x, s2') ∧ R s1' s2'.
Lemma sim_ret {X} (x : X) : sim (retM x) (retM x).
Proof. intros s1 s2 y s1' HR [= <- <-]. by exists s2. Qed.
Lemma sim_panic {X} (c2 : M (mem * A2) X) : sim panicM c2.
Proof. by intros s1 s2 y s1' HR H. Qed.
Lemma sim_lift {X} (o : outcome X) : sim (liftO o) (liftO o).
Proof. intros s1 s2 y s1' HR H. unfold liftO in *. destruct o; try done. injection H as <- <-. by exists s2. Qed.
Lemma sim_bind {X Y} (c1 : M (mem * A1) X) c2 (f1 : X → M (mem * A1) Y) f2 :
  sim c1 c2 → (∀ x, sim (f1 x) (f2 x)) → sim (bindM c1 f1) (bindM c2 f2).
Proof.
  intros Hc Hf s1 s2 y s1' HR H. apply bindM_inv in H as (x & s & Hx & Hy).
  destruct (Hc _ _ _ _ HR Hx) as (s2' & H2 & HR'). destruct (Hf x _ _ _ _ HR' Hy) as (s2'' & H2' & HR'').
  exists s2''. split; [|done]. by rewrite (bindM_Ret _ _ _ _ _ H2).
Qed.
Lemma sim_if {X} (b : bool) (c1 d1 : M (mem * A1) X) c2 d2 :
  sim c1 c2 → sim d1 d2 → sim (if b then c1 else d1) (if b then c2 else d2).
Proof. by destruct b. Qed.
Lemma sim_when (b : bool) c1 c2 : sim c1 c2 → sim (when b c1) (when b c2).
Proof. intros H. apply sim_if; [done|apply sim_ret]. Qed.
Lemma sim_noFuel {X} (c2 : M (mem * A2) X) : sim (λ _, NoFuel) c2.
Proof. by intros s1 s2 y s1' HR H. Qed.

(** Reads of the smaller memory are reads of the larger one. *)
Hypothesis R_sub : ∀ m1 a1 m2 a2, R (m1, a1) (m2, a2) → m1 ⊆ m2.
Lemma sim_load p : sim (on_mem (load p)) (on_mem (load p)).
Proof.
  intros [m1 a1] [m2 a2] x s1' HR H. unfold on_mem, load in *. destruct (m1 !! p) as [b|] eqn:E; [|done].
  injection H as <- <-. rewrite (lookup_weaken _ _ _ _ E (R_sub _ _ _ _ HR)). by exists (m2, a2).
Qed.
Lemma strnlen_loop_mono n n' s maxlen i m1 m2 r m :
  m1 ⊆ m2 → (n ≤ n')%nat → strnlen_loop n s maxlen i m1 = Ret (r, m) → m = m1 ∧ strnlen_loop n' s maxlen i m2 = Ret (r, m2).
Proof.
  intros Hsub. revert n' i. induction n as [|n IH]; intros n' i Hn H; [done|]. destruct n' as [|n']; [lia|]. simpl in *.
  unfold bindM, load in *. destruct (m1 !! (s + i)%N) as [b|] eqn:E; [|done]. rewrite (lookup_weaken _ _ _ _ E Hsub).
  destruct (negb (b =? 0) && (i <? maxlen)%N); [apply IH; [lia|done]|]. injection H as <- <-. done.
Qed.
Lemma sim_strnlen s maxlen : sim (on_mem (strnlen s maxlen)) (on_mem (strnlen s maxlen)).
Proof.
  intros [m1 a1] [m2 a2] x s1' HR H. unfold on_mem, strnlen, with_budget in *.
  destruct (strnlen_loop (S (size m1)) s maxlen 0 m1) as [[r m]| |] eqn:E; try done. injection H as <- <-.
  apply (strnlen_loop_mono _ (S (size m2)) _ _ _ _ m2) in E as [-> ->]; [by exists (m2, a2)|eauto|].
  apply le_n_S, map_subseteq_size. eauto.
Qed.

Context (o1 : Z → M (mem * A1) unit) (o2 : Z → M (mem * A2) unit) (Ho : ∀ c, sim (o1 c) (o2 c)).
Lemma sim_output_dup c cnt : sim (output_dup o1 c cnt) (output_dup o2 c cnt).
Proof.
  unfold output_dup. induction (Z.to_nat cnt) as [|n IH]; simpl; [apply sim_ret|]. apply sim_bind; [apply Ho|done].
Qed.
Lemma sim_output_all cs : sim (output_all o1 cs) (output_all o2 cs).
Proof. induction cs as [|c cs IH]; simpl; [apply sim_ret|]. apply sim_bind; [apply Ho|done]. Qed.
Lemma sim_format_integer v sg neg b c : sim (format_integer o1 v sg neg b c) (format_integer o2 v sg neg b c).
Proof.
  unfold format_integer. apply sim_bind; [apply sim_lift|]. intros buf.
  repeat (apply sim_bind; [|intros _]); first [apply sim_output_all|apply sim_when; try apply sim_output_dup]; [apply Ho|].
  apply sim_bind; [|intros _]; apply Ho.
Qed.
Lemma sim_string_loop get1 get2 n i :
  (∀ i, sim (get1 i) (get2 i)) → sim (string_loop o1 get1 n i) (string_loop o2 get2 n i).
Proof.
  intros Hg. revert i. induction n as [|n IH]; intros i; simpl; [apply sim_ret|].
  apply sim_bind; [apply Hg|]. intros c. apply sim_bind; [apply Ho|done].
Qed.
Lemma sim_format_string get1 get2 len c :
  (∀ i, sim (get1 i) (get2 i)) → sim (format_string o1 get1 len c) (format_string o2 get2 len c).
Proof.
  intros Hg. unfold format_string.
  repeat (apply sim_bind; [|intros _]); first [by apply sim_string_loop|apply sim_when, sim_output_dup].
Qed.
Lemma sim_literal s i : sim (literal s i) (literal s i).
Proof. unfold literal. destruct (s !! Z.to_nat i); [apply sim_ret|apply sim_panic]. Qed.
Lemma sim_convert p1 p2 c f args :
  (∀ fm a, sim (p1 fm a) (p2 fm a)) → sim (convert o1 p1 c f args) (convert o2 p2 c f args).
Proof.
  intros Hp. unfold convert. repeat first [apply sim_if | apply sim_bind; [apply sim_lift|intros ?] | apply sim_ret
    | apply sim_bind; [first [apply Hp | apply sim_format_integer | apply sim_strnlen
        | apply sim_format_string; intros ?; first [apply sim_literal|apply sim_load]]|intros ?] ].
Qed.
Lemma sim_vprintf_loop n format args : sim (vprintf_loop o1 n format args) (vprintf_loop o2 n format args).
Proof.
  revert format args. induction n as [|n IH]; intros [|c0 format] args; simpl; try apply sim_ret; try apply sim_noFuel.
  repeat first [apply sim_if | apply sim_bind; [first [apply sim_lift|apply Ho|by apply sim_convert]|intros ?] | apply IH].
Qed.
Lemma sim_vprintf format args : sim (__vprintf o1 format args) (__vprintf o2 format args).
Proof. apply sim_vprintf_loop. Qed.
End sim.

(** ** The characters printed *)
(** The output as a list; [printf] counts at most [INT_MAX] characters. *)
Definition collect (c : Z) : M (mem * list Z) unit := λ '(m, out),
  if Z.of_nat (length out) <? 2 ^ 31 - 1 then Ret (tt, (m, out ++ [u8 c])) else Panic.
(** [format] with [args] prints [out]; strings are read from [m] only. *)
Definition prints (m : mem) (format args out : list Z) : Prop :=
  __vprintf collect format args (m, []) = Ret (tt, (m, out)).
(** The output of a run of [__vprintf] with the output function [o]. *)
Lemma prints_sim {A} (o : Z → M (mem * A) unit) (R : list Z → mem * A → Prop) m format args out s :
  prints m format args out → R [] s →
  (∀ out s, R out s → m ⊆ s.1) →
  (∀ c out s, R out s → Z.of_nat (length out) < 2 ^ 31 - 1 → ∃ s', o c s = Ret (tt, s') ∧ R (out ++ [u8 c]) s') →
  ∃ s', __vprintf o format args s = Ret (tt, s') ∧ R out s'.
Proof.
  intros Hp HR Hsub Ho.
  destruct (sim_vprintf (λ s1 s2, s1.1 = m ∧ R s1.2 s2)) with (o1 := collect) (o2 := o) (format := format) (args := args)
    (s1 := (m, @nil Z)) (s2 := s) (x := tt) (s1' := (m, out)) as (s' & Hs' & _ & HR'); try done; [| |by exists s'].
  - intros m1 out1 m2 a2 [Hm HR1]. cbn [fst snd] in *. subst m1. by apply (Hsub _ _ HR1).
  - intros c [m1 out1] s2 x s1' [Hm HR1] H. cbn [fst snd] in *. subst m1. unfold collect in H. destruct (Z.ltb_spec (Z.of_nat (length out1)) (2 ^ 31 - 1)); [|done].
    injection H as <- <-. destruct (Ho c out1 s2 HR1) as (s2' & ? & ?); [done|]. by exists s2'.
Qed.

Lemma take_snoc_le {A} n (l : list A) x : (n ≤ length l)%nat → take n (l ++ [x]) = take n l.
Proof. intros H. by rewrite take_app_le. Qed.
Lemma write_bytes_snoc p bs b m : write_bytes p (bs ++ [b]) m = <[(p + N.of_nat (length bs))%N := b]> (write_bytes p bs m).
Proof. rewrite write_bytes_app. simpl. apply write_bytes_insert. lia. Qed.
Lemma mapped_write m p n q bs : mapped m p n → mapped (write_bytes q bs m) p n.
Proof.
  intros H i Hi. rewrite lookup_write_bytes. case_decide; [|by apply H]. apply lookup_lt_is_Some. lia.
Qed.

Lemma vsnprintf_Ret m m0 buffer n format args out :
  prints m0 format args out → m0 ⊆ m → (∀ i, (i < n)%nat → m0 !! (buffer + N.of_nat i)%N = None) →
  mapped m buffer n → (0 < n)%nat → Z.of_nat n ≤ 2 ^ 31 →
  vsnprintf buffer (Z.of_nat n) format args m =
    Ret (Z.of_nat (length out), write_bytes buffer (take (n - 1) out ++ [0]) m).
Proof.
  intros Hp Hsub Hout Hmap Hn Hlt. set (R := λ (out : list Z) (s : mem * vsnprintf_aux),
    s.1 = write_bytes buffer (take (n - 1) out) m ∧ s.2 = VsnprintfAux (buffer + N.of_nat (length out `min` (n - 1)))%N (Z.of_nat (length out)) (Z.of_nat (n - 1))).
  assert (∀ out s, R out s → m0 ⊆ s.1) as HRs.
  { intros o [m2 a2] [-> _]. cbn [fst]. apply map_subseteq_spec. intros a b Ha. rewrite write_bytes_out; [eapply lookup_weaken; eauto|].
    destruct (decide (buffer ≤ a < buffer + N.of_nat (length (take (n - 1) o)))%N) as [Hin|]; [|lia].
    rewrite length_take in Hin. specialize (Hout (N.to_nat (a - buffer)) ltac:(lia)).
    replace (buffer + N.of_nat (N.to_nat (a - buffer)))%N with a in Hout by lia. congruence. }
  destruct (prints_sim vsnprintf_helper R m0 format args out (m, VsnprintfAux buffer 0 (Z.of_nat (n - 1)))) as ([m2 a2] & Hr & Hm2 & Ha2); [done| |done| |].
  - split; simpl; [by rewrite take_nil|]. by rewrite N.add_0_r.
  - intros c o [m2 a2] [Hm2 Ha2] Hlen. cbn [fst snd] in Hm2, Ha2. subst m2 a2. unfold vsnprintf_helper. cbn [length_ max_length p].
    rewrite i32_small by lia. destruct (Z.ltb_spec (Z.of_nat (length o)) (Z.of_nat (n - 1))).
    + rewrite Nat.min_l by lia. destruct (mapped_write m buffer n buffer (take (n - 1) o) Hmap (length o)) as [v Hv]; [lia|].
      unfold bindM, on_mem, store. rewrite Hv. eexists. split; [reflexivity|]. split; cbn [fst snd].
      * rewrite !take_ge by (rewrite ?length_app; simpl; lia). by rewrite write_bytes_snoc.
      * rewrite length_app. simpl. f_equal; lia.
    + eexists. split; [reflexivity|]. split; cbn [fst snd]; [rewrite take_snoc_le by lia; done|].
      rewrite length_app. simpl. f_equal; lia.
  - cbn [fst snd] in Hm2, Ha2. subst m2 a2. unfold vsnprintf. rewrite (proj2 (Z.ltb_lt 0 _)) by lia.
    rewrite i32_small by lia. replace (Z.of_nat n - 1) with (Z.of_nat (n - 1)) by lia. rewrite Hr. cbn [p length_].
    destruct (mapped_write m buffer n buffer (take (n - 1) out) Hmap (Nat.min (length out) (n - 1))) as [v Hv]; [lia|].
    unfold bindM, store. rewrite Hv. unfold retM. do 2 f_equal. rewrite write_bytes_snoc, length_take. do 2 f_equal. lia.
Qed.

(** C29. [vsnprintf] into a buffer of [n] bytes that no printed string overlaps
    stores the first [n - 1] characters of the output and a terminator, leaves
    all other memory as it was, and returns the length of the whole output. *)
Theorem vsnprintf_truncates m m0 buffer n format args out :
  prints m0 format args out → m0 ⊆ m → (∀ i, (i < n)%nat → m0 !! (buffer + N.of_nat i)%N = None) →
  mapped m buffer n → (0 < n)%nat → Z.of_nat n ≤ 2 ^ 31 →
  vsnprintf buffer (Z.of_nat n) format args m =
    Ret (Z.of_nat (length out), write_bytes buffer (take (n - 1) out ++ [0]) m).
Proof. apply vsnprintf_Ret. Qed.
(** A format that reads a string at address 200. *)
Definition example_mem : mem := mem_of 200 (str "abc" ++ [0]).
Definition example_format : list Z := str "%5d:%s".
Lemma example_prints : prints example_mem example_format [42; 200] (str "   42:abc").
Proof. vm_compute. reflexivity. Qed.
Lemma vsnprintf_truncates_witness :
  ∃ m, vsnprintf 300 8 example_format [42; 200] m = Ret (9, write_bytes 300 (str "   42:a" ++ [0]) m).
Proof.
  exists (example_mem ∪ mem_of 300 (replicate 8 0)).
  apply (vsnprintf_truncates _ example_mem 300 8 example_format [42; 200] (str "   42:abc")); [apply example_prints|apply map_union_subseteq_l| | |lia|done].
  - intros i Hi. do 8 (destruct i as [|i]; [reflexivity|]). lia.
  - intros i Hi. do 8 (destruct i as [|i]; [vm_compute; by eexists|]). lia.
Defined.

(** ** The console and a user program *)
Lemma i64_succ z : i64 (i64 z + 1) = i64 (z + 1).
Proof. destruct (i64_eqm z) as [j ->]. replace (z + j * 2 ^ 64 + 1) with (z + 1 + j * 2 ^ 64) by lia. apply i64_add_mult. Qed.
Definition wrote (k : console) (out : list Z) : console :=
  Console (use_console_lock k) (held k) (console_lock_depth k) (i64 (write_cnt k + Z.of_nat (length out))) (in_intr k) (screen k ++ out).
Lemma vprintf_helper_prints m format args out k :
  prints m format args out → console_locked_by_current_thread k = true → i64 (write_cnt k) = write_cnt k →
  __vprintf vprintf_helper format args (m, (k, 0)) = Ret (tt, (m, (wrote k out, Z.of_nat (length out)))).
Proof.
  intros Hp Hk Hw. destruct (prints_sim vprintf_helper (λ out s, s = (m, (wrote k out, Z.of_nat (length out)))) m format args out (m, (k, 0)))
    as (s' & Hr & ->); try done.
  - unfold wrote. simpl. rewrite Z.add_0_r, app_nil_r, Hw. by destruct k.
  - by intros o s ->.
  - intros c o s -> Hlen. eexists. split.
    + unfold vprintf_helper, putchar_have_lock. change (console_locked_by_current_thread (wrote k o)) with (console_locked_by_current_thread k).
      rewrite Hk. reflexivity.
    + rewrite i32_small by lia. unfold wrote. cbn. rewrite i64_succ, length_app, <-app_assoc. cbn [length].
      rewrite Nat2Z.inj_add, Z.add_assoc. done.
Qed.
(** [printf] in the kernel, called with the console lock free or taken by
    this thread, adds exactly its output to the screen and to the count of
    characters, returns its length, and leaves the lock as it was. *)
Theorem printf_console m format args out k :
  prints m format args out → 0 ≤ console_lock_depth k < 2 ^ 31 - 1 → (held k = false → console_lock_depth k = 0) →
  i64 (write_cnt k) = write_cnt k →
  vprintf format args (m, k) =
    Ret (Z.of_nat (length out), (m, Console (use_console_lock k) (held k) (console_lock_depth k)
      (i64 (write_cnt k + Z.of_nat (length out))) (in_intr k) (screen k ++ out))).
Proof.
  intros Hp Hd Hh Hw. unfold vprintf, bindM, on_console, acquire_console. destruct (negb (in_intr k) && use_console_lock k) eqn:E.
  - assert (∀ d, i32 (d + 1) = d + 1 ∨ ¬ 0 ≤ d < 2 ^ 31 - 1) as Hi by (intros d; destruct (decide (0 ≤ d < 2 ^ 31 - 1)); [left; apply i32_small; lia|by right]).
    destruct (held k) eqn:Hk; cbn [obind].
    all: rewrite (vprintf_helper_prints m format args out) by (first [done | unfold console_locked_by_current_thread; cbn; by rewrite !orb_true_r]).
    all: unfold release_console, wrote; cbn; rewrite E; cbn.
    + destruct (Hi (console_lock_depth k)) as [->|]; [|done]. rewrite (proj2 (Z.ltb_lt _ _)) by lia. cbn. by rewrite Z.add_simpl_r.
    + by rewrite Hh.
  - cbn [obind]. assert (console_locked_by_current_thread k = true) as Hl.
    { unfold console_locked_by_current_thread. destruct (in_intr k), (use_console_lock k); done. }
    rewrite (vprintf_helper_prints m format args out) by done. unfold release_console. cbn. rewrite E. done.
Qed.

Lemma printf_console_witness :
  vprintf example_format [42; 200] (example_mem, Console true true 2 0 false [65]) =
    Ret (9, (example_mem, Console true true 2 9 false (65 :: str "   42:abc"))).
Proof. apply (printf_console example_mem example_format [42; 200] (str "   42:abc")); [apply example_prints|done..]. Defined.

(** A user program's [printf] on a handle calls [write] on that handle
    with pieces of at most 64 characters that, put together, are the output. *)
Theorem vhprintf_writes m h format args out :
  prints m format args out →
  ∃ ws, vhprintf h format args m = Ret (Z.of_nat (length out), (λ b, (h, b)) <$> ws) ∧
    concat ws = out ∧ Forall (λ b, (0 < length b ≤ 64)%nat) ws.
Proof.
  intros Hp. destruct (prints_sim add_char (λ out s, ∃ b ws, s = (m, VhprintfAux b (Z.of_nat (length out)) h ((λ b, (h, b)) <$> ws)) ∧
      concat ws ++ b = out ∧ (length b < 64)%nat ∧ Forall (λ b, (0 < length b ≤ 64)%nat) ws) m format args out
      (m, VhprintfAux [] 0 h [])) as (s' & Hr & b & ws & -> & Hc & Hl & Hf); [done| | | |].
  - exists [], []. simpl. split; [done|]. split; [done|]. split; [lia|constructor].
  - by intros o s (b & ws & -> & _).
  - intros c o s (b & ws & -> & Hc & Hl & Hf) Hlen. unfold add_char. cbn [buf]. rewrite (proj2 (Nat.ltb_lt _ _)) by done.
    cbn [buf char_cnt handle written]. destruct (Nat.leb_spec 64 (length (b ++ [u8 c]))) as [H64|H64]; eexists; (split; [reflexivity|]).
    + exists [], (ws ++ [b ++ [u8 c]]). unfold flush. cbn [buf char_cnt handle written]. rewrite (proj2 (Nat.ltb_lt 0 _)) by lia.
      rewrite length_app in H64. cbn [length] in H64. split; [|split; [|split]].
      * rewrite i32_small, fmap_app, length_app by lia. cbn [length fmap list_fmap]. do 3 f_equal. lia.
      * rewrite concat_app, app_nil_r. cbn [concat]. by rewrite app_nil_r, app_assoc, Hc.
      * simpl. lia.
      * apply Forall_app. split; [done|]. constructor; [rewrite length_app; simpl; lia|constructor].
    + exists (b ++ [u8 c]), ws. cbn [buf char_cnt handle written]. rewrite i32_small by lia. rewrite length_app. cbn [length].
      split; [do 3 f_equal; lia|]. split; [by rewrite app_assoc, Hc|]. done.
  - unfold vhprintf. rewrite Hr. unfold flush. cbn [buf char_cnt handle written]. destruct b as [|c b].
    + exists ws. simpl. rewrite app_nil_r in Hc. done.
    + exists (ws ++ [c :: b]). rewrite fmap_app, concat_app. simpl. rewrite app_nil_r. split; [done|]. split; [done|].
      apply Forall_app. split; [done|]. constructor; [simpl in *; lia|constructor].
Qed.
Lemma vhprintf_writes_witness :
  ∃ ws, vhprintf 1 example_format [42; 200] example_mem = Ret (9, (λ b, (1, b)) <$> ws) ∧ concat ws = str "   42:abc".
Proof.
  destruct (vhprintf_writes example_mem 1 example_format [42; 200] (str "   42:abc") example_prints) as (ws & H & Hc & _).
  exists ws. split; [exact H|exact Hc].
Defined.

(** ** Numbers *)
Lemma push_Ret buf c : (length buf < 64)%nat → push buf c = Ret (buf ++ [c]).
Proof. intros H. unfold push. by rewrite (proj2 (Nat.ltb_lt _ _)). Qed.
Definition bases : list integer_base := [base_d; base_o; base_x; base_X].
Lemma bases_facts b : b ∈ bases → 8 ≤ base b ∧ length (digits b) = Z.to_nat (base b).
Proof. unfold bases. rewrite !elem_of_cons. intros [->|[->|[->|[->|[]%not_elem_of_nil]]]]; done. Qed.
Lemma base_digit b v : b ∈ bases → ∃ d, digits b !! Z.to_nat (v `mod` base b) = Some d.
Proof.
  intros [Hb Hl]%bases_facts. apply lookup_lt_is_Some. pose proof (Z.mod_pos_bound v (base b)). lia.
Qed.
(** A value below [8 ^ n] has at most [n] digits, and as many commas. *)
Lemma digit_loop_bound n fuel c b value cnt buf :
  b ∈ bases → value < 8 ^ Z.of_nat n → (n ≤ fuel)%nat → (length buf + 2 * n ≤ 64)%nat →
  ∃ buf', digit_loop fuel c b value cnt buf = Ret buf' ∧ (length buf' ≤ length buf + 2 * n)%nat.
Proof.
  intros Hb. pose proof (bases_facts b Hb) as [Hbase _]. revert fuel value cnt buf. induction n as [|n IH]; intros fuel value cnt buf Hv Hf Hl.
  - change (8 ^ Z.of_nat 0) with 1 in Hv. exists buf. split; [|lia]. destruct fuel; simpl; by rewrite (proj2 (Z.ltb_ge 0 value)) by lia.
  - destruct (Z.ltb_spec 0 value) as [Hpos|Hpos]; [|exists buf; split; [destruct fuel; simpl; by rewrite (proj2 (Z.ltb_ge 0 value))|lia]].
    destruct fuel as [|fuel]; [lia|]. cbn [digit_loop]. rewrite (proj2 (Z.ltb_lt 0 value)) by done.
    assert (∃ buf1, (if has c GROUP && (0 <? cnt) && (cnt `mod` group b =? 0) then push buf (ch ",") else Ret buf) = Ret buf1 ∧
      (length buf1 ≤ length buf + 1)%nat) as (buf1 & -> & H1).
    { case_match; [rewrite push_Ret by lia; eexists; split; [done|]; rewrite length_app; simpl; lia|]. exists buf. split; [done|lia]. }
    cbn [obind]. destruct (base_digit b value Hb) as [d ->]. rewrite push_Ret by lia. cbn [obind].
    destruct (IH fuel (value / base b) (cnt + 1) (buf1 ++ [d])) as (buf' & -> & Hl').
    + apply Z.div_lt_upper_bound; [lia|]. replace (Z.of_nat (S n)) with (Z.succ (Z.of_nat n)) in Hv by lia. rewrite Z.pow_succ_r in Hv by lia. nia.
    + lia.
    + rewrite length_app. simpl. lia.
    + exists buf'. split; [done|]. rewrite length_app in Hl'. simpl in Hl'. lia.
Qed.
Lemma zero_loop_bound fuel prec buf :
  (63 ≤ length buf + fuel)%nat → ∃ k, zero_loop fuel prec buf = Ret (buf ++ replicate k 48) ∧ (length buf + k ≤ max 63 (length buf))%nat ∧
    (Z.of_nat (length buf + k) < prec → (63 ≤ length buf + k)%nat) ∧ (prec ≤ Z.of_nat (length buf) → k = 0%nat).
Proof.
  revert buf. induction fuel as [|fuel IH]; intros buf Hf.
  all: destruct ((Z.of_nat (length buf) <? prec) && (length buf <? 63)%nat) eqn:E.
  1: { apply andb_true_iff in E as [_ ?%Nat.ltb_lt]. lia. }
  1,3: exists 0%nat; cbn [zero_loop replicate]; rewrite E, app_nil_r; split; [done|]; split; [lia|]; split; [|done];
    apply andb_false_iff in E as [?%Z.ltb_ge|?%Nat.ltb_ge]; lia.
  apply andb_true_iff in E as [H1 H2]. pose proof H1 as H1'. apply Z.ltb_lt in H1'. pose proof H2 as H2'. apply Nat.ltb_lt in H2'.
  cbn [zero_loop]. rewrite H1, H2. cbn [andb]. rewrite push_Ret by lia. cbn [obind].
  destruct (IH (buf ++ [ch "0"])) as (k & -> & Hk & Hp & Hz); [rewrite length_app; simpl; lia|]. rewrite length_app in Hk, Hp, Hz. cbn [length] in *.
  exists (S k). rewrite <-app_assoc. split; [done|]. split; [lia|]. split; [|lia]. intros H. replace (length buf + S k)%nat with (length buf + 1 + k)%nat by lia. apply Hp. lia.
Qed.
Lemma integer_digits_bound value b c :
  b ∈ bases → value < 2 ^ 64 → ∃ buf, integer_digits value b c = Ret buf ∧ (length buf ≤ 64)%nat.
Proof.
  intros Hb Hv. unfold integer_digits. destruct (digit_loop_bound 22 64 c b value 0 []) as (buf & -> & Hl); [done|lia|lia|simpl; lia|].
  cbn [obind length] in *. destruct (zero_loop_bound 64 (if precision c <? 0 then 1 else precision c) buf) as (k & -> & Hk & _); [lia|].
  cbn [obind]. assert (length (buf ++ replicate k 48%Z) ≤ 63)%nat as Hl' by (rewrite length_app, length_replicate; lia).
  case_match; [rewrite push_Ret by lia; eexists; split; [done|]; rewrite length_app; simpl; lia|]. eexists. split; [done|lia].
Qed.
Lemma output_dup_total {A} (o : Z → M (mem * A) unit) (Ho : ∀ c s, ∃ s', o c s = Ret (tt, s')) c n s :
  ∃ s', output_dup o c n s = Ret (tt, s').
Proof.
  unfold output_dup. revert s. induction (Z.to_nat n) as [|k IH]; intros s1; simpl; [by exists s1|].
  destruct (Ho c s1) as [s2 H2]. rewrite (bindM_Ret _ _ _ _ _ H2). apply IH.
Qed.
(** C30. Printing a number never writes past its 64-character buffer, whatever
    the base, the flags, the width and the precision: with an output function
    that always returns, [format_integer] returns. *)
Theorem format_integer_total {A} (output : Z → M (mem * A) unit) value is_signed negative b c s :
  (∀ c s, ∃ s', output c s = Ret (tt, s')) → b ∈ bases → value < 2 ^ 64 →
  ∃ s', format_integer output value is_signed negative b c s = Ret (tt, s').
Proof.
  intros Ho Hb Hv. destruct (integer_digits_bound value b c Hb Hv) as (buf & Hd & _).
  assert (∀ cs s, ∃ s', output_all output cs s = Ret (tt, s')) as Hall.
  { induction cs as [|x cs IH]; intros s1; simpl; [by exists s1|]. destruct (Ho x s1) as [s2 H2]. rewrite (bindM_Ret _ _ _ _ _ H2). apply IH. }
  pose proof (output_dup_total output Ho) as Hdup.
  assert (∀ (bb : bool) (f : M (mem * A) unit), (∀ s, ∃ s', f s = Ret (tt, s')) → ∀ s, ∃ s', when bb f s = Ret (tt, s')) as Hwhen
    by (intros [] f Hf s1; [apply Hf|by exists s1]).
  assert (∀ (f g : M (mem * A) unit), (∀ s, ∃ s', f s = Ret (tt, s')) → (∀ s, ∃ s', g s = Ret (tt, s')) → ∀ s, ∃ s', (run f; g) s = Ret (tt, s')) as Hseq.
  { intros f g Hf Hg s1. destruct (Hf s1) as [s2 H2]. rewrite (bindM_Ret _ _ _ _ _ H2). apply Hg. }
  unfold format_integer. rewrite Hd. change (bindM (liftO (Ret buf)) ?f s) with (f buf s). cbv beta. revert s.
  repeat (apply Hseq; [first [apply Hall|apply Hwhen; try apply Hdup; try apply Ho]|]).
  - apply Hseq; apply Ho.
  - apply Hwhen, Hdup.
Qed.
(** The output that only counts. *)
Definition count_char (c : Z) : M (mem * Z) unit := λ '(m, n), Ret (tt, (m, n + 1)).
Lemma format_integer_total_witness :
  ∃ s', format_integer count_char (2 ^ 64 - 1) false false base_o (PrintfConversion (Z.lor POUND GROUP) 100 63 INTMAX) (∅, 0) = Ret (tt, s').
Proof.
  apply (format_integer_total count_char); [|by right; left|done]. intros c [m n]. by eexists.
Defined.

(** ** snprintf and atoi *)
(** The plain decimal digits of a value, last first. *)
Lemma digit_loop_decimal fuel value cnt buf c :
  flags c = 0 → 0 ≤ value < 10 ^ Z.of_nat fuel → (length buf + fuel ≤ 64)%nat →
  ∃ ds, digit_loop fuel c base_d value cnt buf = Ret (buf ++ ds) ∧ Forall (λ d, isdigit d = true) ds ∧ (length ds ≤ fuel)%nat ∧
    (0 < value → ds ≠ []) ∧ decimal (rev ds) = value.
Proof.
  intros Hc. revert value cnt buf. induction fuel as [|fuel IH]; intros value cnt buf Hv Hl.
  - change (10 ^ Z.of_nat 0) with 1 in Hv. assert (value = 0) as -> by lia. exists []. simpl. rewrite app_nil_r. split; [done|]. split; [constructor|]. split; [lia|]. split; [lia|done].
  - destruct (Z.ltb_spec 0 value) as [Hpos|Hpos].
    2: { assert (value = 0) as -> by lia. exists []. simpl. rewrite app_nil_r. split; [done|]. split; [constructor|]. split; [lia|]. split; [lia|done]. }
    cbn [digit_loop]. rewrite (proj2 (Z.ltb_lt 0 value)) by done. unfold has at 1. rewrite Hc. change (Z.land 0 GROUP) with 0. cbn [obind Z.eqb negb andb].
    pose proof (Z.mod_pos_bound value 10 ltac:(lia)) as Hm. change (base base_d) with 10.
    assert (digits base_d !! Z.to_nat (value `mod` 10) = Some (48 + value `mod` 10)) as ->.
    { assert (∀ k, 0 ≤ k < 10 → digits base_d !! Z.to_nat k = Some (48 + k)) as H; [|by apply H].
      intros k Hk. assert (k = 0 ∨ k = 1 ∨ k = 2 ∨ k = 3 ∨ k = 4 ∨ k = 5 ∨ k = 6 ∨ k = 7 ∨ k = 8 ∨ k = 9) as Hk' by lia.
      destruct Hk' as [->|[->|[->|[->|[->|[->|[->|[->|[->| ->]]]]]]]]]; done. }
    rewrite push_Ret by lia. cbn [obind].
    destruct (IH (value / 10) (cnt + 1) (buf ++ [48 + value `mod` 10])) as (ds & -> & Hds & Hlen & _ & Hdec).
    + split; [apply Z.div_pos; lia|]. apply Z.div_lt_upper_bound; [lia|]. replace (Z.of_nat (S fuel)) with (Z.succ (Z.of_nat fuel)) in Hv by lia.
      rewrite Z.pow_succ_r in Hv by lia. lia.
    + rewrite length_app. simpl. lia.
    + exists ((48 + value `mod` 10) :: ds). split; [by rewrite <-app_assoc|]. split; [|split; [simpl; lia|split; [done|]]].
      * constructor; [|done]. unfold isdigit. rewrite andb_true_iff, !Z.leb_le. lia.
      * cbn [rev]. unfold decimal in *. rewrite fold_left_app, Hdec. cbn. pose proof (Z.div_mod value 10). lia.
Qed.
Lemma digit_loop_mono fuel c b value cnt buf r n : digit_loop fuel c b value cnt buf = Ret r → digit_loop (fuel + n) c b value cnt buf = Ret r.
Proof.
  revert value cnt buf. induction fuel as [|fuel IH]; intros value cnt buf.
  - destruct n; simpl; destruct (0 <? value); done.
  - cbn [digit_loop Nat.add]. destruct (0 <? value); [|done]. match goal with |- context [obind (if ?x then ?y else ?z) _] => destruct (if x then y else z) end; cbn [obind]; try done.
    destruct (_ !! _); [|done]. destruct (push _ _); cbn [obind]; try done. apply IH.
Qed.
(** The digits printed for a value without flags, width or precision. *)
Lemma integer_digits_decimal value c :
  flags c = 0 → precision c = -1 → 0 ≤ value < 10 ^ 10 →
  ∃ ds, integer_digits value base_d c = Ret (rev ds) ∧ Forall (λ d, isdigit d = true) ds ∧ (0 < length ds ≤ 10)%nat ∧ decimal ds = value.
Proof.
  intros Hc Hp Hv. unfold integer_digits. destruct (digit_loop_decimal 10 value 0 [] c Hc Hv) as (ds & Hr & Hds & Hlen & Hne & Hdec); [simpl; lia|].
  rewrite (digit_loop_mono 10 c base_d value 0 [] ([] ++ ds) 54 Hr : digit_loop 64 c base_d value 0 [] = Ret ([] ++ ds)). cbn [obind app].
  rewrite Hp. change (-1 <? 0) with true. unfold has at 1. rewrite Hc. change (Z.land 0 POUND) with 0. cbn [andb negb Z.eqb].
  destruct ds as [|d ds].
  - assert (value = 0) as -> by (unfold decimal in Hdec; simpl in Hdec; lia). exists [48]. split; [done|]. split; [by constructor|]. split; [simpl; lia|done].
  - destruct (zero_loop_bound 64 1 (d :: ds)) as (k & -> & _ & _ & Hk); [simpl; lia|]. rewrite Hk by (simpl; lia). cbn [obind replicate].
    exists (rev (d :: ds)). rewrite rev_involutive, app_nil_r, length_rev. split; [done|]. split; [|split; [simpl in *; lia|done]].
    by apply Forall_rev.
Qed.
Lemma collect_all cs m out :
  Forall (λ c, 0 ≤ c < 256) cs → Z.of_nat (length out + length cs) ≤ 2 ^ 31 - 1 →
  output_all collect cs (m, out) = Ret (tt, (m, out ++ cs)).
Proof.
  revert out. induction cs as [|c cs IH]; intros out Hcs Hl; simpl; [by rewrite app_nil_r|]. apply Forall_cons in Hcs as [Hc Hcs].
  cbn [length] in Hl. rewrite (bindM_Ret _ _ (m, out) tt (m, out ++ [c])).
  - rewrite IH; [by rewrite <-app_assoc|done|]. rewrite length_app. simpl. lia.
  - unfold collect. rewrite (proj2 (Z.ltb_lt _ _)) by lia. unfold u8. by rewrite Z.mod_small by done.
Qed.
Lemma i32_u32 v : i32 (u32 v) = i32 v.
Proof. unfold u32. rewrite Z.mod_eq by lia. replace (v - 2 ^ 32 * (v / 2 ^ 32)) with (v + (- (v / 2 ^ 32)) * 2 ^ 32) by lia. apply i32_add_mult. Qed.
Lemma vprintf_loop_S {A} (o : Z → M (mem * A) unit) n c0 format args :
  vprintf_loop o (S n) (c0 :: format) args =
    if negb (c0 =? ch "%") then run o c0; vprintf_loop o n format args
    else if peek format =? ch "%" then run o (ch "%"); vprintf_loop o n (tail format) args
    else
      do r <- liftO (parse_conversion format args);
      do args' <- convert o (vprintf_loop o n) r.1.1 (peek r.1.2) r.2;
      do format3 <- liftO (advance r.1.2);
      vprintf_loop o n format3 args'.
Proof. done. Qed.
Definition sign_of (v : Z) : list Z := if v <? 0 then [45] else [].
Lemma prints_d m v :
  - 2 ^ 31 ≤ v < 2 ^ 31 → ∃ ds, prints m (str "%d") [u32 v] (sign_of v ++ ds) ∧ Forall (λ d, isdigit d = true) ds ∧
    (0 < length ds ≤ 10)%nat ∧ decimal ds = Z.abs v.
Proof.
  intros Hv. set (c := PrintfConversion 0 0 (-1) INT).
  destruct (integer_digits_decimal (Z.abs v) c) as (ds & Hd & Hds & Hlen & Hdec); [done|done|lia|]. exists ds. split; [|done].
  assert (format_integer collect (if v <? 0 then u64 (- v) else v) true (v <? 0) base_d c (m, []) = Ret (tt, (m, sign_of v ++ ds))) as Hf.
  { replace (if v <? 0 then u64 (- v) else v) with (Z.abs v) by (destruct (Z.ltb_spec v 0); [rewrite u64_small; lia|lia]).
    unfold format_integer. rewrite (bindM_Ret (liftO _) _ _ (rev ds) (m, [])) by (by rewrite Hd). cbv zeta.
    set (sign := integer_sign true (v <? 0) c). rewrite length_rev, rev_involutive.
    assert (0 ≤ (if sign =? 0 then 0 else 1) ≤ 1) by (by destruct (sign =? 0)). change (has c POUND) with false. change (has c ZERO) with false. change (has c MINUS) with false. cbn [andb].
    change (width c) with 0. change (0 =? 0) with true. cbv iota. rewrite i32_small by lia. rewrite (proj2 (Z.ltb_lt _ 0)) by lia. cbn [when]. unfold output_dup. cbn [Z.to_nat output_dup_].
    rewrite (bindM_Ret (when _ (output_dup_ _ _ _)) _ _ tt (m, [])) by done.
    assert (when (negb (sign =? 0)) (collect sign) (m, []) = Ret (tt, (m, sign_of v))) as Hs by (unfold sign, sign_of; by destruct (v <? 0)).
    rewrite (bindM_Ret _ _ _ _ _ Hs). rewrite (bindM_Ret (when (negb true) _) _ _ tt (m, sign_of v)), (bindM_Ret (retM tt) _ _ tt (m, sign_of v)) by done.
    assert (length (sign_of v) ≤ 1)%nat by (unfold sign_of; destruct (v <? 0); simpl; lia).
    rewrite (bindM_Ret _ _ _ tt (m, sign_of v ++ ds)); [done|]. apply collect_all; [|lia].
    eapply Forall_impl; [exact Hds|]. intros d Hd'. unfold isdigit in Hd'. rewrite andb_true_iff, !Z.leb_le in Hd'. lia. }
  unfold prints, __vprintf. change (vprintf_fuel (str "%d")) with 27%nat. change (str "%d") with [37; 100].
  rewrite vprintf_loop_S. change (parse_conversion [100] [u32 v]) with (Ret (c, [100], [u32 v])).
  change (negb (37 =? ch "%")) with false. change (peek [100] =? ch "%") with false. cbv iota.
  rewrite (bindM_Ret (liftO _) _ _ (c, [100], [u32 v]) (m, [])) by done. cbn [fst snd].
  rewrite (bindM_Ret (convert _ _ _ _ _) _ _ [] (m, sign_of v ++ ds)); [done|].
  generalize (vprintf_loop collect 26). intros pr. unfold convert. change ((peek [100] =? ch "d") || _) with true. cbv iota. cbn [type c signed_arg va_word obind].
  rewrite (bindM_Ret (liftO _) _ _ (v, []) (m, [])) by (unfold liftO; rewrite i32_u32, i32_small; done). cbn [fst snd].
  by rewrite (bindM_Ret _ _ _ _ _ Hf).
Qed.
(** What [snprintf] prints with %d, [atoi] reads back, for every [int]. *)
Theorem snprintf_atoi m buffer n v :
  - 2 ^ 31 ≤ v < 2 ^ 31 → mapped m buffer n → (12 ≤ n)%nat → Z.of_nat n ≤ 2 ^ 31 → buffer ≠ null →
  ∃ len m', snprintf buffer (Z.of_nat n) (str "%d") [u32 v] m = Ret (len, m') ∧ atoi buffer m' = Ret (v, m').
Proof.
  intros Hv Hm Hn Hn2 Hb. destruct (prints_d ∅ v Hv) as (ds & Hp & Hds & Hlen & Hdec).
  assert (length (sign_of v) ≤ 1)%nat as Hs by (unfold sign_of; destruct (v <? 0); simpl; lia).
  exists (Z.of_nat (length (sign_of v ++ ds))), (write_bytes buffer (take (n - 1) (sign_of v ++ ds) ++ [0]) m). split.
  - apply (vsnprintf_Ret m ∅); [done|apply map_empty_subseteq|intros; apply lookup_empty|done|lia|done].
  - rewrite take_ge by (rewrite length_app; lia).
    rewrite (atoi_value _ buffer [] (sign_of v) ds []); [| |done|constructor| | |done|done].
    + do 2 f_equal. rewrite Hdec. unfold sign_of. destruct (Z.ltb_spec v 0).
      * rewrite bool_decide_eq_true_2 by done. rewrite i32_small; lia.
      * rewrite bool_decide_eq_false_2 by done. rewrite i32_small; lia.
    + cbn [app]. rewrite app_nil_r. split; [apply write_bytes_at|]. rewrite elem_of_app. intros [H|H].
      * unfold sign_of in H. destruct (v <? 0); set_solver.
      * rewrite Forall_forall in Hds. specialize (Hds _ H). done.
    + unfold sign_of. destruct (v <? 0); auto.
    + by destruct ds; simpl in *; [lia|].
Qed.
Lemma snprintf_atoi_witness :
  ∃ len m', snprintf 100 12 (str "%d") [u32 (-2147483648)] (mem_of 100 (replicate 12 0)) = Ret (len, m') ∧ atoi 100 m' = Ret (-2147483648, m').
Proof.
  apply (snprintf_atoi _ 100 12); try done; try lia. intros i Hi. do 12 (destruct i as [|i]; [by eexists|]). lia.
Defined.


(** ** Formats that end too early *)
Lemma message_total {A} (o : Z → M (mem * A) unit) (Ho : ∀ c s, ∃ s', o c s = Ret (tt, s')) n f s :
  (22 ≤ n)%nat → ∃ s', vprintf_loop o n (str "<<no %%%c conversion>>") [f] s = Ret (tt, s').
Proof.
  intros Hn. destruct (Nat.le_exists_sub 22 n Hn) as (k & -> & _). rewrite Nat.add_comm. revert s.
  assert (∀ c format args n, c ≠ 37 → (∀ s, ∃ s', vprintf_loop o n format args s = Ret (tt, s')) →
    ∀ s, ∃ s', vprintf_loop o (S n) (c :: format) args s = Ret (tt, s')) as Hchar.
  { intros c format args n' Hc H s. rewrite vprintf_loop_S. change (ch "%") with 37. rewrite (proj2 (Z.eqb_neq _ _)) by done.
    destruct (Ho c s) as [s' Hs']. cbn [negb]. rewrite (bindM_Ret _ _ _ _ _ Hs'). apply H. }
  change (str "<<no %%%c conversion>>") with ([60; 60; 110; 111; 32; 37; 37; 37; 99] ++ str " conversion>>").
  change (22 + k)%nat with (S (S (S (S (S (S (S (15 + k)))))))). cbn [app]. do 5 (apply Hchar; [done|]). intros s.
  rewrite vprintf_loop_S. change (negb _) with false. cbv iota. change (peek (37 :: _) =? ch "%") with true. cbv iota.
  destruct (Ho (ch "%") s) as [s1 H1]. rewrite (bindM_Ret _ _ _ _ _ H1). cbn [tail]. clear s H1.
  rewrite vprintf_loop_S. change (negb _) with false. cbv iota. change (peek (99 :: _) =? ch "%") with false. cbv iota.
  set (c := PrintfConversion 0 0 (-1) INT). change (parse_conversion _ _) with (Ret (c, 99 :: str " conversion>>", [f])).
  rewrite (bindM_Ret (liftO _) _ s1 (c, 99 :: str " conversion>>", [f]) s1) by done. cbn [fst snd].
  destruct (Ho (u8 f) s1) as [s2 H2]. rewrite (bindM_Ret (convert _ _ _ _ _) _ s1 [] s2).
  - rewrite (bindM_Ret (liftO _) _ s2 (str " conversion>>") s2) by done.
    change (str " conversion>>") with [32; 99; 111; 110; 118; 101; 114; 115; 105; 111; 110; 62; 62]. change (15 + k)%nat with (13 + (2 + k))%nat. revert s2 H2.
    intros s2 _. revert s2. change (13 + (2 + k))%nat with (S (S (S (S (S (S (S (S (S (S (S (S (S (2 + k)))))))))))))).
    do 13 (apply Hchar; [done|]). intros s2. exists s2. by destruct k.
  - generalize (vprintf_loop o (15 + k)). intros pr. unfold convert. change (peek _) with 99. cbv beta.
    change ((99 =? ch "d") || _) with false. change ((99 =? ch "o") || _ || _ || _) with false. change (99 =? ch "c") with true. cbv iota.
    rewrite (bindM_Ret (liftO _) _ s1 (f, []) s1) by done. cbn [fst snd]. unfold format_string. change (1 <? width c) with false. cbn [andb when].
    rewrite (bindM_Ret (bindM _ _) _ s1 tt s2); [done|]. rewrite (bindM_Ret (retM tt) _ s1 tt s1) by done.
    rewrite (bindM_Ret _ _ s1 tt s2); [done|]. change (Z.to_nat 1) with 1%nat. cbn [string_loop].
    rewrite (bindM_Ret (literal _ _) _ s1 (u8 f) s1) by done. by rewrite (bindM_Ret _ _ _ _ _ H2).
Qed.
(** A format that ends in a single % makes [__vprintf] step over its
    terminator: the loop's increment after the message for an unknown conversion
    reads past the end of the string. *)
Theorem vprintf_past_end {A} (o : Z → M (mem * A) unit) s args st :
  (∀ c s, ∃ s', o c s = Ret (tt, s')) → 37 ∉ s → __vprintf o (s ++ str "%") args st = Panic.
Proof.
  intros Ho. unfold __vprintf, vprintf_fuel. change (str "%") with [37]. rewrite length_app. cbn [length].
  revert st. induction s as [|c s IH]; intros st Hs.
  - cbn [app length Nat.add]. rewrite vprintf_loop_S. change (negb _) with false. cbv iota. change (peek [] =? ch "%") with false. cbv iota.
    change (parse_conversion [] args) with (Ret (PrintfConversion 0 0 (-1) INT, @nil Z, args)).
    rewrite (bindM_Ret (liftO _) _ st (PrintfConversion 0 0 (-1) INT, [], args) st) by done. cbn [fst snd].
    destruct (message_total o Ho 25 0 st) as [s1 H1]; [lia|]. rewrite (bindM_Ret (convert _ _ _ _ _) _ st args s1); [done|].
    revert H1. generalize (vprintf_loop o 25). intros pr H1. unfold convert. change (peek []) with 0. cbn [ch]. cbv beta.
    repeat match goal with |- context [if ?b then _ else _] => change b with false; cbv iota end.
    by rewrite (bindM_Ret _ _ _ _ _ H1).
  - apply not_elem_of_cons in Hs as [Hc Hs]. cbn [app length Nat.add]. rewrite vprintf_loop_S. change (ch "%") with 37.
    rewrite (proj2 (Z.eqb_neq c 37)) by done. cbn [negb]. destruct (Ho c st) as [s1 H1]. rewrite (bindM_Ret _ _ _ _ _ H1). by apply IH.
Qed.
Lemma vprintf_past_end_witness : __vprintf count_char (str "100" ++ str "%") [] (∅, 0) = Panic.
Proof.
  apply (vprintf_past_end count_char); [|by vm_compute; set_solver]. intros c [m n]. by eexists.
Defined.
