(* ===== verification/Bytes.v ===== *)
(** * Sequences of bytes

    Little-endian integers, slices of a sequence and their replacement, and a
    device of equally sized sectors seen as one sequence. *)

From stdpp Require Import base numbers list.
From S2P Require Import Prelude.

(** ** Little-endian integers *)
Section little_endian.
  Local Open Scope Z_scope.
Fixpoint le (bs : list Z) : Z := match bs with [] => 0 | b :: bs => b + 256 * le bs end.
Fixpoint to_le (n : nat) (z : Z) : list Z :=
  match n with O => [] | S n => z `mod` 256 :: to_le n (z / 256) end.
Lemma to_le_length n z : length (to_le n z) = n.
Proof. revert z. induction n as [|n IH]; intros z; simpl; [done|]. by rewrite IH. Qed.
Lemma le_to_le n z : 0 ≤ z < 256 ^ Z.of_nat n → le (to_le n z) = z.
Proof.
  revert z. induction n as [|n IH]; intros z Hz; [simpl in *; lia|]. cbn [to_le le].
  rewrite Nat2Z.inj_succ, Z.pow_succ_r in Hz by lia. rewrite IH.
  - pose proof (Z.div_mod z 256). lia.
  - split; [apply Z.div_pos; lia|]. apply Z.div_lt_upper_bound; lia.
Qed.
Lemma to_le_le n bs :
  length bs = n → Forall (λ b, 0 ≤ b < 256) bs → to_le n (le bs) = bs.
Proof.
  intros <-. induction 1 as [|b bs Hb Hbs IH]; [done|]. cbn [length le to_le].
  rewrite (Z.mul_comm 256), Z_mod_plus_full, Z_div_plus_full by lia.
  rewrite Z.mod_small, Z.div_small by lia. by rewrite Z.add_0_l, IH.
Qed.
Lemma to_le_bytes n z : Forall (λ b, 0 ≤ b < 256) (to_le n z).
Proof. revert z. induction n as [|n IH]; intros z; constructor; [apply Z.mod_pos_bound; lia|done]. Qed.
Lemma le_range bs : Forall (λ b, 0 ≤ b < 256) bs → 0 ≤ le bs < 256 ^ Z.of_nat (length bs).
Proof.
  induction 1 as [|b bs Hb _ IH]; [simpl; lia|]. cbn [le length]. rewrite Nat2Z.inj_succ, Z.pow_succ_r by lia. lia.
Qed.
End little_endian.

(** ** Slices *)
Section slices.
  Context {A : Type}.
  Implicit Types (l d : list A).
Definition slice (a n : nat) l : list A := take n (drop a l).
(** [d] in place of the elements at [a]. *)
Definition splice (a : nat) d l : list A := take a l ++ d ++ drop (a + length d) l.
Lemma slice_length a n l : a + n ≤ length l → length (slice a n l) = n.
Proof. intros. unfold slice. rewrite length_take, length_drop. lia. Qed.
Lemma slice_app a n m l : slice a n l ++ slice (a + n) m l = slice a (n + m) l.
Proof. unfold slice. rewrite <-drop_drop. by rewrite take_take_drop. Qed.
Lemma slice_all l : slice 0 (length l) l = l.
Proof. unfold slice. rewrite drop_0. by apply take_ge. Qed.
Lemma slice_slice a n b m l : b + m ≤ n → slice b m (slice a n l) = slice (a + b) m l.
Proof.
  intros. unfold slice. rewrite skipn_firstn_comm, drop_drop, take_take. f_equal. lia.
Qed.
Lemma splice_length a d l : a + length d ≤ length l → length (splice a d l) = length l.
Proof. intros. unfold splice. rewrite !length_app, length_take, length_drop. lia. Qed.
Lemma splice_nil a l : splice a [] l = l.
Proof. unfold splice. simpl. by rewrite Nat.add_0_r, take_drop. Qed.
Lemma slice_splice_same a d l : a + length d ≤ length l → slice a (length d) (splice a d l) = d.
Proof.
  intros H. unfold slice, splice. rewrite drop_app_length'; [|rewrite length_take; lia]. by apply take_app_length'.
Qed.
Lemma splice_lookup a d l i :
  a + length d ≤ length l →
  splice a d l !! i = if decide (a ≤ i < a + length d) then d !! (i - a) else l !! i.
Proof.
  intros H. unfold splice. destruct (decide (i < a)) as [Hi|Hi].
  - rewrite decide_False by lia. rewrite lookup_app_l by (rewrite length_take; lia). by apply lookup_take_lt.
  - rewrite lookup_app_r by (rewrite length_take; lia). rewrite length_take, Nat.min_l by lia.
    case_decide.
    + rewrite lookup_app_l by lia. done.
    + rewrite lookup_app_r by lia. rewrite lookup_drop. f_equal. lia.
Qed.
Lemma slice_lookup a n l i : slice a n l !! i = if decide (i < n) then l !! (a + i) else None.
Proof. unfold slice. rewrite lookup_take, lookup_drop. done. Qed.
Lemma slice_splice_other a d l b n :
  a + length d ≤ length l → b + n ≤ a ∨ a + length d ≤ b → slice b n (splice a d l) = slice b n l.
Proof.
  intros H Hd. apply list_eq. intros i. rewrite !slice_lookup. case_decide; [|done].
  rewrite splice_lookup by done. rewrite decide_False by lia. done.
Qed.
(** Replacing a part of a slice replaces it in the whole. *)
Lemma slice_splice_in a n b d l :
  a + n ≤ length l → b + length d ≤ n → slice a n (splice (a + b) d l) = splice b d (slice a n l).
Proof.
  intros Ha Hb. apply list_eq. intros i. rewrite slice_lookup.
  rewrite (splice_lookup b) by (rewrite slice_length; lia). rewrite slice_lookup.
  case_decide.
  - rewrite splice_lookup by lia. destruct (decide (b ≤ i < b + length d)).
    + rewrite decide_True by lia. f_equal. lia.
    + rewrite decide_False by lia. done.
  - by rewrite decide_False by lia.
Qed.
Lemma splice_splice a d1 d2 l :
  a + length d1 + length d2 ≤ length l →
  splice (a + length d1) d2 (splice a d1 l) = splice a (d1 ++ d2) l.
Proof.
  intros H. apply list_eq. intros i.
  rewrite !splice_lookup by (rewrite ?splice_length, ?length_app; lia).
  rewrite length_app. repeat case_decide; try lia; try done.
  - rewrite lookup_app_r by lia. f_equal. lia.
  - rewrite lookup_app_l by lia. done.
Qed.

(** ** Sectors *)
(** A device of sectors of [n] elements as one sequence. *)
Definition uniform (n : nat) (ss : list (list A)) : Prop := Forall (λ s, length s = n) ss.
Lemma length_flat n ss : uniform n ss → length (concat ss) = n * length ss.
Proof. induction 1 as [|s ss Hs _ IH]; simpl; [lia|]. rewrite length_app. lia. Qed.
Lemma drop_flat n ss k : uniform n ss → drop (n * k) (concat ss) = concat (drop k ss).
Proof.
  intros H. revert k. induction H as [|s ss Hs Hss IH]; intros [|k]; rewrite ?Nat.mul_0_r; simpl; try done.
  - by rewrite drop_nil.
  - rewrite <-IH, drop_app_ge by lia. f_equal. lia.
Qed.
Lemma slice_flat n ss k s o m :
  uniform n ss → ss !! k = Some s → o + m ≤ n → slice (n * k + o) m (concat ss) = slice o m s.
Proof.
  intros Hu Hs Hm. unfold slice. rewrite <-drop_drop, (drop_flat n) by done.
  rewrite (drop_S _ _ _ Hs). simpl. assert (length s = n) as Hl by (by apply (Forall_lookup_1 _ _ _ _ Hu Hs)).
  rewrite drop_app_le by lia. rewrite take_app_le; [done|]. rewrite length_drop. lia.
Qed.
Lemma splice_flat n ss k s o d :
  uniform n ss → ss !! k = Some s → o + length d ≤ n →
  concat (<[k := splice o d s]> ss) = splice (n * k + o) d (concat ss).
Proof.
  intros Hu. revert k. induction Hu as [|x ss Hx Hss IH]; intros [|k] Hs Hd; try done.
  - injection Hs as ->. rewrite Nat.mul_0_r. simpl. unfold splice.
    rewrite take_app_le by lia. rewrite (drop_app_le s) by lia. by rewrite <-!app_assoc.
  - simpl. simpl in Hs. rewrite IH by done. unfold splice. rewrite take_app_ge by lia.
    rewrite drop_app_ge by lia. rewrite <-app_assoc. do 2 f_equal; [f_equal; lia|]. do 2 f_equal. lia.
Qed.
Lemma uniform_insert n ss k s : uniform n ss → length s = n → uniform n (<[k := s]> ss).
Proof. intros. by apply Forall_insert. Qed.
End slices.
