(* ===== verification/Block.v ===== *)
(** * devices/block.c and devices/partition.c: block devices

    The registry of block devices, and the two kinds of driver behind it: a
    disk, which keeps the sectors written to it, and a partition, which passes
    requests on to another block device.  [block->ops] and [block->aux] together
    say which driver a device has.  Messages on the console are not part of the
    state. *)

From stdpp Require Import base numbers list gmap.
From S2P Require Import Prelude Bytes.
Local Open Scope Z_scope.

Definition BLOCK_SECTOR_SIZE : Z := 512.
Abbreviation bsector := (list Z).
Inductive block_type := BLOCK_KERNEL | BLOCK_FILESYS | BLOCK_SCRATCH | BLOCK_SWAP | BLOCK_RAW | BLOCK_FOREIGN.
#[global] Instance block_type_eq_dec : EqDecision block_type.
Proof. solve_decision. Defined.
(** The position in [enum block_type]. *)
Definition type_index (t : block_type) : Z :=
  match t with
  | BLOCK_KERNEL => 0 | BLOCK_FILESYS => 1 | BLOCK_SCRATCH => 2 | BLOCK_SWAP => 3
  | BLOCK_RAW => 4 | BLOCK_FOREIGN => 5
  end.
Definition BLOCK_ROLE_CNT : Z := 4.

(** A block device is known by its position in [all_blocks]. *)
Abbreviation bptr := nat.
Inductive driver :=
  | Disk (d : nat)                               (** [ide_operations] *)
  | Partition (block : bptr) (start : Z).        (** [partition_operations] *)
Record block := Block {
  name : list Z; type : block_type; size : Z; ops : driver; read_cnt : Z; write_cnt : Z }.
Record devices := Devices {
  all_blocks : list block;
  block_by_role : list (option bptr);
  disks : gmap nat (list bsector) }.

Definition set_blocks x (d : devices) : devices := Devices x (block_by_role d) (disks d).
Definition set_roles x (d : devices) : devices := Devices (all_blocks d) x (disks d).
Definition set_disks x (d : devices) : devices := Devices (all_blocks d) (block_by_role d) x.
Definition count_read (b : block) : block :=
  Block (name b) (type b) (size b) (ops b) (u64 (read_cnt b + 1)) (write_cnt b).
Definition count_write (b : block) : block :=
  Block (name b) (type b) (size b) (ops b) (read_cnt b) (u64 (write_cnt b + 1)).

Definition get_block (b : bptr) : M devices block := λ d,
  match all_blocks d !! b with Some blk => Ret (blk, d) | None => Panic end.
Definition mod_block (b : bptr) (f : block → block) : M devices unit :=
  do blk <- get_block b; modifyM (λ d, set_blocks (<[b := f blk]> (all_blocks d)) d).

(** ** Finding devices *)
Definition block_get_role (role : block_type) : M devices (option bptr) :=
  run assertM (type_index role <? BLOCK_ROLE_CNT);
  do d <- getM; retM (default None (block_by_role d !! Z.to_nat (type_index role))).
Definition block_set_role (role : block_type) (b : option bptr) : M devices unit :=
  run assertM (type_index role <? BLOCK_ROLE_CNT);
  modifyM (λ d, set_roles (<[Z.to_nat (type_index role) := b]> (block_by_role d)) d).
(** [list_elem_to_block]: the element at a position, or the list's end. *)
Definition list_elem_to_block (d : devices) (e : nat) : option bptr :=
  if (e <? length (all_blocks d))%nat then Some e else None.
Definition block_first : M devices (option bptr) := do d <- getM; retM (list_elem_to_block d 0).
Definition block_next (b : bptr) : M devices (option bptr) := do d <- getM; retM (list_elem_to_block d (S b)).
Fixpoint get_by_name_loop (l : list block) (e : nat) (n : list Z) : option bptr :=
  match l with
  | [] => None
  | b :: l => if bool_decide (n = name b) then Some e else get_by_name_loop l (S e) n
  end.
Definition block_get_by_name (n : list Z) : M devices (option bptr) :=
  do d <- getM; retM (get_by_name_loop (all_blocks d) 0 n).

(** ** Reading and writing sectors *)
Definition block_size (b : bptr) : M devices Z := do blk <- get_block b; retM (size blk).
Definition block_name (b : bptr) : M devices (list Z) := do blk <- get_block b; retM (name blk).
Definition block_type_of (b : bptr) : M devices block_type := do blk <- get_block b; retM (type blk).
Definition check_sector (blk : block) (sector : Z) : M devices unit := assertM (sector <? size blk).
(** The disk: the sectors it keeps. *)
Definition disk_read (d : nat) (sector : Z) : M devices bsector := λ s,
  match disks s !! d ≫= lookup (Z.to_nat sector) with Some b => Ret (b, s) | None => Panic end.
Definition disk_write (d : nat) (sector : Z) (buffer : bsector) : M devices unit := λ s,
  match disks s !! d with
  | Some l =>
      if (Z.to_nat sector <? length l)%nat
      then Ret (tt, set_disks (<[d := <[Z.to_nat sector := buffer]> l]> (disks s)) s) else Panic
  | None => Panic
  end.
(** [fuel] bounds the chain of devices behind a partition. *)
Fixpoint block_read_n (fuel : nat) (b : bptr) (sector : Z) : M devices bsector :=
  do blk <- get_block b;
  run check_sector blk sector;
  do buffer <- (match ops blk, fuel with
                | Disk d, _ => disk_read d sector
                | Partition b' start, S fuel => block_read_n fuel b' (u32 (start + sector))
                | Partition _ _, O => λ _, NoFuel
                end);
  run mod_block b count_read; retM buffer.
Fixpoint block_write_n (fuel : nat) (b : bptr) (sector : Z) (buffer : bsector) : M devices unit :=
  do blk <- get_block b;
  run check_sector blk sector;
  run assertM (negb (bool_decide (type blk = BLOCK_FOREIGN)));
  run (match ops blk, fuel with
       | Disk d, _ => disk_write d sector buffer
       | Partition b' start, S fuel => block_write_n fuel b' (u32 (start + sector)) buffer
       | Partition _ _, O => λ _, NoFuel
       end);
  mod_block b count_write.
Definition block_read (b : bptr) (sector : Z) : M devices bsector :=
  do d <- getM; block_read_n (length (all_blocks d)) b sector.
Definition block_write (b : bptr) (sector : Z) (buffer : bsector) : M devices unit :=
  do d <- getM; block_write_n (length (all_blocks d)) b sector buffer.
Definition partition_read (b : bptr) (start sector : Z) : M devices bsector :=
  block_read b (u32 (start + sector)).
Definition partition_write (b : bptr) (start sector : Z) (buffer : bsector) : M devices unit :=
  block_write b (u32 (start + sector)) buffer.

(** ** Registering devices *)
(** [memory]: whether [malloc] returns memory for the descriptor. *)
Definition block_register (memory : bool) (n : list Z) (t : block_type) (sz : Z) (o : driver) : M devices bptr :=
  run assertM memory;
  do d <- getM;
  run modifyM (set_blocks (all_blocks d ++ [Block (take 15 n) t sz o 0 0]));
  retM (length (all_blocks d)).

(** ** Partition tables *)
(** A little-endian field of [n] bytes at offset [ofs] of a sector. *)
Definition field (s : bsector) (ofs n : nat) : Z := le (take n (drop ofs s)).
Record partition_table_entry := PTE { e_type : Z; e_offset : Z; e_size : Z }.
Definition partition_entry (s : bsector) (i : nat) : partition_table_entry :=
  let e := (446 + 16 * i)%nat in PTE (field s (e + 4) 1) (field s (e + 8) 4) (field s (e + 12) 4).
Definition signature (s : bsector) : Z := field s 510 2.
Definition is_extended (t : Z) : bool := (t =? 0x05) || (t =? 0x0f) || (t =? 0x85) || (t =? 0xc5).
(** The decimal digits of a number, as [%d] prints them. *)
Fixpoint decimal_digits (fuel : nat) (n : Z) (acc : list Z) : list Z :=
  match fuel with
  | O => acc
  | S fuel =>
      let acc := (48 + n `mod` 10) :: acc in
      if n / 10 =? 0 then acc else decimal_digits fuel (n / 10) acc
  end.
Definition found_partition (memory : bool) (b : bptr) (part_type start sz part_nr : Z) : M devices unit :=
  do bsize <- block_size b;
  if bsize <=? start then retM tt
  else if (u32 (start + sz) <? start) || (bsize <? u32 (start + sz)) then retM tt
  else
    let t := if part_type =? 0x20 then BLOCK_KERNEL else if part_type =? 0x21 then BLOCK_FILESYS
             else if part_type =? 0x22 then BLOCK_SCRATCH else if part_type =? 0x23 then BLOCK_SWAP
             else BLOCK_FOREIGN in
    run assertM memory;
    do n <- block_name b;
    run block_register memory (take 15 (n ++ decimal_digits 10 part_nr [])) t sz (Partition b start);
    retM tt.
(** The [for] over the entries of the table [pt]; [nested] reads another
    table.  [part_nr] is threaded through. *)
Fixpoint scan_entries (memory : bool) (nested : Z → Z → Z → M devices Z)
    (es : list partition_table_entry) (b : bptr) (sector primary_extended_sector part_nr : Z) : M devices Z :=
  match es with
  | [] => retM part_nr
  | e :: es =>
      do part_nr <-
        (if (e_size e =? 0) || (e_type e =? 0) then retM part_nr
         else if is_extended (e_type e) then
           if sector =? 0 then nested (e_offset e) (e_offset e) part_nr
           else nested (u32 (e_offset e + primary_extended_sector)) primary_extended_sector part_nr
         else
           let part_nr := i32 (part_nr + 1) in
           run found_partition memory b (e_type e) (u32 (e_offset e + sector)) (e_size e) part_nr;
           retM part_nr);
      scan_entries memory nested es b sector primary_extended_sector part_nr
  end.
(** The table is always read from sector 0, whatever [sector] is. *)
Fixpoint read_partition_table (fuel : nat) (memory : bool) (b : bptr)
    (sector primary_extended_sector part_nr : Z) : M devices Z :=
  match fuel with
  | O => λ _, NoFuel
  | S fuel =>
      do bsize <- block_size b;
      if bsize <=? sector then retM part_nr
      else
        run assertM memory;
        do pt <- block_read b 0;
        if negb (signature pt =? 0xaa55) then retM part_nr
        else scan_entries memory (read_partition_table fuel memory b)
               (partition_entry pt <$> [0; 1; 2; 3]%nat) b sector primary_extended_sector part_nr
  end.
Definition partition_scan (fuel : nat) (memory : bool) (b : bptr) : M devices Z :=
  read_partition_table fuel memory b 0 0 0.
