(* ===== verification/BlockSpec.v ===== *)
(** * Block devices: where a sector is

    [resolve] follows the drivers to the sector of the disk that a sector of a
    device stands for.  Reads and writes through the registry are reads and
    writes of that sector; so partitions that do not overlap are isolated. *)

From stdpp Require Import base numbers list gmap.
From S2P Require Import Prelude Block.
Local Open Scope Z_scope.

Fixpoint resolve (n : nat) (bl : list block) (b : bptr) (s : Z) : option (nat * Z) :=
  blk ← bl !! b;
  if s <? size blk then
    match ops blk, n with
    | Disk k, _ => Some (k, s)
    | Partition b' start, S n => resolve n bl b' (u32 (start + s))
    | Partition _ _, O => None
    end
  else None.
(** What an access does not change: the devices, up to their statistics, and
    their roles. *)
Definition geometry (b : block) : block := Block (name b) (type b) (size b) (ops b) 0 0.
Definition geometries (bl : list block) : list block := geometry <$> bl.
Definition same_devices (d d' : devices) : Prop :=
  geometries (all_blocks d') = geometries (all_blocks d) ∧ block_by_role d' = block_by_role d.
(** No device on the way from [b] is foreign. *)
Fixpoint writable (n : nat) (bl : list block) (b : bptr) : Prop :=
  match bl !! b with
  | Some blk => type blk ≠ BLOCK_FOREIGN ∧
      match ops blk, n with Partition b' _, S n => writable n bl b' | _, _ => True end
  | None => False
  end.

Lemma geometries_lookup bl bl' b blk :
  geometries bl' = geometries bl → bl !! b = Some blk →
  ∃ blk', bl' !! b = Some blk' ∧ geometry blk' = geometry blk.
Proof.
  intros Hg Hb. pose proof (f_equal (lookup b) Hg) as H. unfold geometries in H.
  rewrite !list_lookup_fmap, Hb in H. destruct (bl' !! b) as [blk'|]; [|done].
  apply (inj Some) in H. eauto.
Qed.
Lemma resolve_geometries n bl bl' b s : geometries bl' = geometries bl → resolve n bl' b s = resolve n bl b s.
Proof.
  intros Hg. revert b s. induction n as [|n IH]; intros b s; simpl.
  all: pose proof (f_equal (lookup b) Hg) as H; unfold geometries in H; rewrite !list_lookup_fmap in H;
    destruct (bl !! b) as [blk|], (bl' !! b) as [blk'|]; simpl in *; try done; injection H as ? ? Hs Ho;
    rewrite Hs, Ho; try done; destruct (s <? size blk); try done; destruct (ops blk); try done; apply IH.
Qed.
Lemma writable_geometries n bl bl' b : geometries bl' = geometries bl → writable n bl b → writable n bl' b.
Proof.
  intros Hg. revert b. induction n as [|n IH]; intros b; simpl.
  all: destruct (bl !! b) as [blk|] eqn:Hb; [|done]; destruct (geometries_lookup _ _ _ _ Hg Hb) as (blk' & -> & H);
    injection H as ? Ht Hs Ho; rewrite Ht, Ho; intros [? Hw]; split; try done; destruct (ops blk); auto.
Qed.
Lemma geometries_insert bl b blk f :
  bl !! b = Some blk → (∀ x, geometry (f x) = geometry x) → geometries (<[b := f blk]> bl) = geometries bl.
Proof.
  intros Hb Hf. unfold geometries. rewrite list_fmap_insert, Hf. apply list_insert_id.
  by rewrite list_lookup_fmap, Hb.
Qed.
Lemma same_devices_refl d : same_devices d d.
Proof. done. Qed.
Lemma mod_block_Ret d b blk f :
  all_blocks d !! b = Some blk → (∀ x, geometry (f x) = geometry x) →
  ∃ d', mod_block b f d = Ret (tt, d') ∧ same_devices d d' ∧ disks d' = disks d.
Proof.
  intros Hb Hf. unfold mod_block, get_block, bindM. rewrite Hb. eexists. split; [done|].
  split; [|done]. split; [|done]. by apply geometries_insert.
Qed.

(** ** Reading and writing *)
Definition sector_at (d : devices) (kp : nat * Z) : option bsector := disks d !! kp.1 ≫= lookup (Z.to_nat kp.2).
Lemma resolve_block n bl b s kp : resolve n bl b s = Some kp → ∃ blk, bl !! b = Some blk ∧ (s <? size blk) = true.
Proof.
  destruct n; simpl; destruct (bl !! b) as [blk|]; simpl; try done;
    destruct (s <? size blk) eqn:E; try done; eauto.
Qed.
(** The start of an access: the bounds check passes, and a partition's request
    goes on. *)
Lemma resolve_cases n bl b s kp :
  resolve n bl b s = Some kp → ∃ blk, bl !! b = Some blk ∧ (s <? size blk) = true ∧
    match ops blk with
    | Disk k => kp = (k, s)
    | Partition b' start => ∃ n', n = S n' ∧ resolve n' bl b' (u32 (start + s)) = Some kp
    end.
Proof.
  destruct n; simpl; destruct (bl !! b) as [blk|]; simpl; try done;
    destruct (s <? size blk) eqn:E; try done; intros H; exists blk; destruct (ops blk); naive_solver.
Qed.
(** The end: the statistics are counted. *)
Lemma count_Ret {A} d d1 b blk f (a : A) :
  all_blocks d !! b = Some blk → same_devices d d1 → (∀ x, geometry (f x) = geometry x) →
  ∃ d', (run mod_block b f; retM a) d1 = Ret (a, d') ∧ same_devices d d' ∧ disks d' = disks d1.
Proof.
  intros Hb [Hg1 Hr1] Hf. destruct (geometries_lookup _ _ _ _ Hg1 Hb) as (blk1 & Hb1 & _).
  destruct (mod_block_Ret d1 b blk1 f Hb1 Hf) as (d' & E & [Hg Hr] & Hd).
  rewrite (bindM_Ret _ _ _ _ _ E). exists d'. split; [done|]. split; [split; congruence|done].
Qed.
Lemma block_read_n_Ret n d b s kp buf :
  resolve n (all_blocks d) b s = Some kp → sector_at d kp = Some buf →
  ∃ d', block_read_n n b s d = Ret (buf, d') ∧ same_devices d d' ∧ disks d' = disks d.
Proof.
  revert b s. induction n as [|n IH]; intros b s Hr Hs;
    destruct (resolve_cases _ _ _ _ _ Hr) as (blk & Hb & Hlt & Hc); cbn [block_read_n];
    rewrite (bindM_Ret (get_block b) _ d blk d) by (unfold get_block; by rewrite Hb);
    rewrite (bindM_Ret _ _ _ tt d (assertM_true _ d Hlt)); destruct (ops blk) as [k|b' start].
  1,3: subst kp; rewrite (bindM_Ret (disk_read k s) _ d buf d) by (unfold disk_read; unfold sector_at in Hs;
    simpl in Hs; by rewrite Hs); by apply (count_Ret d d b blk).
  { by destruct Hc as (n' & ? & _). }
  destruct Hc as (n' & [= <-] & Hr'). destruct (IH _ _ Hr' Hs) as (d1 & E1 & Hsd & Hd).
  rewrite (bindM_Ret _ _ _ _ _ E1). destruct (count_Ret d d1 b blk count_read buf Hb Hsd) as (d' & E & ? & Hd'); [done|].
  exists d'. split_and!; [done|done|congruence].
Qed.
Lemma bindM_NoFuel {S A B} (m : M S A) (f : A → M S B) s : m s = NoFuel → bindM m f s = NoFuel.
Proof. unfold bindM. by intros ->. Qed.
Lemma bindM_ret_r {S} (m : M S unit) (s : S) : (run m; retM tt) s = m s.
Proof. unfold bindM. by destruct (m s) as [[[] s']| |]. Qed.
Lemma block_write_n_Ret n d b s k p l buf :
  resolve n (all_blocks d) b s = Some (k, p) → writable n (all_blocks d) b →
  disks d !! k = Some l → (Z.to_nat p < length l)%nat →
  ∃ d', block_write_n n b s buf d = Ret (tt, d') ∧ same_devices d d' ∧
    disks d' = <[k := <[Z.to_nat p := buf]> l]> (disks d).
Proof.
  revert b s. induction n as [|n IH]; intros b s Hr Hw Hl Hp;
    destruct (resolve_cases _ _ _ _ _ Hr) as (blk & Hb & Hlt & Hc); cbn [block_write_n writable] in *;
    rewrite Hb in Hw; destruct Hw as [Ht Hw];
    rewrite (bindM_Ret (get_block b) _ d blk d) by (unfold get_block; by rewrite Hb);
    rewrite (bindM_Ret _ _ _ tt d (assertM_true _ d Hlt));
    rewrite (bindM_Ret _ _ _ tt d (assertM_true _ d (proj2 (negb_true_iff _) (bool_decide_eq_false_2 _ Ht))));
    destruct (ops blk) as [k'|b' start].
  1,3: injection Hc as -> ->; erewrite (bindM_Ret (disk_write k' s buf)) by
      (unfold disk_write; rewrite Hl, (proj2 (Nat.ltb_lt _ _) Hp); done);
    edestruct (count_Ret d (set_disks (<[k' := <[Z.to_nat s := buf]> l]> (disks d)) d) b blk count_write tt Hb)
      as (d' & E & ? & Hd); [done|done|]; rewrite bindM_ret_r in E; eauto.
  { by destruct Hc as (n' & ? & _). }
  destruct Hc as (n' & [= <-] & Hr'). destruct (IH _ _ Hr' Hw Hl Hp) as (d1 & E1 & Hsd & Hd).
  rewrite (bindM_Ret _ _ _ _ _ E1). destruct (count_Ret d d1 b blk count_write tt Hb Hsd) as (d' & E & ? & Hd'); [done|].
  rewrite bindM_ret_r in E. exists d'. split_and!; [done|done|congruence].
Qed.

(** ** Properties *)
(** The sector of a disk behind sector [s] of device [b], with the depth that
    [block_read] and [block_write] allow. *)
Definition locate (d : devices) (b : bptr) (s : Z) : option (nat * Z) :=
  resolve (length (all_blocks d)) (all_blocks d) b s.
Lemma same_devices_locate d d' b s : same_devices d d' → locate d' b s = locate d b s.
Proof.
  intros [Hg _]. unfold locate. rewrite (resolve_geometries _ _ _ _ _ Hg). f_equal.
  apply (f_equal length) in Hg. unfold geometries in Hg. by rewrite !length_fmap in Hg.
Qed.
Lemma block_read_Ret d b s kp buf :
  locate d b s = Some kp → sector_at d kp = Some buf →
  ∃ d', block_read b s d = Ret (buf, d') ∧ same_devices d d' ∧ disks d' = disks d.
Proof. intros Hr Hs. unfold block_read. rewrite (bindM_Ret getM _ d d d) by done. by eapply block_read_n_Ret. Qed.
(** C17. The contract of a block device, through any chain of partitions: a
    write of a sector returns; reading it back, through this or any other
    device, yields the data written where the same sector of a disk is behind
    it, and what was there before everywhere else. *)
Theorem block_write_read d b s k p l buf b2 s2 k2 p2 old :
  locate d b s = Some (k, p) → writable (length (all_blocks d)) (all_blocks d) b →
  disks d !! k = Some l → (Z.to_nat p < length l)%nat →
  locate d b2 s2 = Some (k2, p2) → 0 ≤ p → 0 ≤ p2 → sector_at d (k2, p2) = Some old →
  ∃ d' d'', block_write b s buf d = Ret (tt, d') ∧
    block_read b2 s2 d' = Ret (if decide ((k, p) = (k2, p2)) then buf else old, d'').
Proof.
  intros Hr Hw Hl Hp Hr2 H0 H02 Hold.
  destruct (block_write_n_Ret _ d b s k p l buf Hr Hw Hl Hp) as (d' & E & Hsd & Hd).
  destruct (block_read_Ret d' b2 s2 (k2, p2) (if decide ((k, p) = (k2, p2)) then buf else old)) as (d'' & E2 & _).
  - by rewrite (same_devices_locate d).
  - unfold sector_at in *. simpl in *. rewrite Hd, lookup_insert. destruct (decide (k = k2)) as [<-|Hk].
    + rewrite Hl in Hold. simpl in *. destruct (decide ((k, p) = (k, p2))) as [[= <-]|Hne].
      * by rewrite list_lookup_insert_eq.
      * rewrite list_lookup_insert_ne; [done|]. intros Heq. apply Hne. f_equal. lia.
    + rewrite decide_False by congruence. done.
  - exists d', d''. split; [|done]. unfold block_write. by rewrite (bindM_Ret getM _ d d d).
Qed.
Definition demo_devices : devices := Devices
  [Block [104] BLOCK_RAW 8 (Disk 0) 0 0; Block [49] BLOCK_FILESYS 3 (Partition 0 2) 0 0;
   Block [50] BLOCK_SWAP 3 (Partition 0 5) 0 0]
  [None; Some 1%nat; None; Some 2%nat] {[0%nat := [[0]; [1]; [2]; [3]; [4]; [5]; [6]; [7]]]}.
Lemma block_write_read_witness :
  (∃ d' d'', block_write 1 1 [9] demo_devices = Ret (tt, d') ∧ block_read 0 3 d' = Ret ([9], d'')) ∧
  (∃ d' d'', block_write 1 1 [9] demo_devices = Ret (tt, d') ∧ block_read 2 1 d' = Ret ([6], d'')).
Proof.
  split.
  - apply (block_write_read demo_devices 1 1 0 3 [[0]; [1]; [2]; [3]; [4]; [5]; [6]; [7]] [9] 0 3 0 3 [3]);
      try done; simpl; lia.
  - apply (block_write_read demo_devices 1 1 0 3 [[0]; [1]; [2]; [3]; [4]; [5]; [6]; [7]] [9] 2 1 0 6 [6]);
      try done; simpl; lia.
Defined.

Section scan.
  Context (b : bptr) (pt : bsector) (bsize : Z).
  Hypothesis Hsig : signature pt = 0xaa55.
  Hypothesis Hext : is_extended (e_type (partition_entry pt 0)) = true.
  Hypothesis Hsize : e_size (partition_entry pt 0) ≠ 0.
  Hypothesis Hofs : 0 < e_offset (partition_entry pt 0).
  Hypothesis Hend : 2 * e_offset (partition_entry pt 0) < bsize.
  Hypothesis Hdev : bsize < 2 ^ 32.
  Abbreviation ofs := (e_offset (partition_entry pt 0)).
  (** Sector 0 of the device, of [bsize] sectors, holds the table [pt]. *)
Definition has_table (d : devices) : Prop :=
  size <$> all_blocks d !! b = Some bsize ∧ ∃ kp, locate d b 0 = Some kp ∧ sector_at d kp = Some pt.
Lemma has_table_same d d' : same_devices d d' → disks d' = disks d → has_table d → has_table d'.
Proof.
  intros Hs Hd [Hb (kp & Hl & Hp)]. split.
  - destruct (all_blocks d !! b) as [blk|] eqn:E; [|done].
    destruct (geometries_lookup _ _ _ _ (proj1 Hs) E) as (blk' & -> & Hg). simpl in *. rewrite <-Hb.
    f_equal. by apply (f_equal size) in Hg.
  - exists kp. split; [by rewrite (same_devices_locate d)|]. unfold sector_at in *. by rewrite Hd.
Qed.
Lemma read_table_diverges fuel d sector primary part_nr :
  has_table d → sector = 0 ∨ primary = ofs ∧ (sector = ofs ∨ sector = 2 * ofs) →
  read_partition_table fuel true b sector primary part_nr d = NoFuel.
Proof.
  revert d sector primary part_nr. induction fuel as [|fuel IH]; intros d sector primary part_nr Ht Hsec; [done|].
  cbn [read_partition_table]. pose proof Ht as [Hb (kp & Hl & Hp)].
  destruct (all_blocks d !! b) as [blk|] eqn:Eb; [|done]. simpl in Hb. injection Hb as Hb.
  rewrite (bindM_Ret (block_size b) _ d bsize d) by (unfold block_size, bindM, get_block; rewrite Eb; by rewrite <-Hb).
  destruct (Z.leb_spec bsize sector); [lia|]. rewrite (bindM_Ret (assertM true) _ d tt d) by done.
  destruct (block_read_Ret d b 0 kp pt Hl Hp) as (d1 & E1 & Hs1 & Hd1). rewrite (bindM_Ret _ _ _ _ _ E1).
  rewrite Hsig. simpl negb. change (partition_entry pt <$> [0; 1; 2; 3]%nat)
    with (partition_entry pt 0 :: (partition_entry pt <$> [1; 2; 3]%nat)).
  generalize (partition_entry pt <$> [1; 2; 3]%nat). intros es. cbn [scan_entries]. apply bindM_NoFuel.
  rewrite (proj2 (Z.eqb_neq (e_size (partition_entry pt 0)) 0)) by done.
  assert (e_type (partition_entry pt 0) ≠ 0) as Ht0 by (intros E; by rewrite E in Hext).
  rewrite (proj2 (Z.eqb_neq (e_type (partition_entry pt 0)) 0)) by done. cbn [orb]. rewrite Hext.
  pose proof (has_table_same d d1 Hs1 Hd1 Ht) as Ht1. destruct (Z.eqb_spec sector 0).
  - apply IH; [done|]. auto.
  - destruct Hsec as [|[-> Hsec]]; [lia|]. rewrite u32_small by lia. apply IH; [done|]. right. split; [done|]. lia.
Qed.
(** C18. A device whose partition table begins with an extended partition that
    lies in its first half is never scanned to the end: every nested call reads
    sector 0 again, finds the same entry and recurses, whatever the depth of
    the stack. *)
Theorem partition_scan_diverges d fuel : has_table d → partition_scan fuel true b d = NoFuel.
Proof. intros Ht. apply read_table_diverges; [done|by left]. Qed.
End scan.
(** A partition table with one extended partition of 4 sectors at sector 2. *)
Definition extended_table : bsector :=
  replicate 446 0 ++ [0; 0; 0; 0; 5; 0; 0; 0; 2; 0; 0; 0; 4; 0; 0; 0] ++ replicate 48 0 ++ [85; 170].
Definition extended_disk : devices :=
  Devices [Block [104] BLOCK_RAW 8 (Disk 0) 0 0] [] {[0%nat := extended_table :: replicate 7 []]}.
Lemma partition_scan_diverges_witness : partition_scan 1000 true 0 extended_disk = NoFuel.
Proof.
  apply (partition_scan_diverges 0 extended_table 8); try done.
  split; [done|]. exists (0%nat, 0). done.
Defined.
