(* ===== verification/Inode.v ===== *)
(** * filesys/inode.c, filesys/free-map.c and filesys/file.c

    The state of the file system: the sectors of its device, the free map, the
    open inodes and the open files and directories.  Structures in memory are
    known by their addresses, so that opening an inode twice yields the same
    structure.  [mallocs] says which of the coming allocations succeed (all,
    when the list is used up).

    Buffers are passed as values: a read returns the bytes it stored. *)

From stdpp Require Import base numbers list gmap.
From S2P Require Import Prelude Bytes Bitmap.
Local Open Scope Z_scope.

Definition SECTOR_SIZE : Z := 512.
Definition INODE_MAGIC : Z := 0x494e4f44.
Definition FREE_MAP_SECTOR : Z := 0.
Definition ROOT_DIR_SECTOR : Z := 1.

(** ** Data *)
Record inode_disk := InodeDisk { start : Z; length_ : Z; magic : Z; unused : list Z }.
Abbreviation ptr := N.
Record inode := Inode {
  sector : Z; open_cnt : Z; removed : bool; deny_write_cnt : Z; data : inode_disk }.
Record file := File { f_inode : ptr; pos : Z; deny_write : bool }.
Record dir := Dir { d_inode : ptr; d_pos : Z }.
Record fs := Fs {
  disk : list (list Z);
  free_map : bitmap;
  free_map_file : option ptr;
  open_inodes : list ptr;
  inodes : gmap ptr inode;
  files : gmap ptr file;
  dirs : gmap ptr dir;
  brk : ptr;
  mallocs : list bool }.
Definition set_disk x (k : fs) : fs :=
  Fs x (free_map k) (free_map_file k) (open_inodes k) (inodes k) (files k) (dirs k) (brk k)
    (mallocs k).
Definition set_free_map x (k : fs) : fs :=
  Fs (disk k) x (free_map_file k) (open_inodes k) (inodes k) (files k) (dirs k) (brk k) (mallocs
    k).
Definition set_free_map_file x (k : fs) : fs :=
  Fs (disk k) (free_map k) x (open_inodes k) (inodes k) (files k) (dirs k) (brk k) (mallocs k).
Definition set_open_inodes x (k : fs) : fs :=
  Fs (disk k) (free_map k) (free_map_file k) x (inodes k) (files k) (dirs k) (brk k) (mallocs k).
Definition set_inodes x (k : fs) : fs :=
  Fs (disk k) (free_map k) (free_map_file k) (open_inodes k) x (files k) (dirs k) (brk k)
    (mallocs k).
Definition set_files x (k : fs) : fs :=
  Fs (disk k) (free_map k) (free_map_file k) (open_inodes k) (inodes k) x (dirs k) (brk k)
    (mallocs k).
Definition set_dirs x (k : fs) : fs :=
  Fs (disk k) (free_map k) (free_map_file k) (open_inodes k) (inodes k) (files k) x (brk k)
    (mallocs k).
Definition set_brk x (k : fs) : fs :=
  Fs (disk k) (free_map k) (free_map_file k) (open_inodes k) (inodes k) (files k) (dirs k) x
    (mallocs k).
Definition set_mallocs x (k : fs) : fs :=
  Fs (disk k) (free_map k) (free_map_file k) (open_inodes k) (inodes k) (files k) (dirs k) (brk
    k) x.

(** The on-disk inode is 512 bytes: three little-endian words and padding. *)
Definition encode_inode (i : inode_disk) : list Z :=
  to_le 4 (start i) ++ to_le 4 (u32 (length_ i)) ++ to_le 4 (magic i) ++ unused i.
Definition decode_inode (s : list Z) : inode_disk :=
  InodeDisk (le (slice 0 4 s)) (i32 (le (slice 4 4 s))) (le (slice 8 4 s)) (drop 12 s).

(** ** Memory and the device *)
Definition malloc : M fs bool := λ s,
  match mallocs s with
  | [] => Ret (true, s)
  | ok :: r => Ret (ok, set_mallocs r s)
  end.
(** The address of a new structure. *)
Definition fresh_ptr : M fs ptr := λ s, Ret (brk s, set_brk (brk s + 1)%N s).
Definition get_inode (ip : ptr) : M fs inode := λ s,
  match inodes s !! ip with Some i => Ret (i, s) | None => Panic end.
Definition put_inode (ip : ptr) (i : inode) : M fs unit :=
  modifyM (λ s, set_inodes (<[ip := i]> (inodes s)) s).
Definition get_file (fp : ptr) : M fs file := λ s,
  match files s !! fp with Some f => Ret (f, s) | None => Panic end.
Definition put_file (fp : ptr) (f : file) : M fs unit :=
  modifyM (λ s, set_files (<[fp := f]> (files s)) s).
(** [block_read (fs_device, ...)] and [block_write (fs_device, ...)]; an access
    past the end panics. *)
Definition dev_read (sec : Z) : M fs (list Z) := λ s,
  if sec <? Z.of_nat (length (disk s)) then
    match disk s !! Z.to_nat sec with Some b => Ret (b, s) | None => Panic end
  else Panic.
Definition dev_write (sec : Z) (b : list Z) : M fs unit :=
  do s <- getM; run assertM (sec <? Z.of_nat (length (disk s)));
  modifyM (λ s, set_disk (<[Z.to_nat sec := b]> (disk s)) s).

(** ** inode.c: positions *)
Definition bytes_to_sectors (sz : Z) : Z := u32 (Z.quot (i32 (i32 (sz + SECTOR_SIZE) - 1)) SECTOR_SIZE).
Definition byte_to_sector (i : inode) (p : Z) : Z :=
  if p <? length_ (data i) then u32 (start (data i) + Z.quot p SECTOR_SIZE) else u32 (-1).
Definition inode_length (i : inode) : Z := length_ (data i).
Definition inode_init : M fs unit := modifyM (set_open_inodes []).

(** The chunk that an iteration of the read and write loops transfers. *)
Definition chunk (i : inode) (sz offset : Z) : Z * Z :=
  let sector_ofs := Z.rem offset SECTOR_SIZE in
  let inode_left := i32 (inode_length i - offset) in
  let sector_left := SECTOR_SIZE - sector_ofs in
  let min_left := if inode_left <? sector_left then inode_left else sector_left in
  (sector_ofs, if sz <? min_left then sz else min_left).
Definition get_bounce (bounce : bool) : M fs bool := if bounce then retM true else malloc.

(** ** inode.c: reading *)
(** With a negative offset the copies start before the bounce buffer; the
    model panics there. *)
(** [bounce]: the bounce buffer is allocated. [out]: the bytes in the buffer. *)
Fixpoint read_loop (fuel : nat) (ip : ptr) (sz offset : Z) (bounce : bool) (out : list Z) : M fs (list Z) :=
  if sz <=? 0 then retM out
  else match fuel with
  | O => λ _, NoFuel
  | S fuel =>
      do i <- get_inode ip;
      let sector_idx := byte_to_sector i offset in
      let '(sector_ofs, chunk_size) := chunk i sz offset in
      if chunk_size <=? 0 then retM out
      else if (sector_ofs =? 0) && (chunk_size =? SECTOR_SIZE) then
        do b <- dev_read sector_idx;
        read_loop fuel ip (sz - chunk_size) (i32 (offset + chunk_size)) bounce (out ++ b)
      else
        do ok <- get_bounce bounce;
        if negb ok then retM out
        else
          do b <- dev_read sector_idx;
          run assertM (0 <=? sector_ofs);
          read_loop fuel ip (sz - chunk_size) (i32 (offset + chunk_size)) true
            (out ++ slice (Z.to_nat sector_ofs) (Z.to_nat chunk_size) b)
  end.
(** Each iteration transfers at least one byte. *)
Definition inode_read_at (ip : ptr) (sz offset : Z) : M fs (list Z) :=
  read_loop (Z.to_nat sz) ip sz offset false [].

(** ** inode.c: writing *)
Fixpoint write_loop (fuel : nat) (ip : ptr) (buffer : list Z) (sz offset : Z) (bounce : bool) (written : Z) : M fs Z :=
  if sz <=? 0 then retM written
  else match fuel with
  | O => λ _, NoFuel
  | S fuel =>
      do i <- get_inode ip;
      let sector_idx := byte_to_sector i offset in
      let '(sector_ofs, chunk_size) := chunk i sz offset in
      let bytes := slice (Z.to_nat written) (Z.to_nat chunk_size) buffer in
      if chunk_size <=? 0 then retM written
      else if (sector_ofs =? 0) && (chunk_size =? SECTOR_SIZE) then
        run dev_write sector_idx bytes;
        write_loop fuel ip buffer (sz - chunk_size) (i32 (offset + chunk_size)) bounce (written + chunk_size)
      else
        do ok <- get_bounce bounce;
        if negb ok then retM written
        else
          do b <- (if (0 <? sector_ofs) || (chunk_size <? SECTOR_SIZE - sector_ofs)
                   then dev_read sector_idx else retM (replicate 512 0));
          run assertM (0 <=? sector_ofs);
          run dev_write sector_idx (splice (Z.to_nat sector_ofs) bytes b);
          write_loop fuel ip buffer (sz - chunk_size) (i32 (offset + chunk_size)) true (written + chunk_size)
  end.
Definition inode_write_at (ip : ptr) (buffer : list Z) (sz offset : Z) : M fs Z :=
  do i <- get_inode ip;
  if negb (deny_write_cnt i =? 0) then retM 0
  else write_loop (Z.to_nat sz) ip buffer sz offset false 0.

(** ** inode.c: opening *)
Definition inode_reopen (ip : option ptr) : M fs (option ptr) :=
  match ip with
  | None => retM None
  | Some p =>
      do i <- get_inode p;
      run put_inode p (Inode (sector i) (i32 (open_cnt i + 1)) (removed i) (deny_write_cnt i) (data i));
      retM (Some p)
  end.
Definition inode_get_inumber (ip : ptr) : M fs Z := do i <- get_inode ip; retM (sector i).
(** The loop over [open_inodes]. *)
Fixpoint find_open (l : list ptr) (sec : Z) : M fs (option ptr) :=
  match l with
  | [] => retM None
  | p :: l => do i <- get_inode p; if sector i =? sec then retM (Some p) else find_open l sec
  end.
Definition inode_open (sec : Z) : M fs (option ptr) :=
  do s <- getM; do found <- find_open (open_inodes s) sec;
  match found with
  | Some p => inode_reopen (Some p)
  | None =>
      do ok <- malloc;
      if negb ok then retM None
      else
        do p <- fresh_ptr;
        run modifyM (λ s, set_open_inodes (p :: open_inodes s) s);
        do b <- dev_read sec;
        run put_inode p (Inode sec 1 false 0 (decode_inode b));
        retM (Some p)
  end.
Definition inode_remove (ip : ptr) : M fs unit :=
  do i <- get_inode ip; put_inode ip (Inode (sector i) (open_cnt i) true (deny_write_cnt i) (data i)).
Definition inode_deny_write (ip : ptr) : M fs unit :=
  do i <- get_inode ip;
  run put_inode ip (Inode (sector i) (open_cnt i) (removed i) (i32 (deny_write_cnt i + 1)) (data i));
  assertM (i32 (deny_write_cnt i + 1) <=? open_cnt i).
Definition inode_allow_write (ip : ptr) : M fs unit :=
  do i <- get_inode ip;
  run assertM (0 <? deny_write_cnt i); run assertM (deny_write_cnt i <=? open_cnt i);
  put_inode ip (Inode (sector i) (open_cnt i) (removed i) (i32 (deny_write_cnt i - 1)) (data i)).

(** ** file.c: reading and writing *)
Definition file_get_inode (fp : ptr) : M fs ptr := do f <- get_file fp; retM (f_inode f).
Definition file_read (fp : ptr) (sz : Z) : M fs (list Z) :=
  do f <- get_file fp;
  do b <- inode_read_at (f_inode f) sz (pos f);
  run put_file fp (File (f_inode f) (i32 (pos f + Z.of_nat (length b))) (deny_write f));
  retM b.
Definition file_read_at (fp : ptr) (sz ofs : Z) : M fs (list Z) :=
  do f <- get_file fp; inode_read_at (f_inode f) sz ofs.
Definition file_write (fp : ptr) (buffer : list Z) (sz : Z) : M fs Z :=
  do f <- get_file fp;
  do n <- inode_write_at (f_inode f) buffer sz (pos f);
  run put_file fp (File (f_inode f) (i32 (pos f + n)) (deny_write f));
  retM n.
Definition file_write_at (fp : ptr) (buffer : list Z) (sz ofs : Z) : M fs Z :=
  do f <- get_file fp; inode_write_at (f_inode f) buffer sz ofs.
Definition file_deny_write (fp : ptr) : M fs unit :=
  do f <- get_file fp;
  if deny_write f then retM tt
  else run put_file fp (File (f_inode f) (pos f) true); inode_deny_write (f_inode f).
Definition file_allow_write (fp : ptr) : M fs unit :=
  do f <- get_file fp;
  if deny_write f
  then run put_file fp (File (f_inode f) (pos f) false); inode_allow_write (f_inode f)
  else retM tt.
Definition file_length (fp : ptr) : M fs Z :=
  do f <- get_file fp; do i <- get_inode (f_inode f); retM (inode_length i).
Definition file_seek (fp : ptr) (new_pos : Z) : M fs unit :=
  run assertM (0 <=? new_pos); do f <- get_file fp; put_file fp (File (f_inode f) new_pos (deny_write f)).
Definition file_tell (fp : ptr) : M fs Z := do f <- get_file fp; retM (pos f).

(** ** bitmap.c: the bitmap in a file *)
Definition bitmap_bytes (b : bitmap) : list Z := concat (to_le 4 <$> bits b).
Fixpoint words_of (n : nat) (bs : list Z) : list Z :=
  match n with O => [] | S n => le (take 4 bs) :: words_of n (drop 4 bs) end.
Definition bitmap_write (b : bitmap) (fp : ptr) : M fs bool :=
  let sz := i32 (byte_cnt (bit_cnt b)) in
  do n <- file_write_at fp (bitmap_bytes b) sz 0; retM (n =? sz).
(** The words that are read replace the first words of the array; the unused
    bits of the last word are cleared. *)
Definition bitmap_read (b : bitmap) (fp : ptr) : M fs (bool * bitmap) :=
  if 0 <? bit_cnt b then
    let sz := i32 (byte_cnt (bit_cnt b)) in
    do bs <- file_read_at fp sz 0;
    let b' := Bitmap (bit_cnt b) (words_of (length (bits b)) (splice 0 bs (bitmap_bytes b))) in
    do w <- liftO (get_elem b' (u32 (elem_cnt (bit_cnt b) - 1)));
    retM (Z.of_nat (length bs) =? sz,
          set_elem b' (u32 (elem_cnt (bit_cnt b) - 1)) (Z.land w (last_mask b)))
  else retM (true, b).

(** ** free-map.c: allocating sectors *)
(** [None]: not enough consecutive sectors, or the free map could not be
    written to its file. *)
Definition free_map_allocate (cnt : Z) : M fs (option Z) :=
  do s <- getM;
  do r <- liftO (bitmap_scan_and_flip (free_map s) 0 cnt false);
  let sec := fst r in
  run modifyM (set_free_map (snd r));
  do s <- getM;
  do sec <- (match free_map_file s with
             | Some fp =>
                 if negb (sec =? BITMAP_ERROR) then
                   do ok <- bitmap_write (free_map s) fp;
                   if negb ok then
                     do s <- getM;
                     do b <- liftO (bitmap_set_multiple (free_map s) sec cnt false);
                     run modifyM (set_free_map b); retM BITMAP_ERROR
                   else retM sec
                 else retM sec
             | None => retM sec
             end);
  retM (if sec =? BITMAP_ERROR then None else Some sec).
(** [free_map_file] must be open: [bitmap_write] dereferences it. *)
Definition free_map_release (sec cnt : Z) : M fs unit :=
  do s <- getM;
  do all <- liftO (bitmap_all (free_map s) sec cnt);
  run assertM all;
  do b <- liftO (bitmap_set_multiple (free_map s) sec cnt false);
  run modifyM (set_free_map b);
  match free_map_file s with None => panicM | Some fp => run bitmap_write b fp; retM tt end.

(** ** inode.c: creating and closing *)
(** Zeroes the data sectors; [n] is [sectors - i]. *)
Fixpoint zero_loop (n : nat) (st i : Z) : M fs unit :=
  match n with
  | O => retM tt
  | S n => run dev_write (u32 (st + i)) (replicate 512 0); zero_loop n st (i + 1)
  end.
Definition inode_create (sec length : Z) : M fs bool :=
  run assertM (0 <=? length);
  do ok <- malloc;
  if negb ok then retM false
  else
    let sectors := bytes_to_sectors length in
    do r <- free_map_allocate sectors;
    match r with
    | None => retM false
    | Some st =>
        run dev_write sec (encode_inode (InodeDisk st length INODE_MAGIC (replicate 500 0)));
        run zero_loop (Z.to_nat sectors) st 0;
        retM true
    end.
Definition inode_close (ip : option ptr) : M fs unit :=
  match ip with
  | None => retM tt
  | Some p =>
      do i <- get_inode p;
      let cnt := i32 (open_cnt i - 1) in
      run put_inode p (Inode (sector i) cnt (removed i) (deny_write_cnt i) (data i));
      if cnt =? 0 then
        run modifyM (λ s, set_open_inodes (filter (λ x, x ≠ p) (open_inodes s)) s);
        run (if removed i then
               run free_map_release (sector i) 1;
               free_map_release (start (data i)) (bytes_to_sectors (length_ (data i)))
             else retM tt);
        modifyM (λ s, set_inodes (delete p (inodes s)) s)
      else retM tt
  end.

(** ** file.c: opening and closing *)
Definition file_open (ip : option ptr) : M fs (option ptr) :=
  do ok <- malloc;
  match ip, ok with
  | Some p, true =>
      do fp <- fresh_ptr; run put_file fp (File p 0 false); retM (Some fp)
  | _, _ => run inode_close ip; retM None
  end.
Definition file_reopen (fp : ptr) : M fs (option ptr) :=
  do f <- get_file fp; do ip <- inode_reopen (Some (f_inode f)); file_open ip.
Definition file_close (fp : option ptr) : M fs unit :=
  match fp with
  | None => retM tt
  | Some p =>
      run file_allow_write p;
      do f <- get_file p;
      run inode_close (Some (f_inode f));
      modifyM (λ s, set_files (delete p (files s)) s)
  end.

(** ** free-map.c: the free map file *)
(** [header], [array] and [junk]: the allocations of [bitmap_create]. *)
Definition free_map_init (header array : bool) (junk : list Z) : M fs unit :=
  do s <- getM;
  do b <- liftO (bitmap_create header array junk (Z.of_nat (length (disk s))));
  match b with
  | None => panicM
  | Some b =>
      do b <- liftO (bitmap_mark b FREE_MAP_SECTOR);
      do b <- liftO (bitmap_mark b ROOT_DIR_SECTOR);
      modifyM (set_free_map b)
  end.
Definition free_map_open : M fs unit :=
  do ip <- inode_open FREE_MAP_SECTOR;
  do fp <- file_open ip;
  run modifyM (set_free_map_file fp);
  match fp with
  | None => panicM
  | Some p =>
      do s <- getM; do r <- bitmap_read (free_map s) p;
      run modifyM (set_free_map (snd r)); assertM (fst r)
  end.
Definition free_map_close : M fs unit := do s <- getM; file_close (free_map_file s).
Definition free_map_create : M fs unit :=
  do s <- getM;
  do ok <- inode_create FREE_MAP_SECTOR (i32 (bitmap_file_size (free_map s)));
  run assertM ok;
  do ip <- inode_open FREE_MAP_SECTOR;
  do fp <- file_open ip;
  run modifyM (set_free_map_file fp);
  match fp with
  | None => panicM
  | Some p => do s <- getM; do ok <- bitmap_write (free_map s) p; assertM ok
  end.
