(* ===== verification/InodeSpec.v ===== *)
(** * Reading and writing the contents of inodes

    An inode's data is a consecutive part of the device.  Seen as one sequence
    of bytes, reading takes a slice of that part and writing replaces one; the
    sector-by-sector loops with their bounce buffer refine this. *)

From stdpp Require Import base numbers list gmap.
From S2P Require Import Prelude Bytes Bitmap Inode.
Local Open Scope Z_scope.

(** The inode's data sectors are sectors of the device. *)
Record placed (d : list (list Z)) (i : inode) : Prop := {
  pl_sectors : uniform 512 d;
  pl_device : Z.of_nat (length d) < 2 ^ 32;
  pl_start : 0 ≤ start (data i);
  pl_length : 0 ≤ length_ (data i) < 2 ^ 31;
  pl_end : 512 * start (data i) + length_ (data i) ≤ 512 * Z.of_nat (length d) }.
(** Position [ofs] of the inode in the sequence of all bytes of the device. *)
Definition place (i : inode) (ofs : Z) : nat := Z.to_nat (512 * start (data i) + ofs).
Definition contents (d : list (list Z)) (i : inode) : list Z :=
  slice (place i 0) (Z.to_nat (length_ (data i))) (concat d).

Section access.
  Context (ip : ptr) (i : inode).
  Implicit Types s : fs.

Lemma chunk_inside sz ofs :
  0 ≤ ofs < length_ (data i) → length_ (data i) < 2 ^ 31 →
  chunk i sz ofs = (ofs `mod` 512, sz `min` ((length_ (data i) - ofs) `min` (512 - ofs `mod` 512))).
Proof.
  intros Ho Hl. unfold chunk, inode_length, SECTOR_SIZE. rewrite Z.rem_mod_nonneg by lia.
  rewrite (i32_small (length_ (data i) - ofs)) by lia. f_equal.
  repeat case_match; rewrite ?Z.ltb_lt, ?Z.ltb_ge in *; lia.
Qed.
Lemma chunk_outside sz ofs :
  0 ≤ length_ (data i) ≤ ofs → ofs < 2 ^ 31 → (chunk i sz ofs).2 ≤ 0.
Proof.
  intros Ho Hl. unfold chunk, inode_length, SECTOR_SIZE. rewrite Z.rem_mod_nonneg by lia.
  rewrite (i32_small (length_ (data i) - ofs)) by lia. pose proof (Z.mod_pos_bound ofs 512). simpl.
  repeat case_match; rewrite ?Z.ltb_lt, ?Z.ltb_ge in *; lia.
Qed.
(** The sector of a byte of the inode. *)
Lemma sector_of_byte d ofs :
  placed d i → 0 ≤ ofs < length_ (data i) →
  ∃ k b, byte_to_sector i ofs = Z.of_nat k ∧ d !! k = Some b ∧ length b = 512%nat ∧
    place i ofs = (512 * k + Z.to_nat (ofs `mod` 512))%nat.
Proof.
  intros [Hu Hd Hs Hl He] Ho. unfold byte_to_sector, SECTOR_SIZE, place.
  rewrite (proj2 (Z.ltb_lt _ _)) by lia. rewrite Z.quot_div_nonneg by lia.
  pose proof (Z.div_mod ofs 512). pose proof (Z.mod_pos_bound ofs 512). pose proof (Z.div_pos ofs 512).
  rewrite u32_small by lia.
  destruct (lookup_lt_is_Some_2 d (Z.to_nat (start (data i) + ofs / 512))) as [b Hb]; [lia|].
  exists (Z.to_nat (start (data i) + ofs / 512)), b. repeat split; [lia|done| |lia].
  by apply (Forall_lookup_1 _ _ _ _ Hu Hb).
Qed.
Lemma dev_read_Ret s k b : disk s !! k = Some b → dev_read (Z.of_nat k) s = Ret (b, s).
Proof.
  intros Hb. unfold dev_read. pose proof (lookup_lt_Some _ _ _ Hb).
  rewrite (proj2 (Z.ltb_lt _ _)) by lia. by rewrite Nat2Z.id, Hb.
Qed.
Lemma dev_write_Ret s k b :
  (k < length (disk s))%nat → dev_write (Z.of_nat k) b s = Ret (tt, set_disk (<[k := b]> (disk s)) s).
Proof.
  intros Hk. unfold dev_write, getM, bindM, modifyM. rewrite (proj2 (Z.ltb_lt _ _)) by lia. simpl.
  by rewrite Nat2Z.id.
Qed.
Lemma get_inode_Ret s p j : inodes s !! p = Some j → get_inode p s = Ret (j, s).
Proof. intros H. unfold get_inode. by rewrite H. Qed.
Lemma get_bounce_cases bounce s :
  ∃ ok l, get_bounce bounce s = Ret (ok, set_mallocs l s) ∧
    (mallocs s = [] → ok = true ∧ l = []).
Proof.
  destruct bounce; simpl.
  - exists true, (mallocs s). split; [by destruct s|done].
  - unfold malloc. destruct (mallocs s) as [|ok l] eqn:E.
    + exists true, []. split; [|done]. destruct s; simpl in *. by subst.
    + by exists ok, l.
Qed.

(** ** Reading *)
(** The number of bytes an access of [sz] bytes at [ofs] reaches. *)
Definition reach (sz ofs : Z) : nat := Z.to_nat (sz `min` (length_ (data i) - ofs)).
Definition chunk_len (sz ofs : Z) : Z :=
  sz `min` ((length_ (data i) - ofs) `min` (512 - ofs `mod` 512)).
Lemma chunk_len_bounds sz ofs :
  0 < sz → 0 ≤ ofs < length_ (data i) →
  0 < chunk_len sz ofs ≤ sz ∧ chunk_len sz ofs ≤ length_ (data i) - ofs ∧
  ofs `mod` 512 + chunk_len sz ofs ≤ 512.
Proof. intros. unfold chunk_len. pose proof (Z.mod_pos_bound ofs 512). lia. Qed.
Lemma reach_step sz ofs :
  0 < sz → 0 ≤ ofs < length_ (data i) →
  reach sz ofs = (Z.to_nat (chunk_len sz ofs) + reach (sz - chunk_len sz ofs) (ofs + chunk_len sz ofs))%nat.
Proof. intros. pose proof (chunk_len_bounds sz ofs). unfold reach. lia. Qed.
Lemma reach_none sz ofs : sz ≤ 0 ∨ length_ (data i) ≤ ofs → reach sz ofs = 0%nat.
Proof. unfold reach. lia. Qed.
Lemma place_add ofs c : 0 ≤ start (data i) → 0 ≤ ofs → 0 ≤ c → place i (ofs + c) = (place i ofs + Z.to_nat c)%nat.
Proof. unfold place. lia. Qed.

Lemma read_step fuel sz ofs bounce out s :
  inodes s !! ip = Some i → placed (disk s) i → 0 < sz → 0 ≤ ofs < length_ (data i) →
  ∃ ok l bounce',
    (mallocs s = [] → ok = true ∧ l = []) ∧
    read_loop (S fuel) ip sz ofs bounce out s =
      (if ok : bool
       then read_loop fuel ip (sz - chunk_len sz ofs) (i32 (ofs + chunk_len sz ofs)) bounce'
              (out ++ slice (place i ofs) (Z.to_nat (chunk_len sz ofs)) (concat (disk s)))
       else retM out) (set_mallocs l s).
Proof.
  intros Hi Hp Hsz Ho. cbn [read_loop]. rewrite (proj2 (Z.leb_gt _ _)) by lia.
  rewrite (bindM_Ret _ _ _ _ _ (get_inode_Ret _ _ _ Hi)). cbv zeta.
  destruct (sector_of_byte _ _ Hp Ho) as (k & b & -> & Hb & Hlen & Hplace).
  rewrite chunk_inside by (try apply Hp; lia). fold (chunk_len sz ofs).
  destruct (chunk_len_bounds sz ofs) as (? & ? & ?); [done..|].
  pose proof (Z.mod_pos_bound ofs 512). rewrite (proj2 (Z.leb_gt (chunk_len _ _) _)) by lia.
  rewrite Hplace, (slice_flat 512 _ k b) by (first [apply Hp|done|lia]).
  destruct (_ && _) eqn:E.
  - apply andb_prop in E as [E1%Z.eqb_eq E2%Z.eqb_eq]. unfold SECTOR_SIZE in E2.
    exists true, (mallocs s), bounce. split; [done|].
    rewrite (bindM_Ret _ _ _ _ _ (dev_read_Ret _ _ _ Hb)), E1, E2.
    replace (set_mallocs (mallocs s) s) with s by (by destruct s).
    change (Z.to_nat 512) with 512%nat. rewrite <-Hlen at 1. by rewrite slice_all.
  - destruct (get_bounce_cases bounce s) as (ok & l & Hg & Hm). exists ok, l, true. split; [done|].
    rewrite (bindM_Ret _ _ _ _ _ Hg). destruct ok; cbn [negb]; [|done].
    rewrite (bindM_Ret _ _ _ _ _ (dev_read_Ret (set_mallocs l s) _ _ Hb)).
    rewrite (bindM_Ret (assertM _) _ _ tt (set_mallocs l s)); [done|].
    apply assertM_true. apply Z.leb_le. lia.
Qed.
Lemma read_stop fuel sz ofs bounce out s :
  inodes s !! ip = Some i → 0 ≤ length_ (data i) ≤ ofs → ofs < 2 ^ 31 →
  read_loop (S fuel) ip sz ofs bounce out s = Ret (out, s).
Proof.
  intros Hi Ho Hb. cbn [read_loop]. case_match; [done|].
  rewrite (bindM_Ret _ _ _ _ _ (get_inode_Ret _ _ _ Hi)). cbv zeta.
  pose proof (chunk_outside sz ofs Ho Hb). destruct (chunk i sz ofs) as [so c]. simpl in *.
  by rewrite (proj2 (Z.leb_le _ _)).
Qed.
Lemma read_loop_ok fuel sz ofs bounce out s :
  inodes s !! ip = Some i → placed (disk s) i → 0 ≤ ofs → ofs < 2 ^ 31 → ofs + sz < 2 ^ 31 → sz ≤ Z.of_nat fuel →
  ∃ n l, read_loop fuel ip sz ofs bounce out s =
           Ret (out ++ slice (place i ofs) n (concat (disk s)), set_mallocs l s) ∧
    (n ≤ reach sz ofs)%nat ∧ (mallocs s = [] → n = reach sz ofs ∧ l = []).
Proof.
  assert (∀ s, set_mallocs (mallocs s) s = s) as Hid by (by intros []).
  revert sz ofs bounce out s. induction fuel as [|fuel IH]; intros sz ofs bounce out s Hi Hp H0 H1 H2 Hf.
  all: destruct (decide (0 < sz ∧ ofs < length_ (data i))) as [[Hsz Ho]|Hn]; [try lia|].
  1,3: exists 0%nat, (mallocs s); rewrite app_nil_r, Hid; split; [|split; [lia|intros ->; by rewrite reach_none by lia]].
  - simpl. by rewrite (proj2 (Z.leb_le _ _)) by lia.
  - destruct (decide (sz ≤ 0)); [simpl; by rewrite (proj2 (Z.leb_le _ _)) by lia|].
    apply read_stop; [done| |lia]. pose proof (pl_length _ _ Hp). lia.
  - destruct (read_step fuel sz ofs bounce out s Hi Hp Hsz) as (ok & l & b' & Hm & ->); [lia|].
    pose proof (chunk_len_bounds sz ofs) as Hc. rewrite reach_step by lia.
    destruct ok; simpl.
    + rewrite i32_small by lia.
      destruct (IH (sz - chunk_len sz ofs) (ofs + chunk_len sz ofs) b'
        (out ++ slice (place i ofs) (Z.to_nat (chunk_len sz ofs)) (concat (disk s))) (set_mallocs l s))
        as (n & l' & -> & Hn & Hm'); [done|done|lia..|].
      exists (Z.to_nat (chunk_len sz ofs) + n)%nat, l'. simpl.
      rewrite <-app_assoc, place_add, slice_app by (first [apply Hp|lia]).
      split; [done|]. split; [lia|]. intros [_ ->]%Hm. destruct Hm' as [-> ->]; done.
    + exists 0%nat, l. rewrite app_nil_r. split; [done|]. split; [lia|]. by intros [? _]%Hm.
Qed.

(** ** Writing *)
(** The device with the bytes [bs] at position [ofs] of the inode. *)
Definition patched (d d' : list (list Z)) (ofs : Z) (bs : list Z) : Prop :=
  uniform 512 d' ∧ length d' = length d ∧ concat d' = splice (place i ofs) bs (concat d).
Lemma patched_sector d ofs bs k b :
  uniform 512 d → d !! k = Some b → (Z.to_nat (ofs `mod` 512) + length bs ≤ 512)%nat →
  place i ofs = (512 * k + Z.to_nat (ofs `mod` 512))%nat →
  patched d (<[k := splice (Z.to_nat (ofs `mod` 512)) bs b]> d) ofs bs.
Proof.
  intros Hu Hb Hl Hp. assert (length b = 512%nat) by (by apply (Forall_lookup_1 _ _ _ _ Hu Hb)).
  split; [|split].
  - apply uniform_insert; [done|]. rewrite splice_length; lia.
  - by rewrite length_insert.
  - rewrite Hp. by apply splice_flat.
Qed.
Lemma patched_app d d1 d2 ofs bs1 bs2 :
  placed d i → 0 ≤ ofs → ofs + Z.of_nat (length bs1) + Z.of_nat (length bs2) ≤ length_ (data i) →
  patched d d1 ofs bs1 → patched d1 d2 (ofs + Z.of_nat (length bs1)) bs2 → patched d d2 ofs (bs1 ++ bs2).
Proof.
  intros [Hu Hd Hs Hl He] Ho Hle (H1 & H2 & H3) (H4 & H5 & H6). split; [done|]. split; [congruence|].
  rewrite H6, H3, place_add, Nat2Z.id by lia. apply splice_splice.
  rewrite (length_flat 512) by done. unfold place. lia.
Qed.
Lemma patched_placed d d' ofs bs : placed d i → patched d d' ofs bs → placed d' i.
Proof. intros [] (H1 & H2 & _). split; [done|rewrite ?H2; done..]. Qed.
Lemma patched_refl d ofs : uniform 512 d → patched d d ofs [].
Proof. intros. split; [done|]. split; [done|]. by rewrite splice_nil. Qed.

Lemma write_step fuel buffer sz ofs bounce w s :
  inodes s !! ip = Some i → placed (disk s) i → 0 < sz → 0 ≤ ofs < length_ (data i) →
  0 ≤ w → w + sz ≤ Z.of_nat (length buffer) →
  ∃ ok l d bounce',
    (mallocs s = [] → ok = true ∧ l = []) ∧
    patched (disk s) d ofs (if ok : bool then slice (Z.to_nat w) (Z.to_nat (chunk_len sz ofs)) buffer else []) ∧
    write_loop (S fuel) ip buffer sz ofs bounce w s =
      (if ok
       then write_loop fuel ip buffer (sz - chunk_len sz ofs) (i32 (ofs + chunk_len sz ofs)) bounce'
              (w + chunk_len sz ofs)
       else retM w) (set_disk d (set_mallocs l s)).
Proof.
  intros Hi Hp Hsz Ho Hw Hb. cbn [write_loop]. rewrite (proj2 (Z.leb_gt _ _)) by lia.
  rewrite (bindM_Ret _ _ _ _ _ (get_inode_Ret _ _ _ Hi)). cbv zeta.
  destruct (sector_of_byte _ _ Hp Ho) as (k & b & -> & Hk & Hlen & Hplace).
  rewrite chunk_inside by (try apply Hp; lia). fold (chunk_len sz ofs).
  destruct (chunk_len_bounds sz ofs) as (? & ? & ?); [done..|].
  pose proof (Z.mod_pos_bound ofs 512). rewrite (proj2 (Z.leb_gt (chunk_len _ _) _)) by lia.
  pose proof (lookup_lt_Some _ _ _ Hk).
  set (bs := slice (Z.to_nat w) _ buffer). assert (length bs = Z.to_nat (chunk_len sz ofs)) as Hbs by (apply slice_length; lia).
  assert (patched (disk s) (<[k := splice (Z.to_nat (ofs `mod` 512)) bs b]> (disk s)) ofs bs) as Hpatch
    by (apply patched_sector; [apply Hp|done|lia|done]).
  destruct (_ && _) eqn:E.
  - apply andb_prop in E as [E1%Z.eqb_eq E2%Z.eqb_eq]. unfold SECTOR_SIZE in E2.
    exists true, (mallocs s), (<[k := splice (Z.to_nat (ofs `mod` 512)) bs b]> (disk s)), bounce.
    split; [done|]. split; [done|]. rewrite (bindM_Ret _ _ _ _ _ (dev_write_Ret _ _ _ ltac:(eassumption))).
    rewrite E1. replace (splice (Z.to_nat 0) bs b) with bs; [by destruct s|].
    unfold splice. rewrite drop_ge by (rewrite Hlen, Hbs, E2; simpl; lia). by rewrite app_nil_r.
  - destruct (get_bounce_cases bounce s) as (ok & l & Hg & Hm).
    rewrite (bindM_Ret _ _ _ _ _ Hg). destruct ok; cbn [negb].
    2: { exists false, l, (disk s), true. split; [done|]. split; [apply patched_refl, Hp|]. by destruct s. }
    exists true, l, (<[k := splice (Z.to_nat (ofs `mod` 512)) bs b]> (disk s)), true.
    split; [done|]. split; [done|]. destruct (_ || _) eqn:E'.
    + rewrite (bindM_Ret _ _ _ _ _ (dev_read_Ret (set_mallocs l s) _ _ Hk)).
      rewrite (bindM_Ret (assertM _) _ _ tt (set_mallocs l s)) by (apply assertM_true, Z.leb_le; lia).
      by rewrite (bindM_Ret _ _ _ _ _ (dev_write_Ret (set_mallocs l s) _ _ ltac:(eassumption))).
    + unfold SECTOR_SIZE in *. rewrite orb_false_iff, Z.ltb_ge, Z.ltb_ge in E'.
      rewrite andb_false_iff, Z.eqb_neq, Z.eqb_neq in E. lia.
Qed.
Lemma write_stop fuel buffer sz ofs bounce w s :
  inodes s !! ip = Some i → 0 ≤ length_ (data i) ≤ ofs → ofs < 2 ^ 31 →
  write_loop (S fuel) ip buffer sz ofs bounce w s = Ret (w, s).
Proof.
  intros Hi Ho Hb. cbn [write_loop]. case_match; [done|].
  rewrite (bindM_Ret _ _ _ _ _ (get_inode_Ret _ _ _ Hi)). cbv zeta.
  pose proof (chunk_outside sz ofs Ho Hb). destruct (chunk i sz ofs) as [so c]. simpl in *.
  by rewrite (proj2 (Z.leb_le _ _)).
Qed.
Lemma write_loop_ok fuel buffer sz ofs bounce w s :
  inodes s !! ip = Some i → placed (disk s) i → 0 ≤ ofs → ofs < 2 ^ 31 → ofs + sz < 2 ^ 31 → sz ≤ Z.of_nat fuel →
  0 ≤ w → w + sz ≤ Z.of_nat (length buffer) →
  ∃ n l d, write_loop fuel ip buffer sz ofs bounce w s = Ret (w + Z.of_nat n, set_disk d (set_mallocs l s)) ∧
    patched (disk s) d ofs (slice (Z.to_nat w) n buffer) ∧
    (n ≤ reach sz ofs)%nat ∧ (mallocs s = [] → n = reach sz ofs ∧ l = []).
Proof.
  assert (∀ s, set_disk (disk s) (set_mallocs (mallocs s) s) = s) as Hid by (by intros []).
  revert sz ofs bounce w s. induction fuel as [|fuel IH]; intros sz ofs bounce w s Hi Hp H0 H1 H2 Hf Hw Hb.
  all: destruct (decide (0 < sz ∧ ofs < length_ (data i))) as [[Hsz Ho]|Hn]; [try lia|].
  1,3: exists 0%nat, (mallocs s), (disk s); rewrite Z.add_0_r, Hid; split;
    [|split; [apply patched_refl, Hp|split; [lia|intros ->; by rewrite reach_none by lia]]].
  - simpl. by rewrite (proj2 (Z.leb_le _ _)) by lia.
  - destruct (decide (sz ≤ 0)); [simpl; by rewrite (proj2 (Z.leb_le _ _)) by lia|].
    apply write_stop; [done| |lia]. pose proof (pl_length _ _ Hp). lia.
  - destruct (write_step fuel buffer sz ofs bounce w s Hi Hp Hsz) as (ok & l & d & b' & Hm & Hd & ->); [lia..|].
    pose proof (chunk_len_bounds sz ofs) as Hc. rewrite reach_step by lia.
    destruct ok; simpl.
    + rewrite i32_small by lia.
      destruct (IH (sz - chunk_len sz ofs) (ofs + chunk_len sz ofs) b' (w + chunk_len sz ofs)
        (set_disk d (set_mallocs l s))) as (n & l' & d' & -> & Hd' & Hn & Hm');
        [done|by eapply patched_placed|lia..|].
      exists (Z.to_nat (chunk_len sz ofs) + n)%nat, l', d'.
      split; [do 2 f_equal; lia|]. split; [|split; [lia|intros [_ ->]%Hm; by destruct Hm' as [-> ->]]].
      assert (n ≤ Z.to_nat (length_ (data i) - (ofs + chunk_len sz ofs)))%nat by (unfold reach in Hn; lia).
      assert (n ≤ Z.to_nat (sz - chunk_len sz ofs))%nat by (unfold reach in Hn; lia).
      rewrite <-slice_app. eapply patched_app; [done..| |exact Hd|].
      * rewrite !slice_length by lia. lia.
      * rewrite slice_length, Z2Nat.id by lia. by rewrite <-Z2Nat.inj_add by lia.
    + exists 0%nat, l, d. rewrite Z.add_0_r. split; [done|]. split; [done|]. split; [lia|]. by intros [? _]%Hm.
Qed.
End access.

(** ** The operations on contents *)
Lemma contents_length d i : placed d i → Z.of_nat (length (contents d i)) = length_ (data i).
Proof.
  intros [Hu Hd Hs Hl He]. unfold contents. rewrite slice_length; [lia|].
  rewrite (length_flat 512) by done. unfold place. lia.
Qed.
Lemma slice_contents d i ofs n :
  placed d i → 0 ≤ ofs → ofs + Z.of_nat n ≤ length_ (data i) →
  slice (place i ofs) n (concat d) = slice (Z.to_nat ofs) n (contents d i).
Proof.
  intros [Hu Hd Hs Hl He] Ho Hn. unfold contents. rewrite slice_slice by lia. f_equal. unfold place. lia.
Qed.
Lemma patched_contents d d' i ofs bs :
  placed d i → 0 ≤ ofs → ofs + Z.of_nat (length bs) ≤ length_ (data i) → patched i d d' ofs bs →
  contents d' i = splice (Z.to_nat ofs) bs (contents d i).
Proof.
  intros [Hu Hd Hs Hl He] Ho Hn (_ & _ & H). unfold contents. rewrite H.
  replace (place i ofs) with (place i 0 + Z.to_nat ofs)%nat by (unfold place; lia).
  apply slice_splice_in; [|lia]. rewrite (length_flat 512) by done. unfold place. lia.
Qed.
(** Data in other sectors. *)
Definition apart (i j : inode) : Prop :=
  512 * start (data j) + length_ (data j) ≤ 512 * start (data i) ∨
  512 * start (data i) + length_ (data i) ≤ 512 * start (data j).
Lemma patched_apart d d' i j ofs bs :
  placed d i → placed d j → apart i j → 0 ≤ ofs → ofs + Z.of_nat (length bs) ≤ length_ (data i) →
  patched i d d' ofs bs → contents d' j = contents d j.
Proof.
  intros [Hu Hd Hs Hl He] [_ _ Hs' Hl' He'] Ha Ho Hn (_ & _ & H). unfold contents. rewrite H.
  apply slice_splice_other; [rewrite (length_flat 512) by done|]; unfold place, apart in *; lia.
Qed.
(** An access that the code can address without overflow. *)
Record access (s : fs) (ip : ptr) (i : inode) (sz ofs : Z) : Prop := {
  ac_inode : inodes s !! ip = Some i;
  ac_placed : placed (disk s) i;
  ac_sz : 0 ≤ sz;
  ac_ofs : 0 ≤ ofs;
  ac_end : ofs + sz < 2 ^ 31 }.
Lemma inode_read_at_any s ip i sz ofs :
  access s ip i sz ofs →
  ∃ n l, inode_read_at ip sz ofs s = Ret (slice (Z.to_nat ofs) n (contents (disk s) i), set_mallocs l s) ∧
    (n ≤ reach i sz ofs)%nat ∧ (mallocs s = [] → n = reach i sz ofs ∧ l = []).
Proof.
  intros [Hi Hp Hsz Ho He].
  destruct (read_loop_ok ip i (Z.to_nat sz) sz ofs false [] s) as (n & l & Hr & Hn & Hm); [done|done|lia..|].
  exists n, l. split; [|done]. unfold inode_read_at. rewrite Hr. simpl.
  destruct n as [|n]; [done|]. rewrite slice_contents; [done|done|done|]. unfold reach in Hn. lia.
Qed.
Lemma inode_write_at_any s ip i buffer sz ofs :
  access s ip i sz ofs → deny_write_cnt i = 0 → sz ≤ Z.of_nat (length buffer) →
  ∃ n l d, inode_write_at ip buffer sz ofs s = Ret (Z.of_nat n, set_disk d (set_mallocs l s)) ∧
    patched i (disk s) d ofs (take n buffer) ∧
    (n ≤ reach i sz ofs)%nat ∧ (mallocs s = [] → n = reach i sz ofs ∧ l = []).
Proof.
  intros [Hi Hp Hsz Ho He] Hd Hb.
  destruct (write_loop_ok ip i (Z.to_nat sz) buffer sz ofs false 0 s) as (n & l & d & Hw & Hr); [done|done|lia..|].
  exists n, l, d. split; [|by destruct Hr]. unfold inode_write_at.
  rewrite (bindM_Ret _ _ _ _ _ (get_inode_Ret _ _ _ Hi)), Hd. simpl. by rewrite Hw.
Qed.

(** A read returns a prefix of the bytes of the inode's contents at the
    offset, cut at the end of the file; it is the whole of them unless an
    allocation of the bounce buffer fails.  Nothing but the allocator changes. *)
Theorem inode_read_at_contents s ip i sz ofs :
  access s ip i sz ofs →
  ∃ n l, inode_read_at ip sz ofs s = Ret (slice (Z.to_nat ofs) n (contents (disk s) i), set_mallocs l s) ∧
    Z.of_nat n ≤ sz `min` (0 `max` (length_ (data i) - ofs)) ∧
    (mallocs s = [] → Z.of_nat n = sz `min` (0 `max` (length_ (data i) - ofs)) ∧ l = []).
Proof.
  intros H. destruct (inode_read_at_any _ _ _ _ _ H) as (n & l & Hr & Hn & Hm).
  exists n, l. split; [done|]. destruct H. unfold reach in *. split; [lia|].
  intros [-> ->]%Hm. split; [lia|done].
Qed.

(** C19. A write to an inode that is not write-protected, when the allocation of
    the bounce buffer does not fail, replaces the bytes of
    its contents at the offset by those of the buffer, cut at the end of the
    file, returns their number, and leaves the data of every inode in other
    sectors and the rest of the file system alone. *)
Theorem inode_write_at_contents s ip i buffer sz ofs :
  access s ip i sz ofs → deny_write_cnt i = 0 → sz ≤ Z.of_nat (length buffer) → mallocs s = [] →
  ∃ n d, inode_write_at ip buffer sz ofs s = Ret (n, set_disk d s) ∧
    n = sz `min` (0 `max` (length_ (data i) - ofs)) ∧
    contents d i = splice (Z.to_nat ofs) (take (Z.to_nat n) buffer) (contents (disk s) i) ∧
    ∀ j, placed (disk s) j → apart i j → contents d j = contents (disk s) j.
Proof.
  intros H Hd Hb Hm. destruct (inode_write_at_any _ _ _ _ _ _ H Hd Hb) as (n & l & d & Hw & Hp & _ & Hn).
  destruct Hn as [-> ->]; [done|]. destruct H as [Hi Hpl Hsz Ho He].
  exists (Z.of_nat (reach i sz ofs)), d. rewrite Nat2Z.id.
  assert (length (take (reach i sz ofs) buffer) = reach i sz ofs) as Hlen
    by (rewrite length_take; unfold reach; lia).
  split; [by rewrite Hw; destruct s; simpl in *; subst|]. split; [unfold reach; lia|].
  destruct (decide (ofs ≤ length_ (data i))).
  - split; [|intros j Hj Ha]; [eapply patched_contents|eapply (patched_apart _ _ i)]; try done;
      rewrite Hlen; unfold reach; lia.
  - rewrite reach_none in * by lia. destruct Hp as (_ & _ & Hp). rewrite take_0, splice_nil in *.
    unfold contents. by rewrite Hp.
Qed.

(** ** Files *)
Lemma get_file_Ret s p f : files s !! p = Some f → get_file p s = Ret (f, s).
Proof. intros H. unfold get_file. by rewrite H. Qed.
Lemma file_seek_Ret s fp f p :
  files s !! fp = Some f → 0 ≤ p →
  file_seek fp p s = Ret (tt, set_files (<[fp := File (f_inode f) p (deny_write f)]> (files s)) s).
Proof.
  intros Hf Hp. unfold file_seek.
  rewrite (bindM_Ret (assertM _) _ _ tt s) by (by apply assertM_true, Z.leb_le).
  by rewrite (bindM_Ret _ _ _ _ _ (get_file_Ret _ _ _ Hf)).
Qed.
Definition advance (f : file) (n : nat) : file := File (f_inode f) (i32 (pos f + Z.of_nat n)) (deny_write f).
Lemma file_write_Ret s fp f i buffer sz :
  files s !! fp = Some f → access s (f_inode f) i sz (pos f) →
  deny_write_cnt i = 0 → sz ≤ Z.of_nat (length buffer) → mallocs s = [] →
  ∃ d, file_write fp buffer sz s =
    Ret (Z.of_nat (reach i sz (pos f)), set_files (<[fp := advance f (reach i sz (pos f))]> (files s)) (set_disk d s)) ∧
    patched i (disk s) d (pos f) (take (reach i sz (pos f)) buffer).
Proof.
  intros Hf Ha Hd Hb Hm. destruct (inode_write_at_any _ _ _ _ _ _ Ha Hd Hb) as (n & l & d & Hw & Hp & _ & Hn).
  destruct Hn as [-> ->]; [done|]. exists d. split; [|done]. unfold file_write.
  rewrite (bindM_Ret _ _ _ _ _ (get_file_Ret _ _ _ Hf)), (bindM_Ret _ _ _ _ _ Hw).
  destruct s; simpl in *; by subst.
Qed.
Lemma file_read_Ret s fp f i sz :
  files s !! fp = Some f → access s (f_inode f) i sz (pos f) → mallocs s = [] → pos f ≤ length_ (data i) →
  file_read fp sz s =
    Ret (slice (Z.to_nat (pos f)) (reach i sz (pos f)) (contents (disk s) i),
         set_files (<[fp := advance f (reach i sz (pos f))]> (files s)) s).
Proof.
  intros Hf Ha Hm Hl. destruct (inode_read_at_any _ _ _ _ _ Ha) as (n & l & Hr & _ & Hn).
  destruct Hn as [-> ->]; [done|]. unfold file_read.
  rewrite (bindM_Ret _ _ _ _ _ (get_file_Ret _ _ _ Hf)), (bindM_Ret _ _ _ _ _ Hr).
  destruct Ha as [Hi Hp Hsz Ho He]. pose proof (contents_length _ _ Hp).
  rewrite slice_length by (unfold reach; lia). destruct s; simpl in *; by subst.
Qed.
(** Write at [p], return there and read. *)
Definition write_and_read_back (fp : ptr) (p : Z) (buffer : list Z) (sz : Z) : M fs (Z * list Z) :=
  run file_seek fp p;
  do n <- file_write fp buffer sz;
  run file_seek fp p;
  do bs <- file_read fp sz;
  retM (n, bs).

(** What is written to an open file is what is read back from the same
    position, as far as it fits into the file. *)
Theorem file_write_read s fp f i p buffer sz :
  files s !! fp = Some f → access s (f_inode f) i sz p → p ≤ length_ (data i) →
  deny_write_cnt i = 0 → sz ≤ Z.of_nat (length buffer) → mallocs s = [] →
  ∃ s', write_and_read_back fp p buffer sz s =
    Ret (sz `min` (length_ (data i) - p), take (Z.to_nat (sz `min` (length_ (data i) - p))) buffer, s').
Proof.
  intros Hf [Hi Hpl Hsz Hp He] Hl Hd Hb Hm. unfold write_and_read_back.
  rewrite (bindM_Ret _ _ _ _ _ (file_seek_Ret _ _ _ _ Hf Hp)).
  set (s1 := set_files _ s). set (f1 := File (f_inode f) p (deny_write f)).
  assert (files s1 !! fp = Some f1) as Hf1 by apply lookup_insert_eq.
  destruct (file_write_Ret s1 fp f1 i buffer sz) as (d & Hw & Hpa); [done|by split|done..|].
  rewrite (bindM_Ret _ _ _ _ _ Hw). set (s2 := set_files _ (set_disk d s1)).
  set (f2 := advance f1 _) in s2.
  assert (files s2 !! fp = Some f2) as Hf2 by apply lookup_insert_eq.
  rewrite (bindM_Ret _ _ _ _ _ (file_seek_Ret _ _ _ _ Hf2 Hp)).
  set (s3 := set_files _ s2). assert (files s3 !! fp = Some f1) as Hf3 by apply lookup_insert_eq.
  change (pos f1) with p in *. assert (length (take (reach i sz p) buffer) = reach i sz p) as Hlen
    by (rewrite length_take; unfold reach; lia).
  rewrite (bindM_Ret _ _ _ _ _ (file_read_Ret s3 fp f1 i sz Hf3 ltac:(split; [done|exact (patched_placed _ _ _ _ _ Hpl Hpa)|done..]) Hm Hl)).
  eexists. unfold retM. change (pos f1) with p. change (disk s3) with d.
  rewrite (patched_contents (disk s) d i p _ Hpl Hp) by (first [rewrite Hlen; unfold reach; lia|exact Hpa]).
  rewrite <-Hlen at 2. rewrite slice_splice_same.
  - unfold reach. do 3 f_equal. lia.
  - pose proof (contents_length _ _ Hpl). rewrite Hlen. unfold reach. lia.
Qed.

Lemma inode_write_denied s ip i buffer sz ofs :
  inodes s !! ip = Some i → deny_write_cnt i ≠ 0 → inode_write_at ip buffer sz ofs s = Ret (0, s).
Proof.
  intros Hi Hd. unfold inode_write_at. rewrite (bindM_Ret _ _ _ _ _ (get_inode_Ret _ _ _ Hi)).
  by rewrite (proj2 (Z.eqb_neq _ _)).
Qed.

(** C20. While a file denies writes, a write through any open file of the same
    inode transfers nothing: it returns 0 and changes no byte of the device. *)
Theorem file_deny_write_protects s fp f fp' f' i buffer sz :
  files s !! fp = Some f → deny_write f = false → inodes s !! f_inode f = Some i →
  0 ≤ deny_write_cnt i < open_cnt i → open_cnt i < 2 ^ 31 →
  files s !! fp' = Some f' → f_inode f' = f_inode f →
  ∃ s1 s2, file_deny_write fp s = Ret (tt, s1) ∧ file_write fp' buffer sz s1 = Ret (0, s2) ∧ disk s2 = disk s.
Proof.
  intros Hf Hd Hi Hc Ho Hf' He. unfold file_deny_write.
  rewrite (bindM_Ret _ _ _ _ _ (get_file_Ret _ _ _ Hf)), Hd. unfold bindM at 1, put_file, modifyM, inode_deny_write.
  rewrite (bindM_Ret _ _ _ _ _ (get_inode_Ret (set_files _ s) _ _ Hi)). unfold bindM at 1, put_inode, modifyM.
  rewrite assertM_true by (rewrite i32_small, Z.leb_le by lia; lia). 
  set (s1 := set_inodes _ _). exists s1. unfold file_write.
  assert (∃ g, files s1 !! fp' = Some g ∧ f_inode g = f_inode f) as (g & Hg & Hge).
  { simpl. destruct (decide (fp' = fp)) as [->|Hne].
    - rewrite lookup_insert_eq. by eexists.
    - rewrite lookup_insert_ne by done. by eexists. }
  eexists. split; [done|]. rewrite (bindM_Ret _ _ _ _ _ (get_file_Ret _ _ _ Hg)), Hge. unfold bindM at 1.
  erewrite inode_write_denied; [split; reflexivity|apply lookup_insert_eq|simpl].
  rewrite i32_small by lia. lia.
Qed.

(** ** Examples *)
(** A device of six sectors with a file of 600 bytes in sectors 2 and 3, opened
    twice. *)
Definition example_inode : inode := Inode 4 2 false 0 (InodeDisk 2 600 INODE_MAGIC []).
Definition example_fs : fs :=
  Fs (replicate 6 (replicate 512 7)) (Bitmap 6 [31]) None [1%N] {[1%N := example_inode]}
    (<[2%N := File 1 0 false]> {[3%N := File 1 590 false]}) ∅ 4 [].
Lemma example_placed : placed (disk example_fs) example_inode.
Proof. split; [repeat constructor|done|done|done|done]. Qed.
Lemma example_access sz ofs : 0 ≤ sz → 0 ≤ ofs → ofs + sz < 2 ^ 31 → access example_fs 1 example_inode sz ofs.
Proof. intros. split; [done|apply example_placed|done..]. Qed.

Lemma inode_read_at_contents_witness :
  ∃ n l, inode_read_at 1 300 500 example_fs =
           Ret (slice 500 n (contents (disk example_fs) example_inode), set_mallocs l example_fs) ∧
    (mallocs example_fs = [] → Z.of_nat n = 100 ∧ l = []).
Proof.
  destruct (inode_read_at_contents example_fs 1 example_inode 300 500) as (n & l & H1 & _ & H2);
    [by apply example_access|]. by exists n, l.
Defined.
Lemma inode_write_at_contents_witness :
  ∃ n d, inode_write_at 1 (replicate 300 9) 300 500 example_fs = Ret (n, set_disk d example_fs) ∧ n = 100.
Proof.
  destruct (inode_write_at_contents example_fs 1 example_inode (replicate 300 9) 300 500) as (n & d & H1 & H2 & _);
    [by apply example_access|done..|]. by exists n, d.
Defined.
Lemma file_write_read_witness :
  ∃ s', write_and_read_back 2 505 [1; 2; 3; 4; 5; 6; 7; 8; 9; 10] 10 example_fs =
    Ret (10, [1; 2; 3; 4; 5; 6; 7; 8; 9; 10], s').
Proof.
  apply (file_write_read example_fs 2 (File 1 0 false) example_inode 505 [1; 2; 3; 4; 5; 6; 7; 8; 9; 10] 10);
    [done|by apply example_access|done..].
Defined.
Lemma file_deny_write_protects_witness :
  ∃ s1 s2, file_deny_write 2 example_fs = Ret (tt, s1) ∧ file_write 3 [1; 2] 2 s1 = Ret (0, s2) ∧
    disk s2 = disk example_fs.
Proof.
  apply (file_deny_write_protects example_fs 2 (File 1 0 false) 3 (File 1 590 false) example_inode); done.
Defined.
