(* ===== verification/Directory.v ===== *)
(** * filesys/directory.c and filesys/filesys.c

    Directories are files of 20-byte entries; the file system has one, the root
    directory.  Names are sequences of non-zero bytes (C strings without their
    terminator).  Output and [file_lock] of filesys.c are left out: the model
    runs one call at a time. *)

From stdpp Require Import base numbers list gmap.
From S2P Require Import Prelude Bytes Bitmap Inode.
Local Open Scope Z_scope.

Definition NAME_MAX : nat := 14.
Definition ENTRY_SIZE : Z := 20.

(** ** struct dir_entry *)
(** Four bytes of sector, the name with its terminator, a flag. *)
Definition e_sector (e : list Z) : Z := le (slice 0 4 e).
Definition e_name (e : list Z) : list Z := slice 4 15 e.
Definition e_in_use (e : list Z) : bool := negb (nth 19 e 0 =? 0).
Definition set_in_use (b : bool) (e : list Z) : list Z := splice 19 [Z.b2z b] e.
Definition set_sector (sec : Z) (e : list Z) : list Z := splice 0 (to_le 4 sec) e.
(** [strlcpy (e.name, name, sizeof e.name)]. *)
Definition set_name (name : list Z) (e : list Z) : list Z := splice 4 (take NAME_MAX name ++ [0]) e.
(** [!strcmp (name, field)]; a comparison that leaves the field is undefined. *)
Fixpoint name_matches (name field : list Z) : outcome bool :=
  match field with
  | [] => Panic
  | c :: field =>
      match name with
      | [] => Ret (c =? 0)
      | n :: name => if n =? c then name_matches name field else Ret false
      end
  end.

(** ** directory.c: opening *)
Definition get_dir (dp : ptr) : M fs dir := λ s,
  match dirs s !! dp with Some d => Ret (d, s) | None => Panic end.
Definition put_dir (dp : ptr) (d : dir) : M fs unit := modifyM (λ s, set_dirs (<[dp := d]> (dirs s)) s).
Definition dir_create (sec entry_cnt : Z) : M fs bool := inode_create sec (i32 (u32 (entry_cnt * ENTRY_SIZE))).
Definition dir_open (ip : option ptr) : M fs (option ptr) :=
  do ok <- malloc;
  match ip, ok with
  | Some p, true => do dp <- fresh_ptr; run put_dir dp (Dir p 0); retM (Some dp)
  | _, _ => run inode_close ip; retM None
  end.
Definition dir_open_root : M fs (option ptr) := do ip <- inode_open ROOT_DIR_SECTOR; dir_open ip.
Definition dir_reopen (dp : ptr) : M fs (option ptr) :=
  do d <- get_dir dp; do ip <- inode_reopen (Some (d_inode d)); dir_open ip.
Definition dir_close (dp : option ptr) : M fs unit :=
  match dp with
  | None => retM tt
  | Some p =>
      do d <- get_dir p;
      run inode_close (Some (d_inode d));
      modifyM (λ s, set_dirs (delete p (dirs s)) s)
  end.
Definition dir_get_inode (dp : ptr) : M fs ptr := do d <- get_dir dp; retM (d_inode d).

(** ** directory.c: entries *)
(** A full entry is read only where one is left in the file, so this fuel is
    enough for every loop over the entries. *)
Definition entry_fuel (ip : ptr) : M fs nat := do i <- get_inode ip; retM (S (Z.to_nat (inode_length i))).
Fixpoint lookup_loop (fuel : nat) (ip : ptr) (name : list Z) (ofs : Z) : M fs (option (list Z * Z)) :=
  match fuel with
  | O => λ _, NoFuel
  | S fuel =>
      do e <- inode_read_at ip ENTRY_SIZE (i32 ofs);
      if negb (Z.of_nat (length e) =? ENTRY_SIZE) then retM None
      else
        do same <- (if e_in_use e then liftO (name_matches name (e_name e)) else retM false);
        if same then retM (Some (e, ofs))
        else lookup_loop fuel ip name (u32 (ofs + ENTRY_SIZE))
  end.
(** The entry and its offset. *)
Definition lookup_ (dp : ptr) (name : list Z) : M fs (option (list Z * Z)) :=
  do d <- get_dir dp; do n <- entry_fuel (d_inode d); lookup_loop n (d_inode d) name 0.
Definition dir_lookup (dp : ptr) (name : list Z) : M fs (option ptr) :=
  do r <- lookup_ dp name;
  match r with
  | Some (e, _) => inode_open (e_sector e)
  | None => retM None
  end.
(** The search for a free slot; [e] is the entry in the buffer. *)
Fixpoint free_slot_loop (fuel : nat) (ip : ptr) (e : list Z) (ofs : Z) : M fs (list Z * Z) :=
  match fuel with
  | O => λ _, NoFuel
  | S fuel =>
      do bs <- inode_read_at ip ENTRY_SIZE ofs;
      let e := splice 0 bs e in
      if negb (Z.of_nat (length bs) =? ENTRY_SIZE) then retM (e, ofs)
      else if negb (e_in_use e) then retM (e, ofs)
      else free_slot_loop fuel ip e (i32 (ofs + ENTRY_SIZE))
  end.
(** [junk]: what the stack holds where [e] is. *)
Definition dir_add (junk : list Z) (dp : ptr) (name : list Z) (inode_sector : Z) : M fs bool :=
  if (length name =? 0)%nat || (NAME_MAX <? length name)%nat then retM false
  else
    do found <- lookup_ dp name;
    match found with
    | Some _ => retM false
    | None =>
        do d <- get_dir dp;
        do n <- entry_fuel (d_inode d);
        do r <- free_slot_loop n (d_inode d) junk 0;
        let e := set_sector inode_sector (set_name name (set_in_use true (fst r))) in
        do written <- inode_write_at (d_inode d) e ENTRY_SIZE (snd r);
        retM (written =? ENTRY_SIZE)
    end.
Definition dir_remove (dp : ptr) (name : list Z) : M fs bool :=
  do r <- lookup_ dp name;
  match r with
  | None => run inode_close None; retM false
  | Some (e, ofs) =>
      do ip <- inode_open (e_sector e);
      match ip with
      | None => run inode_close None; retM false
      | Some p =>
          do d <- get_dir dp;
          do written <- inode_write_at (d_inode d) (set_in_use false e) ENTRY_SIZE (i32 ofs);
          if negb (written =? ENTRY_SIZE) then run inode_close ip; retM false
          else run inode_remove p; run inode_close ip; retM true
      end
  end.
(** [strlcpy (name, e.name, NAME_MAX + 1)]: the field up to its terminator; an
    unterminated field is read beyond its end. *)
Fixpoint field_string (field : list Z) : outcome (list Z) :=
  match field with
  | [] => Panic
  | c :: field => if c =? 0 then Ret [] else try s <- field_string field; Ret (c :: s)
  end.
Fixpoint readdir_loop (fuel : nat) (dp : ptr) : M fs (option (list Z)) :=
  match fuel with
  | O => λ _, NoFuel
  | S fuel =>
      do d <- get_dir dp;
      do e <- inode_read_at (d_inode d) ENTRY_SIZE (d_pos d);
      if negb (Z.of_nat (length e) =? ENTRY_SIZE) then retM None
      else
        run put_dir dp (Dir (d_inode d) (i32 (d_pos d + ENTRY_SIZE)));
        if e_in_use e then do s <- liftO (field_string (e_name e)); retM (Some s)
        else readdir_loop fuel dp
  end.
Definition dir_readdir (dp : ptr) : M fs (option (list Z)) :=
  do d <- get_dir dp; do n <- entry_fuel (d_inode d); readdir_loop n dp.

(** ** filesys.c *)
Definition do_format : M fs unit :=
  run free_map_create;
  do ok <- dir_create ROOT_DIR_SECTOR 16;
  run assertM ok;
  free_map_close.
(** [device]: the sectors of the device with role [BLOCK_FILESYS]. *)
Definition filesys_init (device : option (list (list Z))) (header array : bool) (junk : list Z)
    (format : bool) : M fs unit :=
  match device with
  | None => panicM
  | Some d =>
      run modifyM (set_disk d);
      run inode_init;
      run free_map_init header array junk;
      run (if format then do_format else retM tt);
      free_map_open
  end.
Definition filesys_done : M fs unit := free_map_close.
(** The conjunction that [filesys_create] evaluates: the sector that was
    allocated (0 if none) and whether all steps succeeded. *)
Definition create_steps (junk : list Z) (dp : option ptr) (name : list Z) (initial_size : Z) : M fs (Z * bool) :=
  match dp with
  | None => retM (0, false)
  | Some d =>
      do r <- free_map_allocate 1;
      match r with
      | None => retM (0, false)
      | Some sec =>
          do ok <- inode_create sec initial_size;
          if negb ok then retM (sec, false)
          else do ok <- dir_add junk d name sec; retM (sec, ok)
      end
  end.
Definition filesys_create (junk : list Z) (name : list Z) (initial_size : Z) : M fs bool :=
  do dp <- dir_open_root;
  do r <- create_steps junk dp name initial_size;
  let '(inode_sector, success) := r in
  run (if negb success && negb (inode_sector =? 0) then free_map_release inode_sector 1 else retM tt);
  run dir_close dp;
  retM success.
Definition filesys_open (name : list Z) : M fs (option ptr) :=
  do dp <- dir_open_root;
  do ip <- (match dp with Some d => dir_lookup d name | None => retM None end);
  run dir_close dp;
  file_open ip.
Definition filesys_remove (name : list Z) : M fs bool :=
  do dp <- dir_open_root;
  do success <- (match dp with Some d => dir_remove d name | None => retM false end);
  run dir_close dp;
  retM success.
