(* ===== verification/DirectorySpec.v ===== *)
(** * Directories as finite maps

    A directory's contents are a sequence of entries, and the entries in use
    bind names to sectors.  Looking a name up, adding and removing one refine
    the operations on that map. *)

From stdpp Require Import base numbers list gmap.
From S2P Require Import Prelude Bytes Bitmap Inode InodeSpec Directory.
Local Open Scope Z_scope.

(** ** Names in fields *)
Definition nonzero (name : list Z) : Prop := Forall (λ c, c ≠ 0) name.
Lemma name_matches_string name field s :
  nonzero name → field_string field = Ret s → name_matches name field = Ret (bool_decide (name = s)).
Proof.
  intros Hn. revert field s. induction Hn as [|c name Hc Hn IH]; intros [|f field] s Hs; try done; simpl in *.
  - destruct (f =? 0); [by injection Hs as <-|].
    destruct (field_string field); simpl in Hs; try done. by injection Hs as <-.
  - destruct (Z.eqb_spec f 0) as [->|Hf].
    + injection Hs as <-. rewrite (proj2 (Z.eqb_neq _ _) Hc). by rewrite bool_decide_eq_false_2.
    + destruct (field_string field) as [s'| |] eqn:E; simpl in Hs; try done. injection Hs as <-.
      destruct (Z.eqb_spec c f) as [->|Hcf].
      * rewrite (IH _ _ E). f_equal. apply bool_decide_ext. naive_solver.
      * rewrite bool_decide_eq_false_2; [done|]. naive_solver.
Qed.
Lemma field_string_app name rest : nonzero name → field_string (name ++ 0 :: rest) = Ret name.
Proof.
  induction 1 as [|c name Hc _ IH]; [done|]. simpl. rewrite (proj2 (Z.eqb_neq _ _) Hc). by rewrite IH.
Qed.

(** ** Entries *)
Definition entries (bs : list Z) : list (list Z) :=
  (λ k, slice (20 * k) 20 bs) <$> seq 0 (length bs / 20).
Definition binding (e : list Z) : option (list Z * Z) :=
  if e_in_use e then match field_string (e_name e) with Ret s => Some (s, e_sector e) | _ => None end
  else None.
Definition dir_map (es : list (list Z)) : gmap (list Z) Z := list_to_map (omap binding es).
(** Names are terminated and no name occurs twice. *)
Record wf_entries (es : list (list Z)) : Prop := {
  we_names : Forall (λ e, e_in_use e = true → is_Some (binding e)) es;
  we_unique : NoDup (fst <$> omap binding es) }.

Lemma entries_length bs : length (entries bs) = (length bs / 20)%nat.
Proof. unfold entries. by rewrite length_fmap, length_seq. Qed.
Lemma entries_lookup bs k :
  entries bs !! k = if decide (20 * k + 20 ≤ length bs)%nat then Some (slice (20 * k) 20 bs) else None.
Proof.
  pose proof (Nat.div_mod_eq (length bs) 20). pose proof (Nat.mod_upper_bound (length bs) 20).
  unfold entries. rewrite list_lookup_fmap. case_decide.
  - rewrite lookup_seq_lt by lia. done.
  - rewrite lookup_seq_ge by lia. done.
Qed.
Lemma entries_splice bs k e :
  length e = 20%nat → (20 * k + 20 ≤ length bs)%nat → entries (splice (20 * k) e bs) = <[k := e]> (entries bs).
Proof.
  intros He Hk. apply list_eq. intros j. rewrite entries_lookup, splice_length by lia.
  pose proof (Nat.div_mod_eq (length bs) 20). pose proof (Nat.mod_upper_bound (length bs) 20).
  destruct (decide (j = k)) as [->|Hne].
  - rewrite list_lookup_insert_eq by (rewrite entries_length; lia). rewrite decide_True by lia.
    pose proof (slice_splice_same (20 * k) e bs) as Hs. rewrite He in Hs. by rewrite Hs.
  - rewrite list_lookup_insert_ne, entries_lookup by done. case_decide; [|done].
    rewrite slice_splice_other by lia. done.
Qed.

(** ** The map of the entries *)
Definition is_named (name : list Z) (e : list Z) : Prop := fst <$> binding e = Some name.
#[global] Instance is_named_dec name e : Decision (is_named name e).
Proof. unfold is_named. apply _. Defined.
Lemma dir_map_find es name :
  dir_map es !! name = e_sector ∘ snd <$> list_find (is_named name) es.
Proof.
  unfold dir_map. induction es as [|e es IH]; [done|].
  change (omap binding (e :: es)) with (match binding e with Some b => b :: omap binding es | None => omap binding es end).
  cbn [list_find]. destruct (decide (is_named name e)) as [Hn|Hn]; unfold is_named in Hn.
  - destruct (binding e) as [[n sec]|] eqn:E; [|done]. injection Hn as ->. simpl. rewrite lookup_insert_eq.
    unfold binding in E. repeat case_match; naive_solver.
  - destruct (binding e) as [[n sec]|] eqn:E; simpl; [rewrite lookup_insert_ne by naive_solver|]; rewrite IH;
      by destruct (list_find _ es) as [[]|].
Qed.
(** Replacing an entry. *)
Lemma bindings_insert es k e0 e :
  es !! k = Some e0 →
  ∃ l, omap binding es ≡ₚ option_list (binding e0) ++ l ∧
       omap binding (<[k := e]> es) ≡ₚ option_list (binding e) ++ l.
Proof.
  intros Hk. exists (omap binding (take k es) ++ omap binding (drop (S k) es)).
  rewrite insert_take_drop by (by eapply lookup_lt_Some). rewrite <-(take_drop_middle es k e0) at 1 by done.
  rewrite !omap_app. change (e0 :: drop (S k) es) with ([e0] ++ drop (S k) es).
  change (e :: drop (S k) es) with ([e] ++ drop (S k) es). rewrite !omap_app.
  assert (∀ x, omap binding [x] = option_list (binding x)) as Hx
    by (intros x; cbn; by destruct (binding x)).
  rewrite !Hx. split; solve_Permutation.
Qed.
Lemma names_insert es k e :
  Forall (λ e, e_in_use e = true → is_Some (binding e)) es → (e_in_use e = true → is_Some (binding e)) →
  Forall (λ e, e_in_use e = true → is_Some (binding e)) (<[k := e]> es).
Proof. intros. by apply Forall_insert. Qed.
Lemma dir_map_bind es k e0 e name sec :
  wf_entries es → es !! k = Some e0 → e_in_use e0 = false → binding e = Some (name, sec) →
  dir_map es !! name = None →
  wf_entries (<[k := e]> es) ∧ dir_map (<[k := e]> es) = <[name := sec]> (dir_map es).
Proof.
  intros [Hn Hu] Hk He0 He Hf. destruct (bindings_insert es k e0 e Hk) as (l & H1 & H2).
  assert (binding e0 = None) as Hb0 by (unfold binding; by rewrite He0).
  rewrite Hb0 in H1. rewrite He in H2. simpl in H1, H2.
  assert (NoDup (fst <$> omap binding (<[k := e]> es))) as Hu'.
  { rewrite H2. simpl. apply NoDup_cons. rewrite <-H1. split; [|done]. by apply not_elem_of_list_to_map. }
  split; [split; [apply names_insert; by rewrite ?He|done]|].
  unfold dir_map. rewrite (list_to_map_proper _ _ Hu' H2). simpl. f_equal. symmetry. by apply list_to_map_proper.
Qed.
Lemma dir_map_unbind es k e0 e name sec :
  wf_entries es → es !! k = Some e0 → binding e0 = Some (name, sec) → e_in_use e = false →
  wf_entries (<[k := e]> es) ∧ dir_map (<[k := e]> es) = delete name (dir_map es).
Proof.
  intros [Hn Hu] Hk He0 He. destruct (bindings_insert es k e0 e Hk) as (l & H1 & H2).
  assert (binding e = None) as Hb by (unfold binding; by rewrite He).
  rewrite He0 in H1. rewrite Hb in H2. simpl in H1, H2.
  assert (NoDup (name :: l.*1)) as [Hni Hul]%NoDup_cons by (by rewrite H1 in Hu).
  assert (NoDup (fst <$> omap binding (<[k := e]> es))) as Hu' by (by rewrite H2).
  split; [split; [apply names_insert; by rewrite ?He|done]|].
  unfold dir_map. rewrite (list_to_map_proper _ _ Hu' H2), (list_to_map_proper _ _ Hu H1). simpl.
  rewrite delete_insert_id; [done|]. by apply not_elem_of_list_to_map.
Qed.

(** ** Entries that are written *)
Section write_entry.
  Context (e name : list Z) (sec : Z).
  Hypothesis He : length e = 20%nat.
Definition new_entry : list Z := set_sector sec (set_name name (set_in_use true e)).
Lemma in_use_lookup x b : x !! 19%nat = Some b → e_in_use x = negb (b =? 0).
Proof. intros H. unfold e_in_use. by rewrite (nth_lookup_Some _ _ _ _ H). Qed.
Lemma set_in_use_length b : length (set_in_use b e) = 20%nat.
Proof. unfold set_in_use. rewrite splice_length; simpl; lia. Qed.
Lemma set_in_use_false : e_in_use (set_in_use false e) = false.
Proof. rewrite (in_use_lookup _ 0); [done|]. unfold set_in_use. rewrite splice_lookup by (simpl; lia). done. Qed.
Lemma new_entry_binding :
  nonzero name → (length name ≤ NAME_MAX)%nat → 0 ≤ sec < 2 ^ 32 →
  length new_entry = 20%nat ∧ e_in_use new_entry = true ∧ binding new_entry = Some (name, sec).
Proof.
  intros Hn Hl Hs. unfold NAME_MAX in Hl. pose proof (set_in_use_length true) as H1.
  assert (length (take NAME_MAX name ++ [0]) = S (length name)) as Hnl
    by (rewrite take_ge by done; rewrite length_app; simpl; lia).
  assert (length (set_name name (set_in_use true e)) = 20%nat) as H2
    by (unfold set_name; rewrite splice_length; lia).
  assert (length (to_le 4 sec) = 4%nat) as H3 by apply to_le_length.
  assert (length new_entry = 20%nat) as H4 by (unfold new_entry, set_sector; rewrite splice_length; lia).
  assert (e_in_use new_entry = true) as H5.
  { rewrite (in_use_lookup _ 1); [done|]. unfold new_entry, set_sector, set_name, set_in_use.
    rewrite splice_lookup by (rewrite H3; fold (set_in_use true e); fold (set_name name (set_in_use true e)); lia).
    rewrite H3, decide_False by lia. rewrite splice_lookup by (fold (set_in_use true e); lia).
    rewrite Hnl, decide_False by lia. rewrite splice_lookup by (simpl; lia). done. }
  split; [done|]. split; [done|]. unfold binding. rewrite H5.
  assert (e_name new_entry = name ++ 0 :: drop (S (length name)) (slice 4 15 (set_in_use true e))) as ->.
  { unfold e_name, new_entry, set_sector. rewrite slice_splice_other by lia.
    unfold set_name. rewrite (slice_splice_in 4 15 0) by lia.
    unfold splice. rewrite take_0, Hnl, take_ge by done. simpl. by rewrite <-app_assoc. }
  rewrite field_string_app by done. do 2 f_equal. unfold e_sector, new_entry, set_sector.
  pose proof (slice_splice_same 0 (to_le 4 sec) (set_name name (set_in_use true e))) as Hsl.
  rewrite H3 in Hsl. rewrite Hsl by lia. by apply le_to_le.
Qed.
End write_entry.

(** ** Open directories *)
Record directory (s : fs) (dp : ptr) (d : dir) (i : inode) : Prop := {
  op_dir : dirs s !! dp = Some d;
  op_inode : inodes s !! d_inode d = Some i;
  op_placed : placed (disk s) i;
  op_size : (20 | length_ (data i));
  op_small : length_ (data i) + 20 < 2 ^ 31;
  op_entries : wf_entries (entries (contents (disk s) i)) }.
(** The same while allocations succeed. *)
Record quiet_directory (s : fs) (dp : ptr) (d : dir) (i : inode) : Prop := {
  dr_dir : dirs s !! dp = Some d;
  dr_inode : inodes s !! d_inode d = Some i;
  dr_placed : placed (disk s) i;
  dr_size : (20 | length_ (data i));
  dr_small : length_ (data i) + 20 < 2 ^ 31;
  dr_memory : mallocs s = [];
  dr_entries : wf_entries (entries (contents (disk s) i)) }.
Definition dir_entries (s : fs) (i : inode) : list (list Z) := entries (contents (disk s) i).

(** The test that a whole entry was read. *)
Ltac full_entry :=
  match goal with |- context [if negb (Z.of_nat 20 =? 20) then ?a else ?b] =>
    change (if negb (Z.of_nat 20 =? 20) then a else b) with b end.

Section directory.
  Context (s : fs) (dp : ptr) (d : dir) (i : inode).
  Hypothesis Hdir : quiet_directory s dp d i.
Lemma dir_length : length_ (data i) = 20 * Z.of_nat (length (dir_entries s i)).
Proof.
  destruct Hdir as [_ _ Hp [q Hq] Hs _ _]. pose proof (contents_length _ _ Hp) as Hl.
  pose proof (pl_length _ _ Hp). unfold dir_entries. rewrite entries_length.
  replace (length (contents (disk s) i)) with (Z.to_nat q * 20)%nat by lia.
  rewrite Nat.div_mul by done. lia.
Qed.
Lemma read_entry k :
  (k ≤ length (dir_entries s i))%nat →
  inode_read_at (d_inode d) 20 (20 * Z.of_nat k) s = Ret (default [] (dir_entries s i !! k), s).
Proof.
  intros Hk. pose proof dir_length as Hl. destruct Hdir as [_ Hi Hp _ Hs Hm _].
  destruct (inode_read_at_any s (d_inode d) i 20 (20 * Z.of_nat k)) as (n & l & -> & _ & Hn); [split; [done|done|lia..]|].
  destruct Hn as [-> ->]; [done|]. replace (set_mallocs [] s) with s by (destruct s; simpl in *; by subst).
  do 2 f_equal. unfold dir_entries. rewrite entries_lookup. pose proof (contents_length _ _ Hp).
  unfold reach. case_decide; simpl; [f_equal; lia|]. replace (Z.to_nat (20 `min` _)) with 0%nat by lia. done.
Qed.
Lemma dir_entry_length k e : dir_entries s i !! k = Some e → length e = 20%nat.
Proof.
  unfold dir_entries. rewrite entries_lookup. case_decide; intros [= <-]. by apply slice_length.
Qed.
Lemma entry_matches name e k :
  nonzero name → dir_entries s i !! k = Some e →
  (if e_in_use e then liftO (name_matches name (e_name e)) else retM false) s =
    Ret (bool_decide (is_named name e), s).
Proof.
  intros Hn Hk. pose proof (Forall_lookup_1 _ _ _ _ (we_names _ (dr_entries _ _ _ _ Hdir)) Hk) as Hb.
  destruct (e_in_use e) eqn:Eu.
  - destruct (Hb Eu) as [b Eb]. unfold binding in Eb. rewrite Eu in Eb.
    destruct (field_string (e_name e)) as [x| |] eqn:E; try done. unfold liftO.
    rewrite (name_matches_string _ _ _ Hn E). do 2 f_equal. apply bool_decide_ext.
    unfold is_named, binding. rewrite Eu, E. simpl. naive_solver.
  - rewrite bool_decide_eq_false_2; [done|]. unfold is_named, binding. by rewrite Eu.
Qed.
Lemma lookup_loop_find name fuel k :
  nonzero name → (k ≤ length (dir_entries s i))%nat → (length (dir_entries s i) < k + fuel)%nat →
  lookup_loop fuel (d_inode d) name (20 * Z.of_nat k) s =
    Ret ((λ x, (x.2, 20 * Z.of_nat (k + x.1))) <$> list_find (is_named name) (drop k (dir_entries s i)), s).
Proof.
  intros Hn. pose proof dir_length as Hl. pose proof (dr_small _ _ _ _ Hdir) as Hs.
  revert k. induction fuel as [|fuel IH]; intros k Hk Hf; [lia|]. cbn [lookup_loop]. unfold ENTRY_SIZE.
  rewrite i32_small by lia. rewrite (bindM_Ret _ _ _ _ _ (read_entry k Hk)).
  destruct (dir_entries s i !! k) as [e|] eqn:E.
  - rewrite (drop_S _ _ _ E). cbn [from_option id list_find]. rewrite (dir_entry_length _ _ E). full_entry.
    rewrite (bindM_Ret _ _ _ _ _ (entry_matches _ _ _ Hn E)). apply lookup_lt_Some in E.
    case_bool_decide as Hm; [rewrite decide_True by done|rewrite decide_False by done].
    + unfold retM. simpl. by rewrite Nat.add_0_r.
    + replace (u32 (20 * Z.of_nat k + 20)) with (20 * Z.of_nat (S k)) by (rewrite u32_small; lia).
      rewrite IH by lia. f_equal. f_equal. destruct (list_find _ _) as [[j x]|]; simpl; [|done].
      repeat f_equal. lia.
  - apply lookup_ge_None in E. rewrite drop_ge by done. done.
Qed.
Lemma entry_fuel_Ret : entry_fuel (d_inode d) s = Ret (S (Z.to_nat (length_ (data i))), s).
Proof. unfold entry_fuel. by rewrite (bindM_Ret _ _ _ _ _ (get_inode_Ret _ _ _ (dr_inode _ _ _ _ Hdir))). Qed.
Lemma get_dir_Ret : get_dir dp s = Ret (d, s).
Proof. unfold get_dir. by rewrite (dr_dir _ _ _ _ Hdir). Qed.
Lemma lookup_Ret name :
  nonzero name →
  lookup_ dp name s = Ret ((λ x, (x.2, 20 * Z.of_nat x.1)) <$> list_find (is_named name) (dir_entries s i), s).
Proof.
  intros Hn. unfold lookup_. rewrite (bindM_Ret _ _ _ _ _ get_dir_Ret), (bindM_Ret _ _ _ _ _ entry_fuel_Ret).
  pose proof dir_length. apply (lookup_loop_find name _ 0); [done|lia..].
Qed.
(** The first entry that is not in use. *)
Definition is_free (e : list Z) : Prop := e_in_use e = false.
#[global] Instance is_free_dec e : Decision (is_free e).
Proof. unfold is_free. apply _. Defined.
Definition free_slot (k : nat) : nat :=
  match list_find is_free (drop k (dir_entries s i)) with
  | Some (j, _) => (k + j)%nat
  | None => length (dir_entries s i)
  end.
Lemma free_slot_le : (free_slot 0 ≤ length (dir_entries s i))%nat.
Proof.
  unfold free_slot. rewrite drop_0. destruct (list_find is_free (dir_entries s i)) as [[k e]|] eqn:E; [|done].
  apply list_find_Some in E as (E & _). apply lookup_lt_Some in E. lia.
Qed.
Lemma free_slot_loop_find fuel buf k :
  length buf = 20%nat → (k ≤ length (dir_entries s i))%nat → (length (dir_entries s i) < k + fuel)%nat →
  ∃ buf', free_slot_loop fuel (d_inode d) buf (20 * Z.of_nat k) s = Ret (buf', 20 * Z.of_nat (free_slot k), s) ∧
    length buf' = 20%nat.
Proof.
  pose proof dir_length as Hl. pose proof (dr_small _ _ _ _ Hdir) as Hs.
  revert buf k. induction fuel as [|fuel IH]; intros buf k Hb Hk Hf; [lia|]. cbn [free_slot_loop]. unfold ENTRY_SIZE.
  rewrite (bindM_Ret _ _ _ _ _ (read_entry k Hk)). cbv zeta. unfold free_slot.
  destruct (dir_entries s i !! k) as [e|] eqn:E; cbn [from_option id].
  - rewrite (drop_S _ _ _ E). cbn [list_find]. pose proof (dir_entry_length _ _ E) as He.
    assert (splice 0 e buf = e) as Hsp by (unfold splice; rewrite drop_ge by lia; by rewrite app_nil_r).
    rewrite Hsp, He. full_entry. apply lookup_lt_Some in E. destruct (e_in_use e) eqn:Eu.
    + rewrite decide_False by (unfold is_free; congruence). cbn [negb].
      replace (i32 (20 * Z.of_nat k + 20)) with (20 * Z.of_nat (S k)) by (rewrite i32_small; lia).
      destruct (IH e (S k)) as (buf' & -> & Hb'); [lia..|]. exists buf'. split; [|done].
      unfold free_slot. destruct (list_find _ _) as [[j x]|]; simpl; repeat f_equal; lia.
    + rewrite decide_True by done. exists e. cbn. by rewrite Nat.add_0_r.
  - apply lookup_ge_None in E. rewrite drop_ge by done. exists buf. cbn. rewrite splice_nil. split; [|done].
    unfold retM. do 3 f_equal. assert (k = length (dir_entries s i)) as -> by lia. done.
Qed.
(** Writing an entry; at the end of the file nothing is written. *)
Lemma write_entry k e :
  deny_write_cnt i = 0 → length e = 20%nat → (k ≤ length (dir_entries s i))%nat →
  ∃ d', inode_write_at (d_inode d) e 20 (20 * Z.of_nat k) s =
      Ret (if decide (k < length (dir_entries s i))%nat then 20 else 0, set_disk d' s) ∧
    placed d' i ∧ entries (contents d' i) = <[k := e]> (dir_entries s i) ∧
    ∀ j, placed (disk s) j → apart i j → contents d' j = contents (disk s) j.
Proof.
  intros Hd He Hk. pose proof dir_length as Hl. destruct Hdir as [_ Hi Hp _ Hs Hm _].
  destruct (inode_write_at_any s (d_inode d) i e 20 (20 * Z.of_nat k)) as (n & l & d' & Hw & Hpa & _ & Hn);
    [split; [done|done|lia..]|done|lia|].
  destruct Hn as [-> ->]; [done|]. pose proof (contents_length _ _ Hp) as Hc.
  assert (reach i 20 (20 * Z.of_nat k) = if decide (k < length (dir_entries s i))%nat then 20%nat else 0%nat) as Hr
    by (unfold reach; case_decide; lia).
  assert (length (take (reach i 20 (20 * Z.of_nat k)) e) = reach i 20 (20 * Z.of_nat k)) as Hlen
    by (rewrite length_take; unfold reach; lia).
  exists d'. split; [|split; [|split]].
  - rewrite Hw, Hr. destruct s; simpl in *; subst. by case_decide.
  - by eapply patched_placed.
  - rewrite (patched_contents (disk s) d' i (20 * Z.of_nat k) _ Hp) by (first [exact Hpa|rewrite ?Hlen; unfold reach; lia]).
    rewrite Hr. replace (Z.to_nat (20 * Z.of_nat k)) with (20 * k)%nat by lia. case_decide.
    + rewrite take_ge by lia. apply entries_splice; lia.
    + rewrite take_0, splice_nil, list_insert_ge by lia. done.
  - intros j Hj Ha. apply (patched_apart (disk s) d' i j (20 * Z.of_nat k) _ Hp Hj Ha) in Hpa; [done|lia|].
    rewrite Hlen. unfold reach. lia.
Qed.
Lemma directory_update d' es :
  placed d' i → entries (contents d' i) = es → wf_entries es → quiet_directory (set_disk d' s) dp d i.
Proof. intros Hp He Hw. destruct Hdir. split; try done. simpl. by rewrite He. Qed.
End directory.

Lemma directory_quiet s dp d i : directory s dp d i → mallocs s = [] → quiet_directory s dp d i.
Proof. by intros []. Qed.
Lemma quiet_directory_open s dp d i : quiet_directory s dp d i → directory s dp d i ∧ mallocs s = [].
Proof. by intros []. Qed.

(** ** The operations on the map *)
(** C21. Looking a name up, when the allocations of bounce buffers succeed, opens
    the inode in the sector that the directory's map binds the name to, and finds
    nothing if there is none. *)
Theorem dir_lookup_map s dp d i name :
  directory s dp d i → mallocs s = [] → nonzero name →
  dir_lookup dp name s =
    match dir_map (dir_entries s i) !! name with
    | Some sec => inode_open sec s
    | None => Ret (None, s)
    end.
Proof.
  intros Hd0 Hm Hn. pose proof (directory_quiet _ _ _ _ Hd0 Hm) as Hd. unfold dir_lookup. rewrite (bindM_Ret _ _ _ _ _ (lookup_Ret s dp d i Hd name Hn)).
  rewrite dir_map_find. by destruct (list_find _ _) as [[k e]|].
Qed.

Definition can_add (es : list (list Z)) (name : list Z) : Prop :=
  name ≠ [] ∧ (length name ≤ NAME_MAX)%nat ∧ dir_map es !! name = None ∧ Exists is_free es.
(** C22. When the allocations of bounce buffers succeed and writes to the
    directory's inode are not denied, adding a name succeeds exactly if it is
    valid and new and an entry is free; it then binds the name to the sector, and
    otherwise it leaves the map alone.  The directory stays well formed and no
    other data changes. *)
Theorem dir_add_map s dp d i junk name sec :
  directory s dp d i → mallocs s = [] → deny_write_cnt i = 0 → nonzero name → 0 ≤ sec < 2 ^ 32 → length junk = 20%nat →
  ∃ ok s', dir_add junk dp name sec s = Ret (ok, s') ∧
    (ok = true ↔ can_add (dir_entries s i) name) ∧ (directory s' dp d i ∧ mallocs s' = []) ∧
    dir_map (dir_entries s' i) = (if ok : bool then <[name := sec]> else id) (dir_map (dir_entries s i)) ∧
    ∀ j, placed (disk s) j → apart i j → contents (disk s') j = contents (disk s) j.
Proof.
  intros Hd0 Hm Hw Hn Hs Hj. pose proof (directory_quiet _ _ _ _ Hd0 Hm) as Hd.
  unfold dir_add, can_add. destruct (_ || _) eqn:E.
  { exists false, s. split; [done|]. split; [|done]. split; [done|]. intros (H1 & H2 & _).
    apply orb_prop in E as [E%Nat.eqb_eq|E%Nat.ltb_lt]; [by destruct name|lia]. }
  apply orb_false_elim in E as [E1%Nat.eqb_neq E2%Nat.ltb_ge].
  rewrite (bindM_Ret _ _ _ _ _ (lookup_Ret s dp d i Hd name Hn)), dir_map_find.
  destruct (list_find _ _) as [[k e]|] eqn:Ef; simpl.
  { exists false, s. split; [done|]. split; [|done]. split; [done|]. by intros (_ & _ & ? & _). }
  rewrite (bindM_Ret _ _ _ _ _ (get_dir_Ret s dp d i Hd)), (bindM_Ret _ _ _ _ _ (entry_fuel_Ret s dp d i Hd)).
  pose proof (dir_length s dp d i Hd).
  destruct (free_slot_loop_find s dp d i Hd (S (Z.to_nat (length_ (data i)))) junk 0) as (buf & Hb & Hbl); [done|lia..|].
  rewrite (bindM_Ret _ _ _ _ _ Hb). simpl fst. simpl snd. fold (new_entry buf name sec).
  destruct (new_entry_binding buf name sec Hbl Hn E2 Hs) as (Hel & Heu & Heb).
  pose proof (free_slot_le s i) as Hfs.
  destruct (write_entry s dp d i Hd _ _ Hw Hel Hfs) as (d' & Hwr & Hp' & He' & Ha).
  rewrite (bindM_Ret _ _ _ _ _ Hwr). unfold free_slot in *. rewrite drop_0 in *.
  destruct (list_find is_free _) as [[k e]|] eqn:E; simpl in He'.
  - apply list_find_Some in E as (Hk & He0 & _). pose proof (lookup_lt_Some _ _ _ Hk).
    rewrite decide_True by done. exists true, (set_disk d' s).
    destruct (dir_map_bind (dir_entries s i) k e _ name sec (dr_entries _ _ _ _ Hd) Hk He0 Heb) as [Hwf Hmap];
      [by rewrite dir_map_find, Ef|].
    split; [done|]. split; [|split; [by eapply quiet_directory_open, directory_update|split; [unfold dir_entries at 1; simpl; by rewrite He'|done]]].
    split; [intros _|done]. split; [by intros ->|]. split; [done|]. split; [done|].
    apply Exists_exists. exists e. split; [by eapply list_elem_of_lookup_2|done].
  - rewrite decide_False by lia. exists false, (set_disk d' s). rewrite list_insert_ge in He' by lia.
    split; [done|]. split; [|split; [eapply quiet_directory_open, directory_update; [done..|apply Hd]|split; [unfold dir_entries at 1; simpl; by rewrite He'|done]]].
    split; [done|]. intros (_ & _ & _ & Hex). apply list_find_None in E.
    apply Exists_exists in Hex as (x & Hx & Hfree). rewrite Forall_forall in E. by destruct (E x Hx).
Qed.

(** ** Removing *)
(** The inodes in [open_inodes] exist, and no two have the same sector. *)
Definition open_ok (s : fs) : Prop :=
  (∀ p, p ∈ open_inodes s → is_Some (inodes s !! p)) ∧
  ∀ p q i j, p ∈ open_inodes s → q ∈ open_inodes s → inodes s !! p = Some i → inodes s !! q = Some j →
    sector i = sector j → p = q.
Lemma find_open_Ret s l q j :
  open_ok s → l ⊆ open_inodes s → q ∈ l → inodes s !! q = Some j → find_open l (sector j) s = Ret (Some q, s).
Proof.
  intros [H1 H2] Hl Hq Hj. induction l as [|p l IH]; [by apply not_elem_of_nil in Hq|]. cbn [find_open].
  assert (p ∈ open_inodes s) as Hp by set_solver. destruct (H1 p Hp) as [i Hi].
  rewrite (bindM_Ret _ _ _ _ _ (get_inode_Ret _ _ _ Hi)). destruct (Z.eqb_spec (sector i) (sector j)) as [He|He].
  - by rewrite (H2 p q i j Hp (Hl q Hq) Hi Hj He).
  - apply IH; [set_solver|]. apply elem_of_cons in Hq as [->|]; [|done]. congruence.
Qed.
Definition with_count (j : inode) (n : Z) (r : bool) : inode := Inode (sector j) n r (deny_write_cnt j) (data j).
Lemma inode_open_again s q j :
  open_ok s → q ∈ open_inodes s → inodes s !! q = Some j → open_cnt j + 1 < 2 ^ 31 → 0 ≤ open_cnt j →
  inode_open (sector j) s =
    Ret (Some q, set_inodes (<[q := with_count j (open_cnt j + 1) (removed j)]> (inodes s)) s).
Proof.
  intros Ho Hq Hj Hc H0. unfold inode_open, getM, bindM at 1.
  rewrite (bindM_Ret _ _ _ _ _ (find_open_Ret s _ q j Ho (reflexivity _) Hq Hj)). unfold inode_reopen.
  rewrite (bindM_Ret _ _ _ _ _ (get_inode_Ret _ _ _ Hj)). rewrite i32_small by lia. done.
Qed.
Lemma remove_and_close s q j r :
  inodes s !! q = Some (with_count j (open_cnt j + 1) r) → 0 < open_cnt j → open_cnt j + 1 < 2 ^ 31 →
  (run inode_remove q; run inode_close (Some q); retM true) s =
    Ret (true, set_inodes (<[q := with_count j (open_cnt j) true]> (inodes s)) s).
Proof.
  intros Hj Hc Hb. unfold inode_remove, bindM at 1 2. rewrite (get_inode_Ret _ _ _ Hj). simpl.
  unfold inode_close, bindM at 1 2. erewrite get_inode_Ret; [|apply lookup_insert_eq]. simpl.
  replace (i32 (open_cnt j + 1 - 1)) with (open_cnt j) by (rewrite i32_small; lia).
  rewrite (proj2 (Z.eqb_neq _ _)) by lia. unfold put_inode, modifyM, retM, bindM. simpl.
  by rewrite insert_insert_eq.
Qed.

(** C23. When the allocations of bounce buffers succeed and writes to the
    directory's inode are not denied, removing the name of a file that is open
    unbinds the name and marks the inode as removed; the inode stays open with its
    data, and none of its sectors is released. *)
Theorem dir_remove_open_file s dp d i name q j :
  directory s dp d i → mallocs s = [] → deny_write_cnt i = 0 → nonzero name →
  dir_map (dir_entries s i) !! name = Some (sector j) →
  open_ok s → q ∈ open_inodes s → q ≠ d_inode d → inodes s !! q = Some j →
  0 < open_cnt j → open_cnt j + 1 < 2 ^ 31 → placed (disk s) j → apart i j →
  ∃ s', dir_remove dp name s = Ret (true, s') ∧ (directory s' dp d i ∧ mallocs s' = []) ∧
    dir_map (dir_entries s' i) = delete name (dir_map (dir_entries s i)) ∧
    inodes s' !! q = Some (with_count j (open_cnt j) true) ∧
    contents (disk s') j = contents (disk s) j ∧ free_map s' = free_map s.
Proof.
  intros Hd0 Hm Hw Hn Hmap Ho Hq Hqd Hj Hc Hb Hpj Ha. pose proof (directory_quiet _ _ _ _ Hd0 Hm) as Hd.
  rewrite dir_map_find in Hmap.
  unfold dir_remove. rewrite (bindM_Ret _ _ _ _ _ (lookup_Ret s dp d i Hd name Hn)).
  destruct (list_find _ _) as [[k e]|] eqn:Ef; [|done]. injection Hmap as Hsec.
  apply list_find_Some in Ef as (Hk & Hnm & _). cbn [fmap option_fmap option_map fst snd]. cbv beta iota.
  rewrite Hsec, (bindM_Ret _ _ _ _ _ (inode_open_again s q j Ho Hq Hj Hb ltac:(lia))). set (s1 := set_inodes _ s).
  assert (quiet_directory s1 dp d i) as Hd1.
  { destruct Hd. split; try done. simpl. by rewrite lookup_insert_ne. }
  rewrite (bindM_Ret _ _ _ _ _ (get_dir_Ret s1 dp d i Hd1)).
  pose proof (dir_length _ _ _ _ Hd) as Hl. pose proof (dr_small _ _ _ _ Hd). pose proof (lookup_lt_Some _ _ _ Hk) as Hkl.
  rewrite i32_small by lia. pose proof (dir_entry_length s i k e Hk) as Hel.
  destruct (write_entry s1 dp d i Hd1 k (set_in_use false e) Hw) as (d' & Hwr & Hp' & He' & Hap);
    [by apply set_in_use_length|change (k ≤ length (dir_entries s i))%nat; lia|].
  change (dir_entries s1 i) with (dir_entries s i) in *. rewrite decide_True in Hwr by done.
  rewrite (bindM_Ret _ _ _ _ _ Hwr). change (negb (20 =? ENTRY_SIZE)) with false. cbv iota.
  rewrite (remove_and_close _ q j (removed j)) by (first [apply lookup_insert_eq|done]).
  unfold is_named in Hnm. destruct (binding e) as [[n sec]|] eqn:Eb; [|done]. injection Hnm as ->.
  destruct (dir_map_unbind _ k e (set_in_use false e) name sec (dr_entries _ _ _ _ Hd) Hk Eb) as [Hwf Hdel];
    [by apply set_in_use_false|].
  eexists. split; [done|]. split; [|split; [|split; [apply lookup_insert_eq|split; [by apply Hap|done]]]].
  - apply quiet_directory_open. destruct (directory_update s1 dp d i Hd1 d' _ Hp' He' Hwf). split; try done. simpl in *.
    by rewrite !lookup_insert_ne in *.
  - unfold dir_entries at 1. simpl. by rewrite He'.
Qed.

(** ** Examples *)
(** A directory with three entries in sector 1, the first of which names the
    file whose inode is in sector 4 and whose data is in sector 2. *)
Definition ex_dir_inode : inode := Inode 3 1 false 0 (InodeDisk 1 60 INODE_MAGIC []).
Definition ex_file_inode : inode := Inode 4 1 false 0 (InodeDisk 2 100 INODE_MAGIC []).
Definition ex_dir_sector : list Z := new_entry (replicate 20 0) [97; 98] 4 ++ replicate 492 0.
Definition ex_dir_fs (oom : list bool) : fs :=
  Fs [replicate 512 0; ex_dir_sector; replicate 512 7; replicate 512 0; replicate 512 0]
    (Bitmap 5 [31]) None [1%N; 2%N] (<[1%N := ex_dir_inode]> {[2%N := ex_file_inode]})
    ∅ {[3%N := Dir 1 0]} 4 oom.
Lemma ex_dir_entries oom :
  dir_entries (ex_dir_fs oom) ex_dir_inode = [new_entry (replicate 20 0) [97; 98] 4; replicate 20 0; replicate 20 0].
Proof. vm_compute. reflexivity. Qed.
Lemma ex_directory : directory (ex_dir_fs []) 3 (Dir 1 0) ex_dir_inode.
Proof.
  split; [done|done|split; [repeat constructor|done..]|by exists 3|done|].
  change (wf_entries (dir_entries (ex_dir_fs []) ex_dir_inode)). rewrite ex_dir_entries. split.
  - repeat constructor; intros H; vm_compute in H; [vm_compute; eauto|done..].
  - apply (bool_decide_unpack _). vm_compute. done.
Qed.
Lemma ex_nonzero : nonzero [97; 98].
Proof. by repeat constructor. Qed.

Lemma dir_lookup_map_witness :
  dir_map (dir_entries (ex_dir_fs []) ex_dir_inode) !! [97; 98] = Some 4 ∧
  dir_lookup 3 [97; 98] (ex_dir_fs []) = inode_open 4 (ex_dir_fs []).
Proof.
  split; [vm_compute; reflexivity|].
  rewrite (dir_lookup_map (ex_dir_fs []) 3 (Dir 1 0) ex_dir_inode [97; 98] ex_directory eq_refl ex_nonzero).
  rewrite ex_dir_entries. reflexivity.
Defined.
Lemma dir_add_map_witness :
  ∃ ok s', dir_add (replicate 20 1) 3 [99] 5 (ex_dir_fs []) = Ret (ok, s') ∧ directory s' 3 (Dir 1 0) ex_dir_inode.
Proof.
  destruct (dir_add_map (ex_dir_fs []) 3 (Dir 1 0) ex_dir_inode (replicate 20 1) [99] 5) as (ok & s' & H1 & _ & [H2 _] & _);
    [exact ex_directory|done|done|by repeat constructor|done|done|]. by exists ok, s'.
Defined.
Lemma ex_open_ok : open_ok (ex_dir_fs []).
Proof.
  split; simpl.
  - intros p [->|[->|[]%not_elem_of_nil]%elem_of_cons]%elem_of_cons; by eexists.
  - intros p q i j Hp Hq. rewrite !elem_of_cons in Hp, Hq.
    destruct Hp as [->|[->|[]%not_elem_of_nil]], Hq as [->|[->|[]%not_elem_of_nil]]; try done;
      intros [= <-] [= <-]; done.
Qed.
Lemma dir_remove_open_file_witness :
  ∃ s', dir_remove 3 [97; 98] (ex_dir_fs []) = Ret (true, s') ∧
    inodes s' !! 2%N = Some (with_count ex_file_inode 1 true).
Proof.
  destruct (dir_remove_open_file (ex_dir_fs []) 3 (Dir 1 0) ex_dir_inode [97; 98] 2 ex_file_inode)
    as (s' & H1 & _ & _ & H2 & _);
    [exact ex_directory|done|done|exact ex_nonzero|vm_compute; reflexivity|exact ex_open_ok|by right; left|done..| |by right|].
  - split; [repeat constructor|done..].
  - by exists s'.
Defined.

(** When the allocation of a bounce buffer fails while the directory is
    searched, [dir_add] takes the short read for the end of the directory and
    overwrites an entry in use: the file of that entry loses its name. *)
Theorem dir_add_overwrites :
  ∃ s', dir_add (replicate 20 1) 3 [99] 5 (ex_dir_fs [false; false]) = Ret (true, s') ∧
    dir_map (dir_entries (ex_dir_fs []) ex_dir_inode) = {[ [97; 98] := 4 ]} ∧
    dir_map (dir_entries s' ex_dir_inode) = {[ [99] := 5 ]}.
Proof. eexists. split; [vm_compute; reflexivity|]. split; vm_compute; reflexivity. Qed.

(** A file system on a device of [n] sectors. *)
Definition no_fs : fs := Fs [] (Bitmap 0 []) None [] ∅ ∅ ∅ 1 [].
Definition formatted (n : nat) : M fs unit :=
  filesys_init (Some (replicate n (replicate 512 7))) true true (replicate (Z.to_nat (elem_cnt (Z.of_nat n))) 0) true.
(** The number of sectors in use. *)
Definition used_sectors (s : fs) : outcome Z :=
  bitmap_count (free_map s) 0 (bit_cnt (free_map s)) true.

(** Creating a file whose name exists fails, but the sectors that were
    allocated for its data stay allocated: of the three sectors of a file of
    1000 bytes only the inode's is released. *)
Theorem filesys_create_leaks :
  ∃ s s1 s2, formatted 40 no_fs = Ret (tt, s) ∧
    filesys_create (replicate 20 1) [97] 1000 s = Ret (true, s1) ∧
    filesys_create (replicate 20 1) [97] 1000 s1 = Ret (false, s2) ∧
    used_sectors s1 = Ret 7 ∧ used_sectors s2 = Ret 9.
Proof.
  eexists _, _, _. split; [vm_compute; reflexivity|]. split; [vm_compute; reflexivity|].
  split; [vm_compute; reflexivity|]. split; vm_compute; reflexivity.
Qed.
