(* ===== verification/Fd.v ===== *)
(** * userprog/syscall.c: the file descriptors of a process

    The system calls on files, over the file system and the console, for the
    current process: its list of open files, its thread id and its name.  Names
    and buffers are passed as values.  A call returns [None] when it ends the
    process with status [EXIT_FAIL]. *)

From stdpp Require Import base numbers list gmap.
From S2P Require Import Prelude Bytes Bitmap Inode Directory Memory CString StdlibC Stdio Console.
Local Open Scope Z_scope.

Definition FILE_LIMIT : Z := 128.
Definition FD_INIT : Z := 2.
Definition EXIT_FAIL : Z := -1.
Definition STDIN_FILENO : Z := 0.
Definition STDOUT_FILENO : Z := 1.
Record fileWithFd := FileWithFd {
  fd_file : ptr; fd_name : list Z; fd : Z; fd_tid : Z; reopened : bool; fd_addr : Z; fd_dirty : bool; mmaped : bool }.
Record fds := Fds {
  filesys : fs;
  cons : console;
  file_fd_list : list fileWithFd;
  currentFd : Z;
  tid : Z;
  tname : list Z;
  current_file_name : list Z }.   (* what the pointer points to *)
Definition set_filesys x (k : fds) : fds :=
  Fds x (cons k) (file_fd_list k) (currentFd k) (tid k) (tname k) (current_file_name k).
Definition set_cons x (k : fds) : fds :=
  Fds (filesys k) x (file_fd_list k) (currentFd k) (tid k) (tname k) (current_file_name k).
Definition set_file_fd_list x (k : fds) : fds :=
  Fds (filesys k) (cons k) x (currentFd k) (tid k) (tname k) (current_file_name k).
Definition set_currentFd x (k : fds) : fds :=
  Fds (filesys k) (cons k) (file_fd_list k) x (tid k) (tname k) (current_file_name k).

Definition on_fs {A} (f : M fs A) : M fds A := λ k,
  match f (filesys k) with
  | Ret (a, s) => Ret (a, set_filesys s k)
  | Panic => Panic
  | NoFuel => NoFuel
  end.
(** The loop that all calls use: the first entry with the descriptor. *)
Fixpoint find_fd (l : list fileWithFd) (n : Z) : option (nat * fileWithFd) :=
  match l with
  | [] => None
  | e :: l => if fd e =? n then Some (0%nat, e) else (λ '(i, e), (S i, e)) <$> find_fd l n
  end.
Definition put_fd (i : nat) (e : fileWithFd) : M fds unit :=
  modifyM (λ k, set_file_fd_list (<[i := e]> (file_fd_list k)) k).

(** ** Creating, removing and opening *)
Definition create (junk : list Z) (file : list Z) (initial_size : Z) : M fds (option bool) :=
  if Z.of_nat (length file `min` 15) >? 14 then retM (Some false)
  else match file with
  | [] => retM None
  | _ => do b <- on_fs (filesys_create junk file (i32 initial_size)); retM (Some b)
  end.
Definition remove (file : list Z) : M fds bool := on_fs (filesys_remove file).
(** [junk_addr]: the field [addr] of a new entry is not initialised. *)
Definition open (junk_addr : Z) (file : list Z) : M fds Z :=
  do file1 <- on_fs (filesys_open file);
  do k <- getM;
  let reopened := bool_decide (file = tname k) || bool_decide (file = current_file_name k) in
  match file, file1 with
  | [], _ | _, None => retM EXIT_FAIL
  | _, Some f =>
      if currentFd k <=? FILE_LIMIT then
        run modifyM (λ k, set_currentFd (i32 (currentFd k + 1)) k);
        do ok <- on_fs malloc;
        if negb ok then retM EXIT_FAIL
        else
          do k <- getM;
          run (if reopened then do _ <- on_fs (file_reopen f); retM tt else retM tt);
          run modifyM (λ k, set_file_fd_list
            (file_fd_list k ++ [FileWithFd f file (currentFd k) (tid k) reopened junk_addr false false]) k);
          run on_fs (file_deny_write f);
          do k <- getM; retM (currentFd k)
      else retM EXIT_FAIL
  end.

(** ** Reading and writing *)
Definition filesize (n : Z) : M fds Z :=
  do k <- getM;
  match find_fd (file_fd_list k) n with
  | Some (_, e) => on_fs (file_length (fd_file e))
  | None => retM 0
  end.
(** The bytes stored in the buffer and the value returned; [key] is the key
    that [input_getc] returns. *)
Definition read (key : Z) (n size : Z) : M fds (option (list Z * Z)) :=
  if (n <? STDOUT_FILENO) || (FILE_LIMIT <? n) then retM None
  else if n =? STDIN_FILENO then retM (Some ([], key))
  else
    do k <- getM;
    match find_fd (file_fd_list k) n with
    | Some (_, e) =>
        if negb (fd_tid e =? tid k) then retM None
        else do b <- on_fs (file_read (fd_file e) (i32 size)); retM (Some (b, Z.of_nat (length b)))
    | None => retM (Some ([], 0))
    end.
(** [putbuf], on a buffer passed as a value. *)
Fixpoint put_bytes (bs : list Z) (k : console) : outcome console :=
  match bs with [] => Ret k | b :: bs => try k <- putchar_have_lock b k; put_bytes bs k end.
Definition write (n : Z) (buffer : list Z) (size : Z) : M fds (option Z) :=
  if (n <? STDOUT_FILENO) || (FILE_LIMIT <? n) then retM None
  else if n =? STDOUT_FILENO then
    do k <- getM;
    do c <- liftO (try c <- acquire_console (cons k); try c <- put_bytes (take (Z.to_nat size) buffer) c; release_console c);
    run modifyM (set_cons c); retM (Some 0)
  else
    do k <- getM;
    match find_fd (file_fd_list k) n with
    | Some (i, e) =>
        if negb (fd_tid e =? tid k) then retM None
        else
          run (if negb (reopened e) then on_fs (file_allow_write (fd_file e)) else retM tt);
          run (if mmaped e then on_fs (file_seek (fd_file e) 0) else retM tt);
          do result <- on_fs (file_write (fd_file e) buffer (i32 size));
          run on_fs (file_deny_write (fd_file e));
          run put_fd i (FileWithFd (fd_file e) (fd_name e) (fd e) (fd_tid e) (reopened e) (fd_addr e) true (mmaped e));
          retM (Some result)
    | None => retM (Some (-1))
    end.
(** [seek] goes on to the end of the list. *)
Fixpoint seek_loop (l : list fileWithFd) (n position : Z) : M fds unit :=
  match l with
  | [] => retM tt
  | e :: l =>
      run (if fd e =? n then on_fs (file_seek (fd_file e) (i32 position)) else retM tt);
      seek_loop l n position
  end.
Definition seek (n position : Z) : M fds unit := do k <- getM; seek_loop (file_fd_list k) n position.
Definition tell (n : Z) : M fds Z :=
  do k <- getM;
  match find_fd (file_fd_list k) n with
  | Some (_, e) => do p <- on_fs (file_tell (fd_file e)); retM (u32 p)
  | None => retM 0
  end.
(** Every entry with the descriptor is closed, unless it is another thread's.
    The branch for a mapped file, which reads a byte of the mapped page and drops
    it, is left out. *)
Fixpoint close_loop (l : list fileWithFd) (n : Z) : M fds (list fileWithFd) :=
  match l with
  | [] => retM []
  | e :: l =>
      if fd e =? n then
        do k <- getM;
        if negb (fd_tid e =? tid k) then retM (e :: l)
        else run on_fs (file_close (Some (fd_file e))); close_loop l n
      else do l <- close_loop l n; retM (e :: l)
  end.
Definition close (n : Z) : M fds unit :=
  do k <- getM; do l <- close_loop (file_fd_list k) n; modifyM (set_file_fd_list l).
