(* ===== verification/FdSpec.v ===== *)
(** * File descriptors are well typed

    Every descriptor of a process names one open file, and the calls keep it so;
    what is written through a descriptor is read back; and the ways in which the
    descriptor layer fails. *)

From Stdlib Require Import Ascii String.
From stdpp Require Import base numbers list gmap relations.
From S2P Require Import Prelude Bytes Bitmap Inode InodeSpec Directory DirectorySpec Stdio Console Fd.
Local Open Scope Z_scope.
Implicit Types k : fds.

(** ** Operations that leave open files alone *)
(** The addresses of open files are below the next free address. *)
Definition files_below (s : fs) : Prop := ∀ p, is_Some (files s !! p) → (p < brk s)%N.
Definition still {A} (m : M fs A) : Prop := ∀ s a s', m s = Ret (a, s') → files s' = files s ∧ (brk s ≤ brk s')%N.
Lemma still_ret {A} (a : A) : still (retM a).
Proof. intros s x s' [= <- <-]. done. Qed.
Lemma still_bind {A B} (m : M fs A) (f : A → M fs B) : still m → (∀ a, still (f a)) → still (bindM m f).
Proof.
  intros Hm Hf s b s' H. apply bindM_inv in H as (a & s1 & H1 & H2). destruct (Hm _ _ _ H1), (Hf _ _ _ _ H2).
  split; [congruence|lia].
Qed.
Lemma still_if {A} (b : bool) (m n : M fs A) : still m → still n → still (if b then m else n).
Proof. by destruct b. Qed.
Lemma still_lift {A} (o : outcome A) : still (liftO o).
Proof. intros s a s' H. unfold liftO in H. destruct o; try done. by injection H as <- <-. Qed.
Lemma still_assert b : still (assertM b).
Proof. intros s a s' H. unfold assertM in H. destruct b; [|done]. by injection H as <- <-. Qed.
Lemma still_get : still getM.
Proof. intros s a s' [= <- <-]. done. Qed.
Lemma still_panic {A} : still (@panicM fs A).
Proof. by intros s a s' H. Qed.
Lemma still_nofuel {A} : still (λ _, @NoFuel (A * fs)).
Proof. by intros s a s' H. Qed.
Lemma still_modify f : (∀ s, files (f s) = files s ∧ (brk s ≤ brk (f s))%N) → still (modifyM f).
Proof. intros Hf s a s' [= <- <-]. apply Hf. Qed.
Lemma still_malloc : still malloc.
Proof. intros s a s' H. unfold malloc in H. destruct (mallocs s); by injection H as <- <-. Qed.
Lemma still_fresh : still fresh_ptr.
Proof. intros s a s' [= <- <-]. simpl. split; [done|lia]. Qed.
Lemma still_get_inode p : still (get_inode p).
Proof. intros s a s' H. unfold get_inode in H. destruct (inodes s !! p); [|done]. by injection H as <- <-. Qed.
Lemma still_get_dir p : still (get_dir p).
Proof. intros s a s' H. unfold get_dir in H. destruct (dirs s !! p); [|done]. by injection H as <- <-. Qed.
Lemma still_get_file p : still (get_file p).
Proof. intros s a s' H. unfold get_file in H. destruct (files s !! p); [|done]. by injection H as <- <-. Qed.
Lemma still_dev_read x : still (dev_read x).
Proof. intros s a s' H. unfold dev_read in H. destruct (x <? _); [|done]. destruct (disk s !! _); [|done]. by injection H as <- <-. Qed.
Create HintDb still.
#[export] Hint Resolve still_ret still_lift still_assert still_get still_panic still_nofuel still_malloc still_fresh still_get_inode
  still_get_dir still_get_file still_dev_read : still.
(** Goes through a definition: sequences, choices, and the operations known to
    be still. *)
Ltac still := repeat first
  [ progress eauto with still nocore
  | apply still_bind; [|intros ?]
  | apply still_if
  | apply still_modify; intros ?; simpl; split; [done|lia]
  | progress cbn [negb]
  | match goal with |- still (match ?x with _ => _ end) => destruct x end ].
Lemma still_put_inode p i : still (put_inode p i).
Proof. unfold put_inode. still. Qed.
Lemma still_put_dir p d : still (put_dir p d).
Proof. unfold put_dir. still. Qed.
Lemma still_dev_write x b : still (dev_write x b).
Proof. unfold dev_write. still. Qed.
Lemma still_get_bounce b : still (get_bounce b).
Proof. unfold get_bounce. still. Qed.
#[export] Hint Resolve still_put_inode still_put_dir still_dev_write still_get_bounce : still.
Lemma still_read_loop n ip sz ofs bounce out : still (read_loop n ip sz ofs bounce out).
Proof. revert sz ofs bounce out. induction n as [|n IH]; intros; cbn [read_loop]; still; apply IH. Qed.
Lemma still_write_loop n ip b sz ofs bounce w : still (write_loop n ip b sz ofs bounce w).
Proof. revert sz ofs bounce w. induction n as [|n IH]; intros; cbn [write_loop]; still; apply IH. Qed.
Lemma still_inode_read_at ip sz ofs : still (inode_read_at ip sz ofs).
Proof. apply still_read_loop. Qed.
#[export] Hint Resolve still_write_loop still_inode_read_at : still.
Lemma still_inode_write_at ip b sz ofs : still (inode_write_at ip b sz ofs).
Proof. unfold inode_write_at. still. Qed.
#[export] Hint Resolve still_inode_write_at : still.
Lemma still_bitmap_write b fp : still (bitmap_write b fp).
Proof. unfold bitmap_write, file_write_at. still. Qed.
#[export] Hint Resolve still_bitmap_write : still.
Lemma still_free_map_allocate n : still (free_map_allocate n).
Proof. unfold free_map_allocate. still. Qed.
Lemma still_free_map_release x n : still (free_map_release x n).
Proof. unfold free_map_release. still. Qed.
Lemma still_zero_loop n st i : still (Inode.zero_loop n st i).
Proof. revert i. induction n as [|n IH]; intros; cbn [Inode.zero_loop]; still; apply IH. Qed.
#[export] Hint Resolve still_free_map_allocate still_free_map_release still_zero_loop : still.
Lemma still_inode_create x n : still (inode_create x n).
Proof. unfold inode_create. still. Qed.
Lemma still_inode_close ip : still (inode_close ip).
Proof. unfold inode_close. still. Qed.
Lemma still_inode_reopen ip : still (inode_reopen ip).
Proof. unfold inode_reopen. still. Qed.
Lemma still_find_open l x : still (find_open l x).
Proof. induction l as [|p l IH]; cbn [find_open]; still. Qed.
#[export] Hint Resolve still_inode_create still_inode_close still_inode_reopen still_find_open : still.
Lemma still_inode_open x : still (inode_open x).
Proof. unfold inode_open. still. Qed.
Lemma still_lookup_loop n ip name ofs : still (lookup_loop n ip name ofs).
Proof. revert ofs. induction n as [|n IH]; intros; cbn [lookup_loop]; still; apply IH. Qed.
Lemma still_free_slot_loop n ip e ofs : still (free_slot_loop n ip e ofs).
Proof. revert e ofs. induction n as [|n IH]; intros; cbn [free_slot_loop]; still; apply IH. Qed.
Lemma still_entry_fuel ip : still (entry_fuel ip).
Proof. unfold entry_fuel. still. Qed.
#[export] Hint Resolve still_inode_open still_lookup_loop still_free_slot_loop still_entry_fuel : still.
Lemma still_lookup dp name : still (lookup_ dp name).
Proof. unfold lookup_. still. Qed.
#[export] Hint Resolve still_lookup : still.
Lemma still_dir_lookup dp name : still (dir_lookup dp name).
Proof. unfold dir_lookup. still. Qed.
Lemma still_dir_add j dp name x : still (dir_add j dp name x).
Proof. unfold dir_add. still. Qed.
Lemma still_inode_remove p : still (inode_remove p).
Proof. unfold inode_remove. still. Qed.
#[export] Hint Resolve still_dir_lookup still_dir_add still_inode_remove : still.
Lemma still_dir_remove dp name : still (dir_remove dp name).
Proof. unfold dir_remove. still. Qed.
Lemma still_dir_open_root : still dir_open_root.
Proof. unfold dir_open_root, dir_open. still. Qed.
Lemma still_dir_close dp : still (dir_close dp).
Proof. unfold dir_close. still. Qed.
#[export] Hint Resolve still_dir_remove still_dir_open_root still_dir_close : still.
Lemma still_filesys_create j name n : still (filesys_create j name n).
Proof. unfold filesys_create, create_steps. still. Qed.
Lemma still_filesys_remove name : still (filesys_remove name).
Proof. unfold filesys_remove. still. Qed.
#[export] Hint Resolve still_filesys_create still_filesys_remove : still.

(** Operations on files that are open already. *)
Definition kept {A} (m : M fs A) : Prop := ∀ s a s', m s = Ret (a, s') → dom (files s') = dom (files s) ∧ (brk s ≤ brk s')%N.
Lemma still_kept {A} (m : M fs A) : still m → kept m.
Proof. intros H s a s' Hr. destruct (H _ _ _ Hr) as [-> ?]. done. Qed.
Lemma kept_bind {A B} (m : M fs A) (f : A → M fs B) : kept m → (∀ a, kept (f a)) → kept (bindM m f).
Proof.
  intros Hm Hf s b s' H. apply bindM_inv in H as (a & s1 & H1 & H2). destruct (Hm _ _ _ H1), (Hf _ _ _ _ H2).
  split; [congruence|lia].
Qed.
(** The body runs with the file open. *)
Lemma kept_with_file {A} p (f : file → M fs A) :
  (∀ x s a s', is_Some (files s !! p) → f x s = Ret (a, s') → dom (files s') = dom (files s) ∧ (brk s ≤ brk s')%N) →
  kept (bindM (get_file p) f).
Proof.
  intros Hf s a s' H. apply bindM_inv in H as (x & s1 & H1 & H2). unfold get_file in H1.
  destruct (files s !! p) as [y|] eqn:E; [|done]. injection H1 as <- <-. eapply Hf; [|done]. by rewrite E.
Qed.
Lemma put_file_dom p x s : is_Some (files s !! p) → dom (<[p := x]> (files s)) = dom (files s).
Proof. intros [y Hy]. rewrite dom_insert_L. apply elem_of_dom_2 in Hy. set_solver. Qed.
Lemma kept_file_write p b n : kept (file_write p b n).
Proof.
  apply kept_with_file. intros x s a s' Hp H. apply bindM_inv in H as (r & s1 & H1 & H2). apply still_inode_write_at in H1 as [Hf Hb].
  apply bindM_inv in H2 as (? & s2 & [= <- <-] & [= <- <-]). simpl. rewrite Hf in *. split; [by apply put_file_dom|done].
Qed.
Lemma kept_file_read p n : kept (file_read p n).
Proof.
  apply kept_with_file. intros x s a s' Hp H. apply bindM_inv in H as (r & s1 & H1 & H2). apply still_inode_read_at in H1 as [Hf Hb].
  apply bindM_inv in H2 as (? & s2 & [= <- <-] & [= <- <-]). simpl. rewrite Hf in *. split; [by apply put_file_dom|done].
Qed.
Lemma kept_file_seek p n : kept (file_seek p n).
Proof.
  apply kept_bind; [apply still_kept, still_assert|]. intros _. apply kept_with_file. intros x s a s' Hp [= <- <-]. simpl.
  split; [by apply put_file_dom|done].
Qed.
Lemma kept_file_deny_write p : kept (file_deny_write p).
Proof.
  apply kept_with_file. intros x s a s' Hp H. destruct (deny_write x); [by injection H as <- <-|].
  apply bindM_inv in H as (? & s1 & [= <- <-] & H2). assert (still (inode_deny_write (f_inode x))) as Hq by (unfold inode_deny_write; still).
  apply Hq in H2 as [-> ?]. simpl. split; [by apply put_file_dom|done].
Qed.
Lemma kept_file_allow_write p : kept (file_allow_write p).
Proof.
  apply kept_with_file. intros x s a s' Hp H. destruct (deny_write x); [|by injection H as <- <-].
  apply bindM_inv in H as (? & s1 & [= <- <-] & H2). assert (still (inode_allow_write (f_inode x))) as Hq by (unfold inode_allow_write; still).
  apply Hq in H2 as [-> ?]. simpl. split; [by apply put_file_dom|done].
Qed.
(** Opening adds a new file, closing takes one away. *)
Definition opens (s : fs) (r : option ptr) (s' : fs) : Prop :=
  (brk s ≤ brk s')%N ∧
  match r with
  | None => dom (files s') = dom (files s)
  | Some p => (brk s ≤ p < brk s')%N ∧ dom (files s') = {[p]} ∪ dom (files s)
  end.
Lemma file_open_opens ip s r s' : file_open ip s = Ret (r, s') → opens s r s'.
Proof.
  intros H. apply bindM_inv in H as (ok & s1 & [Hf1 Hb1]%still_malloc & H2).
  assert (∀ q, (run inode_close q; retM None) s1 = Ret (r, s') → opens s r s') as Hn.
  { intros q H. assert (still (run inode_close q; retM (@None ptr))) as Hq by still.
    pose proof H as [Hf Hb]%Hq. apply bindM_inv in H as (? & ? & _ & [= <- <-]). split; [lia|]. by rewrite Hf, Hf1. }
  destruct ip as [p|]; [|by apply (Hn None)]. destruct ok; [|by apply (Hn (Some p))].
  apply bindM_inv in H2 as (fp & s2 & [= <- <-] & H2). apply bindM_inv in H2 as (? & s3 & [= <- <-] & [= <- <-]).
  split; simpl; [lia|]. split; [lia|]. by rewrite dom_insert_L, Hf1.
Qed.
Lemma opens_trans s1 s2 r s' : files s2 = files s1 → (brk s1 ≤ brk s2)%N → opens s2 r s' → opens s1 r s'.
Proof. intros Hf Hb [H1 H2]. split; [lia|]. rewrite <-Hf. destruct r; [|done]. destruct H2. split; [lia|done]. Qed.
Lemma filesys_open_opens name s r s' : filesys_open name s = Ret (r, s') → opens s r s'.
Proof.
  intros Hr. apply bindM_inv in Hr as (dp & s1 & [? ?]%still_dir_open_root & Hr). apply bindM_inv in Hr as (ip & s2 & H2 & Hr).
  assert (still (match dp with Some d => dir_lookup d name | None => retM None end)) as Hq by still. apply Hq in H2 as [? ?].
  apply bindM_inv in Hr as (u & s3 & [? ?]%still_dir_close & Hr). apply file_open_opens in Hr. eapply opens_trans; [| |done]; [congruence|lia].
Qed.
Lemma file_reopen_opens fp s r s' : file_reopen fp s = Ret (r, s') → opens s r s'.
Proof.
  intros Hr. apply bindM_inv in Hr as (x & s1 & [? ?]%still_get_file & Hr). apply bindM_inv in Hr as (ip & s2 & [? ?]%still_inode_reopen & Hr).
  apply file_open_opens in Hr. eapply opens_trans; [| |done]; [congruence|lia].
Qed.
Lemma file_close_dom p s u s' : file_close (Some p) s = Ret (u, s') → dom (files s') = dom (files s) ∖ {[p]} ∧ (brk s ≤ brk s')%N.
Proof.
  intros H. apply bindM_inv in H as (? & s1 & [Hd1 Hb1]%kept_file_allow_write & H). apply bindM_inv in H as (fl & s2 & [Hf2 Hb2]%still_get_file & H).
  apply bindM_inv in H as (? & s3 & [Hf3 Hb3]%still_inode_close & [= <- <-]). simpl. rewrite dom_delete_L, Hf3, Hf2, Hd1. split; [done|lia].
Qed.

(** ** Well-typed descriptors *)
Record fd_wf k : Prop := {
  fw_below : ∀ p, p ∈ dom (files (filesys k)) → (p < brk (filesys k))%N;
  fw_current : FD_INIT ≤ currentFd k ≤ FILE_LIMIT + 1;
  fw_fds : NoDup (fd <$> file_fd_list k);
  fw_files : NoDup (fd_file <$> file_fd_list k);
  fw_entry e : e ∈ file_fd_list k → FD_INIT < fd e ≤ currentFd k ∧ fd_tid e = tid k ∧ fd_file e ∈ dom (files (filesys k)) }.
Lemma on_fs_inv {A} (m : M fs A) k a k' : on_fs m k = Ret (a, k') → ∃ s', m (filesys k) = Ret (a, s') ∧ k' = set_filesys s' k.
Proof. unfold on_fs. destruct (m (filesys k)) as [[x s]| |]; try done. intros [= <- <-]. by exists s. Qed.
(** The list of descriptors may change in the flags of its entries only. *)
Definition same_entry (e e' : fileWithFd) : Prop := fd_file e' = fd_file e ∧ fd e' = fd e ∧ fd_tid e' = fd_tid e.
Lemma fd_wf_keep k s l :
  fd_wf k → dom (files s) = dom (files (filesys k)) → (brk (filesys k) ≤ brk s)%N → Forall2 same_entry (file_fd_list k) l →
  fd_wf (set_file_fd_list l (set_filesys s k)).
Proof.
  intros [H1 H2 H3 H4 H5] Hd Hb Hl.
  assert (fd_file <$> l = fd_file <$> file_fd_list k ∧ fd <$> l = fd <$> file_fd_list k) as [Hf Hn]
    by (clear -Hl; induction Hl as [|e e' l1 l2 (E1 & E2 & E3) _ [IH1 IH2]]; [done|]; rewrite !fmap_cons; split; congruence).
  split; simpl.
  - rewrite Hd. intros p Hp%H1. lia.
  - done.
  - by rewrite Hn.
  - by rewrite Hf.
  - intros e' He'. apply list_elem_of_lookup in He' as [i Hi]. destruct (Forall2_lookup_r _ _ _ _ _ Hl Hi) as (e & He & E1 & E2 & E3).
    apply list_elem_of_lookup_2 in He. rewrite Hd, E1, E2, E3. by apply H5.
Qed.
Lemma fd_wf_on_fs {A} (m : M fs A) k a k' : fd_wf k → kept m → on_fs m k = Ret (a, k') → fd_wf k' ∧ file_fd_list k' = file_fd_list k.
Proof.
  intros Hwf Hm (s' & Hs & ->)%on_fs_inv. destruct (Hm _ _ _ Hs) as [Hd Hb]. split; [|done].
  replace (set_filesys s' k) with (set_file_fd_list (file_fd_list k) (set_filesys s' k)) by done.
  apply fd_wf_keep; [done|done|done|]. apply Forall_Forall2_diag. apply Forall_forall. done.
Qed.

Inductive fd_step : fds → fds → Prop :=
  | step_create junk name n k r k' : create junk name n k = Ret (r, k') → fd_step k k'
  | step_remove name k r k' : remove name k = Ret (r, k') → fd_step k k'
  | step_open junk name k r k' : open junk name k = Ret (r, k') → fd_step k k'
  | step_filesize n k r k' : filesize n k = Ret (r, k') → fd_step k k'
  | step_read key n sz k r k' : read key n sz k = Ret (r, k') → fd_step k k'
  | step_write n b sz k r k' : write n b sz k = Ret (r, k') → fd_step k k'
  | step_seek n p k r k' : seek n p k = Ret (r, k') → fd_step k k'
  | step_tell n k r k' : tell n k = Ret (r, k') → fd_step k k'
  | step_close n k r k' : close n k = Ret (r, k') → fd_step k k'.
(** What a call may do to the descriptors: nothing, or add or drop one. *)
Definition keeps_wf {A} (m : M fds A) : Prop := ∀ k a k', fd_wf k → m k = Ret (a, k') → fd_wf k' ∧ currentFd k ≤ currentFd k'.
Definition same_fds {A} (m : M fds A) : Prop :=
  ∀ k a k', fd_wf k → m k = Ret (a, k') → fd_wf k' ∧ file_fd_list k' = file_fd_list k ∧ currentFd k' = currentFd k ∧ tid k' = tid k.
Lemma same_ret {A} (a : A) : same_fds (retM a).
Proof. intros k x k' H [= <- <-]. done. Qed.
Lemma same_bind {A B} (m : M fds A) (f : A → M fds B) : same_fds m → (∀ a, same_fds (f a)) → same_fds (bindM m f).
Proof.
  intros Hm Hf k b k' Hw H. apply bindM_inv in H as (a & k1 & H1 & H2). destruct (Hm _ _ _ Hw H1) as (? & ? & ? & ?).
  destruct (Hf _ _ _ _ H H2) as (? & ? & ? & ?). split; [done|]. split; [congruence|]. split; congruence.
Qed.
Lemma same_on_fs {A} (m : M fs A) : kept m → same_fds (on_fs m).
Proof.
  intros Hm k a k' Hw H. destruct (fd_wf_on_fs _ _ _ _ Hw Hm H) as [? ?]. split; [done|]. split; [done|].
  apply on_fs_inv in H as (s & _ & ->). done.
Qed.
Lemma same_if {A} (b : bool) (m n : M fds A) : same_fds m → same_fds n → same_fds (if b then m else n).
Proof. by destruct b. Qed.
Lemma same_get {A} (f : fds → M fds A) : (∀ k0, same_fds (f k0)) → same_fds (bindM getM f).
Proof. intros Hf k a k' Hw H. by apply (Hf k k a k' Hw). Qed.
Lemma same_keeps {A} (m : M fds A) : same_fds m → keeps_wf m.
Proof. intros Hm k a k' Hw H. destruct (Hm _ _ _ Hw H) as (? & _ & ? & _). split; [done|lia]. Qed.
Ltac same := repeat match goal with
  | |- same_fds (retM _) => apply same_ret
  | |- same_fds (bindM getM _) => apply same_get; intros ?
  | |- same_fds (bindM _ _) => apply same_bind; [|intros ?]
  | |- same_fds (on_fs _) => apply same_on_fs; first [apply kept_file_read | apply kept_file_write | apply kept_file_seek
      | apply kept_file_deny_write | apply kept_file_allow_write | apply still_kept; solve [still]]
  | |- same_fds (if _ then _ else _) => apply same_if
  | |- same_fds (match ?x with _ => _ end) => destruct x
  end.
Lemma create_same junk name n : same_fds (create junk name n).
Proof. unfold create. same. Qed.
Lemma remove_same name : same_fds (remove name).
Proof. unfold remove. same. Qed.
Lemma filesize_same n : same_fds (filesize n).
Proof. unfold filesize, file_length. same. Qed.
Lemma read_same key n sz : same_fds (read key n sz).
Proof. unfold read. same. Qed.
Lemma seek_same n p : same_fds (seek n p).
Proof. unfold seek. apply same_get. intros k0. induction (file_fd_list k0) as [|e l IH]; simpl; same. done. Qed.
Lemma tell_same n : same_fds (tell n).
Proof. unfold tell, file_tell. same. Qed.
Lemma find_fd_Some l n i e : find_fd l n = Some (i, e) → l !! i = Some e ∧ fd e = n.
Proof.
  revert i. induction l as [|x l IH]; intros i; simpl; [done|]. destruct (Z.eqb_spec (fd x) n).
  - intros [= <- <-]. done.
  - destruct (find_fd l n) as [[j y]|]; simpl; [|done]. intros [= <- <-]. by apply IH.
Qed.
Lemma same_entries_insert l i e e' : l !! i = Some e → same_entry e e' → Forall2 same_entry l (<[i := e']> l).
Proof.
  revert i. induction l as [|x l IH]; intros [|i] Hi He; try done; simpl in *.
  - injection Hi as ->. constructor; [done|]. apply Forall_Forall2_diag, Forall_forall. done.
  - constructor; [done|]. by apply IH.
Qed.
Lemma put_fd_wf i e e' k u k' :
  fd_wf k → file_fd_list k !! i = Some e → same_entry e e' → put_fd i e' k = Ret (u, k') → fd_wf k' ∧ currentFd k' = currentFd k.
Proof.
  intros Hw Hi He [= <- <-]. split; [|done].
  replace (set_file_fd_list (<[i := e']> (file_fd_list k)) k) with (set_file_fd_list (<[i := e']> (file_fd_list k)) (set_filesys (filesys k) k))
    by (by destruct k). apply fd_wf_keep; [done|done|done|]. by eapply same_entries_insert.
Qed.
Lemma set_cons_wf c k : fd_wf k → fd_wf (set_cons c k).
Proof. by intros [H1 H2 H3 H4 H5]. Qed.
Lemma write_keeps n b sz : keeps_wf (write n b sz).
Proof.
  intros k a k' Hw. unfold write. destruct (_ || _); [by intros [= <- <-]|]. destruct (n =? STDOUT_FILENO).
  - unfold bindM at 1. simpl. intros H. apply bindM_inv in H as (c & k1 & H1 & H2). unfold liftO in H1.
    destruct (try _ <- _; _) as [c'| |]; try done. injection H1 as <- <-. apply bindM_inv in H2 as (? & ? & [= <- <-] & [= <- <-]).
    split; [by apply set_cons_wf|done].
  - unfold bindM at 1. simpl. destruct (find_fd (file_fd_list k) n) as [[i e]|] eqn:E; [|by intros [= <- <-]].
    apply find_fd_Some in E as [Hi _]. destruct (negb _); [by intros [= <- <-]|]. intros H.
    match type of H with bindM ?m1 (λ _, bindM ?m2 (λ _, bindM ?m3 ?f)) k = _ => assert (same_fds m1 ∧ same_fds m2 ∧ same_fds m3) as (S1 & S2 & S3) by (split_and!; same) end.
    apply bindM_inv in H as (? & k1 & H1 & H). apply S1 in H1 as (W1 & L1 & C1 & _); [|done].
    apply bindM_inv in H as (? & k2 & H2 & H). apply S2 in H2 as (W2 & L2 & C2 & _); [|done].
    apply bindM_inv in H as (r & k3 & H3 & H). apply S3 in H3 as (W3 & L3 & C3 & _); [|done].
    apply bindM_inv in H as (? & k4 & H4 & H). assert (same_fds (on_fs (file_deny_write (fd_file e)))) as S4 by same.
    apply S4 in H4 as (W4 & L4 & C4 & _); [|done]. apply bindM_inv in H as (? & k5 & H5 & [= <- <-]).
    eapply put_fd_wf in H5 as [W5 C5]; [split; [exact W5|lia]|done|rewrite L4, L3, L2, L1; exact Hi|done].
Qed.
Lemma close_loop_inv l n k l' k' :
  close_loop l n k = Ret (l', k') → ∃ s' C, k' = set_filesys s' k ∧ sublist l' l ∧ (fd_file <$> l) ≡ₚ C ++ (fd_file <$> l') ∧
    dom (files s') = dom (files (filesys k)) ∖ list_to_set C ∧ (brk (filesys k) ≤ brk s')%N.
Proof.
  revert k l' k'. induction l as [|e l IH]; intros k l' k' H.
  - injection H as <- <-. exists (filesys k), []. split; [by destruct k|]. split; [constructor|]. split; [done|]. split; [set_solver|done].
  - cbn [close_loop] in H. destruct (fd e =? n).
    + unfold bindM at 1 in H. simpl in H. destruct (negb _).
      { injection H as <- <-. exists (filesys k), []. split; [by destruct k|]. split; [done|]. split; [done|]. split; [set_solver|done]. }
      apply bindM_inv in H as (u & k1 & (s1 & H1 & ->)%on_fs_inv & H). apply file_close_dom in H1 as [Hd Hb].
      apply IH in H as (s' & C & -> & Hs & Hp & Hd' & Hb'). cbn [filesys set_filesys] in *. exists s', (fd_file e :: C). split; [done|].
      split; [by apply sublist_cons|]. split; [by rewrite fmap_cons, Hp|]. split; [rewrite Hd', Hd; set_solver|lia].
    + apply bindM_inv in H as (l1 & k1 & H & [= <- <-]). apply IH in H as (s' & C & -> & Hs & Hp & Hd' & Hb').
      exists s', C. split; [done|]. split; [by apply sublist_skip|]. split; [|done]. rewrite !fmap_cons, Hp. by rewrite Permutation_middle.
Qed.
Lemma close_keeps n : keeps_wf (close n).
Proof.
  intros k a k' [H1 H2 H3 H4 H5] H. unfold close, bindM at 1 in H. simpl in H.
  apply bindM_inv in H as (l' & k1 & (s' & C & -> & Hs & Hp & Hd & Hb)%close_loop_inv & [= <- <-]). split; [|done].
  rewrite Hp, NoDup_app in H4. destruct H4 as (HC & Hdis & Hl').
  split; simpl.
  - rewrite Hd. intros p [Hp' _]%elem_of_difference. apply H1 in Hp'. lia.
  - done.
  - eapply sublist_NoDup; [exact H3|]. by apply fmap_sublist.
  - done.
  - intros e He. destruct (H5 e) as (? & ? & Hin); [by eapply elem_of_submseteq, sublist_submseteq|]. split; [done|]. split; [done|].
    rewrite Hd. apply elem_of_difference. split; [done|]. rewrite elem_of_list_to_set. intros HeC. apply (Hdis _ HeC).
    by apply list_elem_of_fmap_2.
Qed.
(** A new entry for a file that was just opened. *)
Lemma fd_wf_add k s f e :
  fd_wf k → opens (filesys k) (Some f) s → currentFd k ≤ FILE_LIMIT →
  fd_file e = f → fd e = currentFd k + 1 → fd_tid e = tid k →
  fd_wf (set_file_fd_list (file_fd_list k ++ [e]) (set_filesys s (set_currentFd (currentFd k + 1) k))).
Proof.
  intros [H1 H2 H3 H4 H5] [Hb [Hf Hd]] Hc Ef En Et. unfold FILE_LIMIT, FD_INIT in *.
  split; simpl.
  - rewrite Hd. intros p [Hp%elem_of_singleton|Hp%H1]%elem_of_union; [subst; lia|lia].
  - unfold FILE_LIMIT, FD_INIT. lia.
  - rewrite fmap_app, NoDup_app. split; [done|]. split; [|apply NoDup_singleton].
    intros x (e' & -> & He')%list_elem_of_fmap. apply H5 in He'. simpl. rewrite list_elem_of_singleton. lia.
  - rewrite fmap_app, NoDup_app. split; [done|]. split; [|apply NoDup_singleton].
    intros x (e' & -> & He')%list_elem_of_fmap. apply H5 in He' as (_ & _ & Hin%H1). simpl. rewrite list_elem_of_singleton. lia.
  - intros e' [He'|He'%list_elem_of_singleton]%elem_of_app; [|subst e'].
    + destruct (H5 e' He') as (? & ? & ?). unfold FD_INIT in *. rewrite Hd. split; [lia|]. split; [done|set_solver].
    + unfold FD_INIT. rewrite Hd. split; [lia|]. split; [done|set_solver].
Qed.
(** More files may be open than there are descriptors. *)
Lemma fd_wf_more k s : fd_wf k → dom (files (filesys k)) ⊆ dom (files s) → (∀ p, p ∈ dom (files s) → (p < brk s)%N) → fd_wf (set_filesys s k).
Proof. intros [H1 H2 H3 H4 H5] Hd Hb. split; try done. intros e He. destruct (H5 e He) as (? & ? & ?). split; [done|]. split; [done|]. by apply Hd. Qed.
Lemma opens_more k r s : fd_wf k → opens (filesys k) r s → fd_wf (set_filesys s k).
Proof.
  intros Hw [Hb Hr]. pose proof (fw_below k Hw) as Hlow. apply fd_wf_more; [done|destruct r as [p|]; [destruct Hr as [_ ->]; set_solver|by rewrite Hr]|].
  intros q Hq. destruct r as [p|]; [destruct Hr as [Hp Hd]; rewrite Hd in Hq; apply elem_of_union in Hq as [Hq%elem_of_singleton|?%Hlow]; [subst; lia|lia]|].
  rewrite Hr in Hq. apply Hlow in Hq. lia.
Qed.
Lemma fd_wf_count k : fd_wf k → currentFd k ≤ FILE_LIMIT → fd_wf (set_currentFd (currentFd k + 1) k).
Proof.
  intros [H1 H2 H3 H4 H5] Hc. unfold FILE_LIMIT, FD_INIT in *. split; try done; simpl; [unfold FILE_LIMIT, FD_INIT; lia|].
  intros e He. destruct (H5 e He) as (? & ? & ?). unfold FD_INIT in *. split; [lia|done].
Qed.
Lemma kept_more {A} (m : M fs A) k a s' :
  fd_wf k → kept m → m (filesys k) = Ret (a, s') → fd_wf (set_filesys s' k).
Proof.
  intros Hw Hm Hr. destruct (Hm _ _ _ Hr) as [Hd Hb]. pose proof (fw_below k Hw) as Hlow.
  apply fd_wf_more; [done|by rewrite Hd|]. rewrite Hd. intros q Hq%Hlow. lia.
Qed.
Lemma open_keeps junk name : keeps_wf (open junk name).
Proof.
  intros k a k' Hw H. unfold open in H. apply bindM_inv in H as (file1 & k1 & (s1 & H1%filesys_open_opens & ->)%on_fs_inv & H).
  unfold bindM at 1 in H. cbn [getM] in H. set (ro := _ || _) in H.
  assert (∀ r, retM r (set_filesys s1 k) = Ret (a, k') → fd_wf k' ∧ currentFd k ≤ currentFd k') as Hfail
    by (intros r [= <- <-]; split; [by eapply opens_more|done]).
  destruct name as [|c name]; [by eapply Hfail|]. destruct file1 as [f|]; [|by eapply Hfail]. cbn [currentFd set_filesys] in H.
  destruct (Z.leb_spec (currentFd k) FILE_LIMIT) as [Hc|Hc]; [|by eapply Hfail].
  assert (i32 (currentFd k + 1) = currentFd k + 1) as Hi by (apply i32_small; pose proof (fw_current k Hw); unfold FILE_LIMIT, FD_INIT in *; lia).
  apply bindM_inv in H as (? & ? & [= <- <-] & H). cbn [currentFd set_filesys] in H. rewrite Hi in H.
  apply bindM_inv in H as (ok & k2 & (s2 & H2 & ->)%on_fs_inv & H). cbn [filesys set_currentFd set_filesys] in H2.
  set (e := FileWithFd f (c :: name) (currentFd k + 1) (tid k) ro junk false false).
  set (K := set_file_fd_list (file_fd_list k ++ [e]) (set_filesys s1 (set_currentFd (currentFd k + 1) k))).
  assert (fd_wf K) as HK by (eapply fd_wf_add; eauto).
  assert (fd_wf (set_filesys s2 K)) as HK2 by (eapply (kept_more malloc K); eauto using still_kept, still_malloc).
  destruct ok; cbn [negb] in H.
  2: { injection H as <- <-. split; [|simpl; lia]. change (fd_wf (set_filesys s2 (set_currentFd (currentFd k + 1) k))).
       eapply (kept_more malloc (set_filesys s1 (set_currentFd (currentFd k + 1) k))); [|apply still_kept, still_malloc|exact H2].
       eapply (opens_more (set_currentFd (currentFd k + 1) k)); [|exact H1]. by apply fd_wf_count. }
  unfold bindM at 1 in H. cbn [getM] in H. apply bindM_inv in H as (? & k3 & H3 & H).
  assert (∃ s3, k3 = set_filesys s3 (set_filesys s2 (set_currentFd (currentFd k + 1) (set_filesys s1 k))) ∧ fd_wf (set_filesys s3 K)) as (s3 & -> & HK3).
  { destruct ro; [|injection H3 as <- <-; by exists s2].
    apply bindM_inv in H3 as (r & ? & (s3 & H3%file_reopen_opens & ->)%on_fs_inv & [= <- <-]). exists s3. split; [done|].
    by eapply (opens_more (set_filesys s2 K)). }
  apply bindM_inv in H as (? & ? & [= <- <-] & H). apply bindM_inv in H as (? & k5 & (s5 & H5 & ->)%on_fs_inv & [= <- <-]).
  split; [|simpl; lia]. exact (kept_more _ (set_filesys s3 K) _ _ HK3 (kept_file_deny_write f) H5).
Qed.
Lemma fd_step_wf k k' : fd_wf k → fd_step k k' → fd_wf k' ∧ currentFd k ≤ currentFd k'.
Proof.
  intros Hw H. destruct H as [j n x k r k' H|n k r k' H|j n k r k' H|n k r k' H|y n x k r k' H|n b x k r k' H|n p k r k' H|n k r k' H|n k r k' H];
    [eapply same_keeps, H; [apply create_same|done] | eapply same_keeps, H; [apply remove_same|done] | by eapply open_keeps, H
    |eapply same_keeps, H; [apply filesize_same|done] | eapply same_keeps, H; [apply read_same|done] | by eapply write_keeps, H
    |eapply same_keeps, H; [apply seek_same|done] | eapply same_keeps, H; [apply tell_same|done] | by eapply close_keeps, H].
Qed.
Lemma fd_steps_wf k k' : fd_wf k → rtc fd_step k k' → fd_wf k' ∧ currentFd k ≤ currentFd k'.
Proof.
  intros Hw H. induction H as [|k k1 k2 H1 _ IH]; [done|]. destruct (fd_step_wf _ _ Hw H1) as [Hw1 ?].
  destruct (IH Hw1). split; [done|lia].
Qed.

(** ** Properties *)
(** The first process, on a file system of 40 sectors. *)
Definition first_process : fds :=
  Fds (match formatted 40 no_fs with Ret (_, s) => s | _ => no_fs end) (Console true false 0 0 false []) [] FD_INIT 1 (str "init") [].
Definition result {A} (m : M fds A) k : option A := match m k with Ret (a, _) => Some a | _ => None end.

(** C31. The descriptors of a process are well typed after any sequence of
    system calls: they are distinct, lie between 3 and [FILE_LIMIT + 1], belong
    to the process, and each names an open file that no other descriptor
    names. *)
Theorem fd_types k k' : fd_wf k → rtc fd_step k k' → fd_wf k'.
Proof. intros Hw H. by destruct (fd_steps_wf k k' Hw H). Qed.
Lemma first_process_wf : fd_wf first_process.
Proof.
  split.
  - assert (map_Forall (λ p _, (p < brk (filesys first_process))%N) (files (filesys first_process))) as H by (apply (bool_decide_unpack _); vm_compute; exact I).
    intros p [x Hx]%elem_of_dom. exact (H p x Hx).
  - done.
  - constructor.
  - constructor.
  - by intros e He%not_elem_of_nil.
Qed.
Lemma fd_types_witness :
  ∃ k', fd_step first_process k' ∧ fd_wf k'.
Proof.
  destruct (create (replicate 20 1) (str "a") 100 first_process) as [[r k']| |] eqn:E;
    [|exfalso; vm_compute in E; discriminate E|exfalso; vm_compute in E; discriminate E].
  exists k'. assert (fd_step first_process k') as H by (exact (step_create _ _ _ _ _ _ E)). split; [exact H|].
  apply (fd_types first_process); [apply first_process_wf|by apply rtc_once].
Defined.

(** The number of the last descriptor only grows, in the whole system: once
    it is above [FILE_LIMIT], after 127 successful calls of [open], every call of
    [open] fails, however many files have been closed. *)
Theorem fd_exhaustion k k' junk name r k'' :
  fd_wf k → FILE_LIMIT < currentFd k → rtc fd_step k k' → open junk name k' = Ret (r, k'') → r = EXIT_FAIL.
Proof.
  intros Hw Hc Hs H. destruct (fd_steps_wf k k' Hw Hs) as [_ Hle]. unfold open in H.
  apply bindM_inv in H as (file1 & k1 & (s1 & _ & ->)%on_fs_inv & H). unfold bindM at 1 in H. cbn [getM currentFd set_filesys] in H.
  destruct name; [by injection H|]. destruct file1; [|by injection H]. rewrite (proj2 (Z.leb_gt _ _)) in H by lia. by injection H.
Qed.
Lemma no_fds_wf k c : fd_wf k → file_fd_list k = [] → FD_INIT ≤ c ≤ FILE_LIMIT + 1 → fd_wf (set_currentFd c k).
Proof.
  intros [H1 H2 H3 H4 H5] Hl Hc. split; [done|done|done|done|]. cbn [file_fd_list set_currentFd]. rewrite Hl. by intros e He%not_elem_of_nil.
Qed.
Lemma fd_exhaustion_witness :
  ∃ k k'' r, FILE_LIMIT < currentFd k ∧ open 0 (str "b") k = Ret (r, k'') ∧ r = EXIT_FAIL.
Proof.
  set (k := set_currentFd 129 first_process). destruct (open 0 (str "b") k) as [[r k'']| |] eqn:E;
    [|exfalso; vm_compute in E; discriminate E|exfalso; vm_compute in E; discriminate E].
  exists k, k'', r. split; [reflexivity|]. split; [exact E|].
  apply (fd_exhaustion k k 0 (str "b") r k''); [|reflexivity|apply rtc_refl|exact E].
  apply no_fds_wf; [apply first_process_wf|reflexivity|]. unfold FD_INIT, FILE_LIMIT. lia.
Defined.

(** Creates a file, opens it once or twice, and writes. *)
Definition open_write (opens : nat) : M fds (list Z * list (option Z)) :=
  run create (replicate 20 1) (str "a") 100;
  do n <- open 0 (str "a");
  do n' <- (match opens with 1%nat => retM n | _ => open 0 (str "a") end);
  do r <- write n [1; 2; 3] 3;
  do r' <- write n' [1; 2; 3] 3;
  retM ([n; n'], [r; r']).
(** A file that is open twice cannot be written through either
    descriptor: [open] denies writes once per descriptor and [write] lifts only
    its own denial. *)
Theorem open_twice_blocks_writes :
  result (open_write 1) first_process = Some ([3; 3], [Some 3; Some 3]) ∧
  result (open_write 2) first_process = Some ([3; 4], [Some 0; Some 0]).
Proof. split; vm_compute; reflexivity. Qed.

Lemma i32_negative p : 2 ^ 31 ≤ p < 2 ^ 32 → i32 p < 0.
Proof. intros Hp. replace p with (p - 2 ^ 32 + 1 * 2 ^ 32) by lia. rewrite i32_add_mult, i32_small; lia. Qed.
(** A user program can stop the kernel: [seek] on an open file to a position
    of 2 GB or more, and [create] with such a size, fail an assertion, since the
    unsigned argument becomes a negative offset. *)
Theorem offsets_panic k n i e p :
  find_fd (file_fd_list k) n = Some (i, e) → 2 ^ 31 ≤ p < 2 ^ 32 →
  seek n p k = Panic ∧ create (replicate 20 1) (str "big") (2 ^ 31) first_process = Panic.
Proof.
  intros Hf Hp. pose proof (i32_negative p Hp) as Hneg. split; [|vm_compute; reflexivity].
  unfold seek, bindM at 1. cbn [getM]. revert i Hf. induction (file_fd_list k) as [|x l IH]; intros i Hf; simpl in *; [done|].
  destruct (fd x =? n).
  - unfold bindM, on_fs, file_seek, bindM, assertM. by rewrite (proj2 (Z.leb_gt _ _)).
  - destruct (find_fd l n) as [[j y]|]; [|done]. injection Hf as <- ->. unfold bindM at 1. cbn [retM]. by apply (IH j).
Qed.
Lemma offsets_panic_witness :
  seek 3 (2 ^ 31) (set_file_fd_list [FileWithFd 1 [97] 3 1 false 0 false false] first_process) = Panic.
Proof. apply (offsets_panic _ 3 0 (FileWithFd 1 [97] 3 1 false 0 false false)); [reflexivity|lia]. Defined.

(** ** Writing and reading back *)
(** A file that one descriptor has open, which denies writes to others, while
    allocations succeed. *)
Record sole_open (s : fs) (fp : ptr) (f : file) (j : inode) : Prop := {
  so_file : files s !! fp = Some f;
  so_deny : deny_write f = true;
  so_inode : inodes s !! f_inode f = Some j;
  so_count : deny_write_cnt j = 1;
  so_open : 1 ≤ open_cnt j < 2 ^ 31;
  so_placed : placed (disk s) j;
  so_memory : mallocs s = [] }.
Definition denied (j : inode) (n : Z) : inode := Inode (sector j) (open_cnt j) (removed j) n (data j).
Lemma placed_denied d j n : placed d j → placed d (denied j n).
Proof. by intros [H1 H2 H3 H4 H5]. Qed.
Lemma allow_Ret s fp f j :
  sole_open s fp f j →
  file_allow_write fp s = Ret (tt, set_inodes (<[f_inode f := denied j 0]> (inodes s)) (set_files (<[fp := File (f_inode f) (pos f) false]> (files s)) s)).
Proof.
  intros [H1 H2 H3 H4 H5 _ _]. unfold file_allow_write. rewrite (bindM_Ret _ _ _ _ _ (get_file_Ret _ _ _ H1)), H2.
  unfold bindM at 1, put_file, modifyM, inode_allow_write.
  rewrite (bindM_Ret _ _ _ _ _ (get_inode_Ret (set_files _ s) _ _ H3)).
  rewrite (bindM_Ret (assertM _) _ _ tt (set_files (<[fp := File (f_inode f) (pos f) false]> (files s)) s)) by (apply assertM_true, Z.ltb_lt; lia).
  rewrite (bindM_Ret (assertM _) _ _ tt (set_files (<[fp := File (f_inode f) (pos f) false]> (files s)) s)) by (apply assertM_true, Z.leb_le; lia).
  rewrite H4. done.
Qed.
Lemma deny_Ret s fp f j :
  files s !! fp = Some f → deny_write f = false → inodes s !! f_inode f = Some j → deny_write_cnt j = 0 → 1 ≤ open_cnt j →
  file_deny_write fp s = Ret (tt, set_inodes (<[f_inode f := denied j 1]> (inodes s)) (set_files (<[fp := File (f_inode f) (pos f) true]> (files s)) s)).
Proof.
  intros H1 H2 H3 H4 H5. unfold file_deny_write. rewrite (bindM_Ret _ _ _ _ _ (get_file_Ret _ _ _ H1)), H2.
  unfold bindM at 1, put_file, modifyM, inode_deny_write.
  rewrite (bindM_Ret _ _ _ _ _ (get_inode_Ret (set_files _ s) _ _ H3)). rewrite H4. change (i32 (0 + 1)) with 1.
  unfold bindM at 1, put_inode, modifyM. by rewrite assertM_true by (by apply Z.leb_le).
Qed.
Definition fits (j : inode) (sz p : Z) : nat := Z.to_nat (sz `min` (Inode.length_ (data j) - p)).
(** What [write] does to the file system. *)
Lemma write_steps_Ret s fp f j buffer sz :
  sole_open s fp f j → 0 ≤ sz ≤ Z.of_nat (length buffer) → 0 ≤ pos f → pos f + sz < 2 ^ 31 → pos f ≤ Inode.length_ (data j) →
  ∃ s', (run file_allow_write fp; do r <- file_write fp buffer sz; run file_deny_write fp; retM r) s = Ret (Z.of_nat (fits j sz (pos f)), s') ∧
    sole_open s' fp (File (f_inode f) (pos f + Z.of_nat (fits j sz (pos f))) true) j ∧
    contents (disk s') j = splice (Z.to_nat (pos f)) (take (fits j sz (pos f)) buffer) (contents (disk s) j).
Proof.
  intros Ho Hsz Hp Hb Hl. rewrite (bindM_Ret _ _ _ _ _ (allow_Ret _ _ _ _ Ho)). destruct Ho as [H1 H2 H3 H4 H5 H6 H7].
  set (s1 := set_inodes _ _). set (f1 := File (f_inode f) (pos f) false).
  assert (files s1 !! fp = Some f1) as Hf1 by apply lookup_insert_eq.
  assert (inodes s1 !! f_inode f = Some (denied j 0)) as Hi1 by apply lookup_insert_eq.
  destruct (file_write_Ret s1 fp f1 (denied j 0) buffer sz) as (d & Hw & Hpa); [done|split; [done|by apply placed_denied|simpl; lia..]|done|lia|done|].
  change (reach (denied j 0) sz (pos f1)) with (fits j sz (pos f)) in *. set (n := fits j sz (pos f)) in *.
  rewrite (bindM_Ret _ _ _ _ _ Hw). set (s2 := set_files _ (set_disk d s1)).
  assert (i32 (pos f + Z.of_nat n) = pos f + Z.of_nat n) as Hi32 by (apply i32_small; unfold n, fits; lia).
  assert (files s2 !! fp = Some (File (f_inode f) (pos f + Z.of_nat n) false)) as Hf2.
  { unfold s2. cbn [files set_files]. rewrite lookup_insert_eq. unfold InodeSpec.advance. cbn [f1 f_inode pos deny_write]. by rewrite Hi32. }
  rewrite (bindM_Ret _ _ _ _ _ (deny_Ret s2 fp _ (denied j 0) Hf2 eq_refl Hi1 eq_refl ltac:(simpl; lia))). eexists. split; [reflexivity|].
  assert (denied (denied j 0) 1 = j) as Hj by (destruct j; simpl in *; by subst). assert (patched j (disk s) d (pos f) (take n buffer)) as Hpa' by exact Hpa.
  split.
  - split; cbn [files inodes disk mallocs set_inodes set_files f_inode].
    + by rewrite lookup_insert_eq.
    + done.
    + rewrite Hj. apply lookup_insert_eq.
    + done.
    + done.
    + exact (patched_placed _ _ _ _ _ H6 Hpa').
    + done.
  - apply (patched_contents (disk s) d j (pos f) (take n buffer)); [done|done| |done]. rewrite length_take. unfold n, fits. lia.
Qed.
Lemma on_fs_Ret {A} (m : M fs A) k a s' : m (filesys k) = Ret (a, s') → on_fs m k = Ret (a, set_filesys s' k).
Proof. intros H. unfold on_fs. by rewrite H. Qed.
Definition mark_dirty (e : fileWithFd) : fileWithFd :=
  FileWithFd (fd_file e) (fd_name e) (fd e) (fd_tid e) (reopened e) (fd_addr e) true (mmaped e).
Lemma write_fd_Ret k n i e f j buffer sz :
  find_fd (file_fd_list k) n = Some (i, e) → fd_tid e = tid k → reopened e = false → mmaped e = false → 2 ≤ n ≤ FILE_LIMIT →
  sole_open (filesys k) (fd_file e) f j → 0 ≤ sz ≤ Z.of_nat (length buffer) → 0 ≤ pos f → pos f + sz < 2 ^ 31 → pos f ≤ Inode.length_ (data j) →
  ∃ s', write n buffer sz k = Ret (Some (Z.of_nat (fits j sz (pos f))), set_file_fd_list (<[i := mark_dirty e]> (file_fd_list k)) (set_filesys s' k)) ∧
    sole_open s' (fd_file e) (File (f_inode f) (pos f + Z.of_nat (fits j sz (pos f))) true) j ∧
    contents (disk s') j = splice (Z.to_nat (pos f)) (take (fits j sz (pos f)) buffer) (contents (disk (filesys k)) j).
Proof.
  intros Hf Ht Hr Hm Hn Ho Hsz Hp Hb Hl. destruct (write_steps_Ret _ _ _ _ _ _ Ho Hsz Hp Hb Hl) as (s' & Hw & Ho' & Hc).
  apply bindM_inv in Hw as ([] & s1 & W1 & Hw). apply bindM_inv in Hw as (r & s2 & W2 & Hw). apply bindM_inv in Hw as ([] & s3 & W3 & [= -> ->]).
  exists s'. split; [|done]. unfold write, STDOUT_FILENO, FILE_LIMIT in *.
  rewrite (proj2 (Z.ltb_ge n 1)), (proj2 (Z.ltb_ge 128 n)), (proj2 (Z.eqb_neq n 1)) by lia. cbn [orb].
  unfold bindM at 1. cbn [getM]. rewrite Hf, Ht, Z.eqb_refl, Hr, Hm. cbn [negb]. rewrite i32_small by lia.
  rewrite (bindM_Ret _ _ _ _ _ (on_fs_Ret _ _ _ _ W1)).
  rewrite (bindM_Ret (retM tt) _ _ tt (set_filesys s1 k)) by done.
  rewrite (bindM_Ret _ _ _ _ _ (on_fs_Ret _ (set_filesys s1 k) _ _ W2)), (bindM_Ret _ _ _ _ _ (on_fs_Ret _ (set_filesys s2 (set_filesys s1 k)) _ _ W3)).
  unfold put_fd, bindM, modifyM, retM. cbn [file_fd_list set_filesys]. unfold mark_dirty. by rewrite Hr, Hm, Ht.
Qed.
(** The calls after [write]: back to [p], and read. *)
Definition write_seek_read (n p : Z) (buffer : list Z) (sz : Z) : M fds (option Z * option (list Z * Z)) :=
  do r <- write n buffer sz; run seek n p; do b <- read 0 n sz; retM (r, b).
Lemma seek_only l n i e p k s' :
  find_fd l n = Some (i, e) → NoDup (fd <$> l) → file_seek (fd_file e) (i32 p) (filesys k) = Ret (tt, s') →
  seek_loop l n p k = Ret (tt, set_filesys s' k).
Proof.
  intros Hf Hnd Hs. revert i Hf. induction l as [|x l IH]; intros i Hf; [done|]. rewrite fmap_cons in Hnd. apply NoDup_cons in Hnd as [Hx Hnd]. simpl in *.
  destruct (Z.eqb_spec (fd x) n) as [Hn|Hn].
  - injection Hf as <- ->. rewrite (bindM_Ret _ _ _ _ _ (on_fs_Ret _ _ _ _ Hs)). generalize (set_filesys s' k). intros k1.
    clear -Hx Hn. induction l as [|y l IH]; [done|]. rewrite fmap_cons, not_elem_of_cons in Hx. destruct Hx as [Hy Hx]. simpl.
    rewrite (proj2 (Z.eqb_neq (fd y) n)) by congruence. rewrite (bindM_Ret (retM tt) _ _ tt k1) by done. by apply IH.
  - destruct (find_fd l n) as [[a y]|]; [|done]. injection Hf as <- ->. rewrite (bindM_Ret (retM tt) _ _ tt k) by done. by apply (IH Hnd a).
Qed.
(** A file of 600 bytes, open as descriptor 3 at position 590. *)
Definition one_open_fs : fs :=
  Fs (replicate 6 (replicate 512 7)) (Bitmap 6 [31]) None [1%N] {[1%N := Inode 4 1 false 1 (InodeDisk 2 600 INODE_MAGIC [])]}
    {[2%N := File 1 590 true]} ∅ 3 [].
Definition one_open : fds :=
  Fds one_open_fs (Console true false 0 0 false []) [FileWithFd 2 [97] 3 1 false 0 false false] 3 1 [105] [].
Lemma one_open_wf : fd_wf one_open.
Proof.
  split.
  - intros p Hp. apply dom_singleton_L in Hp || (simpl in Hp; rewrite dom_singleton_L, elem_of_singleton in Hp); by subst.
  - done.
  - apply NoDup_singleton.
  - apply NoDup_singleton.
  - intros e ->%list_elem_of_singleton. split; [done|]. split; [done|]. simpl. rewrite dom_singleton_L. set_solver.
Qed.
