(* ===== verification/Palloc.v ===== *)
(** * threads/vaddr.h and threads/palloc.c: pages of memory

    Physical memory is mapped one to one at [PHYS_BASE]; its pages are known by
    their kernel virtual addresses and hold 1024 words of 32 bits.  The page
    allocator keeps a bitmap for each of its two pools.  The bitmaps, which the
    code stores at the start of the pools, are kept apart from the pages, and
    the pools' locks are left out: calls run one at a time. *)

From stdpp Require Import base numbers list gmap.
From S2P Require Import Prelude Bitmap.
Local Open Scope Z_scope.

(** ** vaddr.h *)
Definition PGBITS : Z := 12.
Definition PGSIZE : Z := Z.shiftl 1 PGBITS.
Definition BITMASK (shift cnt : Z) : Z := u32 (Z.shiftl (Z.shiftl 1 cnt - 1) shift).
Definition PGMASK : Z := BITMASK 0 PGBITS.
Definition PHYS_BASE : Z := 0xc0000000.
Definition pg_ofs (va : Z) : Z := Z.land va PGMASK.
Definition pg_no (va : Z) : Z := Z.shiftr va PGBITS.
Definition pg_round_up (va : Z) : Z := Z.land (u32 (va + PGSIZE - 1)) (u32 (Z.lnot PGMASK)).
Definition pg_round_down (va : Z) : Z := Z.land va (u32 (Z.lnot PGMASK)).
Definition is_user_vaddr (va : Z) : bool := va <? PHYS_BASE.
Definition is_kernel_vaddr (va : Z) : bool := PHYS_BASE <=? va.
Definition ptov (paddr : Z) : outcome Z := check paddr <? PHYS_BASE; Ret (u32 (paddr + PHYS_BASE)).
Definition vtop (va : Z) : outcome Z := check is_kernel_vaddr va; Ret (va - PHYS_BASE).

(** ** State *)
Record pool := Pool { used_map : bitmap; base : Z }.
Abbreviation page := (list Z).
(** [cr3] is the processor's page directory base register, and [tlb] its
    translation lookaside buffer: page table entries by virtual page number. *)
Record machine := Machine {
  kernel_pool : pool;
  user_pool : pool;
  pages : gmap Z page;
  init_ram_pages : Z;
  init_page_dir : Z;
  cr3 : Z;
  tlb : gmap Z Z }.
Definition set_kernel_pool x (k : machine) : machine :=
  Machine x (user_pool k) (pages k) (init_ram_pages k) (init_page_dir k) (cr3 k) (tlb k).
Definition set_user_pool x (k : machine) : machine :=
  Machine (kernel_pool k) x (pages k) (init_ram_pages k) (init_page_dir k) (cr3 k) (tlb k).
Definition set_pages x (k : machine) : machine :=
  Machine (kernel_pool k) (user_pool k) x (init_ram_pages k) (init_page_dir k) (cr3 k) (tlb k).
Definition set_init_ram_pages x (k : machine) : machine :=
  Machine (kernel_pool k) (user_pool k) (pages k) x (init_page_dir k) (cr3 k) (tlb k).
Definition set_init_page_dir x (k : machine) : machine :=
  Machine (kernel_pool k) (user_pool k) (pages k) (init_ram_pages k) x (cr3 k) (tlb k).
Definition set_cr3 x (k : machine) : machine :=
  Machine (kernel_pool k) (user_pool k) (pages k) (init_ram_pages k) (init_page_dir k) x (tlb k).
Definition set_tlb x (k : machine) : machine :=
  Machine (kernel_pool k) (user_pool k) (pages k) (init_ram_pages k) (init_page_dir k) (cr3 k) x.

(** ** palloc.c *)
Definition PAL_ASSERT : Z := 1.
Definition PAL_ZERO : Z := 2.
Definition PAL_USER : Z := 4.
Definition has_flag (flags f : Z) : bool := negb (Z.land flags f =? 0).
(** [memset (page, byte, PGSIZE * cnt)], with the byte repeated in [w]. *)
Fixpoint fill_pages (cnt : nat) (pg w : Z) : M machine unit :=
  match cnt with
  | O => retM tt
  | S cnt =>
      run modifyM (λ m, set_pages (<[pg := replicate 1024 w]> (pages m)) m);
      fill_pages cnt (u32 (pg + PGSIZE)) w
  end.
Definition get_pool (user : bool) : M machine pool :=
  do m <- getM; retM (if user then user_pool m else kernel_pool m).
Definition put_used_map (user : bool) (b : bitmap) : M machine unit := modifyM (λ m,
  if user then set_user_pool (Pool b (base (user_pool m))) m
  else set_kernel_pool (Pool b (base (kernel_pool m))) m).
(** [None] is the null pointer. *)
Definition palloc_get_multiple (flags page_cnt : Z) : M machine (option Z) :=
  if page_cnt =? 0 then retM None
  else
    let user := has_flag flags PAL_USER in
    do pool <- get_pool user;
    do r <- liftO (bitmap_scan_and_flip (used_map pool) 0 page_cnt false);
    let '(page_idx, used) := r in
    run put_used_map user used;
    if negb (page_idx =? BITMAP_ERROR) then
      let pages := u32 (base pool + PGSIZE * page_idx) in
      run (if has_flag flags PAL_ZERO then fill_pages (Z.to_nat page_cnt) pages 0 else retM tt);
      retM (Some pages)
    else if has_flag flags PAL_ASSERT then panicM else retM None.
Definition palloc_get_page (flags : Z) : M machine (option Z) := palloc_get_multiple flags 1.
Definition page_from_pool (pool : pool) (pg : Z) : bool :=
  let page_no := pg_no pg in
  let start_page := pg_no (base pool) in
  let end_page := u32 (start_page + bitmap_size (used_map pool)) in
  (start_page <=? page_no) && (page_no <? end_page).
Definition palloc_free_multiple (pgs : option Z) (page_cnt : Z) : M machine unit :=
  match pgs with
  | None => retM tt
  | Some pages =>
      run assertM (pg_ofs pages =? 0);
      if page_cnt =? 0 then retM tt
      else
        do m <- getM;
        do user <- (if page_from_pool (kernel_pool m) pages then retM false
                    else if page_from_pool (user_pool m) pages then retM true
                    else panicM);
        do pool <- get_pool user;
        let page_idx := u32 (pg_no pages - pg_no (base pool)) in
        run fill_pages (Z.to_nat page_cnt) pages 0xcccccccc;
        do used <- liftO (bitmap_set_multiple (used_map pool) page_idx page_cnt false);
        put_used_map user used
  end.
Definition palloc_free_page (pg : option Z) : M machine unit := palloc_free_multiple pg 1.
(** [junk]: the words of the memory that the bitmap's array takes. *)
Definition init_pool (b page_cnt : Z) (junk : list Z) : outcome pool :=
  let bm_pages := u32 (bitmap_buf_size page_cnt + PGSIZE - 1) / PGSIZE in
  check bm_pages <=? page_cnt;
  let page_cnt := page_cnt - bm_pages in
  try used <- bitmap_create_in_buf page_cnt junk (bm_pages * PGSIZE);
  Ret (Pool used (u32 (b + bm_pages * PGSIZE))).
Definition palloc_init (user_page_limit : Z) (junk_k junk_u : list Z) : M machine unit :=
  do m <- getM;
  do free_start <- liftO (ptov (1024 * 1024));
  do free_end <- liftO (ptov (u32 (init_ram_pages m * PGSIZE)));
  let free_pages := u32 (free_end - free_start) / PGSIZE in
  let user_pages := if user_page_limit <? free_pages / 2 then user_page_limit else free_pages / 2 in
  let kernel_pages := free_pages - user_pages in
  do k <- liftO (init_pool free_start kernel_pages junk_k);
  run modifyM (set_kernel_pool k);
  do u <- liftO (init_pool (u32 (free_start + kernel_pages * PGSIZE)) user_pages junk_u);
  modifyM (set_user_pool u).

(** ** Addresses of pages *)
Lemma land_page x : 0 ≤ x < 2 ^ 32 → Z.land x 0xfffff000 = x / 4096 * 4096.
Proof.
  intros Hx. replace (x / 4096 * 4096) with (Z.shiftl (Z.shiftr x 12) 12)
    by (rewrite Z.shiftl_mul_pow2, Z.shiftr_div_pow2 by lia; done).
  rewrite <-Z.ldiff_ones_r by lia. apply Z.bits_inj'. intros n Hn.
  rewrite Z.land_spec, Z.ldiff_spec. change 0xfffff000 with (Z.ldiff (Z.ones 32) (Z.ones 12)).
  rewrite Z.ldiff_spec. destruct (decide (n < 32)) as [Hl|Hl].
  - rewrite (Z.ones_spec_low 32) by lia. done.
  - rewrite (proj2 (Z.testbit_false x n Hn)); [done|]. rewrite Z.div_small; [done|].
    split; [lia|]. eapply Z.lt_le_trans; [apply Hx|]. apply Z.pow_le_mono_r; lia.
Qed.
Lemma pg_ofs_mod va : pg_ofs va = va `mod` 4096.
Proof. unfold pg_ofs. change PGMASK with (Z.ones 12). rewrite Z.land_ones by lia. done. Qed.
Lemma pg_round_down_div va : 0 ≤ va < 2 ^ 32 → pg_round_down va = va / 4096 * 4096.
Proof. apply land_page. Qed.

(** ** Specification *)
(** A pool lies within the address space above [PHYS_BASE]. *)
Record pool_wf (p : pool) : Prop := {
  pw_map : bitmap_wf (used_map p);
  pw_base : PHYS_BASE ≤ base p;
  pw_aligned : (PGSIZE | base p);
  pw_end : base p + PGSIZE * bit_cnt (used_map p) < 2 ^ 32 }.
Definition pool_of (user : bool) (m : machine) : pool := if user then user_pool m else kernel_pool m.
(** Page number [k] of a pool. *)
Definition pool_page (p : pool) (k : Z) : Z := base p + PGSIZE * k.
Definition in_use (p : pool) (k : Z) : bool := bit (used_map p) k.
Definition free_run (p : pool) (k cnt : Z) : Prop :=
  0 ≤ k ∧ k + cnt ≤ bit_cnt (used_map p) ∧ ∀ j, k ≤ j < k + cnt → in_use p j = false.

Lemma fill_pages_Ret n pg w m :
  PHYS_BASE ≤ pg → pg + PGSIZE * Z.of_nat n < 2 ^ 32 →
  ∃ ps, fill_pages n pg w m = Ret (tt, set_pages ps m) ∧
    (∀ j, 0 ≤ j < Z.of_nat n → ps !! (pg + PGSIZE * j) = Some (replicate 1024 w)) ∧
    (∀ a, (∀ j, 0 ≤ j < Z.of_nat n → a ≠ pg + PGSIZE * j) → ps !! a = pages m !! a).
Proof.
  unfold PHYS_BASE. change PGSIZE with 4096.
  revert pg m. induction n as [|n IH]; intros pg m Hp He.
  { exists (pages m). split; [by destruct m|]. split; [lia|done]. }
  cbn [fill_pages]. unfold bindM at 1, modifyM. change PGSIZE with 4096.
  destruct n as [|n].
  { exists (<[pg := replicate 1024 w]> (pages m)). split; [done|]. split.
    - intros j Hj. replace (pg + 4096 * j) with pg by lia. apply lookup_insert_eq.
    - intros a Ha. apply lookup_insert_ne. intros ->. apply (Ha 0); lia. }
  rewrite u32_small by lia.
  destruct (IH (pg + 4096) (set_pages (<[pg := replicate 1024 w]> (pages m)) m)) as (ps & -> & H1 & H2); [lia..|].
  exists ps. split; [by destruct m|]. split.
  - intros j Hj. destruct (decide (j = 0)) as [->|].
    + rewrite H2 by (intros; lia). rewrite Z.mul_0_r, Z.add_0_r. apply lookup_insert_eq.
    + replace (pg + 4096 * j) with (pg + 4096 + 4096 * (j - 1)) by lia. apply H1. lia.
  - intros a Ha. rewrite H2.
    + apply lookup_insert_ne. intros <-. apply (Ha 0); lia.
    + intros j Hj ->. apply (Ha (j + 1)); lia.
Qed.
Lemma put_used_map_Ret user b m :
  ∃ m', put_used_map user b m = Ret (tt, m') ∧ pool_of user m' = Pool b (base (pool_of user m)) ∧
    pool_of (negb user) m' = pool_of (negb user) m ∧ pages m' = pages m ∧
    init_ram_pages m' = init_ram_pages m ∧ init_page_dir m' = init_page_dir m ∧ cr3 m' = cr3 m ∧ tlb m' = tlb m.
Proof. by destruct user; eexists; split. Qed.
(** [p'] is [p] with [cnt] pages from [k] on in use or not. *)
Definition marked (p : pool) (k cnt : Z) (v : bool) (p' : pool) : Prop :=
  pool_wf p' ∧ base p' = base p ∧ bit_cnt (used_map p') = bit_cnt (used_map p) ∧
  ∀ j, 0 ≤ j < bit_cnt (used_map p) → in_use p' j = if (k <=? j) && (j <? k + cnt) then v else in_use p j.
(** Everything but the pools and the pages. *)
Definition same_cpu (m m' : machine) : Prop :=
  init_ram_pages m' = init_ram_pages m ∧ init_page_dir m' = init_page_dir m ∧ cr3 m' = cr3 m ∧ tlb m' = tlb m.
(** Only the [cnt] pages from [pg] on may differ. *)
Definition other_pages (pg cnt : Z) (m m' : machine) : Prop :=
  ∀ a, (∀ j, 0 ≤ j < cnt → a ≠ pg + PGSIZE * j) → pages m' !! a = pages m !! a.
Lemma marked_range p k cnt v b' :
  pool_wf p → updates_range (used_map p) k cnt v b' → marked p k cnt v (Pool b' (base p)).
Proof.
  intros [H1 H2 H3 H4] (Hw & Hc & Hb). unfold marked, in_use. simpl.
  split; [split; simpl; try done; by rewrite Hc|]. split; [done|]. split; [done|]. intros j Hj. rewrite Hb by lia. done.
Qed.
(** The kernel takes the first run of free pages. *)
Definition first_fit (p : pool) (cnt k : Z) : Prop :=
  free_run p k cnt ∧ ∀ j, 0 ≤ j < k → ¬ free_run p j cnt.
Lemma palloc_get_multiple_spec flags cnt m :
  let user := has_flag flags PAL_USER in
  let p := pool_of user m in
  pool_wf p → 0 < cnt < 2 ^ 32 → has_flag flags PAL_ASSERT = false →
  ∃ r m', palloc_get_multiple flags cnt m = Ret (r, m') ∧ same_cpu m m' ∧
    pool_of (negb user) m' = pool_of (negb user) m ∧
    match r with
    | None => (∀ k, ¬ free_run p k cnt) ∧ pool_of user m' = p ∧ pages m' = pages m
    | Some pg =>
        ∃ k, pg = pool_page p k ∧ first_fit p cnt k ∧ marked p k cnt true (pool_of user m') ∧
          other_pages pg cnt m m' ∧
          if has_flag flags PAL_ZERO
          then ∀ j, 0 ≤ j < cnt → pages m' !! (pg + PGSIZE * j) = Some (replicate 1024 0)
          else pages m' = pages m
    end.
Proof.
  intros user p Hwf Hc Ha. unfold palloc_get_multiple. fold user. rewrite (proj2 (Z.eqb_neq _ _)) by lia.
  rewrite (bindM_Ret (get_pool user) _ m p m) by done.
  assert (pool_of user m = p) as Hp by done. clearbody p user. pose proof Hwf as [Hw Hb Hal He].
  pose proof (wf_cnt _ Hw) as Hcnt. unfold ELEM_BITS in Hcnt.
  destruct (bitmap_scan_and_flip_spec (used_map p) 0 cnt false) as (k & b' & Hs & Hr & Hu); [done|lia..|].
  rewrite (bindM_Ret (liftO _) _ m (k, b') m) by (unfold liftO; by rewrite Hs).
  destruct (put_used_map_Ret user b' m) as (m1 & Hp1 & Hpu & Hpo & Hpg & Hi1 & Hi2 & Hi3 & Hi4).
  rewrite (bindM_Ret _ _ _ _ _ Hp1). destruct (k =? BITMAP_ERROR) eqn:Ek; cbn [negb].
  - subst b'. rewrite Ha. exists None, m1. split; [done|]. split; [done|]. split; [done|].
    split; [|split; [rewrite Hpu, Hp; by destruct p|done]].
    apply Z.eqb_eq in Ek. destruct Hr as [(? & ? & _)|[_ Hn]]; [unfold BITMAP_ERROR in *; lia|].
    intros j (H0 & H1 & H2). by apply (Hn j).
  - destruct (scan_result_error (used_map p) 0 cnt false k Hw) as (Hk0 & Hk1 & Hk2); [lia|done..|].
    unfold PHYS_BASE in *. change PGSIZE with 4096 in *.
    replace (u32 (base p + 4096 * k)) with (pool_page p k) by (unfold pool_page; change PGSIZE with 4096; rewrite u32_small; lia).
    assert (first_fit p cnt k) as Hff.
    { split; [done|]. destruct Hr as [(_ & _ & _ & Hn)|[-> _]]; [|done].
      intros j Hj (_ & _ & H). by apply (Hn j). }
    assert (marked p k cnt true (pool_of user m1)) as Hmk by (rewrite Hpu, Hp; by apply marked_range).
    destruct (has_flag flags PAL_ZERO) eqn:Ez.
    + destruct (fill_pages_Ret (Z.to_nat cnt) (pool_page p k) 0 m1) as (ps & Hf & H1 & H2);
        [unfold pool_page; change PGSIZE with 4096; unfold PHYS_BASE; lia..|].
      rewrite (bindM_Ret _ _ _ _ _ Hf). rewrite Z2Nat.id in H1, H2 by lia.
      exists (Some (pool_page p k)), (set_pages ps m1).
      split; [done|]. split; [done|]. split; [by destruct user|]. exists k.
      split; [done|]. split; [done|]. split; [by destruct user|]. split; [|done].
      intros a Hna. simpl. rewrite H2 by done. by rewrite Hpg.
    + exists (Some (pool_page p k)), m1. split; [done|]. split; [done|]. split; [done|]. exists k.
      split; [done|]. split; [done|]. split; [done|]. split; [|done]. intros a _. by rewrite Hpg.
Qed.

(** C24. The page allocator is first fit: it hands out the lowest run of free
    pages of the pool, marks exactly these as used, zeroes them when asked to
    and changes no other page; it returns null, changing nothing, only if the
    pool has no run of that length. *)
Theorem palloc_first_fit flags cnt m :
  let user := has_flag flags PAL_USER in
  let p := pool_of user m in
  pool_wf p → 0 < cnt < 2 ^ 32 → has_flag flags PAL_ASSERT = false →
  ∃ r m', palloc_get_multiple flags cnt m = Ret (r, m') ∧ same_cpu m m' ∧
    pool_of (negb user) m' = pool_of (negb user) m ∧
    match r with
    | None => (∀ k, ¬ free_run p k cnt) ∧ pool_of user m' = p ∧ pages m' = pages m
    | Some pg =>
        ∃ k, pg = pool_page p k ∧ first_fit p cnt k ∧ marked p k cnt true (pool_of user m') ∧
          other_pages pg cnt m m' ∧
          if has_flag flags PAL_ZERO
          then ∀ j, 0 ≤ j < cnt → pages m' !! (pg + PGSIZE * j) = Some (replicate 1024 0)
          else pages m' = pages m
    end.
Proof. apply palloc_get_multiple_spec. Qed.

(** Two pools of six pages; the kernel's first and third page are in use. *)
Definition example_machine : machine :=
  Machine (Pool (Bitmap 6 [5]) 0xc0100000) (Pool (Bitmap 6 [0]) 0xc0200000) ∅ 1024 0xc0100000 0x100000 ∅.
Lemma example_pool_wf user : pool_wf (pool_of user example_machine).
Proof.
  assert (∀ w, 0 ≤ w < 8 → bitmap_wf (Bitmap 6 [w])) as Hb.
  { intros w Hw. split; [done|done|]. simpl. repeat constructor; unfold word in *; lia. }
  destruct user; split; simpl; try apply Hb; try done; [by exists 0xc0200|by exists 0xc0100].
Qed.
Lemma palloc_first_fit_witness :
  ∃ r m', palloc_get_multiple PAL_ZERO 2 example_machine = Ret (r, m') ∧ same_cpu example_machine m' ∧
    user_pool m' = user_pool example_machine ∧ r ≠ None.
Proof.
  destruct (palloc_first_fit PAL_ZERO 2 example_machine) as (r & m' & H1 & H2 & H3 & H4);
    [apply example_pool_wf|done|done|]. exists r, m'. split; [done|]. split; [done|]. split; [done|].
  intros ->. destruct H4 as [H4 _]. apply (H4 3). split; [done|]. split; [done|]. intros j Hj.
  assert (j = 3 ∨ j = 4) as [-> | ->] by lia; done.
Defined.

(** ** Freeing *)
Lemma page_from_pool_page p k :
  pool_wf p → 0 ≤ k < bit_cnt (used_map p) →
  page_from_pool p (pool_page p k) = true ∧ pg_no (pool_page p k) - pg_no (base p) = k ∧
  pg_ofs (pool_page p k) = 0 ∧ PHYS_BASE ≤ pool_page p k.
Proof.
  intros [Hw Hb [q Hq] He] Hk. unfold page_from_pool, pool_page, pg_no, bitmap_size, PHYS_BASE in *.
  change PGSIZE with 4096 in *. change PGBITS with 12. rewrite !Z.shiftr_div_pow2 by lia. change (2 ^ 12) with 4096.
  replace (base p + 4096 * k) with ((q + k) * 4096) by lia. rewrite Hq, !Z.div_mul, u32_small by lia.
  rewrite (proj2 (Z.leb_le _ _)), (proj2 (Z.ltb_lt _ _)) by lia. split; [done|]. split; [lia|]. split; [|lia].
  unfold pg_ofs. change PGMASK with (Z.ones 12). rewrite Z.land_ones by lia. change (2 ^ 12) with 4096.
  apply Z.mod_mul. lia.
Qed.
Lemma palloc_free_spec m k cnt :
  pool_wf (kernel_pool m) → 0 ≤ k → 0 < cnt → k + cnt ≤ bit_cnt (used_map (kernel_pool m)) →
  ∃ m', palloc_free_multiple (Some (pool_page (kernel_pool m) k)) cnt m = Ret (tt, m') ∧ same_cpu m m' ∧
    user_pool m' = user_pool m ∧ marked (kernel_pool m) k cnt false (kernel_pool m') ∧
    other_pages (pool_page (kernel_pool m) k) cnt m m'.
Proof.
  intros Hwf Hk Hc Hb. destruct (page_from_pool_page (kernel_pool m) k Hwf) as (H1 & H2 & H3 & H4); [lia|].
  set (p := kernel_pool m) in *. unfold palloc_free_multiple.
  rewrite (bindM_Ret (assertM _) _ m tt m) by (apply assertM_true; by rewrite H3).
  rewrite (proj2 (Z.eqb_neq _ _)) by lia. rewrite (bindM_Ret getM _ m m m) by done. fold p. rewrite H1.
  rewrite (bindM_Ret (retM false) _ m false m) by done. rewrite (bindM_Ret (get_pool false) _ m p m) by done.
  rewrite H2. pose proof Hwf as [Hw Hpb Hal He]. pose proof (wf_cnt _ Hw) as Hcnt. unfold ELEM_BITS in Hcnt.
  destruct (fill_pages_Ret (Z.to_nat cnt) (pool_page p k) 0xcccccccc m) as (ps & Hf & _ & Ho);
    [done|unfold pool_page in *; change PGSIZE with 4096 in *; lia|].
  rewrite (bindM_Ret _ _ _ _ _ Hf). rewrite u32_small by lia.
  destruct (bitmap_set_multiple_spec (used_map p) Hw k cnt) with (v := false) as (b' & Hs & Hu); [lia|].
  rewrite (bindM_Ret (liftO _) _ _ b' (set_pages ps m)) by (unfold liftO; by rewrite Hs).
  eexists. split; [done|]. split; [done|]. split; [done|]. split; [by apply marked_range|].
  intros a Ha. simpl. apply Ho. intros j Hj. apply Ha. lia.
Qed.
