(* ===== verification/Pagedir.v ===== *)
(** * threads/pte.h and userprog/pagedir.c: page tables

    A page directory and a page table are pages of 1024 entries.  The processor
    is part of the model: [cr3] holds the active directory, loading it empties
    the translation lookaside buffer (TLB), and a memory access through the
    tables may cache the entry it used. *)

From stdpp Require Import base numbers list gmap.
From S2P Require Import Prelude Bitmap Palloc.
Local Open Scope Z_scope.

(** ** pte.h *)
Definition PTSHIFT : Z := PGBITS.
Definition PTBITS : Z := 10.
Definition PTMASK : Z := BITMASK PTSHIFT PTBITS.
Definition PDSHIFT : Z := PTSHIFT + PTBITS.
Definition pt_no (va : Z) : Z := Z.shiftr (Z.land va PTMASK) PTSHIFT.
Definition pd_no (va : Z) : Z := Z.shiftr va PDSHIFT.
#[global] Arguments pt_no : simpl never.
#[global] Arguments pd_no : simpl never.
Definition PTE_ADDR : Z := 0xfffff000.
Definition PTE_P : Z := 0x1.
Definition PTE_W : Z := 0x2.
Definition PTE_U : Z := 0x4.
Definition PTE_A : Z := 0x20.
Definition PTE_D : Z := 0x40.
Definition pde_create (pt : Z) : outcome Z :=
  check pg_ofs pt =? 0; try p <- vtop pt; Ret (Z.lor (Z.lor (Z.lor p PTE_U) PTE_P) PTE_W).
Definition pde_get_pt (pde : Z) : outcome Z := check has_flag pde PTE_P; ptov (Z.land pde PTE_ADDR).
Definition pte_create_kernel (page : Z) (writable : bool) : outcome Z :=
  check pg_ofs page =? 0; try p <- vtop page; Ret (Z.lor (Z.lor p PTE_P) (if writable then PTE_W else 0)).
Definition pte_create_user (page : Z) (writable : bool) : outcome Z :=
  try e <- pte_create_kernel page writable; Ret (Z.lor e PTE_U).
Definition pte_get_page (pte : Z) : outcome Z := ptov (Z.land pte PTE_ADDR).

(** ** Words of pages *)
(** A word is addressed by its page and its index in the page. *)
Abbreviation wptr := (Z * Z)%type.
Definition load_word (p : wptr) : M machine Z := λ m,
  match pages m !! fst p with
  | Some pg => match pg !! Z.to_nat (snd p) with Some w => Ret (w, m) | None => Panic end
  | None => Panic
  end.
Definition store_word (p : wptr) (w : Z) : M machine unit := λ m,
  match pages m !! fst p with
  | Some pg =>
      if snd p <? Z.of_nat (length pg)
      then Ret (tt, set_pages (<[fst p := <[Z.to_nat (snd p) := w]> pg]> (pages m)) m) else Panic
  | None => Panic
  end.

(** ** pagedir.c *)
Definition pagedir_create : M machine (option Z) :=
  do r <- palloc_get_page 0;
  match r with
  | None => retM None
  | Some pd =>
      do m <- getM;
      match pages m !! init_page_dir m with
      | None => panicM
      | Some ipd => run modifyM (λ m, set_pages (<[pd := ipd]> (pages m)) m); retM (Some pd)
      end
  end.
Definition pagedir_activate (pd : option Z) : M machine unit :=
  do m <- getM;
  do p <- liftO (vtop (default (init_page_dir m) pd));
  modifyM (λ m, set_tlb ∅ (set_cr3 p m)).
Definition active_pd : M machine Z := do m <- getM; liftO (ptov (cr3 m)).
Definition invalidate_pagedir (pd : Z) : M machine unit :=
  do a <- active_pd; if a =? pd then pagedir_activate (Some pd) else retM tt.
Definition lookup_page (pd vaddr : Z) (create : bool) : M machine (option wptr) :=
  run assertM (negb create || is_user_vaddr vaddr);
  let pde := (pd, pd_no vaddr) in
  do e <- load_word pde;
  do ok <- (if e =? 0 then
              if create then
                do pt <- palloc_get_page PAL_ZERO;
                match pt with
                | None => retM false
                | Some pt => do e <- liftO (pde_create pt); run store_word pde e; retM true
                end
              else retM false
            else retM true);
  if negb ok then retM None
  else
    do e <- load_word pde;
    do pt <- liftO (pde_get_pt e);
    retM (Some (pt, pt_no vaddr)).
Definition pagedir_set_page (pd upage kpage : Z) (writable : bool) : M machine bool :=
  run assertM (pg_ofs upage =? 0);
  run assertM (pg_ofs kpage =? 0);
  run assertM (is_user_vaddr upage);
  do m <- getM;
  do p <- liftO (vtop kpage);
  run assertM (Z.shiftr p PTSHIFT <? init_ram_pages m);
  run assertM (negb (pd =? init_page_dir m));
  do pte <- lookup_page pd upage true;
  match pte with
  | None => retM false
  | Some pte =>
      do e <- load_word pte;
      run assertM (negb (has_flag e PTE_P));
      do e <- liftO (pte_create_user kpage writable);
      run store_word pte e;
      retM true
  end.
Definition pagedir_get_page (pd uaddr : Z) : M machine (option Z) :=
  run assertM (is_user_vaddr uaddr);
  do pte <- lookup_page pd uaddr false;
  match pte with
  | None => retM None
  | Some pte =>
      do e <- load_word pte;
      if has_flag e PTE_P then do p <- liftO (pte_get_page e); retM (Some (u32 (p + pg_ofs uaddr)))
      else retM None
  end.
Definition pagedir_clear_page (pd upage : Z) : M machine unit :=
  run assertM (pg_ofs upage =? 0);
  run assertM (is_user_vaddr upage);
  do pte <- lookup_page pd upage false;
  match pte with
  | None => retM tt
  | Some pte =>
      do e <- load_word pte;
      if has_flag e PTE_P
      then run store_word pte (Z.land e (u32 (Z.lnot PTE_P))); invalidate_pagedir pd
      else retM tt
  end.
(** [pagedir_is_dirty] and [pagedir_is_accessed] test a flag, and
    [pagedir_set_dirty] and [pagedir_set_accessed] set it. *)
Definition test_flag (flag pd vpage : Z) : M machine bool :=
  do pte <- lookup_page pd vpage false;
  match pte with
  | None => retM false
  | Some pte => do e <- load_word pte; retM (has_flag e flag)
  end.
Definition set_flag (flag pd vpage : Z) (v : bool) : M machine unit :=
  do pte <- lookup_page pd vpage false;
  match pte with
  | None => retM tt
  | Some pte =>
      do e <- load_word pte;
      if v then store_word pte (Z.lor e flag)
      else run store_word pte (Z.land e (u32 (Z.lnot flag))); invalidate_pagedir pd
  end.
Definition pagedir_is_dirty : Z → Z → M machine bool := test_flag PTE_D.
Definition pagedir_set_dirty : Z → Z → bool → M machine unit := set_flag PTE_D.
Definition pagedir_is_accessed : Z → Z → M machine bool := test_flag PTE_A.
Definition pagedir_set_accessed : Z → Z → bool → M machine unit := set_flag PTE_A.
(** The loops of [pagedir_destroy] over the entries of a table and of the
    directory. *)
Fixpoint free_table (n : nat) (pt i : Z) : M machine unit :=
  match n with
  | O => retM tt
  | S n =>
      do e <- load_word (pt, i);
      run (if has_flag e PTE_P then do p <- liftO (pte_get_page e); palloc_free_page (Some p) else retM tt);
      free_table n pt (i + 1)
  end.
Fixpoint destroy_loop (n : nat) (pd i : Z) : M machine unit :=
  match n with
  | O => retM tt
  | S n =>
      do e <- load_word (pd, i);
      run (if has_flag e PTE_P then
             do pt <- liftO (pde_get_pt e);
             run free_table (Z.to_nat (PGSIZE / 4)) pt 0; palloc_free_page (Some pt)
           else retM tt);
      destroy_loop n pd (i + 1)
  end.
Definition pagedir_destroy (pd : option Z) : M machine unit :=
  match pd with
  | None => retM tt
  | Some p =>
      do m <- getM;
      run assertM (negb (p =? init_page_dir m));
      run destroy_loop (Z.to_nat (pd_no PHYS_BASE)) p 0;
      palloc_free_page (Some p)
  end.
