(* ===== verification/PagedirSpec.v ===== *)
(** * Page directories as maps, and the translation lookaside buffer

    Walking a page directory gives the page table entry of an address.  The
    operations of pagedir.c refine the operations of a map from user pages to
    entries, one page directory does not disturb another, and the entries that
    the processor caches always agree with the tables. *)

From stdpp Require Import base numbers list gmap.
From S2P Require Import Prelude Bitmap Palloc Pagedir.
Local Open Scope Z_scope.

(** ** Words and addresses *)
Definition table_of (e : Z) : Z := e / 4096 * 4096 + PHYS_BASE.
Lemma land_addr x : 0 ≤ x < 2 ^ 32 → Z.land x PTE_ADDR = x / 4096 * 4096.
Proof. apply land_page. Qed.
Lemma pd_no_div va : pd_no va = va / 2 ^ 22.
Proof. unfold pd_no. change PDSHIFT with 22. rewrite Z.shiftr_div_pow2 by lia. done. Qed.
Lemma pt_no_mod va : 0 ≤ va < 2 ^ 32 → pt_no va = (va / 4096) `mod` 1024.
Proof.
  intros Hv. unfold pt_no. change PTMASK with (Z.shiftl (Z.ones 10) 12). change PTSHIFT with 12.
  rewrite Z.shiftr_land, Z.shiftr_shiftl_l by lia. change (12 - 12) with 0. rewrite Z.shiftl_0_r.
  rewrite Z.land_ones, Z.shiftr_div_pow2 by lia. done.
Qed.
Lemma pd_no_user va : 0 ≤ va < PHYS_BASE → 0 ≤ pd_no va < 768.
Proof.
  unfold PHYS_BASE. intros H. rewrite pd_no_div. split; [apply Z.div_pos; lia|]. apply Z.div_lt_upper_bound; lia.
Qed.
(** The two indices identify the page. *)
Lemma indices_page va va' :
  0 ≤ va < 2 ^ 32 → 0 ≤ va' < 2 ^ 32 → pd_no va = pd_no va' ∧ pt_no va = pt_no va' ↔ va / 4096 = va' / 4096.
Proof.
  intros H H'. rewrite !pd_no_div, !pt_no_mod by done.
  assert (∀ x, x / 2 ^ 22 = x / 4096 / 1024) as Hd by (intros x; rewrite Z.div_div by lia; done).
  rewrite !Hd. split; [|by intros ->]. intros [H1 H2].
  rewrite (Z.div_mod (va / 4096) 1024), (Z.div_mod (va' / 4096) 1024) by lia. congruence.
Qed.
(** A page address with flags. *)
Lemma lor_flags p f : (4096 | p) → 0 ≤ p → 0 ≤ f < 4096 → Z.lor p f = p + f.
Proof.
  intros [q ->] Hp Hf. rewrite <-Z.lxor_lor; [rewrite <-Z.add_nocarry_lxor; [done|]|].
  all: apply Z.bits_inj'; intros n Hn; rewrite Z.land_spec, Z.bits_0; change 4096 with (2 ^ 12);
    rewrite <-Z.shiftl_mul_pow2 by lia; destruct (decide (n < 12));
    [rewrite Z.shiftl_spec_low by lia; done|].
  all: rewrite (proj2 (Z.testbit_false f n Hn)); [apply andb_false_r|]; rewrite Z.div_small; [done|];
    split; [lia|]; eapply Z.lt_le_trans; [apply Hf|]; change 4096 with (2 ^ 12); apply Z.pow_le_mono_r; lia.
Qed.
Lemma flag_mod e k : 0 ≤ e → 0 ≤ k → has_flag e (2 ^ k) = Z.testbit e k.
Proof.
  intros He Hk. unfold has_flag. destruct (Z.testbit e k) eqn:E.
  - destruct (Z.eqb_spec (Z.land e (2 ^ k)) 0) as [H|]; [|done].
    assert (Z.testbit (Z.land e (2 ^ k)) k = true) as H' by (rewrite Z.land_spec, Z.pow2_bits_true, E by lia; done).
    rewrite H, Z.bits_0 in H'. done.
  - replace (Z.land e (2 ^ k)) with 0; [done|]. symmetry. apply Z.bits_inj'. intros n Hn.
    rewrite Z.land_spec, Z.bits_0, Z.pow2_bits_eqb by lia. destruct (Z.eqb_spec k n) as [->|]; [|apply andb_false_r].
    by rewrite E.
Qed.
Definition valid_page (p : Z) : Prop := PHYS_BASE ≤ p < 2 ^ 32 ∧ (4096 | p).
Lemma valid_page_ofs p : valid_page p → pg_ofs p = 0.
Proof. intros [_ H]. rewrite pg_ofs_mod. by apply Z.mod_divide. Qed.
Lemma phys_aligned p : valid_page p → (4096 | p - PHYS_BASE).
Proof. intros [_ [q ->]]. exists (q - 0xc0000). unfold PHYS_BASE. lia. Qed.
Lemma vtop_Ret p : PHYS_BASE ≤ p → vtop p = Ret (p - PHYS_BASE).
Proof. intros H. unfold vtop, is_kernel_vaddr. by rewrite (proj2 (Z.leb_le _ _)). Qed.
Lemma ptov_Ret p : 0 ≤ p < 2 ^ 30 → ptov p = Ret (p + PHYS_BASE).
Proof.
  intros H. unfold ptov, PHYS_BASE. rewrite (proj2 (Z.ltb_lt _ _)) by lia. simpl. rewrite u32_small by lia. done.
Qed.
Lemma flag_low p f k : (4096 | p) → 0 ≤ p → 0 ≤ f < 4096 → 0 ≤ k < 12 → has_flag (p + f) (2 ^ k) = Z.testbit f k.
Proof.
  intros [q ->] Hp Hf Hk. rewrite flag_mod by lia. rewrite <-(Z.mod_pow2_bits_low _ 12) by lia.
  change (2 ^ 12) with 4096. rewrite Z.add_comm, Z_mod_plus_full. by rewrite Z.mod_small.
Qed.
Lemma table_of_flags p f : valid_page p → 0 ≤ f < 4096 → table_of (p - PHYS_BASE + f) = p.
Proof.
  intros Hp Hf. destruct (phys_aligned p Hp) as [q Hq]. unfold table_of. rewrite Hq.
  rewrite Z.div_add_l, (Z.div_small f) by lia. lia.
Qed.
Lemma pde_create_Ret pt : valid_page pt → pde_create pt = Ret (pt - PHYS_BASE + 7).
Proof.
  intros Hp. unfold pde_create. rewrite (valid_page_ofs _ Hp). simpl. rewrite vtop_Ret by apply Hp. simpl.
  rewrite <-!Z.lor_assoc. change (Z.lor PTE_U (Z.lor PTE_P PTE_W)) with 7.
  rewrite lor_flags; [done|by apply phys_aligned| |done]. destruct Hp. lia.
Qed.
Lemma pde_get_pt_Ret e : 0 ≤ e < 2 ^ 30 → has_flag e PTE_P = true → pde_get_pt e = Ret (table_of e).
Proof.
  intros He Hp. unfold pde_get_pt, table_of. rewrite Hp. simpl. rewrite land_addr by lia.
  pose proof (Z.mul_div_le e 4096). pose proof (Z.div_pos e 4096). rewrite ptov_Ret by lia. done.
Qed.
Definition user_pte (kpage : Z) (writable : bool) : Z := kpage - PHYS_BASE + (if writable then 7 else 5).
Lemma pte_create_user_Ret kpage w : valid_page kpage → pte_create_user kpage w = Ret (user_pte kpage w).
Proof.
  intros Hp. unfold pte_create_user, pte_create_kernel. rewrite (valid_page_ofs _ Hp). simpl.
  rewrite vtop_Ret by apply Hp. simpl. rewrite <-!Z.lor_assoc. unfold user_pte.
  replace (Z.lor PTE_P (Z.lor (if w then PTE_W else 0) PTE_U)) with (if w then 7 else 5) by (by destruct w).
  rewrite lor_flags; [done|by apply phys_aligned| |by destruct w]. destruct Hp. lia.
Qed.
Lemma user_pte_present kpage w : valid_page kpage → has_flag (user_pte kpage w) PTE_P = true.
Proof.
  intros Hp. unfold user_pte. change PTE_P with (2 ^ 0). rewrite flag_low; [by destruct w|by apply phys_aligned| |by destruct w|lia].
  destruct Hp. lia.
Qed.

(** ** Walking the tables *)
Implicit Types m : machine.
Definition entry m (p i : Z) : option Z := pages m !! p ≫= λ pg, pg !! Z.to_nat i.
Definition walk m (pd va : Z) : option Z :=
  e ← entry m pd (pd_no va); if e =? 0 then None else entry m (table_of e) (pt_no va).
(** The entry of a mapped page. *)
Definition translate m (pd va : Z) : option Z :=
  e ← walk m pd va; if has_flag e PTE_P then Some e else None.
Definition user (va : Z) : Prop := 0 ≤ va < PHYS_BASE.

(** A page of the kernel pool that is in use. *)
Definition used m (p : Z) : Prop :=
  ∃ k, 0 ≤ k < bit_cnt (used_map (kernel_pool m)) ∧ p = pool_page (kernel_pool m) k ∧ in_use (kernel_pool m) k = true.
Definition page_ok m (p : Z) : Prop := ∃ pg, pages m !! p = Some pg ∧ length pg = 1024%nat ∧ used m p.
Record wf_pd m (pd : Z) : Prop := {
  wp_dir : page_ok m pd;
  wp_tables i e : 0 ≤ i < 768 → entry m pd i = Some e → e ≠ 0 →
    has_flag e PTE_P = true ∧ 0 ≤ e < 2 ^ 30 ∧ page_ok m (table_of e) ∧ table_of e ≠ pd;
  wp_inj i j e e' : 0 ≤ i < 768 → 0 ≤ j < 768 → entry m pd i = Some e → entry m pd j = Some e' →
    e ≠ 0 → e' ≠ 0 → table_of e = table_of e' → i = j }.
(** The pages that a directory is made of. *)
Definition owns m (pd p : Z) : Prop :=
  p = pd ∨ ∃ i e, 0 ≤ i < 768 ∧ entry m pd i = Some e ∧ e ≠ 0 ∧ p = table_of e.
Definition separate m (pd pd' : Z) : Prop := ∀ p, owns m pd p → owns m pd' p → False.

Lemma entry_store m p i w pg q j :
  pages m !! p = Some pg → (Z.to_nat i < length pg)%nat → 0 ≤ i → 0 ≤ j →
  entry (set_pages (<[p := <[Z.to_nat i := w]> pg]> (pages m)) m) q j =
    if decide (q = p ∧ j = i) then Some w else entry m q j.
Proof.
  intros Hp Hl Hi Hj. unfold entry. simpl. destruct (decide (q = p)) as [->|Hne].
  - rewrite lookup_insert_eq. simpl. destruct (decide (j = i)) as [->|Hji].
    + rewrite decide_True by done. by apply list_lookup_insert_eq.
    + rewrite decide_False by naive_solver. rewrite list_lookup_insert_ne by lia. by rewrite Hp.
  - rewrite lookup_insert_ne by done. by rewrite decide_False by naive_solver.
Qed.
Lemma page_ok_entry m p i : page_ok m p → 0 ≤ i < 1024 → ∃ w, entry m p i = Some w.
Proof.
  intros (pg & Hp & Hl & _) Hi. unfold entry. rewrite Hp. simpl. apply lookup_lt_is_Some_2. lia.
Qed.
Lemma load_word_Ret m p i w : entry m p i = Some w → load_word (p, i) m = Ret (w, m).
Proof.
  unfold entry, load_word. simpl. destruct (pages m !! p) as [pg|]; [|done]. simpl. by intros ->.
Qed.

(** ** Changes that are confined to one directory *)
(** Only pages of [pd] and free pages change, and [pd] only takes free ones. *)
Definition kernel_page m (p : Z) : Prop :=
  ∃ k, 0 ≤ k < bit_cnt (used_map (kernel_pool m)) ∧ p = pool_page (kernel_pool m) k.
Definition same_pools m m' : Prop :=
  (∀ p, kernel_page m' p ↔ kernel_page m p) ∧ user_pool m' = user_pool m ∧ init_ram_pages m' = init_ram_pages m.
Record confined m (pd : Z) m' : Prop := {
  cf_pages p : pages m' !! p ≠ pages m !! p → owns m pd p ∨ kernel_page m p ∧ ¬ used m p;
  cf_used p : used m p → used m' p;
  cf_owns p : owns m' pd p → owns m pd p ∨ ¬ used m p;
  cf_pools : same_pools m m';
  cf_table i e : 0 ≤ i < 768 → entry m pd i = Some e → e ≠ 0 → entry m' pd i = Some e }.
Lemma owns_used m pd p : wf_pd m pd → owns m pd p → used m p.
Proof.
  intros [Hd Ht _] [->|(i & e & Hi & He & Hne & ->)]; [by destruct Hd as (? & ? & ? & ?)|].
  by destruct (Ht i e Hi He Hne) as (_ & _ & (? & ? & ? & ?) & _).
Qed.
Lemma same_pools_trans m1 m2 m3 : same_pools m1 m2 → same_pools m2 m3 → same_pools m1 m3.
Proof. intros (A1 & A2 & A3) (B1 & B2 & B3). split; [intros p; by rewrite B1|]. split; congruence. Qed.
Lemma used_kernel m p : used m p → kernel_page m p.
Proof. intros (k & Hk & Hp & _). by exists k. Qed.
Lemma confined_refl m pd : confined m pd m.
Proof. split; auto; done. Qed.
Lemma confined_trans m1 m2 m3 pd : wf_pd m2 pd → confined m1 pd m2 → confined m2 pd m3 → confined m1 pd m3.
Proof.
  intros Hwf. pose proof (λ p, owns_used m2 pd p Hwf) as Hown. revert Hwf. intros _.
  intros [A1 A2 A3 A4 A5] [B1 B2 B3 B4 B5]. split; [|auto| |by eapply same_pools_trans|auto].
  - intros p Hp. destruct (decide (pages m2 !! p = pages m1 !! p)) as [He|Hne]; [|by apply A1].
    rewrite <-He in Hp. destruct (B1 p Hp) as [Ho|[Hk Hu]].
    + (* a page taken in the first step is a free one *)
      destruct (A3 p Ho) as [?|Hn]; [by left|]. right. split; [|done]. apply A4. by apply used_kernel, Hown.
    + right. split; [by apply A4|auto].
  - intros p [Ho|Hu]%B3; [by apply A3|]. right. auto.
Qed.
Lemma confined_user m pd m' p : wf_pd m pd → confined m pd m' → ¬ kernel_page m p → pages m' !! p = pages m !! p.
Proof.
  intros Hwf C Hn. destruct (decide (pages m' !! p = pages m !! p)) as [|Hne]; [done|]. destruct Hn.
  destruct (cf_pages _ _ _ C p Hne) as [Ho|[Hk _]]; [|done]. by eapply used_kernel, owns_used.
Qed.
Lemma entry_frame m m' p i : pages m' !! p = pages m !! p → entry m' p i = entry m p i.
Proof. unfold entry. by intros ->. Qed.
Lemma page_ok_frame m m' p :
  pages m' !! p = pages m !! p → (∀ p, used m p → used m' p) → page_ok m p → page_ok m' p.
Proof. intros He Hu (pg & Hp & Hl & H). exists pg. rewrite He. auto. Qed.
Lemma walk_user m pd va e :
  user va → entry m pd (pd_no va) = Some e → walk m pd va = if e =? 0 then None else entry m (table_of e) (pt_no va).
Proof. intros _ He. unfold walk. by rewrite He. Qed.
(** A directory none of whose pages changes. *)
Lemma frame_pd m m' pd :
  wf_pd m pd → (∀ p, owns m pd p → pages m' !! p = pages m !! p) → (∀ p, used m p → used m' p) →
  wf_pd m' pd ∧ (∀ p, owns m' pd p ↔ owns m pd p) ∧ ∀ va, user va → walk m' pd va = walk m pd va.
Proof.
  intros Hwf Hp Hu. assert (∀ i, entry m' pd i = entry m pd i) as He by (intros; apply entry_frame, Hp; by left).
  pose proof Hwf as [H1 H2 H3]. split; [split|split].
  - eapply page_ok_frame; [apply Hp; by left|done..].
  - intros i e Hi. rewrite He. intros Hie Hne. destruct (H2 i e Hi Hie Hne) as (? & ? & ? & ?).
    split; [done|]. split; [done|]. split; [|done]. eapply page_ok_frame; [|done..]. apply Hp. right. by exists i, e.
  - intros i j e e' Hi Hj. rewrite !He. by apply H3.
  - intros p. unfold owns. by setoid_rewrite He.
  - intros va Hva. destruct (page_ok_entry m pd (pd_no va) H1) as [e Hve]; [pose proof (pd_no_user va Hva); lia|].
    rewrite !(walk_user _ pd va e) by (rewrite ?He; done). destruct (Z.eqb_spec e 0); [done|].
    apply entry_frame, Hp. right. exists (pd_no va), e. pose proof (pd_no_user va Hva). auto.
Qed.
Lemma confined_other m pd m' pd' :
  confined m pd m' → wf_pd m pd' → separate m pd pd' →
  wf_pd m' pd' ∧ (∀ p, owns m' pd' p ↔ owns m pd' p) ∧ separate m' pd pd' ∧
  ∀ va, user va → walk m' pd' va = walk m pd' va.
Proof.
  intros [C1 C2 C3 C4 C5] Hwf Hs. destruct (frame_pd m m' pd') as (H1 & H2 & H3); [done| |done|].
  - intros p Ho. destruct (decide (pages m' !! p = pages m !! p)) as [|Hne]; [done|].
    destruct (C1 p Hne) as [Hp|[_ Hp]]; [by destruct (Hs p)|]. by apply (owns_used m pd') in Ho.
  - split; [done|]. split; [done|]. split; [|done]. intros p Hp Hp'%H2.
    destruct (C3 p Hp) as [Ho|Ho]; [by apply (Hs p)|]. by apply (owns_used m pd') in Hp'.
Qed.

(** ** Looking a page up *)
Lemma lookup_page_false m pd va e :
  wf_pd m pd → user va → entry m pd (pd_no va) = Some e →
  lookup_page pd va false m = Ret (if e =? 0 then None else Some (table_of e, pt_no va), m).
Proof.
  intros Hwf Hu He. unfold lookup_page. rewrite (bindM_Ret (assertM _) _ m tt m) by done.
  rewrite (bindM_Ret _ _ _ _ _ (load_word_Ret _ _ _ _ He)). destruct (Z.eqb_spec e 0) as [->|Hne]; [done|].
  rewrite (bindM_Ret (retM true) _ m true m) by done. cbn [negb].
  rewrite (bindM_Ret _ _ _ _ _ (load_word_Ret _ _ _ _ He)).
  destruct (wp_tables m pd Hwf (pd_no va) e) as (H1 & H2 & _); [by apply pd_no_user|done..|].
  rewrite (bindM_Ret (liftO _) _ m (table_of e) m); [done|]. unfold liftO. by rewrite pde_get_pt_Ret.
Qed.
(** Storing an entry of an existing table. *)
Lemma pt_no_bound va : user va → 0 ≤ pt_no va < 1024.
Proof. unfold user, PHYS_BASE. intros H. rewrite pt_no_mod by lia. apply Z.mod_pos_bound. lia. Qed.
Lemma store_word_Ret m p i w :
  page_ok m p → 0 ≤ i < 1024 →
  ∃ pg, pages m !! p = Some pg ∧ length pg = 1024%nat ∧
    store_word (p, i) w m = Ret (tt, set_pages (<[p := <[Z.to_nat i := w]> pg]> (pages m)) m).
Proof.
  intros (pg & Hp & Hl & _) Hi. exists pg. split; [done|]. split; [done|]. unfold store_word. simpl.
  rewrite Hp, Hl. by rewrite (proj2 (Z.ltb_lt _ _)) by lia.
Qed.
Lemma store_pte m pd va e w :
  wf_pd m pd → user va → entry m pd (pd_no va) = Some e → e ≠ 0 →
  ∃ ps, store_word (table_of e, pt_no va) w m = Ret (tt, set_pages ps m) ∧
    let m' := set_pages ps m in
    wf_pd m' pd ∧ confined m pd m' ∧
    ∀ va', user va' → walk m' pd va' = if decide (va' / 4096 = va / 4096) then Some w else walk m pd va'.
Proof.
  intros Hwf Hu He Hne. pose proof Hwf as [H1 H2 H3]. pose proof (pd_no_user va Hu) as Hi. pose proof (pt_no_bound va Hu) as Hj.
  destruct (H2 (pd_no va) e Hi He Hne) as (Hp & Hb & Hok & Hnpd).
  destruct (store_word_Ret m (table_of e) (pt_no va) w Hok Hj) as (pg & Hpg & Hlen & ->).
  eexists. split; [done|]. cbv zeta. set (m' := set_pages _ m).
  assert (∀ q j, 0 ≤ j → entry m' q j = if decide (q = table_of e ∧ j = pt_no va) then Some w else entry m q j) as Hent
    by (intros q j Hj0; apply entry_store; [done|lia..]).
  assert (∀ i, 0 ≤ i → entry m' pd i = entry m pd i) as Hpd by (intros i Hi0; rewrite Hent, decide_False by naive_solver; done).
  assert (∀ q, page_ok m q → page_ok m' q) as Hoks.
  { intros q (pq & Hq & Hlq & Huq). destruct (decide (q = table_of e)) as [->|Hqn].
    - eexists. split; [apply lookup_insert_eq|]. split; [by rewrite length_insert|done].
    - exists pq. simpl. by rewrite lookup_insert_ne. }
  split; [|split].
  - split; [by apply Hoks| |].
    + intros i e' Hi'. rewrite Hpd by lia. intros Hie Hne'. destruct (H2 i e' Hi' Hie Hne') as (? & ? & ? & ?). auto.
    + intros i j e1 e2 Hi1 Hj1. rewrite !Hpd by lia. by apply H3.
  - split; [|done| |done|intros i e' Hi' Hie _; by rewrite Hpd by lia].
    + intros p Hdiff. left. simpl in Hdiff. destruct (decide (p = table_of e)) as [->|Hpn].
      * right. by exists (pd_no va), e.
      * by rewrite lookup_insert_ne in Hdiff.
    + intros p [->|(i & e' & Hi' & Hie & Hne' & ->)]; left; [by left|]. right. exists i, e'.
      by rewrite Hpd in Hie by lia.
  - intros va' Hu'. pose proof (pd_no_user va' Hu') as Hi'. pose proof (pt_no_bound va' Hu').
    assert (va' / 4096 = va / 4096 ↔ pd_no va' = pd_no va ∧ pt_no va' = pt_no va) as Hpage
      by (symmetry; unfold user, PHYS_BASE in *; apply indices_page; lia).
    destruct (page_ok_entry m pd (pd_no va') H1) as [e' He']; [lia|].
    rewrite (walk_user m' pd va' e') by (rewrite ?Hpd by lia; done). rewrite (walk_user m pd va' e') by done.
    rewrite Hent by lia. destruct (decide (va' / 4096 = va / 4096)) as [Hs|Hs].
    + apply Hpage in Hs as [Hs1 Hs2]. rewrite Hs1, He in He'. injection He' as <-.
      rewrite (proj2 (Z.eqb_neq _ _) Hne). by rewrite decide_True.
    + destruct (Z.eqb_spec e' 0) as [|Hne']; [done|]. rewrite decide_False; [done|]. intros [Ht Hpt]. apply Hs, Hpage.
      split; [|done]. by apply (H3 _ _ e' e).
Qed.

(** ** Creating a table *)
(** A page of the kernel pool that the allocator hands out. *)
Lemma palloc_fresh m m' pg k :
  pool_wf (kernel_pool m) → pg = pool_page (kernel_pool m) k → first_fit (kernel_pool m) 1 k →
  marked (kernel_pool m) k 1 true (kernel_pool m') →
  valid_page pg ∧ ¬ used m pg ∧ used m' pg ∧ (∀ p, used m p → used m' p) ∧ pool_wf (kernel_pool m').
Proof.
  intros [Hw Hb [q Hq] He] -> [(Hk & Hk1 & Hfree) _] (Hw' & Hb' & Hc' & Hu').
  unfold pool_page in *. change PGSIZE with 4096 in *. split; [|split; [|split; [|split]]].
  - split; [lia|]. exists (q + k). lia.
  - intros (j & Hj & Heq & Hin). unfold pool_page in Heq. change PGSIZE with 4096 in Heq.
    assert (j = k) as -> by lia. rewrite Hfree in Hin by lia. done.
  - exists k. split; [lia|]. unfold pool_page. rewrite Hb'. split; [done|]. rewrite Hu' by lia.
    rewrite (proj2 (Z.leb_le k k)), (proj2 (Z.ltb_lt k (k + 1))) by lia. done.
  - intros p (j & Hj & -> & Hin). exists j. split; [lia|]. unfold pool_page. rewrite Hb'. split; [done|].
    rewrite Hu' by lia. by destruct (_ && _).
  - done.
Qed.
Lemma palloc_table m :
  pool_wf (kernel_pool m) →
  ∃ r m', palloc_get_page PAL_ZERO m = Ret (r, m') ∧ same_cpu m m' ∧ pool_wf (kernel_pool m') ∧
    (∀ p, used m p → used m' p) ∧ same_pools m m' ∧
    match r with
    | None => pages m' = pages m
    | Some pt =>
        valid_page pt ∧ kernel_page m pt ∧ ¬ used m pt ∧ used m' pt ∧ pages m' !! pt = Some (replicate 1024 0) ∧
        ∀ p, p ≠ pt → pages m' !! p = pages m !! p
    end.
Proof.
  intros Hp. destruct (palloc_get_multiple_spec PAL_ZERO 1 m Hp) as (r & m' & Hr & Hcpu & Hup & Hm); [done|done|].
  exists r, m'. split; [done|]. split; [done|]. simpl in Hup. destruct r as [pg|].
  - destruct Hm as (k & Hpg & Hff & Hmk & Ho & Hz). simpl in Hmk.
    destruct (palloc_fresh m m' pg k) as (H1 & H2 & H3 & H4 & H5); [done..|].
    split; [done|]. split; [done|]. split.
    { destruct Hmk as (_ & Hb & Hc & _). split; [|split; [done|apply Hcpu]]. intros p. unfold kernel_page, pool_page. by rewrite Hb, Hc. }
    split; [done|]. split; [simpl in Hff; destruct Hff as [(Hk0 & Hk1 & _) _]; exists k; split; [lia|done]|]. split; [done|]. split; [done|]. split.
    + simpl in Hz. specialize (Hz 0). rewrite Z.mul_0_r, Z.add_0_r in Hz. apply Hz. lia.
    + intros p Hne. apply Ho. intros j Hj ->. apply Hne. replace j with 0 by lia. lia.
  - destruct Hm as (_ & Hk & Hpg). simpl in Hk. unfold used, same_pools, kernel_page. rewrite Hk.
    split; [done|]. split; [done|]. split; [|done]. split; [done|]. split; [done|apply Hcpu].
Qed.
(** Installing a fresh table of zeros in an empty directory entry. *)
Lemma add_table m m1 pd va pt z :
  length z = 1024%nat → (∀ i, 0 ≤ i < 1024 → z !! Z.to_nat i = Some 0) →
  wf_pd m pd → user va → entry m pd (pd_no va) = Some 0 → valid_page pt → ¬ used m pt → used m1 pt →
  pages m1 !! pt = Some z → (∀ p, p ≠ pt → pages m1 !! p = pages m !! p) →
  (∀ p, used m p → used m1 p) → kernel_page m pt → same_pools m m1 →
  ∃ ps, store_word (pd, pd_no va) (pt - PHYS_BASE + 7) m1 = Ret (tt, set_pages ps m1) ∧
    let m' := set_pages ps m1 in
    wf_pd m' pd ∧ confined m pd m' ∧ entry m' pd (pd_no va) = Some (pt - PHYS_BASE + 7) ∧
    ∀ va', user va' → translate m' pd va' = translate m pd va'.
Proof.
  intros Hzl Hz0 Hwf Hu He Hpt Hnu Hu1 Hz Hp Hus Hkp Hsp. pose proof Hwf as [H1 H2 H3]. pose proof (pd_no_user va Hu) as Hi.
  set (w := pt - PHYS_BASE + 7).
  assert (table_of w = pt) as Htw by (by apply table_of_flags).
  assert (has_flag w PTE_P = true ∧ 0 ≤ w < 2 ^ 30) as [Hwp Hwb].
  { pose proof (phys_aligned pt Hpt) as [q Hq]. destruct Hpt as [Hpt _]. unfold w, PHYS_BASE in *. split; [|lia].
    change PTE_P with (2 ^ 0). apply flag_low; [by exists q|lia..]. }
  clearbody w. assert (pd ≠ pt) as Hne by (intros ->; apply Hnu; by apply (owns_used m pt pt); [|left]).
  assert (∀ q, page_ok m q → page_ok m1 q) as Hok1.
  { intros q Hq. eapply page_ok_frame; [|done..]. apply Hp. intros ->. by destruct Hq as (? & ? & ? & ?). }
  destruct (store_word_Ret m1 pd (pd_no va) w) as (pg & Hpg & Hlen & ->); [by apply Hok1|lia|].
  eexists. split; [done|]. cbv zeta. set (m' := set_pages _ m1).
  assert (∀ q j, 0 ≤ j → entry m' q j = if decide (q = pd ∧ j = pd_no va) then Some w else entry m1 q j) as Hent
    by (intros q j Hj0; apply entry_store; [done|lia..]).
  assert (∀ q, q ≠ pd → pages m' !! q = pages m1 !! q) as Hmne by (intros q Hq; by apply lookup_insert_ne).
  assert (∃ d, pages m' !! pd = Some d ∧ length d = 1024%nat) as Hmpd
    by (eexists; split; [apply lookup_insert_eq|by rewrite length_insert]).
  assert (∀ p, used m1 p → used m' p) as Hmu by done. assert (same_pools m1 m') as Hsp' by done.
  clearbody m'. assert (∀ q j, q ≠ pt → entry m1 q j = entry m q j) as Hent1 by (intros q j Hq; by apply entry_frame, Hp).
  assert (∀ i, 0 ≤ i → entry m' pd i = if decide (i = pd_no va) then Some w else entry m pd i) as Hpd.
  { intros i Hi0. rewrite Hent, Hent1 by done. by destruct (decide (i = pd_no va)); [rewrite decide_True|rewrite decide_False by naive_solver]. }
  assert (∀ q, page_ok m1 q → page_ok m' q) as Hoks.
  { intros q (pq & Hq & Hlq & Huq). destruct (decide (q = pd)) as [->|Hqn].
    - destruct Hmpd as (d & ? & ?). exists d. auto.
    - exists pq. rewrite Hmne by done. auto. }
  assert (∀ i e, 0 ≤ i < 768 → entry m pd i = Some e → e ≠ 0 → table_of e ≠ pt) as Hntab.
  { intros i e Hi' Hie Hne' Heq. apply Hnu. apply (owns_used m pd pt Hwf). right. by exists i, e. }
  split; [|split; [|split]].
  - split; [by apply Hoks, Hok1| |].
    + intros i e Hi'. rewrite Hpd by lia. case_decide as Hc.
      * intros [= <-] _. split; [done|]. split; [done|]. rewrite Htw. split; [|done]. apply Hoks.
        by exists z.
      * intros Hie Hne'. destruct (H2 i e Hi' Hie Hne') as (? & ? & ? & ?). auto 10.
    + intros i j e1 e2 Hi1 Hj1. rewrite !Hpd by lia.
      destruct (decide (i = pd_no va)) as [Ei|Ei], (decide (j = pd_no va)) as [Ej|Ej]; [congruence| | |by apply H3].
      * intros [= <-] Hj2 _ Hn2. rewrite Htw. intros Heq. by destruct (Hntab j e2).
      * intros Hi2 [= <-] Hn1 _. rewrite Htw. intros Heq. by destruct (Hntab i e1).
  - split.
    + intros p Hdiff. destruct (decide (p = pt)) as [->|Hpn]; [by right|]. left. left.
      destruct (decide (p = pd)) as [|Hpd']; [done|]. rewrite Hmne in Hdiff by done.
      by rewrite Hp in Hdiff.
    + auto.
    + intros p [->|(i & e & Hi' & Hie & Hne' & ->)]; [left; by left|]. rewrite Hpd in Hie by lia. case_decide.
      * injection Hie as <-. right. by rewrite Htw.
      * left. right. by exists i, e.
    + by eapply same_pools_trans.
    + intros i e Hi' Hie Hne'. rewrite Hpd, decide_False by (lia || congruence). done.
  - rewrite Hpd by lia. by rewrite decide_True.
  - intros va' Hu'. pose proof (pd_no_user va' Hu') as Hi'. pose proof (pt_no_bound va' Hu').
    unfold translate. destruct (page_ok_entry m pd (pd_no va') H1) as [e' He']; [lia|].
    rewrite (walk_user m pd va' e') by done. unfold walk. rewrite Hpd by lia. case_decide as Hc.
    + rewrite Hc, He in He'. injection He' as <-. simpl. rewrite (proj2 (Z.eqb_neq w 0)) by (intros ->; done).
      rewrite Htw, Hent, decide_False by naive_solver.
      replace (entry m1 pt (pt_no va')) with (Some 0); [done|]. unfold entry. rewrite Hz.
      symmetry. by apply Hz0.
    + rewrite He'. simpl. destruct (Z.eqb_spec e' 0) as [|Hne']; [done|].
      destruct (H2 (pd_no va') e' Hi' He' Hne') as (_ & _ & _ & Hnpd). rewrite Hent, decide_False by naive_solver.
      by rewrite Hent1 by (by eapply Hntab).
Qed.

(** ** The operations *)
Definition same_page (va va' : Z) : bool := va / 4096 =? va' / 4096.
Lemma lookup_page_true m pd va :
  wf_pd m pd → pool_wf (kernel_pool m) → user va →
  ∃ r m', lookup_page pd va true m = Ret (r, m') ∧ same_cpu m m' ∧ pool_wf (kernel_pool m') ∧
    wf_pd m' pd ∧ confined m pd m' ∧
    (∀ va', user va' → translate m' pd va' = translate m pd va') ∧
    match r with
    | None => entry m pd (pd_no va) = Some 0
    | Some w => ∃ e, entry m' pd (pd_no va) = Some e ∧ e ≠ 0 ∧ w = (table_of e, pt_no va)
    end.
Proof.
  intros Hwf Hpw Hu. pose proof (pd_no_user va Hu) as Hi.
  destruct (page_ok_entry m pd (pd_no va) (wp_dir _ _ Hwf)) as [e He]; [lia|].
  unfold lookup_page. rewrite (bindM_Ret (assertM _) _ m tt m)
    by (apply assertM_true; unfold is_user_vaddr; destruct Hu; by apply Z.ltb_lt).
  rewrite (bindM_Ret _ _ _ _ _ (load_word_Ret _ _ _ _ He)).
  destruct (Z.eqb_spec e 0) as [->|Hne].
  - destruct (palloc_table m Hpw) as (r & m1 & Hr & Hcpu & Hpw1 & Hus & Hsp & Hm). destruct r as [pt|].
    + destruct Hm as (Hv & Hkp & Hnu & Hu1 & Hz & Hp).
      destruct (add_table m m1 pd va pt (replicate 1024 0)) as (ps & Hst & Hwf' & Hcf & He' & Htr);
        [by rewrite length_replicate|intros i' Hi'; apply lookup_replicate_2; lia|done..|].
      set (w := pt - PHYS_BASE + 7) in *. set (m' := set_pages ps m1) in *.
      rewrite (bindM_Ret _ _ _ true m').
      2: { rewrite (bindM_Ret _ _ _ _ _ Hr). rewrite (bindM_Ret (liftO _) _ m1 w m1) by (unfold liftO; by rewrite pde_create_Ret).
           by rewrite (bindM_Ret _ _ _ _ _ Hst). }
      cbn [negb]. rewrite (bindM_Ret _ _ _ _ _ (load_word_Ret _ _ _ _ He')).
      assert (w ≠ 0) as Hw0 by (destruct Hv as [? _]; unfold w; lia).
      destruct (wp_tables _ _ Hwf' _ _ Hi He' Hw0) as (H1 & H2 & _).
      rewrite (bindM_Ret (liftO _) _ m' (table_of w) m') by (unfold liftO; by rewrite pde_get_pt_Ret).
      eexists _, m'. split; [done|]. split; [done|]. split; [done|]. split; [done|]. split; [done|]. split; [done|].
      by exists w.
    + rewrite (bindM_Ret _ _ _ false m1) by (by rewrite (bindM_Ret _ _ _ _ _ Hr)). cbn [negb].
      destruct (frame_pd m m1 pd) as (H1 & H2 & H3); [done|by rewrite Hm|done|].
      exists None, m1. split; [done|]. split; [done|]. split; [done|]. split; [done|].
      split; [|split; [intros va' Hva'; unfold translate; by rewrite H3|done]].
      split; [intros p; by rewrite Hm|done|intros p Hp%H2; by left|done|]. intros i e Hi' Hie _. rewrite <-Hie. apply entry_frame. by rewrite Hm.
  - rewrite (bindM_Ret (retM true) _ m true m) by done. cbn [negb].
    rewrite (bindM_Ret _ _ _ _ _ (load_word_Ret _ _ _ _ He)).
    destruct (wp_tables _ _ Hwf _ _ Hi He Hne) as (H1 & H2 & _).
    rewrite (bindM_Ret (liftO _) _ m (table_of e) m) by (unfold liftO; by rewrite pde_get_pt_Ret).
    eexists _, m. split; [done|]. split; [done|]. split; [done|]. split; [done|].
    split; [apply confined_refl|]. split; [done|]. by exists e.
Qed.
Lemma walk_entry m pd va e :
  wf_pd m pd → user va → entry m pd (pd_no va) = Some e → e ≠ 0 →
  ∃ w, walk m pd va = Some w ∧ load_word (table_of e, pt_no va) m = Ret (w, m).
Proof.
  intros Hwf Hu He Hne. pose proof (pd_no_user va Hu) as Hi. pose proof (pt_no_bound va Hu).
  destruct (wp_tables _ _ Hwf _ _ Hi He Hne) as (_ & _ & Hok & _).
  destruct (page_ok_entry m (table_of e) (pt_no va) Hok) as [w Hw]; [lia|]. exists w.
  split; [|by apply load_word_Ret]. rewrite (walk_user _ _ _ e) by done. by rewrite (proj2 (Z.eqb_neq _ _)).
Qed.
(** What a call must satisfy, by the assertions of [pagedir_set_page]. *)
Record can_map m (pd upage kpage : Z) : Prop := {
  cm_user : user upage;
  cm_aligned : (4096 | upage);
  cm_page : valid_page kpage;
  cm_ram : (kpage - PHYS_BASE) / 4096 < init_ram_pages m;
  cm_pd : pd ≠ init_page_dir m;
  cm_unmapped : translate m pd upage = None }.
Lemma pagedir_set_page_Ret m pd upage kpage w :
  wf_pd m pd → pool_wf (kernel_pool m) → can_map m pd upage kpage →
  ∃ ok m', pagedir_set_page pd upage kpage w m = Ret (ok, m') ∧ same_cpu m m' ∧ pool_wf (kernel_pool m') ∧
    wf_pd m' pd ∧ confined m pd m' ∧
    (∀ va, user va → translate m' pd va =
      if ok && same_page va upage then Some (user_pte kpage w) else translate m pd va) ∧
    (walk m pd upage ≠ None → ok = true).
Proof.
  intros Hwf Hpw [Hu Hal Hk Hram Hpd Hnone]. unfold pagedir_set_page.
  rewrite (bindM_Ret (assertM _) _ m tt m) by (apply assertM_true, Z.eqb_eq; rewrite pg_ofs_mod; by apply Z.mod_divide).
  rewrite (bindM_Ret (assertM _) _ m tt m) by (by apply assertM_true, Z.eqb_eq, valid_page_ofs).
  rewrite (bindM_Ret (assertM _) _ m tt m) by (apply assertM_true, Z.ltb_lt; by destruct Hu).
  rewrite (bindM_Ret getM _ m m m) by done.
  rewrite (bindM_Ret (liftO _) _ m (kpage - PHYS_BASE) m) by (unfold liftO; rewrite vtop_Ret; [done|apply Hk]).
  rewrite (bindM_Ret (assertM _) _ m tt m)
    by (apply assertM_true, Z.ltb_lt; change PTSHIFT with 12; rewrite Z.shiftr_div_pow2 by lia; done).
  rewrite (bindM_Ret (assertM _) _ m tt m) by (apply assertM_true; by rewrite (proj2 (Z.eqb_neq _ _))).
  destruct (lookup_page_true m pd upage Hwf Hpw Hu) as (r & m1 & Hr & Hcpu & Hpw1 & Hwf1 & Hcf1 & Htr & Hm).
  rewrite (bindM_Ret _ _ _ _ _ Hr). destruct r as [pte|].
  2: { exists false, m1. do 5 (split; [done|]). split; [done|]. intros []. by rewrite (walk_user _ _ _ 0). }
  destruct Hm as (e & He & Hne & ->). destruct (walk_entry m1 pd upage e Hwf1 Hu He Hne) as (old & Hwalk & Hload).
  rewrite (bindM_Ret _ _ _ _ _ Hload).
  assert (has_flag old PTE_P = false) as Hold.
  { rewrite <-Htr in Hnone by done. unfold translate in Hnone. rewrite Hwalk in Hnone. simpl in Hnone.
    by destruct (has_flag old PTE_P). }
  rewrite (bindM_Ret (assertM _) _ m1 tt m1) by (apply assertM_true; by rewrite Hold).
  rewrite (bindM_Ret (liftO _) _ m1 (user_pte kpage w) m1) by (unfold liftO; by rewrite pte_create_user_Ret).
  destruct (store_pte m1 pd upage e (user_pte kpage w) Hwf1 Hu He Hne) as (ps & Hst & Hwf2 & Hcf2 & Hw2).
  rewrite (bindM_Ret _ _ _ _ _ Hst). exists true, (set_pages ps m1).
  split; [done|]. split; [done|]. split; [done|]. split; [done|].
  split; [by apply (confined_trans m m1)|]. split; [|done]. intros va Hva. unfold translate at 1. rewrite Hw2 by done. simpl.
  unfold same_page. destruct (Z.eqb_spec (va / 4096) (upage / 4096)) as [Hs|Hs].
  - rewrite decide_True by done. simpl. by rewrite user_pte_present.
  - rewrite decide_False by done. rewrite <-Htr by done. done.
Qed.
Lemma pagedir_get_page_Ret m pd va :
  wf_pd m pd → user va → (∀ e, translate m pd va = Some e → 0 ≤ e < 2 ^ 30) →
  pagedir_get_page pd va m = Ret ((λ e, table_of e + va `mod` 4096) <$> translate m pd va, m).
Proof.
  intros Hwf Hu Hr. pose proof (pd_no_user va Hu) as Hi. unfold pagedir_get_page.
  rewrite (bindM_Ret (assertM _) _ m tt m) by (apply assertM_true, Z.ltb_lt; by destruct Hu).
  destruct (page_ok_entry m pd (pd_no va) (wp_dir _ _ Hwf)) as [e He]; [lia|].
  rewrite (bindM_Ret _ _ _ _ _ (lookup_page_false m pd va e Hwf Hu He)).
  destruct (Z.eqb_spec e 0) as [->|Hne].
  { unfold translate. by rewrite (walk_user _ _ _ 0). }
  destruct (walk_entry m pd va e Hwf Hu He Hne) as (w & Hwalk & Hload). rewrite (bindM_Ret _ _ _ _ _ Hload).
  unfold translate in *. rewrite Hwalk in *. simpl in *. destruct (has_flag w PTE_P); [|done].
  specialize (Hr w eq_refl). pose proof (Z.mul_div_le w 4096). pose proof (Z.div_pos w 4096).
  pose proof (Z.mod_pos_bound va 4096). pose proof (Z.div_lt_upper_bound w 4096 (2 ^ 18)).
  rewrite (bindM_Ret (liftO _) _ m (table_of w) m).
  - unfold retM. simpl. rewrite pg_ofs_mod, u32_small; [done|]. unfold table_of, PHYS_BASE. lia.
  - unfold liftO, pte_get_page. rewrite land_addr, ptov_Ret by lia. done.
Qed.

(** ** Mappings: entries without their accessed and dirty bits *)
Definition MAP : Z := 0xfffff007.
Definition mapping m (pd va : Z) : option Z := (λ e, Z.land e MAP) <$> translate m pd va.
Lemma present_MAP e e' : Z.land e MAP = Z.land e' MAP → has_flag e PTE_P = has_flag e' PTE_P.
Proof.
  intros H. unfold has_flag. change PTE_P with (Z.land MAP PTE_P). by rewrite !Z.land_assoc, H.
Qed.
Lemma lor_MAP e f : Z.land f MAP = 0 → Z.land (Z.lor e f) MAP = Z.land e MAP.
Proof. intros H. rewrite Z.land_lor_distr_l, H. apply Z.lor_0_r. Qed.
Lemma land_MAP e c : Z.land c MAP = MAP → Z.land (Z.land e c) MAP = Z.land e MAP.
Proof. intros H. by rewrite <-Z.land_assoc, H. Qed.
Lemma absent_cleared e : has_flag (Z.land e (u32 (Z.lnot PTE_P))) PTE_P = false.
Proof.
  unfold has_flag. rewrite <-Z.land_assoc. change (Z.land (u32 (Z.lnot PTE_P)) PTE_P) with 0.
  by rewrite Z.land_0_r.
Qed.
Definition active m : Z := cr3 m + PHYS_BASE.
(** The processor after [invalidate_pagedir]. *)
Definition flushed m (pd : Z) : machine := if active m =? pd then set_tlb ∅ m else m.
Lemma invalidate_Ret m pd : 0 ≤ cr3 m < 2 ^ 30 → invalidate_pagedir pd m = Ret (tt, flushed m pd).
Proof.
  intros Hc. unfold invalidate_pagedir, active_pd.
  rewrite (bindM_Ret _ _ m (active m) m) by (unfold bindM, getM, liftO; by rewrite ptov_Ret).
  unfold flushed. destruct (Z.eqb_spec (active m) pd) as [<-|]; [|done]. unfold pagedir_activate.
  rewrite (bindM_Ret getM _ m m m) by done. unfold active. cbn [default from_option id].
  rewrite (bindM_Ret (liftO _) _ m (cr3 m) m); [by destruct m|].
  unfold liftO. rewrite vtop_Ret by lia. do 2 f_equal. lia.
Qed.
Lemma flushed_frame m pd pd' :
  (∀ va, walk (flushed m pd) pd' va = walk m pd' va) ∧ (wf_pd m pd' → wf_pd (flushed m pd) pd') ∧
  (∀ m0, confined m0 pd m → confined m0 pd (flushed m pd)) ∧ kernel_pool (flushed m pd) = kernel_pool m ∧
  cr3 (flushed m pd) = cr3 m ∧ init_page_dir (flushed m pd) = init_page_dir m.
Proof.
  unfold flushed. destruct (active m =? pd); [|by split_and!].
  split_and!; try done; [by intros []|by intros m0 []].
Qed.
(** The effect of an operation on one entry: the mapping of [va]'s page
    becomes [f] of what it was. *)
Record changes m (pd : Z) m' (va : Z) (f : option Z → option Z) : Prop := {
  ch_wf : wf_pd m' pd;
  ch_confined : confined m pd m';
  ch_pool : kernel_pool m' = kernel_pool m;
  ch_cr3 : cr3 m' = cr3 m;
  ch_init : init_page_dir m' = init_page_dir m;
  ch_mapping va' : user va' → mapping m' pd va' =
    if same_page va' va then f (mapping m pd va') else mapping m pd va';
  ch_tlb : tlb m' = tlb m ∨ tlb m' = ∅ }.
Lemma changes_store m pd va e w ps f :
  wf_pd m pd → user va → entry m pd (pd_no va) = Some e → e ≠ 0 →
  store_word (table_of e, pt_no va) w m = Ret (tt, set_pages ps m) →
  (∀ va', user va' → va' / 4096 = va / 4096 → 
    (λ e, Z.land e MAP) <$> (if has_flag w PTE_P then Some w else None) = f (mapping m pd va')) →
  changes m pd (set_pages ps m) va f ∧ changes m pd (flushed (set_pages ps m) pd) va f.
Proof.
  intros Hwf Hu He Hne Hs Hf. destruct (store_pte m pd va e w Hwf Hu He Hne) as (ps' & Hs' & Hwf' & Hcf & Hw).
  rewrite Hs in Hs'. injection Hs' as Heq. subst ps'.
  assert (∀ va', user va' → mapping (set_pages ps m) pd va' =
    if same_page va' va then f (mapping m pd va') else mapping m pd va') as Hmap.
  { intros va' Hu'. unfold mapping at 1, translate. rewrite Hw by done. unfold same_page.
    destruct (Z.eqb_spec (va' / 4096) (va / 4096)) as [Hp|Hp].
    - rewrite decide_True by done. simpl. by rewrite <-Hf.
    - by rewrite decide_False by done. }
  destruct (flushed_frame (set_pages ps m) pd pd) as (F1 & F2 & F3 & F4 & F5 & F6).
  split; split; try done; auto.
  - intros va' Hu'. rewrite <-Hmap by done. unfold mapping, translate. by rewrite F1.
  - unfold flushed. destruct (_ =? pd); auto.
Qed.
Lemma changes_refl m pd va f :
  wf_pd m pd → (∀ va', user va' → va' / 4096 = va / 4096 → f (mapping m pd va') = mapping m pd va') →
  changes m pd m va f.
Proof.
  intros Hwf Hf. split; try done; [apply confined_refl| |by left]. intros va' Hu'. unfold same_page.
  destruct (Z.eqb_spec (va' / 4096) (va / 4096)); [|done]. by rewrite Hf.
Qed.
Lemma walk_same_page m pd va va' : user va → user va' → va' / 4096 = va / 4096 → walk m pd va' = walk m pd va.
Proof.
  unfold user, PHYS_BASE. intros H H' Hp. apply indices_page in Hp as [H1 H2]; [|lia..]. unfold walk. by rewrite H1, H2.
Qed.
Lemma mapping_same_page m pd va va' : user va → user va' → va' / 4096 = va / 4096 → mapping m pd va' = mapping m pd va.
Proof. intros. unfold mapping, translate. by rewrite (walk_same_page m pd va va'). Qed.
Lemma pagedir_clear_page_Ret m pd upage :
  wf_pd m pd → 0 ≤ cr3 m < 2 ^ 30 → user upage → (4096 | upage) →
  ∃ m', pagedir_clear_page pd upage m = Ret (tt, m') ∧ changes m pd m' upage (λ _, None) ∧
    (active m = pd → mapping m pd upage ≠ None → tlb m' = ∅).
Proof.
  intros Hwf Hc Hu Hal. pose proof (pd_no_user upage Hu) as Hi. unfold pagedir_clear_page.
  rewrite (bindM_Ret (assertM _) _ m tt m) by (apply assertM_true, Z.eqb_eq; rewrite pg_ofs_mod; by apply Z.mod_divide).
  rewrite (bindM_Ret (assertM _) _ m tt m) by (apply assertM_true, Z.ltb_lt; by destruct Hu).
  destruct (page_ok_entry m pd (pd_no upage) (wp_dir _ _ Hwf)) as [e He]; [lia|].
  rewrite (bindM_Ret _ _ _ _ _ (lookup_page_false m pd upage e Hwf Hu He)).
  assert (mapping m pd upage = None → changes m pd m upage (λ _, None) ∧
    (active m = pd → mapping m pd upage ≠ None → tlb m = ∅)) as Hnone.
  { intros Hn. split; [|done]. apply changes_refl; [done|]. intros va' Hu' Hp. by rewrite (mapping_same_page m pd upage). }
  destruct (Z.eqb_spec e 0) as [->|Hne].
  { exists m. split; [done|]. apply Hnone. unfold mapping, translate. by rewrite (walk_user _ _ _ 0). }
  destruct (walk_entry m pd upage e Hwf Hu He Hne) as (w & Hwalk & Hload). rewrite (bindM_Ret _ _ _ _ _ Hload).
  destruct (has_flag w PTE_P) eqn:Ew.
  2: { exists m. split; [done|]. apply Hnone. unfold mapping, translate. rewrite Hwalk. simpl. by rewrite Ew. }
  destruct (store_pte m pd upage e (Z.land w (u32 (Z.lnot PTE_P))) Hwf Hu He Hne) as (ps & Hst & _).
  rewrite (bindM_Ret _ _ _ _ _ Hst). rewrite invalidate_Ret by done. eexists. split; [done|]. split.
  - eapply changes_store; [done..|]. intros va' _ _. by rewrite absent_cleared.
  - intros Ha _. unfold flushed. by rewrite (proj2 (Z.eqb_eq (active (set_pages ps m)) pd)).
Qed.
Lemma set_flag_Ret m pd va flag v :
  wf_pd m pd → 0 ≤ cr3 m < 2 ^ 30 → user va → Z.land flag MAP = 0 → Z.land (u32 (Z.lnot flag)) MAP = MAP →
  ∃ m', set_flag flag pd va v m = Ret (tt, m') ∧ changes m pd m' va id.
Proof.
  intros Hwf Hc Hu Hf Hf'. pose proof (pd_no_user va Hu) as Hi. unfold set_flag.
  destruct (page_ok_entry m pd (pd_no va) (wp_dir _ _ Hwf)) as [e He]; [lia|].
  rewrite (bindM_Ret _ _ _ _ _ (lookup_page_false m pd va e Hwf Hu He)).
  destruct (Z.eqb_spec e 0) as [->|Hne].
  { exists m. split; [done|]. by apply changes_refl. }
  destruct (walk_entry m pd va e Hwf Hu He Hne) as (w & Hwalk & Hload). rewrite (bindM_Ret _ _ _ _ _ Hload).
  assert (∀ w' va', Z.land w' MAP = Z.land w MAP → user va' → va' / 4096 = va / 4096 →
    (λ e, Z.land e MAP) <$> (if has_flag w' PTE_P then Some w' else None) = id (mapping m pd va')) as Hsame.
  { intros w' va' Hw' Hu' Hp. rewrite (mapping_same_page m pd va va') by done. unfold mapping, translate.
    rewrite Hwalk, (present_MAP _ _ Hw'). simpl. destruct (has_flag w PTE_P); [|done]. simpl. by rewrite Hw'. }
  destruct v.
  - destruct (store_pte m pd va e (Z.lor w flag) Hwf Hu He Hne) as (ps & Hst & _).
    exists (set_pages ps m). split; [done|]. eapply changes_store; [done..|]. intros va'. apply Hsame. by apply lor_MAP.
  - destruct (store_pte m pd va e (Z.land w (u32 (Z.lnot flag))) Hwf Hu He Hne) as (ps & Hst & _).
    rewrite (bindM_Ret _ _ _ _ _ Hst). rewrite invalidate_Ret by done. eexists. split; [done|].
    eapply changes_store; [done..|]. intros va'. apply Hsame. by apply land_MAP.
Qed.

(** ** The processor *)
(** A memory access of a user program: a cached entry is used as it is; else
    the tables are walked, the entry's accessed bit (and dirty bit) is set and
    the entry is cached.  [None] is a page fault.  The accessed bit of directory
    entries, which the kernel never reads, is left out. *)
Definition mmu_access (va : Z) (write : bool) : M machine (option Z) := λ m,
  match tlb m !! (va / 4096) with
  | Some e => Ret (Some (Z.land e MAP), m)
  | None =>
      match translate m (active m) va with
      | None => Ret (None, m)
      | Some e =>
          (do r <- lookup_page (active m) va false;
           match r with
           | None => panicM
           | Some pte =>
               let e := Z.lor e (Z.lor PTE_A (if write then PTE_D else 0)) in
               run store_word pte e;
               run modifyM (λ m, set_tlb (<[va / 4096 := e]> (tlb m)) m);
               retM (Some (Z.land e MAP))
           end) m
      end
  end.
Lemma mmu_access_Ret m va write :
  wf_pd m (active m) → user va →
  (tlb m !! (va / 4096) = None →
   ∃ m', mmu_access va write m = Ret (mapping m (active m) va, m') ∧
     wf_pd m' (active m) ∧ confined m (active m) m' ∧ kernel_pool m' = kernel_pool m ∧ cr3 m' = cr3 m ∧
     init_page_dir m' = init_page_dir m ∧
     (∀ va', user va' → mapping m' (active m) va' = mapping m (active m) va') ∧
     (tlb m' = tlb m ∨ ∃ e, mapping m (active m) va = Some (Z.land e MAP) ∧ tlb m' = <[va / 4096 := e]> (tlb m))).
Proof.
  intros Hwf Hu Hmiss. unfold mmu_access. rewrite Hmiss. pose proof (pd_no_user va Hu) as Hi.
  destruct (translate m (active m) va) as [w|] eqn:Et.
  2: { exists m. unfold mapping at 1. rewrite Et. split; [done|]. split; [done|].
       split; [apply confined_refl|]. split_and!; auto. }
  destruct (page_ok_entry m (active m) (pd_no va) (wp_dir _ _ Hwf)) as [e He]; [lia|].
  rewrite (bindM_Ret _ _ _ _ _ (lookup_page_false m (active m) va e Hwf Hu He)).
  unfold translate in Et. destruct (Z.eqb_spec e 0) as [->|Hne]; [by rewrite (walk_user _ _ _ 0) in Et|].
  destruct (walk m (active m) va) as [w'|] eqn:Ew; [|done]. simpl in Et.
  destruct (has_flag w' PTE_P) eqn:Ep; [|done]. injection Et as ->. cbv zeta.
  set (w2 := Z.lor w _). assert (Z.land w2 MAP = Z.land w MAP) as Hw2 by (apply lor_MAP; by destruct write).
  assert (mapping m (active m) va = Some (Z.land w MAP)) as Hmap by (unfold mapping, translate; rewrite Ew; simpl; by rewrite Ep).
  destruct (store_pte m (active m) va e w2 Hwf Hu He Hne) as (ps & Hst & _).
  destruct (changes_store m (active m) va e w2 ps id Hwf Hu He Hne Hst) as [[H1 H2 H3 H4 H5 H6 H7] _].
  { intros va' Hu' Hp. rewrite (mapping_same_page m _ va va'), Hmap by done. rewrite (present_MAP _ _ Hw2), Ep. simpl.
    by rewrite Hw2. }
  rewrite (bindM_Ret _ _ _ _ _ Hst). eexists. split; [unfold bindM, modifyM, retM; by rewrite Hw2, Hmap|].
  split; [by destruct H1|]. split; [by destruct H2|]. split; [done|]. split; [done|]. split; [done|]. split.
  - intros va' Hu'. transitivity (mapping (set_pages ps m) (active m) va'); [done|]. rewrite H6 by done.
    by destruct (same_page va' va).
  - right. exists w2. by rewrite Hw2.
Qed.

(** ** All page directories together *)
(** [D]: the page directories that exist. *)
Record vm_inv (D : list Z) m : Prop := {
  vi_pool : pool_wf (kernel_pool m);
  vi_wf pd : pd ∈ D → wf_pd m pd;
  vi_sep pd pd' : pd ∈ D → pd' ∈ D → pd ≠ pd' → separate m pd pd';
  vi_active : active m ∈ D;
  vi_tlb va e : user va → tlb m !! (va / 4096) = Some e → mapping m (active m) va = Some (Z.land e MAP) }.
(** A call of the kernel, or an access of a user program. *)
Inductive vm_step (D : list Z) : machine → machine → Prop :=
  | step_set_page m m' pd upage kpage w ok :
      pd ∈ D → can_map m pd upage kpage → pagedir_set_page pd upage kpage w m = Ret (ok, m') → vm_step D m m'
  | step_clear_page m m' pd upage :
      pd ∈ D → user upage → (4096 | upage) → pagedir_clear_page pd upage m = Ret (tt, m') → vm_step D m m'
  | step_set_accessed m m' pd va v :
      pd ∈ D → user va → pagedir_set_accessed pd va v m = Ret (tt, m') → vm_step D m m'
  | step_set_dirty m m' pd va v :
      pd ∈ D → user va → pagedir_set_dirty pd va v m = Ret (tt, m') → vm_step D m m'
  | step_activate m m' pd : pd ∈ D → pagedir_activate (Some pd) m = Ret (tt, m') → vm_step D m m'
  | step_access m m' va write r : user va → mmu_access va write m = Ret (r, m') → vm_step D m m'.

Lemma used_valid m p : pool_wf (kernel_pool m) → used m p → valid_page p.
Proof.
  intros [Hw Hb [q Hq] He] (k & Hk & -> & _). unfold pool_page in *. change PGSIZE with 4096 in *.
  split; [lia|]. exists (q + k). lia.
Qed.
Lemma inv_cr3 D m : vm_inv D m → 0 ≤ cr3 m < 2 ^ 30.
Proof.
  intros H. destruct (used_valid m (active m)) as [Hv _]; [apply H| |unfold active, PHYS_BASE in Hv; lia].
  apply (owns_used m (active m)); [apply H, H|by left].
Qed.
(** A confined change preserves the invariant if the cached entries still
    agree with the tables. *)
Lemma inv_confined D m m' pd :
  vm_inv D m → pd ∈ D → wf_pd m' pd → confined m pd m' → pool_wf (kernel_pool m') → cr3 m' = cr3 m →
  (∀ va e, user va → tlb m' !! (va / 4096) = Some e →
    (active m = pd → mapping m' pd va = Some (Z.land e MAP)) ∧
    (active m ≠ pd → mapping m (active m) va = Some (Z.land e MAP))) →
  vm_inv D m'.
Proof.
  intros Hinv Hpd Hwf Hcf Hpw Hcr Htlb. pose proof Hinv as [I1 I2 I3 I4 I5].
  assert (∀ pd', pd' ∈ D → pd' ≠ pd → wf_pd m' pd' ∧ (∀ p, owns m' pd' p ↔ owns m pd' p) ∧ separate m' pd pd' ∧
    ∀ va, user va → walk m' pd' va = walk m pd' va) as Hother
    by (intros pd' Hpd' Hne; eapply confined_other; eauto).
  assert (active m' = active m) as Ha by (unfold active; by rewrite Hcr).
  split; [done| | |by rewrite Ha|].
  - intros pd' Hpd'. destruct (decide (pd' = pd)) as [->|Hne]; [done|]. by apply Hother.
  - intros p1 p2 H1 H2 Hne. destruct (decide (p1 = pd)) as [->|Hn1].
    + by apply Hother.
    + destruct (decide (p2 = pd)) as [->|Hn2].
      * destruct (Hother p1 H1 Hn1) as (_ & _ & Hs & _). intros p Hp Hp'. by apply (Hs p).
      * destruct (Hother p1 H1 Hn1) as (_ & O1 & _), (Hother p2 H2 Hn2) as (_ & O2 & _).
        intros p Hp%O1 Hp'%O2. by apply (I3 p1 p2 H1 H2 Hne p).
  - intros va e Hu He. rewrite Ha. destruct (Htlb va e Hu He) as [T1 T2].
    destruct (decide (active m = pd)) as [Hap|Hap]; [rewrite Hap; by apply T1|].
    destruct (Hother (active m) I4 Hap) as (_ & _ & _ & Hw). unfold mapping, translate. rewrite Hw by done. by apply T2.
Qed.
(** An operation on one entry that either keeps its mapping or empties the TLB
    if the directory is active. *)
Lemma inv_changes D m m' pd va f :
  vm_inv D m → pd ∈ D → changes m pd m' va f →
  (∀ va', user va' → va' / 4096 = va / 4096 → f (mapping m pd va') = mapping m pd va' ∨ (active m = pd → tlb m' = ∅)) →
  vm_inv D m'.
Proof.
  intros Hinv Hpd [H1 H2 H3 H4 H5 H6 H7] Hf. eapply inv_confined; eauto; [rewrite H3; apply Hinv|].
  intros va' e Hu He. assert (tlb m !! (va' / 4096) = Some e) as He'.
  { destruct H7 as [H7|H7]; rewrite H7 in He; [done|]. by rewrite lookup_empty in He. }
  pose proof (vi_tlb D m Hinv va' e Hu He') as Hm. split; [|done]. intros Ha. rewrite Ha in Hm.
  rewrite H6 by done. unfold same_page. destruct (Z.eqb_spec (va' / 4096) (va / 4096)) as [Hp|]; [|done].
  destruct (Hf va' Hu Hp) as [->|Ht]; [done|]. rewrite Ht in He by done. by rewrite lookup_empty in He.
Qed.
Lemma inv_set_page D m m' pd upage kpage w ok :
  vm_inv D m → pd ∈ D → can_map m pd upage kpage → pagedir_set_page pd upage kpage w m = Ret (ok, m') → vm_inv D m'.
Proof.
  intros Hinv Hpd Hc Hr.
  destruct (pagedir_set_page_Ret m pd upage kpage w) as (ok' & m1 & Hr' & Hcpu & Hpw & Hwf & Hcf & Htr & _);
    [by apply Hinv|by apply Hinv|done|]. rewrite Hr in Hr'. injection Hr' as <- <-.
  destruct Hcpu as (_ & _ & Hcr & Htl). eapply inv_confined; eauto. intros va e Hu He. rewrite Htl in He.
  pose proof (vi_tlb D m Hinv va e Hu He) as Hm. split; [|done]. intros Ha. rewrite Ha in Hm.
  unfold mapping in *. rewrite Htr by done. destruct (ok && same_page va upage) eqn:E; [|done].
  apply andb_prop in E as [_ E%Z.eqb_eq]. destruct Hc as [Hcu _ _ _ _ Hn].
  unfold translate in *. rewrite (walk_same_page m pd upage va) in Hm by done. by rewrite Hn in Hm.
Qed.
Lemma inv_access D m m' va write r :
  vm_inv D m → user va → mmu_access va write m = Ret (r, m') → vm_inv D m' ∧ r = mapping m (active m) va.
Proof.
  intros Hinv Hu Hr. destruct (tlb m !! (va / 4096)) as [e|] eqn:Et.
  - unfold mmu_access in Hr. rewrite Et in Hr. injection Hr as <- <-. split; [done|]. by rewrite (vi_tlb D m Hinv va e).
  - destruct (mmu_access_Ret m va write) as (m1 & Hr' & Hwf & Hcf & Hk & Hcr & _ & Hmap & Htl);
      [by apply Hinv, Hinv|done|done|]. rewrite Hr in Hr'. injection Hr' as -> <-. split; [|done].
    eapply inv_confined; eauto; [apply Hinv|rewrite Hk; apply Hinv|]. intros va' e Hu' He. split; [|done].
    intros _. rewrite Hmap by done. destruct Htl as [Htl|(e' & Hm & Htl)]; rewrite Htl in He.
    + by apply (vi_tlb D m Hinv).
    + destruct (decide (va / 4096 = va' / 4096)) as [Hp|Hp].
      * rewrite Hp, lookup_insert_eq in He. injection He as <-. by rewrite (mapping_same_page m _ va va').
      * rewrite lookup_insert_ne in He by done. by apply (vi_tlb D m Hinv).
Qed.
Lemma inv_activate D m m' pd : vm_inv D m → pd ∈ D → pagedir_activate (Some pd) m = Ret (tt, m') → vm_inv D m'.
Proof.
  intros Hinv Hpd Hr. unfold pagedir_activate in Hr. rewrite (bindM_Ret getM _ m m m) in Hr by done.
  destruct (used_valid m pd) as [Hv _]; [apply Hinv| |].
  { apply (owns_used m pd); [by apply Hinv|by left]. }
  rewrite (bindM_Ret (liftO _) _ m (pd - PHYS_BASE) m) in Hr by (unfold liftO; simpl; rewrite vtop_Ret; [done|lia]).
  injection Hr as <-. destruct Hinv as [I1 I2 I3 I4 I5]. split; simpl; try done.
  - intros pd' H. by destruct (I2 pd' H).
  - unfold active. simpl. by replace (pd - PHYS_BASE + PHYS_BASE) with pd by lia.
Qed.
Lemma step_inv D m m' : vm_inv D m → vm_step D m m' → vm_inv D m'.
Proof.
  intros Hinv Hs. pose proof (inv_cr3 D m Hinv) as Hcr. destruct Hs as [m m' pd u k w ok Hpd Hc Hr|m m' pd u Hpd Hu Hal Hr
    |m m' pd va v Hpd Hu Hr|m m' pd va v Hpd Hu Hr|m m' pd Hpd Hr|m m' va write r Hu Hr].
  - by eapply inv_set_page.
  - destruct (pagedir_clear_page_Ret m pd u) as (m1 & Hr' & Hch & Ht); [by apply Hinv|done..|].
    rewrite Hr in Hr'. injection Hr' as <-. eapply inv_changes; eauto. intros va' Hu' Hp.
    destruct (mapping m pd va') as [x|] eqn:E; [|by left]. right. intros Ha. apply Ht; [done|].
    rewrite (mapping_same_page m pd u va') in E by done. by rewrite E.
  - destruct (set_flag_Ret m pd va PTE_A v) as (m1 & Hr' & Hch); [by apply Hinv|done..|].
    unfold pagedir_set_accessed in Hr. rewrite Hr in Hr'. injection Hr' as <-. eapply inv_changes; eauto.
  - destruct (set_flag_Ret m pd va PTE_D v) as (m1 & Hr' & Hch); [by apply Hinv|done..|].
    unfold pagedir_set_dirty in Hr. rewrite Hr in Hr'. injection Hr' as <-. eapply inv_changes; eauto.
  - by eapply inv_activate.
  - by eapply inv_access.
Qed.

(** C25. The translation lookaside buffer is never stale: after any sequence of
    calls that map and unmap pages, clear accessed and dirty bits and switch
    between page directories, interleaved with accesses of user programs, an
    access is translated as the tables of the active directory say. *)
Theorem tlb_coherent D m m' va write :
  vm_inv D m → rtc (vm_step D) m m' → user va →
  ∃ m'', mmu_access va write m' = Ret (mapping m' (active m') va, m'').
Proof.
  intros Hinv Hs Hu. assert (vm_inv D m') as Hinv' by (induction Hs; eauto using step_inv).
  destruct (tlb m' !! (va / 4096)) as [e|] eqn:Et.
  - exists m'. unfold mmu_access. by rewrite Et, (vi_tlb D m' Hinv' va e).
  - destruct (mmu_access_Ret m' va write) as (m'' & Hr & _); [by apply Hinv', Hinv'|done|done|]. by exists m''.
Qed.

(** C26. A page that [pagedir_set_page] maps in one page directory is found
    there by [pagedir_get_page] at every offset; no other page of the directory
    and no page of another directory is affected.  The call fails only by
    returning false, and then maps nothing. *)
Theorem pagedir_set_get D m pd upage kpage w :
  vm_inv D m → pd ∈ D → can_map m pd upage kpage →
  ∃ ok m', pagedir_set_page pd upage kpage w m = Ret (ok, m') ∧ vm_inv D m' ∧
    (ok = true → ∀ va, user va → va / 4096 = upage / 4096 →
       pagedir_get_page pd va m' = Ret (Some (kpage + va `mod` 4096), m')) ∧
    ∀ pd' va, pd' ∈ D → user va → ok = false ∨ pd' ≠ pd ∨ va / 4096 ≠ upage / 4096 →
      mapping m' pd' va = mapping m pd' va.
Proof.
  intros Hinv Hpd Hc. destruct (pagedir_set_page_Ret m pd upage kpage w) as (ok & m' & Hr & _ & _ & Hwf & Hcf & Htr & _);
    [by apply Hinv|by apply Hinv|done|].
  exists ok, m'. split; [done|]. split; [by eapply inv_set_page|]. split.
  - intros -> va Hu Hp. pose proof (cm_page _ _ _ _ Hc) as Hk. pose proof Hk as [Hk1 _]. unfold PHYS_BASE in Hk1.
    assert (translate m' pd va = Some (user_pte kpage w)) as Ht
      by (rewrite Htr by done; unfold same_page; by rewrite (proj2 (Z.eqb_eq _ _))).
    rewrite pagedir_get_page_Ret, Ht; [|done..|].
    + simpl. unfold user_pte. by rewrite table_of_flags by (first [done|destruct w; lia]).
    + intros e. rewrite Ht. intros [= <-]. pose proof (phys_aligned _ Hk) as [q Hq].
      unfold user_pte, PHYS_BASE in *. destruct w; lia.
  - intros pd' va Hpd' Hu Hcase. unfold mapping. destruct (decide (pd' = pd)) as [->|Hne].
    + rewrite Htr by done. replace (ok && same_page va upage) with false; [done|]. symmetry. apply andb_false_iff.
      destruct Hcase as [->|[?|Hp]]; [by left|done|right]. by apply Z.eqb_neq.
    + destruct (confined_other m pd m' pd' Hcf) as (_ & _ & _ & Hw); [by apply Hinv|by apply Hinv|].
      unfold translate. by rewrite Hw.
Qed.

(** ** Examples *)
Definition zero_page : page := replicate 1024 0.
(** Two empty page directories, the first of which is active. *)
Definition two_pds : machine :=
  set_init_page_dir 0xc0000000 (set_pages (<[0xc0100000 := zero_page]> {[0xc0102000 := zero_page]}) example_machine).
Lemma two_pds_entry p i e : entry two_pds p i = Some e → e = 0.
Proof.
  unfold entry. simpl. destruct (decide (p = 0xc0100000)) as [->|H1]; [rewrite lookup_insert_eq|rewrite lookup_insert_ne by done].
  - intros H%lookup_replicate. by destruct H.
  - destruct (decide (p = 0xc0102000)) as [->|H2]; [rewrite lookup_singleton_eq|by rewrite lookup_singleton_ne].
    intros H%lookup_replicate. by destruct H.
Qed.
Lemma two_pds_wf pd : pd ∈ [0xc0100000; 0xc0102000] → wf_pd two_pds pd.
Proof.
  intros Hpd. split.
  - exists zero_page. rewrite !elem_of_cons in Hpd. destruct Hpd as [->|[->|[]%not_elem_of_nil]]; (split; [done|split; [done|]]).
    + by exists 0.
    + by exists 2.
  - by intros i e _ ->%two_pds_entry.
  - by intros i j e e' _ _ ->%two_pds_entry.
Qed.
Lemma two_pds_inv : vm_inv [0xc0100000; 0xc0102000] two_pds.
Proof.
  split; [apply (example_pool_wf false)|apply two_pds_wf| |by left|].
  - intros pd pd' _ _ Hne p [->|(i & e & _ & ->%two_pds_entry & ? & _)] [->|(j & e' & _ & ->%two_pds_entry & ? & _)]; done.
  - intros va e _ H. simpl in H. by rewrite lookup_empty in H.
Qed.
Lemma two_pds_unmapped pd va : translate two_pds pd va = None.
Proof.
  unfold translate, walk. destruct (entry two_pds pd (pd_no va)) as [e|] eqn:E; [|done].
  by apply two_pds_entry in E as ->.
Qed.
Lemma two_pds_can_map : can_map two_pds 0xc0102000 0x8048000 0xc0200000.
Proof.
  split; [done|by exists 0x8048|split; [done|by exists 0xc0200]|done|done|apply two_pds_unmapped].
Qed.
Lemma tlb_coherent_witness :
  ∃ m', pagedir_clear_page 0xc0100000 0x8048000 two_pds = Ret (tt, m') ∧
    ∃ m'', mmu_access 0x8048123 true m' = Ret (mapping m' (active m') 0x8048123, m'').
Proof.
  destruct (pagedir_clear_page_Ret two_pds 0xc0100000 0x8048000) as (m' & Hr & _);
    [apply two_pds_wf; by left|done|done|by exists 0x8048|]. exists m'. split; [done|].
  apply (tlb_coherent [0xc0100000; 0xc0102000] two_pds); [exact two_pds_inv| |done].
  apply rtc_once. apply (step_clear_page _ _ _ 0xc0100000 0x8048000); [by left|done|by exists 0x8048|exact Hr].
Defined.
Lemma pagedir_set_get_witness :
  ∃ ok m', pagedir_set_page 0xc0102000 0x8048000 0xc0200000 true two_pds = Ret (ok, m') ∧
    (ok = true → pagedir_get_page 0xc0102000 0x8048123 m' = Ret (Some 0xc0200123, m')).
Proof.
  destruct (pagedir_set_get [0xc0100000; 0xc0102000] two_pds 0xc0102000 0x8048000 0xc0200000 true)
    as (ok & m' & H1 & _ & H2 & _); [exact two_pds_inv|by right; left|exact two_pds_can_map|].
  exists ok, m'. split; [done|]. intros Hok. by apply (H2 Hok 0x8048123).
Defined.
