(* ===== verification/Malloc.v ===== *)
(** * threads/malloc.c: blocks of memory

    Arenas are pages of the page allocator with a header; the descriptors keep
    the free blocks of one size.  The headers are kept in [arenas], by page, and
    the free lists as sequences of block addresses (list.c is verified on its
    own); [bytes] is the contents of blocks.  The descriptors' locks are left
    out: calls run one at a time. *)

From stdpp Require Import base numbers list gmap.
From S2P Require Import Prelude Bitmap Palloc.
Local Open Scope Z_scope.

Definition ARENA_MAGIC : Z := 0x9a548eed.
(** [sizeof (struct arena)]. *)
Definition ARENA_SIZE : Z := 12.
Record desc := Desc { block_size_ : Z; blocks_per_arena : Z; free_list : list Z }.
(** [adesc]: the position of the descriptor, or none for a big block. *)
Record arena := Arena { amagic : Z; adesc : option nat; free_cnt : Z }.
Record heap := Heap {
  mach : machine;
  arenas : gmap Z arena;
  descs : list desc;
  bytes : gmap Z Z }.
Definition set_mach x (k : heap) : heap :=
  Heap x (arenas k) (descs k) (bytes k).
Definition set_arenas x (k : heap) : heap :=
  Heap (mach k) x (descs k) (bytes k).
Definition set_descs x (k : heap) : heap :=
  Heap (mach k) (arenas k) x (bytes k).
Definition set_bytes_ x (k : heap) : heap :=
  Heap (mach k) (arenas k) (descs k) x.

Definition on_mach {A} (f : M machine A) : M heap A := λ h,
  match f (mach h) with
  | Ret (a, m) => Ret (a, set_mach m h)
  | Panic => Panic
  | NoFuel => NoFuel
  end.
Definition put_desc (i : nat) (d : desc) : M heap unit := modifyM (λ h, set_descs (<[i := d]> (descs h)) h).
Definition put_arena (a : Z) (x : arena) : M heap unit := modifyM (λ h, set_arenas (<[a := x]> (arenas h)) h).
(** The header at the start of a page; a page without one fails the check of
    the magic number. *)
Definition get_arena (a : Z) : M heap arena := λ h,
  match arenas h !! a with Some x => Ret (x, h) | None => Panic end.
Definition get_desc (i : nat) : M heap desc := λ h,
  match descs h !! i with Some d => Ret (d, h) | None => Panic end.

(** ** Initialisation *)
Fixpoint init_loop (fuel : nat) (block_size : Z) : M heap unit :=
  if block_size <? PGSIZE / 2 then
    match fuel with
    | O => λ _, NoFuel
    | S fuel =>
        do h <- getM;
        run assertM (length (descs h) <? 10)%nat;
        run modifyM (set_descs (descs h ++ [Desc block_size ((PGSIZE - ARENA_SIZE) / block_size) []]));
        init_loop fuel (u32 (block_size * 2))
    end
  else retM tt.
Definition malloc_init : M heap unit := init_loop 10 16.

(** ** Blocks and arenas *)
Definition block_to_arena (b : Z) : M heap Z :=
  let a := pg_round_down b in
  run assertM (negb (a =? 0));
  do x <- get_arena a;
  run assertM (amagic x =? ARENA_MAGIC);
  match adesc x with
  | Some i =>
      do d <- get_desc i;
      run assertM (u32 (pg_ofs b - ARENA_SIZE) `mod` block_size_ d =? 0); retM a
  | None => run assertM (pg_ofs b =? ARENA_SIZE); retM a
  end.
Definition arena_to_block (a : Z) (idx : Z) : M heap Z :=
  run assertM (negb (a =? 0));
  do x <- get_arena a;
  run assertM (amagic x =? ARENA_MAGIC);
  match adesc x with
  | Some i =>
      do d <- get_desc i;
      run assertM (idx <? blocks_per_arena d);
      retM (u32 (a + ARENA_SIZE + idx * block_size_ d))
  | None => panicM
  end.

(** ** malloc *)
(** The smallest descriptor whose blocks have [size] bytes. *)
Fixpoint find_desc (ds : list desc) (i : nat) (size : Z) : option nat :=
  match ds with
  | [] => None
  | d :: ds => if size <=? block_size_ d then Some i else find_desc ds (S i) size
  end.
(** Adds the blocks of arena [a] from index [i] on; [n] is how many. *)
Fixpoint add_blocks (n : nat) (di : nat) (a i : Z) : M heap unit :=
  match n with
  | O => retM tt
  | S n =>
      do b <- arena_to_block a i;
      do d <- get_desc di;
      run put_desc di (Desc (block_size_ d) (blocks_per_arena d) (free_list d ++ [b]));
      add_blocks n di a (i + 1)
  end.
Definition malloc_big (size : Z) : M heap (option Z) :=
  let page_cnt := u32 (u32 (size + ARENA_SIZE) + PGSIZE - 1) / PGSIZE in
  do r <- on_mach (palloc_get_multiple 0 page_cnt);
  match r with
  | None => retM None
  | Some a =>
      run put_arena a (Arena ARENA_MAGIC None page_cnt);
      retM (Some (u32 (a + ARENA_SIZE)))
  end.
Definition malloc_small (di : nat) : M heap (option Z) :=
  do d <- get_desc di;
  do ok <- (match free_list d with
            | [] =>
                do r <- on_mach (palloc_get_page 0);
                match r with
                | None => retM false
                | Some a =>
                    run put_arena a (Arena ARENA_MAGIC (Some di) (blocks_per_arena d));
                    run add_blocks (Z.to_nat (blocks_per_arena d)) di a 0;
                    retM true
                end
            | _ => retM true
            end);
  if negb ok then retM None
  else
    do d <- get_desc di;
    match free_list d with
    | [] => panicM
    | b :: l =>
        run put_desc di (Desc (block_size_ d) (blocks_per_arena d) l);
        do a <- block_to_arena b;
        do x <- get_arena a;
        run put_arena a (Arena (amagic x) (adesc x) (u32 (free_cnt x - 1)));
        retM (Some b)
    end.
Definition malloc (size : Z) : M heap (option Z) :=
  if size =? 0 then retM None
  else
    do h <- getM;
    match find_desc (descs h) 0 size with
    | None => malloc_big size
    | Some di => malloc_small di
    end.

(** ** Contents *)
Fixpoint set_bytes (n : nat) (a : Z) (v : Z) (m : gmap Z Z) : gmap Z Z :=
  match n with O => m | S n => set_bytes n (a + 1) v (<[a := v]> m) end.
Fixpoint copy_bytes (n : nat) (dst src : Z) (m : gmap Z Z) : gmap Z Z :=
  match n with
  | O => m
  | S n => copy_bytes n (dst + 1) (src + 1) (partial_alter (λ _, m !! src) dst m)
  end.
Definition memset (a v n : Z) : M heap unit :=
  modifyM (λ h, set_bytes_ (set_bytes (Z.to_nat n) a v (bytes h)) h).
Definition memcpy (dst src n : Z) : M heap unit :=
  modifyM (λ h, set_bytes_ (copy_bytes (Z.to_nat n) dst src (bytes h)) h).

(** ** free *)
(** [list_remove] of a block that is not in the list is undefined. *)
Definition remove_block (b : Z) (l : list Z) : outcome (list Z) :=
  if bool_decide (b ∈ l) then Ret (filter (λ x, x ≠ b) l) else Panic.
Fixpoint remove_blocks (n : nat) (di : nat) (a i : Z) : M heap unit :=
  match n with
  | O => retM tt
  | S n =>
      do b <- arena_to_block a i;
      do d <- get_desc di;
      do l <- liftO (remove_block b (free_list d));
      run put_desc di (Desc (block_size_ d) (blocks_per_arena d) l);
      remove_blocks n di a (i + 1)
  end.
Definition free (p : option Z) : M heap unit :=
  match p with
  | None => retM tt
  | Some b =>
      do a <- block_to_arena b;
      do x <- get_arena a;
      match adesc x with
      | Some di =>
          do d <- get_desc di;
          run memset b 0xcc (block_size_ d);
          run put_desc di (Desc (block_size_ d) (blocks_per_arena d) (b :: free_list d));
          let cnt := u32 (free_cnt x + 1) in
          run put_arena a (Arena (amagic x) (adesc x) cnt);
          if blocks_per_arena d <=? cnt then
            run assertM (cnt =? blocks_per_arena d);
            run remove_blocks (Z.to_nat (blocks_per_arena d)) di a 0;
            run on_mach (palloc_free_page (Some a));
            modifyM (λ h, set_arenas (delete a (arenas h)) h)
          else retM tt
      | None =>
          run on_mach (palloc_free_multiple (Some a) (free_cnt x));
          modifyM (λ h, set_arenas (delete a (arenas h)) h)
      end
  end.

(** ** calloc and realloc *)
Definition calloc (a b : Z) : M heap (option Z) :=
  let size := u32 (a * b) in
  if (size <? a) || (size <? b) then retM None
  else
    do p <- malloc size;
    match p with
    | None => retM None
    | Some q => run memset q 0 size; retM p
    end.
Definition block_size (b : Z) : M heap Z :=
  do a <- block_to_arena b;
  do x <- get_arena a;
  match adesc x with
  | Some i => do d <- get_desc i; retM (block_size_ d)
  | None => retM (u32 (PGSIZE * free_cnt x - pg_ofs b))
  end.
Definition realloc (old_block : option Z) (new_size : Z) : M heap (option Z) :=
  if new_size =? 0 then run free old_block; retM None
  else
    do new_block <- malloc new_size;
    match old_block, new_block with
    | Some o, Some n =>
        do old_size <- block_size o;
        run memcpy n o (if new_size <? old_size then new_size else old_size);
        run free old_block;
        retM new_block
    | _, _ => retM new_block
    end.
