(* ===== verification/MallocSpec.v ===== *)
(** * The block allocator hands out disjoint blocks

    The invariant relates the headers of arenas, the free lists and the page
    allocator.  Under it [malloc] and [free] return, and they change the set of
    allocated blocks by exactly one block that overlaps no other. *)

From stdpp Require Import base numbers list gmap sorting.
From S2P Require Import Prelude Bitmap Palloc Malloc.
Local Open Scope Z_scope.
Implicit Types h : heap.

(** ** Invariant *)
Definition sizes : list Z := [16; 32; 64; 128; 256; 512; 1024].
(** Block [k] of arena [a]. *)
Definition block_at (a bs k : Z) : Z := a + 12 + k * bs.
Definition arena_pages (x : arena) : Z := match adesc x with Some _ => 1 | None => free_cnt x end.
Definition in_arena (a b : Z) : Prop := b / 4096 * 4096 = a.
#[global] Instance in_arena_dec a b : Decision (in_arena a b).
Proof. unfold in_arena. apply _. Defined.
Record arena_ok h (a : Z) (x : arena) : Prop := {
  ao_magic : amagic x = ARENA_MAGIC;
  ao_pages : ∃ k, a = pool_page (kernel_pool (mach h)) k ∧ 0 ≤ k ∧ 0 < arena_pages x ∧
    k + arena_pages x ≤ bit_cnt (used_map (kernel_pool (mach h))) ∧
    ∀ j, k ≤ j < k + arena_pages x → in_use (kernel_pool (mach h)) j = true;
  ao_count i : adesc x = Some i → ∃ d, descs h !! i = Some d ∧
    free_cnt x = Z.of_nat (length (filter (in_arena a) (free_list d))) }.
(** Block [b] is a block of arena [a] of descriptor [i]. *)
Definition block_of h (i : nat) (d : desc) (a b : Z) : Prop :=
  ∃ x k, arenas h !! a = Some x ∧ adesc x = Some i ∧ 0 ≤ k < blocks_per_arena d ∧ b = block_at a (block_size_ d) k.
Record heap_inv h : Prop := {
  hi_pool : pool_wf (kernel_pool (mach h));
  hi_descs : (λ d, (block_size_ d, blocks_per_arena d)) <$> descs h = (λ s, (s, 4084 / s)) <$> sizes;
  hi_arenas a x : arenas h !! a = Some x → arena_ok h a x;
  hi_disjoint a x a' x' : arenas h !! a = Some x → arenas h !! a' = Some x' → a ≠ a' →
    a + 4096 * arena_pages x ≤ a' ∨ a' + 4096 * arena_pages x' ≤ a;
  hi_free i d : descs h !! i = Some d →
    NoDup (free_list d) ∧ ∀ b, b ∈ free_list d → ∃ a, block_of h i d a b }.
(** [b] is an allocated block of [n] bytes. *)
Definition allocated h (b n : Z) : Prop :=
  ∃ a x, arenas h !! a = Some x ∧
    match adesc x with
    | Some i => ∃ d, descs h !! i = Some d ∧ block_of h i d a b ∧ (b ∉ free_list d) ∧ n = block_size_ d
    | None => b = a + 12 ∧ n = 4096 * free_cnt x - 12
    end.

(** ** Geometry *)
Section geometry.
  Context h (Hinv : heap_inv h).
Lemma desc_facts i d :
  descs h !! i = Some d →
  16 ≤ block_size_ d ≤ 1024 ∧ 0 < blocks_per_arena d < 256 ∧
  blocks_per_arena d * block_size_ d ≤ 4084.
Proof.
  intros Hd. assert (((λ d, (block_size_ d, blocks_per_arena d)) <$> descs h) !! i = Some (block_size_ d, blocks_per_arena d)) as H
    by (by rewrite list_lookup_fmap, Hd).
  rewrite (hi_descs h Hinv), list_lookup_fmap in H. apply fmap_Some in H as (s & Hs & Heq). injection Heq as -> ->.
  assert (s ∈ sizes) as Hin by (by eapply list_elem_of_lookup_2). unfold sizes in Hin. rewrite !elem_of_cons in Hin.
  destruct Hin as [->|[->|[->|[->|[->|[->|[->|[]%not_elem_of_nil]]]]]]]; done.
Qed.
Lemma arena_facts a x :
  arenas h !! a = Some x → PHYS_BASE ≤ a ∧ (4096 | a) ∧ 0 < arena_pages x ∧ a + 4096 * arena_pages x < 2 ^ 32.
Proof.
  intros Ha. destruct (hi_arenas h Hinv a x Ha) as [_ (k & -> & Hk & Hp & Hb & _) _].
  destruct (hi_pool h Hinv) as [_ H1 [q H2] H3]. unfold pool_page in *. change PGSIZE with 4096 in *.
  split; [lia|]. split; [|lia]. exists (q + k). lia.
Qed.
Lemma block_arena i d a b :
  descs h !! i = Some d → block_of h i d a b →
  in_arena a b ∧ a + 12 ≤ b ∧ b + block_size_ d ≤ a + 4096 ∧ 0 ≤ b < 2 ^ 32 ∧ a ≠ 0 ∧
  pg_ofs b = b - a ∧ (b - a - 12) `mod` block_size_ d = 0.
Proof.
  intros Hd (x & k & Hx & Hi & Hk & ->). destruct (desc_facts i d Hd) as (H1 & H2 & H3).
  destruct (arena_facts a x Hx) as (Ha & [q Hq] & _ & He). unfold arena_pages in He. rewrite Hi in He.
  assert (k * block_size_ d + block_size_ d ≤ 4084) as Hkb by nia. assert (0 ≤ k * block_size_ d) by nia.
  unfold in_arena, block_at, PHYS_BASE in *. rewrite pg_ofs_mod.
  assert ((a + 12 + k * block_size_ d) / 4096 = q) as Hdiv
    by (symmetry; apply (Z.div_unique _ _ _ (12 + k * block_size_ d)); lia).
  assert ((a + 12 + k * block_size_ d) `mod` 4096 = 12 + k * block_size_ d) as Hmod
    by (symmetry; apply (Z.mod_unique _ _ q); lia).
  rewrite Hdiv, Hmod. repeat split; try lia.
  replace (a + 12 + k * block_size_ d - a - 12) with (k * block_size_ d) by lia. apply Z.mod_mul. lia.
Qed.
Lemma in_arena_unique a a' b : in_arena a b → in_arena a' b → a = a'.
Proof. unfold in_arena. congruence. Qed.
(** A block belongs to one arena of one descriptor. *)
Lemma block_of_unique i d a b i' d' a' :
  descs h !! i = Some d → descs h !! i' = Some d' → block_of h i d a b → block_of h i' d' a' b → a = a' ∧ i = i'.
Proof.
  intros Hd Hd' Hb Hb'. destruct (block_arena _ _ _ _ Hd Hb) as (H1 & _). destruct (block_arena _ _ _ _ Hd' Hb') as (H2 & _).
  pose proof (in_arena_unique _ _ _ H1 H2) as <-. destruct Hb as (x & _ & Hx & Hi & _), Hb' as (x' & _ & Hx' & Hi' & _).
  split; congruence.
Qed.
(** The extent of an allocated block lies in the pages of its arena. *)
Lemma allocated_disjoint b n b' n' :
  allocated h b n → allocated h b' n' → (b = b' ∧ n = n') ∨ b + n ≤ b' ∨ b' + n' ≤ b.
Proof.
  intros (a & x & Ha & Hb) (a' & x' & Ha' & Hb').
  assert (∀ a x b n, arenas h !! a = Some x →
    match adesc x with
    | Some i => ∃ d, descs h !! i = Some d ∧ block_of h i d a b ∧ (b ∉ free_list d) ∧ n = block_size_ d
    | None => b = a + 12 ∧ n = 4096 * free_cnt x - 12
    end → a + 12 ≤ b ∧ b + n ≤ a + 4096 * arena_pages x) as Hext.
  { intros a0 x0 b0 n0 H0 Hb0. unfold arena_pages. destruct (adesc x0) as [i|]; [|lia].
    destruct Hb0 as (d & Hd & Hbo & _ & ->). destruct (block_arena _ _ _ _ Hd Hbo) as (_ & ? & ? & _). lia. }
  destruct (decide (a = a')) as [<-|Hne].
  2: { pose proof (Hext a x b n Ha Hb). pose proof (Hext a' x' b' n' Ha' Hb').
       destruct (hi_disjoint h Hinv a x a' x' Ha Ha' Hne); lia. }
  rewrite Ha in Ha'. injection Ha' as <-. destruct (adesc x) as [i|]; [|left; lia].
  destruct Hb as (d & Hd & (x1 & k & _ & _ & Hk & ->) & _ & ->), Hb' as (d' & Hd' & (x2 & k' & _ & _ & Hk' & ->) & _ & ->).
  rewrite Hd in Hd'. injection Hd' as <-. destruct (desc_facts i d Hd) as (H1 & _). unfold block_at.
  destruct (decide (k = k')) as [->|Hkk]; [by left|right]. destruct (decide (k < k')); [left|right]; nia.
Qed.

(** ** Headers *)
Lemma get_arena_Ret a x : arenas h !! a = Some x → get_arena a h = Ret (x, h).
Proof. intros Ha. unfold get_arena. by rewrite Ha. Qed.
Lemma get_desc_Ret i d : descs h !! i = Some d → get_desc i h = Ret (d, h).
Proof. intros Hd. unfold get_desc. by rewrite Hd. Qed.
Lemma block_to_arena_small i d a b :
  descs h !! i = Some d → block_of h i d a b → block_to_arena b h = Ret (a, h).
Proof.
  intros Hd Hb. destruct (block_arena _ _ _ _ Hd Hb) as (H1 & H2 & H3 & H4 & H5 & H6 & H7).
  destruct Hb as (x & k & Hx & Hi & _). unfold block_to_arena. rewrite pg_round_down_div, H1 by done.
  rewrite (bindM_Ret (assertM _) _ h tt h) by (apply assertM_true; by rewrite (proj2 (Z.eqb_neq _ _))).
  rewrite (bindM_Ret _ _ _ _ _ (get_arena_Ret _ _ Hx)).
  rewrite (bindM_Ret (assertM _) _ h tt h) by (apply assertM_true, Z.eqb_eq; apply (hi_arenas h Hinv a x Hx)).
  rewrite Hi, (bindM_Ret _ _ _ _ _ (get_desc_Ret _ _ Hd)).
  rewrite (bindM_Ret (assertM _) _ h tt h); [done|]. apply assertM_true, Z.eqb_eq.
  rewrite H6. destruct (desc_facts i d Hd) as (? & _). unfold ARENA_SIZE. by rewrite u32_small by lia.
Qed.
Lemma block_to_arena_big a x :
  arenas h !! a = Some x → adesc x = None → block_to_arena (a + 12) h = Ret (a, h).
Proof.
  intros Hx Hn. destruct (arena_facts a x Hx) as (Ha & [q Hq] & Hp & He). unfold PHYS_BASE in Ha. unfold block_to_arena.
  assert ((a + 12) / 4096 = q) as Hdiv by (symmetry; apply (Z.div_unique _ _ _ 12); lia).
  assert ((a + 12) `mod` 4096 = 12) as Hmod by (symmetry; apply (Z.mod_unique _ _ q); lia).
  rewrite pg_round_down_div, Hdiv by lia. rewrite <-Hq.
  rewrite (bindM_Ret (assertM _) _ h tt h) by (apply assertM_true; by rewrite (proj2 (Z.eqb_neq _ _)) by lia).
  rewrite (bindM_Ret _ _ _ _ _ (get_arena_Ret _ _ Hx)).
  rewrite (bindM_Ret (assertM _) _ h tt h) by (apply assertM_true, Z.eqb_eq; apply (hi_arenas h Hinv a x Hx)).
  rewrite Hn. rewrite (bindM_Ret (assertM _) _ h tt h); [done|]. apply assertM_true, Z.eqb_eq. by rewrite pg_ofs_mod.
Qed.
End geometry.

(** ** Taking and returning blocks *)
Definition with_free (d : desc) (l : list Z) : desc := Desc (block_size_ d) (blocks_per_arena d) l.
Definition with_cnt (x : arena) (n : Z) : arena := Arena (amagic x) (adesc x) n.
(** The heap in which the free list of descriptor [i] is [l] and the count of
    arena [a] is [n]. *)
Definition relist h (i : nat) (d : desc) (l : list Z) (a : Z) (x : arena) (n : Z) : heap :=
  set_arenas (<[a := with_cnt x n]> (arenas h)) (set_descs (<[i := with_free d l]> (descs h)) h).
Lemma relist_block_of h i d l a x n i' d' a' b :
  arenas h !! a = Some x → block_of (relist h i d l a x n) i' d' a' b ↔ block_of h i' d' a' b.
Proof.
  intros Hx. unfold block_of, relist. simpl. split; intros (y & k & Hy & Hi & Hk & ->).
  - destruct (decide (a' = a)) as [->|Hne].
    + rewrite lookup_insert_eq in Hy. injection Hy as <-. by exists x, k.
    + rewrite lookup_insert_ne in Hy by done. by exists y, k.
  - destruct (decide (a' = a)) as [->|Hne].
    + exists (with_cnt x n), k. rewrite lookup_insert_eq. rewrite Hx in Hy. injection Hy as <-. done.
    + exists y, k. by rewrite lookup_insert_ne.
Qed.
Lemma relist_inv h i d l a x n :
  heap_inv h → descs h !! i = Some d → arenas h !! a = Some x → adesc x = Some i →
  NoDup l → (∀ b, b ∈ l → ∃ a', block_of h i d a' b) →
  n = Z.of_nat (length (filter (in_arena a) l)) →
  (∀ a', a' ≠ a → filter (in_arena a') l = filter (in_arena a') (free_list d)) →
  heap_inv (relist h i d l a x n).
Proof.
  intros Hinv Hd Hx Hi Hnd Hbl Hn Hother. pose proof Hinv as [I1 I2 I3 I4 I5].
  assert (∀ a' x', <[a := with_cnt x n]> (arenas h) !! a' = Some x' →
    ∃ y, arenas h !! a' = Some y ∧ arena_pages x' = arena_pages y ∧ adesc x' = adesc y ∧ amagic x' = amagic y ∧
      (a' ≠ a → x' = y) ∧ (a' = a → free_cnt x' = n)) as Har.
  { intros a' x' H. destruct (decide (a' = a)) as [->|Hne].
    - rewrite lookup_insert_eq in H. injection H as <-. exists x. unfold arena_pages. simpl. by rewrite Hi.
    - rewrite lookup_insert_ne in H by done. by exists x'. }
  split; [done| | | |].
  all: unfold relist; cbn [descs arenas mach set_arenas set_descs].
  - rewrite list_fmap_insert, <-I2. apply list_insert_id. by rewrite list_lookup_fmap, Hd.
  - intros a' x' H. destruct (Har a' x' H) as (y & Hy & Hp & Hd' & Hm & Hne & Heq). destruct (I3 a' y Hy) as [J1 J2 J3].
    split; [by rewrite Hm|by rewrite Hp|]. intros i' Hi'. rewrite Hd' in Hi'. destruct (J3 i' Hi') as (d' & Hd1 & Hc). simpl.
    destruct (decide (i' = i)) as [->|Hii].
    + exists (with_free d l). rewrite list_lookup_insert_eq by (by eapply lookup_lt_Some). split; [done|]. simpl.
      destruct (decide (a' = a)) as [->|Haa]; [by rewrite Heq|]. rewrite Hother, (Hne Haa) by done. congruence.
    + exists d'. rewrite list_lookup_insert_ne by done. split; [done|]. rewrite Hne; [done|]. intros ->. congruence.
  - intros a1 x1 a2 x2 H1 H2 Hne. destruct (Har a1 x1 H1) as (y1 & Hy1 & -> & _), (Har a2 x2 H2) as (y2 & Hy2 & -> & _).
    by apply I4.
  - intros i' d' Hd'. assert (∀ b a', block_of h i' d' a' b → block_of (relist h i d l a x n) i' d' a' b) as Hb
      by (intros; by apply relist_block_of). destruct (decide (i' = i)) as [->|Hii].
    + rewrite list_lookup_insert_eq in Hd' by (by eapply lookup_lt_Some). injection Hd' as <-. simpl. split; [done|].
      intros b Hin. destruct (Hbl b Hin) as (a' & Hb'). exists a'. by apply Hb.
    + rewrite list_lookup_insert_ne in Hd' by done. destruct (I5 i' d' Hd') as [? Hf]. split; [done|].
      intros b Hin. destruct (Hf b Hin) as (a' & Hb'). exists a'. by apply Hb.
Qed.
Lemma relist_allocated h i d l a x n b m :
  descs h !! i = Some d → arenas h !! a = Some x → adesc x = Some i →
  allocated (relist h i d l a x n) b m ↔
  ∃ a' x', arenas h !! a' = Some x' ∧
    match adesc x' with
    | Some i' => ∃ d', descs h !! i' = Some d' ∧ block_of h i' d' a' b ∧
        (b ∉ if decide (i' = i) then l else free_list d') ∧ m = block_size_ d'
    | None => b = a' + 12 ∧ m = 4096 * free_cnt x' - 12
    end.
Proof.
  intros Hd Hx Hi. pose proof (lookup_lt_Some _ _ _ Hd) as Hlt.
  assert (∀ a' x', arenas h !! a' = Some x' → ∃ x2, arenas (relist h i d l a x n) !! a' = Some x2 ∧
    adesc x2 = adesc x' ∧ (adesc x' = None → x2 = x')) as Hto.
  { intros a' x' H. unfold relist. cbn. destruct (decide (a' = a)) as [->|Hne].
    - rewrite lookup_insert_eq. exists (with_cnt x n). rewrite Hx in H. injection H as <-. simpl. by rewrite Hi.
    - rewrite lookup_insert_ne by done. by exists x'. }
  assert (∀ i' d', descs h !! i' = Some d' → descs (relist h i d l a x n) !! i' = Some (if decide (i' = i) then with_free d l else d')) as Hdt.
  { intros i' d' H. unfold relist. cbn. case_decide; [subst; by apply list_lookup_insert_eq|by rewrite list_lookup_insert_ne]. }
  split.
  - intros (a' & x' & Ha' & Hb). assert (is_Some (arenas h !! a')) as [y Hy].
    { unfold relist in Ha'. cbn in Ha'. destruct (decide (a' = a)) as [->|Hne]; [by rewrite Hx|]. by rewrite lookup_insert_ne in Ha'. }
    destruct (Hto a' y Hy) as (x2 & Hx2 & Hd2 & Hn2). rewrite Ha' in Hx2. injection Hx2 as <-.
    exists a', y. split; [done|]. rewrite <-Hd2. destruct (adesc x') as [i'|] eqn:E; [|by rewrite <-Hn2].
    destruct Hb as (d' & Hd' & Hbo & Hnf & ->). apply relist_block_of in Hbo; [|done].
    assert (is_Some (descs h !! i')) as [d2 Hd2'].
    { apply lookup_lt_is_Some. apply lookup_lt_Some in Hd'. unfold relist in Hd'. cbn in Hd'. by rewrite length_insert in Hd'. }
    rewrite (Hdt i' d2 Hd2') in Hd'. injection Hd' as <-. exists d2. case_decide; [|done]. subst.
    rewrite Hd in Hd2'. by injection Hd2' as <-.
  - intros (a' & x' & Ha' & Hb). destruct (Hto a' x' Ha') as (x2 & Hx2 & Hd2 & Hn2). exists a', x2. split; [done|].
    rewrite Hd2. destruct (adesc x') as [i'|] eqn:E; [|by rewrite Hn2].
    destruct Hb as (d' & Hd' & Hbo & Hnf & ->). eexists. split; [by apply Hdt|].
    case_decide; [subst; rewrite Hd in Hd'; injection Hd' as <-|]; (split; [by apply relist_block_of|done]).
Qed.
(** The free blocks of an arena are at most all its blocks. *)
Definition arena_blocks (a : Z) (d : desc) : list Z := block_at a (block_size_ d) <$> seqZ 0 (blocks_per_arena d).
Lemma elem_of_arena_blocks a d b :
  b ∈ arena_blocks a d ↔ ∃ k, 0 ≤ k < blocks_per_arena d ∧ b = block_at a (block_size_ d) k.
Proof.
  unfold arena_blocks. rewrite list_elem_of_fmap. setoid_rewrite elem_of_seqZ. split; intros (k & H1 & H2); exists k; split; auto; lia.
Qed.
Lemma arena_blocks_NoDup a d : 0 < block_size_ d → NoDup (arena_blocks a d).
Proof.
  intros Hb. unfold arena_blocks. apply NoDup_fmap_2; [|apply NoDup_seqZ]. intros k k'. unfold block_at. nia.
Qed.
Lemma arena_free_sub h i d a :
  heap_inv h → descs h !! i = Some d → filter (in_arena a) (free_list d) ⊆+ arena_blocks a d.
Proof.
  intros Hinv Hd. destruct (hi_free h Hinv i d Hd) as [Hnd Hbl]. apply NoDup_submseteq; [by apply NoDup_filter|].
  intros b [Ha Hin]%list_elem_of_filter. destruct (Hbl b Hin) as (a' & Hb).
  destruct (block_arena h Hinv i d a' b Hd Hb) as (Ha' & _). rewrite (in_arena_unique _ _ _ Ha Ha').
  destruct Hb as (x & k & _ & _ & Hk & ->). apply elem_of_arena_blocks. by exists k.
Qed.
Lemma arena_blocks_length a d : length (arena_blocks a d) = Z.to_nat (blocks_per_arena d).
Proof. unfold arena_blocks. by rewrite length_fmap, length_seqZ. Qed.
Lemma arena_free_count h i d a :
  heap_inv h → descs h !! i = Some d →
  Z.of_nat (length (filter (in_arena a) (free_list d))) ≤ blocks_per_arena d.
Proof.
  intros Hinv Hd. pose proof (submseteq_length _ _ (arena_free_sub h i d a Hinv Hd)) as H.
  rewrite arena_blocks_length in H. destruct (desc_facts h Hinv i d Hd) as (_ & ? & _). lia.
Qed.

(** Taking the first free block. *)
Lemma pop_block h i d b l :
  heap_inv h → descs h !! i = Some d → free_list d = b :: l →
  ∃ a x, arenas h !! a = Some x ∧ adesc x = Some i ∧ block_of h i d a b ∧ 0 < free_cnt x < 256 ∧
    let h' := relist h i d l a x (free_cnt x - 1) in
    heap_inv h' ∧ (¬ allocated h b (block_size_ d)) ∧
    ∀ b' m, allocated h' b' m ↔ allocated h b' m ∨ (b' = b ∧ m = block_size_ d).
Proof.
  intros Hinv Hd Hl. destruct (hi_free h Hinv i d Hd) as [Hnd Hbl]. rewrite Hl in Hnd, Hbl.
  destruct (Hbl b) as (a & Hb); [by left|]. pose proof Hb as (x & k & Hx & Hi & _).
  destruct (block_arena h Hinv i d a b Hd Hb) as (Hin & _). apply NoDup_cons in Hnd as [Hnb Hnd].
  destruct (ao_count h a x (hi_arenas h Hinv a x Hx) i Hi) as (d' & Hd' & Hcnt). rewrite Hd in Hd'. injection Hd' as <-.
  pose proof (arena_free_count h i d a Hinv Hd) as Hle. destruct (desc_facts h Hinv i d Hd) as (_ & Hbp & _).
  assert (Z.of_nat (length (filter (in_arena a) l)) = free_cnt x - 1 ∧ 0 < free_cnt x < 256) as [Hc1 Hc2].
  { rewrite Hl, filter_cons_True in Hcnt, Hle by done. cbn [length] in Hcnt, Hle. lia. }
  exists a, x. split; [done|]. split; [done|]. split; [done|]. split; [done|]. cbv zeta. split; [|split].
  - apply relist_inv; auto; [intros; apply Hbl; by right|]. intros a' Hne. rewrite Hl, filter_cons_False; [done|].
    intros Hin'. by destruct (Hne (in_arena_unique _ _ _ Hin' Hin)).
  - intros (a' & x' & Hx' & Hm). destruct (adesc x') as [i'|] eqn:E.
    + destruct Hm as (d' & Hd' & Hbo & Hnf & _). destruct (block_of_unique h Hinv _ _ _ _ _ _ _ Hd Hd' Hb Hbo) as [_ <-].
      rewrite Hd in Hd'. injection Hd' as <-. apply Hnf. rewrite Hl. by left.
    + destruct Hm as [-> _]. destruct (arena_facts h Hinv a' x' Hx') as (_ & [q Hq] & _).
      assert (in_arena a' (a' + 12)) as Hin' by (unfold in_arena; rewrite Hq, Z.add_comm, Z.div_add by lia; done).
      rewrite (in_arena_unique _ _ _ Hin Hin') in Hx. congruence.
  - intros b' m. rewrite relist_allocated by done. unfold allocated. split.
    + intros (a' & x' & Hx' & Hm). destruct (adesc x') as [i'|] eqn:E; [|left; exists a', x'; by rewrite E].
      destruct Hm as (d' & Hd' & Hbo & Hnf & ->). destruct (decide (b' = b)) as [->|Hne].
      * right. destruct (block_of_unique h Hinv _ _ _ _ _ _ _ Hd Hd' Hb Hbo) as [_ <-]. rewrite Hd in Hd'. by injection Hd' as <-.
      * left. exists a', x'. split; [done|]. rewrite E. exists d'. split; [done|]. split; [done|]. split; [|done].
        case_decide; [|done]. subst. rewrite Hd in Hd'. injection Hd' as <-. rewrite Hl. set_solver.
    + intros [(a' & x' & Hx' & Hm)|[-> ->]].
      * exists a', x'. split; [done|]. destruct (adesc x') as [i'|]; [|done]. destruct Hm as (d' & Hd' & Hbo & Hnf & ->).
        exists d'. split; [done|]. split; [done|]. split; [|done]. case_decide; [|done]. subst.
        rewrite Hd in Hd'. injection Hd' as <-. rewrite Hl in Hnf. set_solver.
      * exists a, x. split; [done|]. rewrite Hi. exists d. rewrite decide_True by done. done.
Qed.

(** ** New arenas *)
(** The pages [a] of a run that the page allocator marks as used lie apart
    from all arenas. *)
Lemma grow_mach h m' k n :
  heap_inv h → 0 < n → free_run (kernel_pool (mach h)) k n →
  marked (kernel_pool (mach h)) k n true (kernel_pool m') →
  let a := pool_page (kernel_pool (mach h)) k in
  heap_inv (set_mach m' h) ∧ arenas h !! a = None ∧ PHYS_BASE ≤ a ∧ (4096 | a) ∧ a + 4096 * n < 2 ^ 32 ∧
  ∀ a' x', arenas h !! a' = Some x' → a' + 4096 * arena_pages x' ≤ a ∨ a + 4096 * n ≤ a'.
Proof.
  intros Hinv Hn (Hk & Hk1 & Hfree) (Hw' & Hb' & Hc' & Hu') a. pose proof Hinv as [I1 I2 I3 I4 I5].
  assert (∀ a' x', arenas h !! a' = Some x' → a' + 4096 * arena_pages x' ≤ a ∨ a + 4096 * n ≤ a') as Hapart.
  { intros a' x' Hx. destruct (I3 a' x' Hx) as [_ (k' & -> & Hk0 & Hp & Hkb & Hin) _]. unfold a, pool_page.
    change PGSIZE with 4096. destruct (decide (k' + arena_pages x' ≤ k)); [lia|]. destruct (decide (k + n ≤ k')); [lia|].
    assert (in_use (kernel_pool (mach h)) (k `max` k') = true) as H1 by (apply Hin; lia).
    rewrite Hfree in H1 by lia. done. }
  destruct I1 as [P1 P2 [q P3] P4]. unfold pool_page in *. change PGSIZE with 4096 in *.
  split; [|split; [|split; [unfold a; lia|split; [exists (q + k); unfold a; lia|split; [unfold a; lia|done]]]]].
  - split; [done|done| |done|done]. intros a' x' Hx. destruct (I3 a' x' Hx) as [J1 (k' & -> & Hk0 & Hp & Hkb & Hin) J3].
    split; [done| |done]. exists k'. simpl. unfold pool_page. rewrite Hb', Hc'. repeat split; try done.
    intros j Hj. rewrite Hu' by lia. rewrite Hin by lia. by destruct (_ && _).
  - destruct (arenas h !! a) as [x|] eqn:E; [|done]. destruct (arena_facts h Hinv a x E) as (_ & _ & ? & _).
    destruct (Hapart a x E); lia.
Qed.
(** Installing the header of a new arena. *)
Lemma new_arena_block_of h a x i d a' b :
  arenas h !! a = None → adesc x ≠ Some i ∨ a' ≠ a →
  block_of (set_arenas (<[a := x]> (arenas h)) h) i d a' b ↔ block_of h i d a' b.
Proof.
  intros Hn Hc. unfold block_of. simpl. split; intros (y & k & Hy & Hi & Hk & ->).
  - destruct (decide (a' = a)) as [->|Hne].
    + rewrite lookup_insert_eq in Hy. injection Hy as <-. by destruct Hc.
    + rewrite lookup_insert_ne in Hy by done. by exists y, k.
  - exists y, k. rewrite lookup_insert_ne; [done|]. intros ->. congruence.
Qed.
Lemma new_big_arena h a n :
  heap_inv h → arenas h !! a = None → 0 < n → PHYS_BASE ≤ a → (4096 | a) →
  arena_ok h a (Arena ARENA_MAGIC None n) →
  (∀ a' x', arenas h !! a' = Some x' → a' + 4096 * arena_pages x' ≤ a ∨ a + 4096 * n ≤ a') →
  let h' := set_arenas (<[a := Arena ARENA_MAGIC None n]> (arenas h)) h in
  heap_inv h' ∧ ∀ b m, allocated h' b m ↔ allocated h b m ∨ (b = a + 12 ∧ m = 4096 * n - 12).
Proof.
  intros Hinv Hna Hn Hpb Hal Hok Hapart h'. pose proof Hinv as [I1 I2 I3 I4 I5].
  assert (∀ i d a' b, block_of h' i d a' b ↔ block_of h i d a' b) as Hbo by (intros; apply new_arena_block_of; [done|by left]).
  split.
  - split; [done|done| | |].
    + intros a' x'. simpl. intros H. destruct (decide (a' = a)) as [->|Hne].
      * rewrite lookup_insert_eq in H. injection H as <-. destruct Hok as [O1 O2 O3]. by split.
      * rewrite lookup_insert_ne in H by done. by destruct (I3 a' x' H).
    + intros a1 x1 a2 x2. simpl. intros H1 H2 Hne.
      destruct (decide (a1 = a)) as [->|N1], (decide (a2 = a)) as [->|N2]; [done| | |].
      * rewrite lookup_insert_eq in H1. rewrite lookup_insert_ne in H2 by done. injection H1 as <-.
        destruct (Hapart a2 x2 H2); [by right|by left].
      * rewrite lookup_insert_eq in H2. rewrite lookup_insert_ne in H1 by done. injection H2 as <-. by apply Hapart.
      * rewrite lookup_insert_ne in H1, H2 by done. by apply I4.
    + intros i d Hd. destruct (I5 i d Hd) as [? Hb]. split; [done|]. intros b Hin. destruct (Hb b Hin) as (a' & Hb').
      exists a'. by apply Hbo.
  - intros b m. split.
    + intros (a' & x' & H & Hm). change (arenas h') with (<[a := Arena ARENA_MAGIC None n]> (arenas h)) in H.
      destruct (decide (a' = a)) as [->|Hne].
      * rewrite lookup_insert_eq in H. injection H as <-. by right.
      * rewrite lookup_insert_ne in H by done. left. exists a', x'. split; [done|]. destruct (adesc x'); [|done].
        destruct Hm as (d & Hd & Hb & Hr). exists d. split; [done|]. split; [by apply Hbo|done].
    + intros [(a' & x' & H & Hm)|[-> ->]].
      * exists a', x'. split; [change (<[a := Arena ARENA_MAGIC None n]> (arenas h) !! a' = Some x'); rewrite lookup_insert_ne; [done|congruence]|]. destruct (adesc x'); [|done].
        destruct Hm as (d & Hd & Hb & Hr). exists d. split; [done|]. split; [by apply Hbo|done].
      * exists a, (Arena ARENA_MAGIC None n). split; [apply lookup_insert_eq|done].
Qed.
Lemma palloc_grow h n :
  heap_inv h → 0 < n < 2 ^ 32 →
  ∃ r m', on_mach (palloc_get_multiple 0 n) h = Ret (r, set_mach m' h) ∧
    match r with
    | None => kernel_pool m' = kernel_pool (mach h)
    | Some a => ∃ k, a = pool_page (kernel_pool (mach h)) k ∧ free_run (kernel_pool (mach h)) k n ∧
        marked (kernel_pool (mach h)) k n true (kernel_pool m')
    end.
Proof.
  intros Hinv Hn. destruct (palloc_get_multiple_spec 0 n (mach h) (hi_pool h Hinv) Hn) as (r & m' & Hr & _ & _ & Hm); [done|].
  exists r, m'. split; [unfold on_mach; by rewrite Hr|]. destruct r as [a|]; [|by apply Hm].
  destruct Hm as (k & -> & [Hf _] & Hmk & _). by exists k.
Qed.
Lemma same_pool_inv h m' :
  heap_inv h → kernel_pool m' = kernel_pool (mach h) → heap_inv (set_mach m' h) ∧ ∀ b n, allocated (set_mach m' h) b n ↔ allocated h b n.
Proof.
  intros [I1 I2 I3 I4 I5] Hk. split; [|done]. split; simpl; try done; [by rewrite Hk|].
  intros a x Hx. destruct (I3 a x Hx) as [J1 J2 J3]. split; [done| |done]. simpl. by rewrite Hk.
Qed.
Lemma arena_to_block_Ret h a x i d k :
  arenas h !! a = Some x → amagic x = ARENA_MAGIC → adesc x = Some i → descs h !! i = Some d →
  PHYS_BASE ≤ a → a + 4096 < 2 ^ 32 → 0 ≤ block_size_ d → blocks_per_arena d * block_size_ d ≤ 4084 →
  0 ≤ k < blocks_per_arena d → arena_to_block a k h = Ret (block_at a (block_size_ d) k, h).
Proof.
  intros Hx Hm Hi Hd Ha He Hbs Hbb Hk. unfold PHYS_BASE in Ha. unfold arena_to_block.
  rewrite (bindM_Ret (assertM _) _ h tt h) by (apply assertM_true; by rewrite (proj2 (Z.eqb_neq _ _)) by lia).
  rewrite (bindM_Ret _ _ _ _ _ (get_arena_Ret h _ _ Hx)).
  rewrite (bindM_Ret (assertM _) _ h tt h) by (apply assertM_true, Z.eqb_eq; done).
  rewrite Hi, (bindM_Ret _ _ _ _ _ (get_desc_Ret h _ _ Hd)).
  rewrite (bindM_Ret (assertM _) _ h tt h) by (apply assertM_true, Z.ltb_lt; lia).
  unfold retM, block_at, ARENA_SIZE. rewrite u32_small by nia. done.
Qed.
Lemma add_blocks_Ret n h di a i x d :
  arenas h !! a = Some x → amagic x = ARENA_MAGIC → adesc x = Some di → descs h !! di = Some d →
  PHYS_BASE ≤ a → a + 4096 < 2 ^ 32 → 0 ≤ block_size_ d → blocks_per_arena d * block_size_ d ≤ 4084 →
  0 ≤ i → i + Z.of_nat n ≤ blocks_per_arena d →
  add_blocks n di a i h =
    Ret (tt, set_descs (<[di := with_free d (free_list d ++ (block_at a (block_size_ d) <$> seqZ i (Z.of_nat n)))]> (descs h)) h).
Proof.
  intros Hx Hm Hi. revert h i d Hx. induction n as [|n IH]; intros h i d Hx Hd Ha He Hbs Hbb Hi0 Hn; cbn [add_blocks].
  - rewrite app_nil_r. replace (with_free d (free_list d)) with d by (by destruct d). rewrite list_insert_id by done. by destruct h.
  - rewrite (bindM_Ret _ _ _ _ _ (arena_to_block_Ret h a x di d i Hx Hm Hi Hd Ha He Hbs Hbb ltac:(lia))).
    rewrite (bindM_Ret _ _ _ _ _ (get_desc_Ret h _ _ Hd)). unfold put_desc, modifyM, bindM at 1.
    rewrite (IH _ _ (with_free d (free_list d ++ [block_at a (block_size_ d) i]))); try done; try (simpl; lia).
    2: { apply list_lookup_insert_eq. by eapply lookup_lt_Some. }
    rewrite (seqZ_cons i (Z.of_nat (S n))) by lia. rewrite Nat2Z.inj_succ, Z.pred_succ, fmap_cons.
    unfold with_free. cbn [set_descs descs free_list block_size_ blocks_per_arena].
    rewrite list_insert_insert_eq, <-app_assoc. done.
Qed.

Lemma filter_blocks a a' d :
  (∀ b, b ∈ arena_blocks a d → in_arena a b) →
  filter (in_arena a') (arena_blocks a d) = if decide (a' = a) then arena_blocks a d else [].
Proof.
  intros Hb. case_decide as Ha.
  - subst. by apply filter_all.
  - apply filter_none. intros b Hin Hin'. apply Ha. eapply in_arena_unique; eauto.
Qed.
Section small_arena.
  Context h (a : Z) (di : nat) (d : desc).
  Hypothesis Hinv : heap_inv h.
  Hypothesis Hd : descs h !! di = Some d.
  Hypothesis Hl : free_list d = [].
  Hypothesis Hna : arenas h !! a = None.
  Hypothesis Hal : (4096 | a).
  Hypothesis Hpage : ∃ k, a = pool_page (kernel_pool (mach h)) k ∧ 0 ≤ k ∧
    k + 1 ≤ bit_cnt (used_map (kernel_pool (mach h))) ∧ in_use (kernel_pool (mach h)) k = true.
  Hypothesis Hapart : ∀ a' x', arenas h !! a' = Some x' → a' + 4096 * arena_pages x' ≤ a ∨ a + 4096 * 1 ≤ a'.
Let x : arena := Arena ARENA_MAGIC (Some di) (blocks_per_arena d).
Let h' : heap :=
    set_descs (<[di := with_free d (arena_blocks a d)]> (descs h)) (set_arenas (<[a := x]> (arenas h)) h).
Lemma new_blocks_in b : b ∈ arena_blocks a d → in_arena a b.
Proof.
  intros (j & Hj & ->)%elem_of_arena_blocks. destruct (desc_facts h Hinv di d Hd) as (Hbs & Hbp & Hbb). destruct Hal as [q Hq].
  unfold in_arena, block_at. rewrite Hq. rewrite <-Z.add_assoc, Z.add_comm, Z.div_add by lia. rewrite Z.div_small by nia. lia.
Qed.
Lemma new_arenas a' x' :
  <[a := x]> (arenas h) !! a' = Some x' → (a' = a ∧ x' = x) ∨ (a' ≠ a ∧ arenas h !! a' = Some x').
Proof.
  intros H. destruct (decide (a' = a)) as [->|Hne].
  - rewrite lookup_insert_eq in H. injection H as <-. by left.
  - rewrite lookup_insert_ne in H by done. by right.
Qed.
Lemma new_block_of i' d' a' b : block_of h i' d' a' b → block_of h' i' d' a' b.
Proof.
  intros (y & j & Hy & Hi & Hj & ->). exists y, j. simpl. rewrite lookup_insert_ne by congruence. done.
Qed.
Lemma new_descs i' d' :
  descs h' !! i' = Some d' → (i' = di ∧ d' = with_free d (arena_blocks a d)) ∨ (i' ≠ di ∧ descs h !! i' = Some d').
Proof.
  unfold h'. cbn [descs set_descs]. intros H. destruct (decide (i' = di)) as [->|Hne].
  - rewrite list_lookup_insert_eq in H by (by eapply lookup_lt_Some). injection H as <-. by left.
  - rewrite list_lookup_insert_ne in H by done. by right.
Qed.
Lemma new_small_inv : heap_inv h'.
Proof.
  pose proof Hinv as [I1 I2 I3 I4 I5]. pose proof (lookup_lt_Some _ _ _ Hd) as Hlt.
  destruct (desc_facts h Hinv di d Hd) as (Hbs & Hbp & Hbb). destruct Hpage as (k & Hk1 & Hk2 & Hk3 & Hk4).
  split; [done| | | |]; unfold h'; cbn [descs arenas mach set_arenas set_descs].
  - rewrite list_fmap_insert, <-I2. apply list_insert_id. by rewrite list_lookup_fmap, Hd.
  - intros a' x' [[-> ->]|[Hne Hx']]%new_arenas.
    + split; [done| |]; simpl.
      * exists k. unfold arena_pages. simpl. repeat split; [done|lia..|]. intros j Hj. by replace j with k by lia.
      * intros i [= <-]. exists (with_free d (arena_blocks a d)). rewrite list_lookup_insert_eq by done. split; [done|].
        simpl. rewrite filter_blocks, decide_True, arena_blocks_length by (done || apply new_blocks_in). lia.
    + destruct (I3 a' x' Hx') as [J1 J2 J3]. split; [done|done|]. intros i Hi. destruct (J3 i Hi) as (d' & Hd' & Hc). simpl.
      destruct (decide (i = di)) as [->|Hii].
      * exists (with_free d (arena_blocks a d)). rewrite list_lookup_insert_eq by done. split; [done|]. simpl.
        rewrite filter_blocks, decide_False by (done || apply new_blocks_in). rewrite Hd in Hd'. injection Hd' as <-.
        by rewrite Hl in Hc.
      * exists d'. by rewrite list_lookup_insert_ne.
  - intros a1 x1 a2 x2 [[-> ->]|[N1 H1]]%new_arenas [[-> ->]|[N2 H2]]%new_arenas Hne; [done| | |by apply I4].
    + destruct (Hapart a2 x2 H2); [by right|by left].
    + by apply Hapart.
  - intros i' d' [[-> ->]|[Hii Hd']]%new_descs.
    + simpl. split; [apply arena_blocks_NoDup; lia|].
      intros b (j & Hj & ->)%elem_of_arena_blocks. exists a, x, j. simpl. by rewrite lookup_insert_eq.
    + destruct (I5 i' d' Hd') as [? Hb]. split; [done|]. intros b Hb'. destruct (Hb b Hb') as (a' & ?). exists a'. by apply new_block_of.
Qed.
Lemma new_small_allocated b m : allocated h' b m ↔ allocated h b m.
Proof.
  split; intros (a' & x' & Hx' & Hm).
  - change (arenas h') with (<[a := x]> (arenas h)) in Hx'. destruct (new_arenas _ _ Hx') as [[-> ->]|[Hne Hx]].
    + simpl in Hm. destruct Hm as (d' & Hd' & (y & j & _ & _ & Hj & ->) & Hnf & _).
      destruct (new_descs _ _ Hd') as [[_ ->]|[? _]]; [|done]. destruct Hnf. apply elem_of_arena_blocks. by exists j.
    + exists a', x'. split; [done|]. destruct (adesc x') as [i|] eqn:E; [|done]. destruct Hm as (d' & Hd' & (y & j & Hy & Hi & Hj & ->) & Hnf & ->).
      change (arenas h') with (<[a := x]> (arenas h)) in Hy. rewrite lookup_insert_ne in Hy by done.
      destruct (new_descs _ _ Hd') as [[-> ->]|[Hii Hd2]].
      * exists d. split; [done|]. split; [by exists y, j|]. rewrite Hl. split; [apply not_elem_of_nil|done].
      * exists d'. split; [done|]. split; [by exists y, j|done].
  - assert (a' ≠ a) as Hne by congruence. exists a', x'. split; [change (<[a := x]> (arenas h) !! a' = Some x'); by rewrite lookup_insert_ne|].
    destruct (adesc x') as [i|] eqn:E; [|done]. destruct Hm as (d' & Hd' & Hbo & Hnf & ->).
    destruct (decide (i = di)) as [->|Hii].
    + rewrite Hd in Hd'. injection Hd' as <-. exists (with_free d (arena_blocks a d)).
      split; [apply list_lookup_insert_eq; by eapply lookup_lt_Some|]. split; [by apply new_block_of|]. split; [|done]. simpl.
      intros Hin%new_blocks_in. destruct (block_arena h Hinv _ _ _ _ Hd Hbo) as (Hin' & _). by destruct (Hne (in_arena_unique _ _ _ Hin' Hin)).
    + exists d'. split; [unfold h'; cbn [descs set_descs]; by rewrite list_lookup_insert_ne|]. split; [by apply new_block_of|done].
Qed.
End small_arena.

(** ** malloc *)
Lemma block_to_arena_frame h h' a b :
  block_to_arena b h = Ret (a, h) → arenas h' = arenas h →
  (∀ i d, descs h !! i = Some d → ∃ d', descs h' !! i = Some d' ∧ block_size_ d' = block_size_ d) →
  block_to_arena b h' = Ret (a, h').
Proof.
  intros Hb Ha Hd. unfold block_to_arena, bindM, assertM, get_arena, get_desc, retM in *.
  destruct (negb _); [|done]. cbv beta iota in *. rewrite Ha. destruct (arenas h !! pg_round_down b) as [x|]; [|done].
  destruct (amagic x =? ARENA_MAGIC); [|done]. destruct (adesc x) as [i|].
  - destruct (descs h !! i) as [d|] eqn:E; [|done]. destruct (Hd i d E) as (d' & -> & ->).
    destruct (_ =? 0); [|done]. by injection Hb as ->.
  - destruct (_ =? ARENA_SIZE); [|done]. by injection Hb as ->.
Qed.
Definition take_block (di : nat) : M heap (option Z) :=
  do d <- get_desc di;
  match free_list d with
  | [] => panicM
  | b :: l =>
      run put_desc di (Desc (block_size_ d) (blocks_per_arena d) l);
      do a <- block_to_arena b;
      do x <- get_arena a;
      run put_arena a (Arena (amagic x) (adesc x) (u32 (free_cnt x - 1)));
      retM (Some b)
  end.
(** [h'] has one more allocated block, [b] of [n] bytes. *)
Definition allocates h (b n : Z) h' : Prop :=
  heap_inv h' ∧ (¬ allocated h b n) ∧ ∀ b' m, allocated h' b' m ↔ allocated h b' m ∨ (b' = b ∧ m = n).
Definition keeps h h' : Prop := heap_inv h' ∧ ∀ b m, allocated h' b m ↔ allocated h b m.
Lemma put_free_descs h di d l i d0 :
  descs h !! di = Some d → descs h !! i = Some d0 →
  ∃ d', <[di := with_free d l]> (descs h) !! i = Some d' ∧ block_size_ d' = block_size_ d0.
Proof.
  intros Hd H0. destruct (decide (i = di)) as [->|Hne].
  - exists (with_free d l). rewrite list_lookup_insert_eq by (by eapply lookup_lt_Some). split; [done|]. simpl. congruence.
  - exists d0. by rewrite list_lookup_insert_ne.
Qed.
Lemma take_block_Ret h di d :
  heap_inv h → descs h !! di = Some d → free_list d ≠ [] →
  ∃ b h', take_block di h = Ret (Some b, h') ∧ allocates h b (block_size_ d) h'.
Proof.
  intros Hinv Hd Hl. destruct (free_list d) as [|b l] eqn:E; [done|]. clear Hl.
  destruct (pop_block h di d b l Hinv Hd E) as (a & x & Hx & Hi & Hb & Hc & Hi' & Hna & Hal).
  unfold take_block. rewrite (bindM_Ret _ _ _ _ _ (get_desc_Ret h _ _ Hd)), E. unfold put_desc, modifyM, bindM at 1.
  fold (with_free d l). set (h1 := set_descs _ h).
  rewrite (bindM_Ret _ _ _ _ _ (block_to_arena_frame h h1 a b (block_to_arena_small h Hinv di d a b Hd Hb) eq_refl
    (λ i d0 H0, put_free_descs h di d l i d0 Hd H0))).
  rewrite (bindM_Ret _ _ _ _ _ (get_arena_Ret h1 _ _ Hx)). rewrite u32_small by lia.
  exists b, (relist h di d l a x (free_cnt x - 1)). split; [done|]. by split.
Qed.
Lemma malloc_small_Ret h di d :
  heap_inv h → descs h !! di = Some d →
  ∃ r h', malloc_small di h = Ret (r, h') ∧
    match r with None => keeps h h' | Some b => allocates h b (block_size_ d) h' end.
Proof.
  intros Hinv Hd. destruct (desc_facts h Hinv di d Hd) as (Hbs & Hbp & Hbb).
  unfold malloc_small. rewrite (bindM_Ret _ _ _ _ _ (get_desc_Ret h _ _ Hd)). fold (take_block di).
  destruct (free_list d) as [|b0 l0] eqn:El.
  2: { rewrite (bindM_Ret (retM true) _ h true h) by done. cbn [negb].
       destruct (take_block_Ret h di d Hinv Hd) as (b & h' & Ht & Hall); [by rewrite El|]. by exists (Some b), h'. }
  destruct (palloc_grow h 1 Hinv) as (r & m' & Hr & Hm); [done|]. unfold palloc_get_page. destruct r as [a|].
  2: { rewrite (bindM_Ret _ _ h false (set_mach m' h)) by (by rewrite (bindM_Ret _ _ _ _ _ Hr)).
       exists None, (set_mach m' h). split; [done|]. by apply same_pool_inv. }
  destruct Hm as (k & -> & Hf & Hmk). pose proof Hf as (Hk0 & Hk1 & _).
  destruct (grow_mach h m' k 1 Hinv ltac:(lia) Hf Hmk) as (Hinv1 & Hna & Hpb & Hal & Hend & Hap).
  set (a := pool_page (kernel_pool (mach h)) k) in *. set (x := Arena ARENA_MAGIC (Some di) (blocks_per_arena d)).
  set (h1 := set_mach m' h) in *. destruct Hmk as (_ & Hb' & Hc' & Hu').
  assert (∃ k, a = pool_page (kernel_pool (mach h1)) k ∧ 0 ≤ k ∧ k + 1 ≤ bit_cnt (used_map (kernel_pool (mach h1))) ∧
    in_use (kernel_pool (mach h1)) k = true) as Hpage.
  { exists k. simpl. unfold a, pool_page. rewrite Hb', Hc', Hu' by lia. split; [done|]. split; [done|]. split; [done|].
    by rewrite (proj2 (Z.leb_le k k)), (proj2 (Z.ltb_lt k (k + 1))) by lia. }
  set (h2 := set_descs (<[di := with_free d (arena_blocks a d)]> (descs h1)) (set_arenas (<[a := x]> (arenas h1)) h1)).
  assert (heap_inv h2) as Hinv2 by (by apply (new_small_inv h1 a di d)).
  pose proof (new_small_allocated h1 a di d Hinv1 Hd El Hna Hal) as Hal2. fold x h2 in Hal2.
  rewrite (bindM_Ret _ _ h true h2).
  2: { rewrite (bindM_Ret _ _ _ _ _ Hr). fold h1. unfold put_arena, modifyM, bindM at 1.
       rewrite (bindM_Ret _ _ _ _ _ (add_blocks_Ret (Z.to_nat (blocks_per_arena d)) (set_arenas (<[a := x]> (arenas h1)) h1)
         di a 0 x d (lookup_insert_eq _ _ _) eq_refl eq_refl Hd Hpb ltac:(lia) ltac:(lia) ltac:(lia) ltac:(lia) ltac:(lia))).
       rewrite El, Z2Nat.id by lia. done. }
  cbn [negb]. assert (arena_blocks a d ≠ []) as Hne
    by (intros E; pose proof (arena_blocks_length a d) as H; rewrite E in H; simpl in H; lia).
  destruct (take_block_Ret h2 di (with_free d (arena_blocks a d)) Hinv2) as (b & h' & Ht & Hi3 & Hn3 & Ha3); [|done|].
  { unfold h2. cbn [descs set_descs]. apply list_lookup_insert_eq. by eapply lookup_lt_Some. }
  exists (Some b), h'. split; [done|]. split; [done|]. split; [intros H; by apply Hn3, Hal2|].
  intros b' m. rewrite Ha3, Hal2. done.
Qed.
Lemma malloc_big_Ret h size :
  heap_inv h → 0 < size → size + 4107 < 2 ^ 32 →
  ∃ r h', malloc_big size h = Ret (r, h') ∧
    match r with None => keeps h h' | Some b => ∃ n, size ≤ n ∧ allocates h b n h' end.
Proof.
  intros Hinv Hs Hb. unfold malloc_big, ARENA_SIZE. change PGSIZE with 4096.
  rewrite !u32_small by (rewrite ?u32_small; lia). set (n := (size + 12 + 4096 - 1) / 4096).
  assert (0 < n < 2 ^ 32 ∧ size ≤ 4096 * n - 12) as [Hn Hsz].
  { unfold n. pose proof (Z.div_mod (size + 12 + 4096 - 1) 4096). pose proof (Z.mod_pos_bound (size + 12 + 4096 - 1) 4096). lia. }
  destruct (palloc_grow h n Hinv Hn) as (r & m' & Hr & Hm). rewrite (bindM_Ret _ _ _ _ _ Hr). destruct r as [a|].
  2: { exists None, (set_mach m' h). split; [done|]. by apply same_pool_inv. }
  destruct Hm as (k & -> & Hf & Hmk). pose proof Hf as (Hk0 & Hk1 & _).
  destruct (grow_mach h m' k n Hinv ltac:(lia) Hf Hmk) as (Hinv1 & Hna & Hpb & Hal & Hend & Hap).
  destruct Hmk as (_ & Hb' & Hc' & Hu'). set (a := pool_page (kernel_pool (mach h)) k) in *.
  destruct (new_big_arena (set_mach m' h) a n) as [Hi2 Ha2]; [done|done|lia|done|done| |done|].
  { split; [done| |done]. exists k. unfold arena_pages. simpl. unfold a, pool_page. rewrite Hb', Hc'.
    split; [done|]. split; [done|]. split; [lia|]. split; [done|]. intros j Hj. rewrite Hu' by lia.
    rewrite (proj2 (Z.leb_le k j)), (proj2 (Z.ltb_lt j (k + n))) by lia. done. }
  unfold PHYS_BASE in Hpb. rewrite u32_small by lia. eexists (Some (a + 12)), _. split; [done|].
  exists (4096 * n - 12). split; [done|]. split; [done|]. split; [|done].
  intros (a' & x' & Hx' & Hm'). destruct (arena_facts h Hinv a' x' Hx') as (_ & [q' Hq'] & Hp' & _). destruct Hal as [q Hq].
  destruct (adesc x') as [i'|] eqn:E.
  - destruct Hm' as (d' & Hd' & Hbo & _ & Hbs). destruct (block_arena h Hinv _ _ _ _ Hd' Hbo) as (_ & H1 & H2 & _).
    unfold arena_pages in *. rewrite E in *. destruct (Hap a' x' Hx') as [H|H]; rewrite ?E in H; lia.
  - destruct Hm' as [H1 _]. assert (a = a') as <- by lia. congruence.
Qed.
Lemma find_desc_Some ds i size j :
  find_desc ds i size = Some j → ∃ d, (i ≤ j)%nat ∧ ds !! (j - i)%nat = Some d ∧ size ≤ block_size_ d.
Proof.
  revert i. induction ds as [|d ds IH]; intros i; simpl; [done|]. destruct (Z.leb_spec size (block_size_ d)).
  - intros [= <-]. exists d. rewrite Nat.sub_diag. done.
  - intros H'. destruct (IH (S i) H') as (d' & Hle & Hd & Hs). exists d'. split; [lia|]. split; [|done].
    replace (j - i)%nat with (S (j - S i)) by lia. done.
Qed.
Lemma malloc_Ret h size :
  heap_inv h → 0 < size → size + 4107 < 2 ^ 32 →
  ∃ r h', malloc size h = Ret (r, h') ∧
    match r with None => keeps h h' | Some b => ∃ n, size ≤ n ∧ allocates h b n h' end.
Proof.
  intros Hinv Hs Hb. unfold malloc. rewrite (proj2 (Z.eqb_neq _ _)) by lia. rewrite (bindM_Ret getM _ h h h) by done.
  destruct (find_desc (descs h) 0 size) as [di|] eqn:E; [|by apply malloc_big_Ret].
  apply find_desc_Some in E as (d & _ & Hd & Hsz). rewrite Nat.sub_0_r in Hd.
  destruct (malloc_small_Ret h di d Hinv Hd) as (r & h' & Hr & Hm). exists r, h'. split; [done|]. destruct r; [|done]. by exists (block_size_ d).
Qed.

(** ** free *)
(** Everything but the contents of blocks. *)
Lemma bytes_inv h bs : heap_inv h → heap_inv (set_bytes_ bs h) ∧ ∀ b m, allocated (set_bytes_ bs h) b m ↔ allocated h b m.
Proof. intros [I1 I2 I3 I4 I5]. split; [|done]. split; try done. intros a x Hx. by destruct (I3 a x Hx). Qed.
Lemma push_block h i d a x b :
  heap_inv h → descs h !! i = Some d → arenas h !! a = Some x → adesc x = Some i → block_of h i d a b → b ∉ free_list d →
  let h' := relist h i d (b :: free_list d) a x (free_cnt x + 1) in
  heap_inv h' ∧ 0 ≤ free_cnt x < 256 ∧ ∀ b' m, allocated h' b' m ↔ allocated h b' m ∧ b' ≠ b.
Proof.
  intros Hinv Hd Hx Hi Hb Hnf h'. destruct (hi_free h Hinv i d Hd) as [Hnd Hbl].
  destruct (block_arena h Hinv i d a b Hd Hb) as (Hin & _).
  destruct (ao_count h a x (hi_arenas h Hinv a x Hx) i Hi) as (d' & Hd' & Hcnt). rewrite Hd in Hd'. injection Hd' as <-.
  pose proof (arena_free_count h i d a Hinv Hd) as Hle. destruct (desc_facts h Hinv i d Hd) as (_ & Hbp & _).
  split; [|split; [lia|]].
  - apply relist_inv; auto.
    + by apply NoDup_cons.
    + intros b' [->|Hb']%elem_of_cons; [by exists a|by apply Hbl].
    + rewrite filter_cons_True by done. cbn [length]. lia.
    + intros a' Hne. rewrite filter_cons_False; [done|]. intros Hin'. by destruct (Hne (in_arena_unique _ _ _ Hin' Hin)).
  - intros b' m. unfold h'. rewrite relist_allocated by done. unfold allocated. split.
    + intros (a' & x' & Hx' & Hm). destruct (adesc x') as [i'|] eqn:E.
      * destruct Hm as (d' & Hd' & Hbo & Hnf' & ->). split.
        -- exists a', x'. split; [done|]. rewrite E. exists d'. split; [done|]. split; [done|]. split; [|done].
           case_decide; [|done]. subst. rewrite Hd in Hd'. injection Hd' as <-. set_solver.
        -- intros ->. destruct (block_of_unique h Hinv _ _ _ _ _ _ _ Hd Hd' Hb Hbo) as [_ <-]. rewrite decide_True in Hnf' by done. set_solver.
      * split; [exists a', x'; by rewrite E|]. intros ->. destruct Hm as [-> _].
        destruct (arena_facts h Hinv a' x' Hx') as (_ & [q Hq] & _).
        assert (in_arena a' (a' + 12)) as Hin' by (unfold in_arena; rewrite Hq, Z.add_comm, Z.div_add by lia; done).
        rewrite (in_arena_unique _ _ _ Hin Hin') in Hx. congruence.
    + intros [(a' & x' & Hx' & Hm) Hne]. exists a', x'. split; [done|]. destruct (adesc x') as [i'|]; [|done].
      destruct Hm as (d' & Hd' & Hbo & Hnf' & ->). exists d'. split; [done|]. split; [done|]. split; [|done].
      case_decide; [|done]. subst. rewrite Hd in Hd'. injection Hd' as <-. set_solver.
Qed.
(** The free blocks outside arena [a]. *)
Definition outside (a : Z) (d : desc) : desc := with_free d (filter (λ b, ¬ in_arena a b) (free_list d)).
Section drop_arena.
  Context h (m' : machine) (a : Z) (x : arena) (Hinv : heap_inv h) (Hx : arenas h !! a = Some x).
  Context (k : Z) (Hk : a = pool_page (kernel_pool (mach h)) k) (Hk0 : 0 ≤ k).
  Context (Hm : marked (kernel_pool (mach h)) k (arena_pages x) false (kernel_pool m')).
Let h' := set_arenas (delete a (arenas h)) (set_descs (outside a <$> descs h) (set_mach m' h)).
Lemma dropped_arenas a' x' : arenas h' !! a' = Some x' ↔ a' ≠ a ∧ arenas h !! a' = Some x'.
Proof. unfold h'. cbn [arenas set_arenas]. rewrite lookup_delete_Some. naive_solver. Qed.
Lemma dropped_descs i d' : descs h' !! i = Some d' ↔ ∃ d, descs h !! i = Some d ∧ d' = outside a d.
Proof. unfold h'. cbn [descs set_arenas set_descs]. rewrite list_lookup_fmap, fmap_Some. naive_solver. Qed.
Lemma dropped_block_of i d a' b : block_of h' i (outside a d) a' b ↔ a' ≠ a ∧ block_of h i d a' b.
Proof.
  unfold block_of. setoid_rewrite dropped_arenas. simpl. split.
  - intros (y & j & [Hne Hy] & Hi & Hj & ->). split; [done|]. by exists y, j.
  - intros (Hne & y & j & Hy & Hi & Hj & ->). by exists y, j.
Qed.
Lemma dropped_pages a' x' : arenas h !! a' = Some x' → a' ≠ a → arena_ok h' a' x'.
Proof.
  intros Hx' Hne. destruct (hi_arenas h Hinv a' x' Hx') as [J1 (j & Hj & Hj0 & Hp & Hb & Hu) J3].
  destruct Hm as (_ & Hb' & Hc' & Hu'). split; [done| |].
  - exists j. unfold h'. cbn [mach set_arenas set_descs set_mach]. unfold pool_page in *. rewrite Hb', Hc'.
    split; [done|]. split; [done|]. split; [done|]. split; [done|]. intros q Hq. rewrite Hu' by lia.
    replace ((k <=? q) && (q <? k + arena_pages x)) with false; [by apply Hu|]. symmetry. apply andb_false_iff.
    change PGSIZE with 4096 in *. destruct (hi_disjoint h Hinv a x a' x' Hx Hx' ltac:(done)).
    + right. apply Z.ltb_ge. lia.
    + left. apply Z.leb_gt. lia.
  - intros i Hi. destruct (J3 i Hi) as (d & Hd & Hcnt). exists (outside a d). rewrite dropped_descs. split; [by exists d|].
    simpl. rewrite list_filter_filter. rewrite Hcnt. f_equal. f_equal. apply list_filter_iff. intros b. split; [|tauto].
    intros Hb1. split; [done|]. intros Hb2. by destruct (Hne (in_arena_unique _ _ _ Hb1 Hb2)).
Qed.
Lemma dropped_inv : heap_inv h'.
Proof.
  split.
  - apply Hm.
  - unfold h'. cbn [descs set_arenas set_descs]. rewrite <-(hi_descs h Hinv), <-list_fmap_compose. done.
  - intros a' x' [Hne Hx']%dropped_arenas. by apply dropped_pages.
  - intros a1 x1 a2 x2 [_ H1]%dropped_arenas [_ H2]%dropped_arenas. by apply (hi_disjoint h Hinv).
  - intros i d' (d & Hd & ->)%dropped_descs. destruct (hi_free h Hinv i d Hd) as [Hnd Hbl].
    split; [by apply NoDup_filter|]. intros b [Hb Hin]%list_elem_of_filter. destruct (Hbl b Hin) as (a' & Hbo).
    exists a'. apply dropped_block_of. split; [|done]. intros ->. apply Hb. by eapply block_arena.
Qed.
Lemma dropped_allocated b m : allocated h' b m ↔ allocated h b m ∧ ¬ in_arena a b.
Proof.
  unfold allocated. setoid_rewrite dropped_arenas. split.
  - intros (a' & x' & [Hne Hx'] & Ha). destruct (arena_facts h Hinv a' x' Hx') as (_ & [q Hq] & _).
    assert (in_arena a' b) as Hin.
    { destruct (adesc x') as [i|].
      - destruct Ha as (d' & (d & Hd & ->)%dropped_descs & [_ Hbo]%dropped_block_of & _). by eapply block_arena.
      - destruct Ha as [-> _]. unfold in_arena. rewrite Hq, Z.add_comm, Z.div_add by lia. done. }
    split; [|intros Hin'; by destruct (Hne (in_arena_unique _ _ _ Hin Hin'))]. exists a', x'. split; [done|].
    destruct (adesc x') as [i|]; [|done]. destruct Ha as (d' & (d & Hd & ->)%dropped_descs & [_ Hbo]%dropped_block_of & Hnf & ->).
    exists d. split; [done|]. split; [done|]. split; [|done]. intros Hf. apply Hnf. simpl. apply list_elem_of_filter. split; [|done].
    intros Hin'. by destruct (Hne (in_arena_unique _ _ _ Hin Hin')).
  - intros [(a' & x' & Hx' & Ha) Hna]. assert (a' ≠ a) as Hne.
    { intros ->. destruct (arena_facts h Hinv a x' Hx') as (_ & [q Hq] & _). apply Hna. destruct (adesc x') as [i|].
      - destruct Ha as (d & Hd & Hbo & _). by eapply block_arena.
      - destruct Ha as [-> _]. unfold in_arena. rewrite Hq, Z.add_comm, Z.div_add by lia. done. }
    exists a', x'. split; [done|]. destruct (adesc x') as [i|]; [|done]. destruct Ha as (d & Hd & Hbo & Hnf & ->).
    exists (outside a d). rewrite dropped_descs, dropped_block_of. split; [by exists d|]. split; [done|]. split; [|done].
    simpl. rewrite list_elem_of_filter. tauto.
Qed.
End drop_arena.
(** Outside its own descriptor nothing of an arena is free. *)
Lemma outside_other h a x i d :
  heap_inv h → arenas h !! a = Some x → descs h !! i = Some d → adesc x ≠ Some i → outside a d = d.
Proof.
  intros Hinv Hx Hd Hi. unfold outside. rewrite filter_all; [by destruct d|]. intros b Hb Hin.
  destruct (hi_free h Hinv i d Hd) as [_ Hbl]. destruct (Hbl b Hb) as (a' & Hbo).
  destruct (block_arena h Hinv i d a' b Hd Hbo) as (Hin' & _). pose proof (in_arena_unique _ _ _ Hin Hin') as <-.
  destruct Hbo as (y & _ & Hy & Hyi & _). congruence.
Qed.
Lemma outside_descs h a x i d :
  heap_inv h → arenas h !! a = Some x → descs h !! i = Some d → adesc x = Some i →
  outside a <$> descs h = <[i := outside a d]> (descs h).
Proof.
  intros Hinv Hx Hd Hi. apply list_eq. intros j. rewrite list_lookup_fmap. destruct (decide (j = i)) as [->|Hne].
  - rewrite list_lookup_insert_eq by (by eapply lookup_lt_Some). by rewrite Hd.
  - rewrite list_lookup_insert_ne by done. destruct (descs h !! j) as [d'|] eqn:E; [|done]. simpl. f_equal.
    eapply outside_other; eauto. congruence.
Qed.
Lemma remove_blocks_Ret n h di a i x d :
  arenas h !! a = Some x → amagic x = ARENA_MAGIC → adesc x = Some di → descs h !! di = Some d →
  PHYS_BASE ≤ a → a + 4096 < 2 ^ 32 → 0 < block_size_ d → blocks_per_arena d * block_size_ d ≤ 4084 →
  0 ≤ i → i + Z.of_nat n ≤ blocks_per_arena d →
  (∀ j, i ≤ j < i + Z.of_nat n → block_at a (block_size_ d) j ∈ free_list d) →
  remove_blocks n di a i h =
    Ret (tt, set_descs (<[di := with_free d (filter (λ b, b ∉ block_at a (block_size_ d) <$> seqZ i (Z.of_nat n)) (free_list d))]> (descs h)) h).
Proof.
  revert h i d. induction n as [|n IH]; intros h i d Hx Hm Hi Hd Ha He Hbs Hbb Hi0 Hin Hfree.
  - simpl. unfold retM. do 2 f_equal. change (seqZ i (Z.of_nat 0)) with (@nil Z). rewrite filter_all by (intros; apply not_elem_of_nil).
    rewrite list_insert_id by (by destruct d). by destruct h.
  - cbn [remove_blocks]. rewrite (bindM_Ret _ _ _ _ _ (arena_to_block_Ret h a x di d i Hx Hm Hi Hd Ha He ltac:(lia) Hbb ltac:(lia))).
    rewrite (bindM_Ret _ _ _ _ _ (get_desc_Ret _ _ _ Hd)). unfold remove_block. rewrite bool_decide_eq_true_2 by (apply Hfree; lia).
    set (b := block_at a (block_size_ d) i). set (l := filter (λ y, y ≠ b) (free_list d)).
    rewrite (bindM_Ret (liftO (Ret l)) _ h l h) by done.
    rewrite (bindM_Ret (put_desc _ _) _ h tt (set_descs (<[di := with_free d l]> (descs h)) h)) by done.
    rewrite (IH _ (i + 1) (with_free d l)); try done; try lia.
    + f_equal. f_equal. match goal with |- set_descs ?A (set_descs _ h) = _ => change (set_descs A h = set_descs (<[di := with_free d
        (filter (λ y, y ∉ block_at a (block_size_ d) <$> seqZ i (Z.of_nat (S n))) (free_list d))]> (descs h)) h) end.
      f_equal. cbn [set_descs descs]. rewrite list_insert_insert_eq. f_equal. unfold with_free. simpl. f_equal.
      unfold l. rewrite list_filter_filter. apply list_filter_iff. intros y.
      replace (Z.of_nat (S n)) with (Z.succ (Z.of_nat n)) by lia. rewrite (seqZ_cons i) by lia.
      rewrite Z.pred_succ, <-Z.add_1_r, fmap_cons, not_elem_of_cons. tauto.
    + cbn [set_descs descs]. by apply list_lookup_insert_eq, (lookup_lt_Some _ _ d).
    + simpl. lia.
    + intros j Hj. simpl. apply list_elem_of_filter. split; [|apply Hfree; lia]. unfold b, block_at. nia.
Qed.
(** All blocks of a wholly free arena are in the free list. *)
Lemma arena_all_free h i d a :
  heap_inv h → descs h !! i = Some d →
  Z.of_nat (length (filter (in_arena a) (free_list d))) = blocks_per_arena d →
  ∀ b, b ∈ arena_blocks a d ↔ b ∈ filter (in_arena a) (free_list d).
Proof.
  intros Hinv Hd Hlen. pose proof (arena_free_sub h i d a Hinv Hd) as Hsub.
  assert (filter (in_arena a) (free_list d) ≡ₚ arena_blocks a d) as Hp
    by (apply submseteq_length_Permutation; [done|]; rewrite arena_blocks_length; lia).
  intros b. by rewrite Hp.
Qed.
(** From [h] to [h'] the block [b] is freed; its arena is taken down when no
    other block of it is allocated. *)
Definition frees h (b : Z) h' : Prop :=
  heap_inv h' ∧ (∀ b' m, allocated h' b' m ↔ allocated h b' m ∧ b' ≠ b) ∧
  ∃ a, in_arena a b ∧ (arenas h' !! a = None ∨ ∃ b' m, allocated h' b' m ∧ in_arena a b').
(** Giving back the page of an arena that is wholly free. *)
Definition drop_page (di : nat) (d : desc) (a : Z) : M heap unit :=
  run remove_blocks (Z.to_nat (blocks_per_arena d)) di a 0;
  run on_mach (palloc_free_page (Some a));
  modifyM (λ h, set_arenas (delete a (arenas h)) h).
Lemma drop_page_Ret h di d a x :
  heap_inv h → descs h !! di = Some d → arenas h !! a = Some x → adesc x = Some di → free_cnt x = blocks_per_arena d →
  ∃ h', drop_page di d a h = Ret (tt, h') ∧ keeps h h' ∧ arenas h' !! a = None.
Proof.
  intros Hinv Hd Hx Hi Hc. destruct (hi_arenas h Hinv a x Hx) as [Hmg (k & Hk & Hk0 & Hp & Hb & _) Hcnt].
  destruct (Hcnt di Hi) as (d' & Hd' & Hlen). rewrite Hd in Hd'. injection Hd' as <-. rewrite Hc in Hlen.
  destruct (desc_facts h Hinv di d Hd) as (Hbs & Hbp & Hbb). destruct (arena_facts h Hinv a x Hx) as (Ha & _ & _ & He).
  pose proof (arena_all_free h di d a Hinv Hd (eq_sym Hlen)) as Hall. unfold arena_pages in *. rewrite Hi in *.
  unfold drop_page. rewrite (bindM_Ret _ _ _ _ _ (remove_blocks_Ret (Z.to_nat (blocks_per_arena d)) h di a 0 x d Hx Hmg Hi Hd Ha
    ltac:(lia) ltac:(lia) Hbb ltac:(lia) ltac:(lia)
    ltac:(intros j Hj; assert (block_at a (block_size_ d) j ∈ arena_blocks a d) as Hin by (apply elem_of_arena_blocks; exists j; split; [lia|done]);
          apply Hall, list_elem_of_filter in Hin; tauto))).
  replace (filter (λ b, b ∉ _ <$> seqZ 0 _) (free_list d)) with (free_list (outside a d)).
  2: { simpl. apply filter_iff_elem. intros b Hin. rewrite Z2Nat.id by lia. fold (arena_blocks a d). rewrite Hall, list_elem_of_filter. tauto. }
  change (with_free d (free_list (outside a d))) with (outside a d). rewrite <-(outside_descs h a x di d Hinv Hx Hd Hi).
  unfold palloc_free_page, on_mach, bindM at 1. cbn [mach set_descs].
  destruct (palloc_free_spec (mach h) k 1 (hi_pool h Hinv) Hk0 ltac:(lia) Hb) as (m' & Hf & _ & _ & Hmk & _). rewrite Hk, Hf, <-Hk.
  eexists. split; [reflexivity|]. split; [|apply lookup_delete_eq].
  assert (marked (kernel_pool (mach h)) k (arena_pages x) false (kernel_pool m')) as Hmk' by (unfold arena_pages; by rewrite Hi).
  split; [exact (dropped_inv h m' a x Hinv Hx k Hk Hmk')|]. intros b m.
  etransitivity; [exact (dropped_allocated h m' a x Hinv Hx k Hk b m)|]. split; [tauto|]. intros Hal. split; [done|]. intros Hin.
  destruct Hal as (a' & x' & Hx' & Hm). destruct (arena_facts h Hinv a' x' Hx') as (_ & [q Hq] & _). destruct (adesc x') as [i'|] eqn:E.
  - destruct Hm as (d2 & Hd2 & Hbo & Hnf & _). destruct (block_arena h Hinv i' d2 a' b Hd2 Hbo) as (Hin' & _).
    pose proof (in_arena_unique _ _ _ Hin Hin') as <-. rewrite Hx in Hx'. injection Hx' as <-. rewrite Hi in E. injection E as <-.
    rewrite Hd in Hd2. injection Hd2 as <-. apply Hnf. destruct Hbo as (_ & j & _ & _ & Hj & ->).
    assert (block_at a (block_size_ d) j ∈ arena_blocks a d) as Hin2 by (apply elem_of_arena_blocks; by exists j).
    apply Hall, list_elem_of_filter in Hin2. tauto.
  - destruct Hm as [-> _]. assert (in_arena a' (a' + 12)) as Hin' by (unfold in_arena; rewrite Hq, Z.add_comm, Z.div_add by lia; done).
    pose proof (in_arena_unique _ _ _ Hin Hin') as <-. congruence.
Qed.
Lemma arena_some_allocated h di d a x :
  heap_inv h → descs h !! di = Some d → arenas h !! a = Some x → adesc x = Some di → free_cnt x < blocks_per_arena d →
  ∃ b m, allocated h b m ∧ in_arena a b.
Proof.
  intros Hinv Hd Hx Hi Hc. destruct (ao_count h a x (hi_arenas h Hinv a x Hx) di Hi) as (d' & Hd' & Hcnt).
  rewrite Hd in Hd'. injection Hd' as <-. destruct (desc_facts h Hinv di d Hd) as (Hbs & Hbp & _).
  destruct (decide (Exists (λ b, b ∉ free_list d) (arena_blocks a d))) as [Hex|Hall].
  - apply Exists_exists in Hex as (b & (k & Hk & Hb)%elem_of_arena_blocks & Hnf).
    assert (block_of h di d a b) as Hbo by (by exists x, k). exists b, (block_size_ d). split; [|by eapply block_arena].
    exists a, x. split; [done|]. rewrite Hi. by exists d.
  - apply not_Exists_Forall in Hall; [|intros; apply _]. rewrite Forall_forall in Hall.
    assert (arena_blocks a d ⊆+ filter (in_arena a) (free_list d)) as Hsub%submseteq_length.
    { apply NoDup_submseteq; [apply arena_blocks_NoDup; lia|]. intros b Hb. apply list_elem_of_filter. split; [|by apply dec_stable, Hall].
      apply elem_of_arena_blocks in Hb as (k & Hk & ->). eapply (block_arena h Hinv di d); [done|]. by exists x, k. }
    rewrite arena_blocks_length in Hsub. lia.
Qed.
Lemma free_small_Ret h di d a x b :
  heap_inv h → descs h !! di = Some d → arenas h !! a = Some x → adesc x = Some di → block_of h di d a b → b ∉ free_list d →
  ∃ h', free (Some b) h = Ret (tt, h') ∧ frees h b h'.
Proof.
  intros Hinv Hd Hx Hi Hb Hnf. destruct (push_block h di d a x b Hinv Hd Hx Hi Hb Hnf) as (Hi1 & Hc & Ha1).
  destruct (block_arena h Hinv di d a b Hd Hb) as (Hin & _).
  unfold free. rewrite (bindM_Ret _ _ _ _ _ (block_to_arena_small h Hinv di d a b Hd Hb)), (bindM_Ret _ _ _ _ _ (get_arena_Ret h a x Hx)), Hi.
  rewrite (bindM_Ret _ _ _ _ _ (get_desc_Ret h di d Hd)). unfold memset, put_desc, put_arena, modifyM.
  set (bs := set_bytes (Z.to_nat (block_size_ d)) b 0xcc (bytes h)).
  do 3 (unfold bindM at 1). cbv beta iota. rewrite u32_small by lia.
  replace (Arena (amagic x) (Some di) (free_cnt x + 1)) with (with_cnt x (free_cnt x + 1)) by (unfold with_cnt; by rewrite Hi).
  match goal with |- context [set_arenas (<[a := ?y]> ?A) ?B] => change (set_arenas (<[a := y]> A) B) with (set_bytes_ bs (relist h di d (b :: free_list d) a x (free_cnt x + 1))) end.
  set (h1 := relist _ _ _ _ _ _ _) in *. destruct (bytes_inv h1 bs Hi1) as [Hi2 Ha2]. set (h2 := set_bytes_ bs h1) in *.
  destruct (Z.leb_spec (blocks_per_arena d) (free_cnt x + 1)).
  2: { exists h2. split; [done|]. split; [done|]. split; [intros; by rewrite Ha2, Ha1|]. exists a. split; [done|]. right.
       eapply (arena_some_allocated h2 di); [done|apply list_lookup_insert_eq; by eapply lookup_lt_Some|apply lookup_insert_eq|done|simpl; lia]. }
  set (d1 := with_free d (b :: free_list d)). set (x1 := with_cnt x (free_cnt x + 1)).
  assert (descs h2 !! di = Some d1) as Hd2 by (apply list_lookup_insert_eq; by eapply lookup_lt_Some).
  assert (arenas h2 !! a = Some x1) as Hx2 by apply lookup_insert_eq.
  destruct (ao_count h2 a x1 (hi_arenas h2 Hi2 a x1 Hx2) di Hi) as (d' & Hd' & Hcnt). rewrite Hd2 in Hd'. injection Hd' as <-.
  pose proof (arena_free_count h2 di d1 a Hi2 Hd2) as Hle. rewrite <-Hcnt in Hle. cbn [d1 x1 with_free with_cnt free_cnt blocks_per_arena] in Hle.
  rewrite (bindM_Ret (assertM _) _ h2 tt h2) by (apply assertM_true, Z.eqb_eq; lia).
  destruct (drop_page_Ret h2 di d1 a x1 Hi2 Hd2 Hx2 Hi) as (h' & Hr & [Hi' Ha'] & Hn'); [simpl; lia|].
  exists h'. split; [exact Hr|]. split; [done|]. split; [intros; by rewrite Ha', Ha2, Ha1|]. exists a. split; [done|by left].
Qed.
Lemma free_big_Ret h a x :
  heap_inv h → arenas h !! a = Some x → adesc x = None →
  ∃ h', free (Some (a + 12)) h = Ret (tt, h') ∧ frees h (a + 12) h'.
Proof.
  intros Hinv Hx Hi. destruct (hi_arenas h Hinv a x Hx) as [Hmg (k & Hk & Hk0 & Hp & Hb & _) _].
  unfold free. rewrite (bindM_Ret _ _ _ _ _ (block_to_arena_big h Hinv a x Hx Hi)), (bindM_Ret _ _ _ _ _ (get_arena_Ret h a x Hx)), Hi.
  destruct (palloc_free_spec (mach h) k (arena_pages x) (hi_pool h Hinv) Hk0 Hp Hb) as (m' & Hf & _ & _ & Hmk & _).
  unfold on_mach, bindM at 1. unfold arena_pages in Hf. rewrite Hi in Hf. rewrite Hk, Hf, <-Hk.
  eexists. split; [reflexivity|].
  assert (set_mach m' h = set_descs (outside a <$> descs h) (set_mach m' h)) as Heq.
  { unfold set_descs, set_mach. simpl. f_equal. apply list_eq. intros i. rewrite list_lookup_fmap. destruct (descs h !! i) as [d|] eqn:E; [|done].
    simpl. f_equal. symmetry. eapply outside_other; eauto. congruence. }
  change (arenas (set_mach m' h)) with (arenas h). rewrite Heq.
  destruct (arena_facts h Hinv a x Hx) as (_ & [q Hq] & _).
  assert (in_arena a (a + 12)) as Hin by (unfold in_arena; rewrite Hq, Z.add_comm, Z.div_add by lia; done).
  split; [exact (dropped_inv h m' a x Hinv Hx k Hk Hmk)|]. split; [|exists a; split; [done|left; apply lookup_delete_eq]]. intros b m.
  rewrite (dropped_allocated h m' a x Hinv Hx k Hk b m).
  split; intros [Hal Hne]; (split; [done|]); [by intros ->|]. intros Hin'. apply Hne. destruct Hal as (a' & x' & Hx' & Hm).
  destruct (arena_facts h Hinv a' x' Hx') as (_ & [q' Hq'] & _). destruct (adesc x') as [i'|] eqn:E.
  - destruct Hm as (d & Hd & Hbo & _). destruct (block_arena h Hinv i' d a' b Hd Hbo) as (Hin2 & _).
    pose proof (in_arena_unique _ _ _ Hin' Hin2) as <-. congruence.
  - destruct Hm as [-> _]. assert (in_arena a' (a' + 12)) as Hin2 by (unfold in_arena; rewrite Hq', Z.add_comm, Z.div_add by lia; done).
    by rewrite (in_arena_unique _ _ _ Hin' Hin2).
Qed.
Lemma free_Ret h b n : heap_inv h → allocated h b n → ∃ h', free (Some b) h = Ret (tt, h') ∧ frees h b h'.
Proof.
  intros Hinv (a & x & Hx & Hm). destruct (adesc x) as [i|] eqn:E.
  - destruct Hm as (d & Hd & Hbo & Hnf & ->). exact (free_small_Ret h i d a x b Hinv Hd Hx E Hbo Hnf).
  - destruct Hm as [-> ->]. by apply (free_big_Ret h a x).
Qed.

(** ** Properties *)
(** From [malloc_init] on: the descriptors, and no arena. *)
Lemma malloc_init_inv m bs :
  pool_wf (kernel_pool m) → ∃ h, malloc_init (Heap m ∅ [] bs) = Ret (tt, h) ∧ heap_inv h ∧ ∀ b n, ¬ allocated h b n.
Proof.
  intros Hwf. eexists. split; [reflexivity|]. split; [split; try done|].
  - intros i d Hd. assert (free_list d = []) as ->; [|split; [constructor|by intros b Hb%not_elem_of_nil]].
    do 7 (destruct i as [|i]; [by injection Hd as <-|]). done.
  - by intros b n (a & x & Hx & _).
Qed.

(** The allocator after [malloc_init], over a kernel pool of 64 free pages. *)
Definition pool64 : machine :=
  Machine (Pool (Bitmap 64 [0; 0]) 0xc0100000) (Pool (Bitmap 6 [0]) 0xc0200000) ∅ 1024 0xc0100000 0x100000 ∅.
Definition init_heap : heap :=
  match malloc_init (Heap pool64 ∅ [] ∅) with Ret (_, h) => h | _ => Heap pool64 ∅ [] ∅ end.
Lemma init_heap_inv : heap_inv init_heap ∧ ∀ b n, ¬ allocated init_heap b n.
Proof.
  destruct (malloc_init_inv pool64 ∅) as (h & Hr & Hi & Hn).
  - split; [|done|by exists 0xc0100|done]. split; [done|done|]. simpl. repeat constructor; unfold word in *; lia.
  - unfold init_heap. by rewrite Hr.
Qed.

(** C27. [malloc (size)] returns, for every positive size with
    [size + 4107 < 2^32], where the rounding up to whole pages does not wrap
    around: a null pointer, with the allocated blocks unchanged, or a new block
    of at least [size] bytes that overlaps no allocated block.  The invariant of
    the allocator is kept. *)
Theorem malloc_fresh_block h size :
  heap_inv h → 0 < size → size + 4107 < 2 ^ 32 →
  ∃ r h', malloc size h = Ret (r, h') ∧ heap_inv h' ∧
    match r with
    | None => ∀ b m, allocated h' b m ↔ allocated h b m
    | Some b => ∃ n, size ≤ n ∧ (∀ b' m, allocated h' b' m ↔ allocated h b' m ∨ (b' = b ∧ m = n)) ∧
        ∀ b' m, allocated h b' m → b + n ≤ b' ∨ b' + m ≤ b
    end.
Proof.
  intros Hinv Hs Hb. destruct (malloc_Ret h size Hinv Hs Hb) as (r & h' & Hr & Hm). exists r, h'. split; [done|].
  destruct r as [b|]; [|done]. destruct Hm as (n & Hn & Hi' & Hna & Hal). split; [done|]. exists n. split; [done|]. split; [done|].
  intros b' m Hb'. destruct (allocated_disjoint h' Hi' b n b' m) as [[-> ->]|H]; [apply Hal; by right|apply Hal; by left|done|lia].
Qed.
(** C28. [free] of an allocated block returns, keeps the invariant of the
    allocator, and takes exactly that block out of the allocated ones; an arena
    left without allocated blocks is taken down. *)
Theorem free_returns_block h b n :
  heap_inv h → allocated h b n →
  ∃ h', free (Some b) h = Ret (tt, h') ∧ heap_inv h' ∧
    (∀ b' m, allocated h' b' m ↔ allocated h b' m ∧ b' ≠ b) ∧
    ∃ a, in_arena a b ∧ (arenas h' !! a = None ∨ ∃ b' m, allocated h' b' m ∧ in_arena a b').
Proof. apply free_Ret. Qed.
Lemma malloc_fresh_block_witness :
  heap_inv init_heap ∧ ∃ b n h', malloc 100 init_heap = Ret (Some b, h') ∧ 100 ≤ n ∧ allocated h' b n.
Proof.
  split; [apply init_heap_inv|].
  destruct (malloc_fresh_block init_heap 100 (proj1 init_heap_inv) ltac:(lia) ltac:(lia)) as (r & h' & Hr & Hi & Hm).
  assert (∃ b h1, malloc 100 init_heap = Ret (Some b, h1)) as (b & h1 & Hb) by (eexists _, _; vm_compute; reflexivity).
  rewrite Hb in Hr. injection Hr as <- <-. destruct Hm as (n & Hn & Hal & _). exists b, n, h1. split; [assumption|]. split; [assumption|].
  apply Hal. right. split; reflexivity.
Defined.
Lemma free_returns_block_witness :
  ∃ h b n, heap_inv h ∧ allocated h b n ∧ ∃ h', free (Some b) h = Ret (tt, h') ∧ ¬ allocated h' b n.
Proof.
  destruct (malloc_Ret init_heap 100 (proj1 init_heap_inv) ltac:(lia) ltac:(lia)) as (r & h' & Hr & Hm).
  assert (∃ b h1, malloc 100 init_heap = Ret (Some b, h1)) as (b & h1 & Hb) by (eexists _, _; vm_compute; reflexivity).
  rewrite Hb in Hr. injection Hr as <- <-. destruct Hm as (n & Hn & Hi & _ & Hal). exists h1, b, n.
  assert (allocated h1 b n) as Hall by (apply Hal; right; split; reflexivity). split; [assumption|]. split; [assumption|].
  destruct (free_returns_block h1 b n Hi Hall) as (h2 & Hf & _ & Ha & _). exists h2. split; [exact Hf|]. intros [_ Hne]%Ha. exact (Hne eq_refl).
Defined.
(** The size of the block an allocation returns. *)
Definition size_of_new (p : M heap (option Z)) (h : heap) : option Z :=
  match (do r <- p; match r with Some b => block_size b | None => panicM end) h with
  | Ret (n, _) => Some n
  | _ => None
  end.
(** [malloc] adds the header to the requested size without a check: asked
    for 4 GB less 8 bytes it returns a block of one page.  [calloc]'s check of
    the product misses overflows: a table of 65537 elements of 65537 bytes gets
    a block of 33 pages. *)
Theorem malloc_size_overflow :
  size_of_new (malloc (2 ^ 32 - 8)) init_heap = Some 4084 ∧
  size_of_new (calloc 65537 65537) init_heap = Some (33 * 4096 - 12).
Proof. split; vm_compute; reflexivity. Qed.
