(* ===== verification/Random.v ===== *)
(** * lib/random.c: the pseudo-random number generator

    RC4: a permutation of the 256 bytes and two indices into it. *)

From stdpp Require Import base numbers list sorting.
From S2P Require Import Prelude Bytes.
Local Open Scope Z_scope.

Record rc4 := Rc4 { s : list Z; s_i : Z; s_j : Z; inited : bool }.
(** [s[i]]: an index is a [uint8_t]. *)
Definition at_ (l : list Z) (i : Z) : Z := nth (Z.to_nat i) l 0.
Definition swap_byte (l : list Z) (a b : Z) : list Z :=
  let t := at_ l a in <[Z.to_nat b := t]> (<[Z.to_nat a := at_ l b]> l).
(** The second loop of [random_init], from [i] on, [n] steps. *)
Fixpoint mix (n : nat) (seedp : list Z) (i j : Z) (l : list Z) : list Z :=
  match n with
  | O => l
  | S n =>
      let j := u8 (j + at_ l i + at_ seedp (i `mod` 4)) in
      mix n seedp (i + 1) j (swap_byte l i j)
  end.
Definition random_init (seed : Z) : M rc4 unit :=
  putM (Rc4 (mix 256 (to_le 4 seed) 0 0 (seqZ 0 256)) 0 0 true).
(** The loop of [random_bytes]. *)
Fixpoint bytes_loop (size : nat) : M rc4 (list Z) :=
  match size with
  | O => retM []
  | S size =>
      do r <- getM;
      let i := u8 (s_i r + 1) in
      let j := u8 (s_j r + at_ (s r) i) in
      let l := swap_byte (s r) i j in
      let s_k := u8 (at_ l i + at_ l j) in
      run putM (Rc4 l i j (inited r));
      do bs <- bytes_loop size; retM (at_ l s_k :: bs)
  end.
Definition random_bytes (size : nat) : M rc4 (list Z) :=
  do r <- getM;
  run (if inited r then retM tt else random_init 0);
  bytes_loop size.
Definition random_ulong : M rc4 Z := do bs <- random_bytes 4; retM (le bs).

(** ** Specification *)
(** The state before the first call, and ever after. *)
Definition rc4_ok (r : rc4) : Prop :=
  inited r = false ∨ (s r ≡ₚ seqZ 0 256 ∧ 0 ≤ s_i r < 256 ∧ 0 ≤ s_j r < 256).
Lemma u8_range z : 0 ≤ u8 z < 256.
Proof. apply Z.mod_pos_bound. lia. Qed.
Lemma swap_byte_Permutation l a b : 0 ≤ a < Z.of_nat (length l) → 0 ≤ b < Z.of_nat (length l) → swap_byte l a b ≡ₚ l.
Proof.
  intros Ha Hb. destruct (lookup_lt_is_Some_2 l (Z.to_nat a)) as [x Hx]; [lia|]. destruct (lookup_lt_is_Some_2 l (Z.to_nat b)) as [y Hy]; [lia|].
  unfold swap_byte, at_. rewrite !nth_lookup, Hx, Hy. by apply Permutation_insert_swap.
Qed.
Lemma permutation_at l i : l ≡ₚ seqZ 0 256 → 0 ≤ i < 256 → 0 ≤ at_ l i < 256.
Proof.
  intros Hl Hi. assert (length l = 256%nat) as Hlen by (by rewrite Hl). unfold at_. rewrite nth_lookup.
  destruct (lookup_lt_is_Some_2 l (Z.to_nat i)) as [x Hx]; [lia|]. rewrite Hx. simpl.
  apply list_elem_of_lookup_2 in Hx. rewrite Hl in Hx. apply elem_of_seqZ in Hx. lia.
Qed.
Lemma permutation_swap l i j : l ≡ₚ seqZ 0 256 → 0 ≤ i < 256 → 0 ≤ j < 256 → swap_byte l i j ≡ₚ seqZ 0 256.
Proof.
  intros Hl Hi Hj. assert (length l = 256%nat) as Hlen by (by rewrite Hl). etransitivity; [|exact Hl]. apply swap_byte_Permutation; lia.
Qed.
Lemma mix_permutation n seedp i j l :
  0 ≤ i → i + Z.of_nat n ≤ 256 → l ≡ₚ seqZ 0 256 → mix n seedp i j l ≡ₚ seqZ 0 256.
Proof.
  revert i j l. induction n as [|n IH]; intros i j l Hi Hn Hl; [done|]. cbn [mix].
  apply IH; [lia..|]. apply permutation_swap; [done|lia|apply u8_range].
Qed.
Lemma random_init_ok seed r : ∃ r', random_init seed r = Ret (tt, r') ∧ inited r' = true ∧ rc4_ok r'.
Proof.
  eexists. split; [reflexivity|]. split; [done|]. right. split; [|simpl; lia]. by apply mix_permutation.
Qed.
Lemma bytes_loop_ok size r :
  inited r = true → rc4_ok r →
  ∃ bs r', bytes_loop size r = Ret (bs, r') ∧ length bs = size ∧ Forall (λ b, 0 ≤ b < 256) bs ∧ inited r' = true ∧ rc4_ok r'.
Proof.
  revert r. induction size as [|size IH]; intros r Hin Hok; [by exists [], r|]. cbn [bytes_loop].
  rewrite (bindM_Ret getM _ r r r) by done. destruct Hok as [|(Hp & Hi & Hj)]; [congruence|].
  set (i := u8 _). set (j := u8 (s_j r + _)). set (l := swap_byte _ i j).
  assert (l ≡ₚ seqZ 0 256) as Hl by (apply permutation_swap; [done|apply u8_range..]).
  rewrite (bindM_Ret (putM _) _ r tt (Rc4 l i j (inited r))) by done.
  destruct (IH (Rc4 l i j (inited r))) as (bs & r' & E & Hlen & Hbs & Hin' & Hok'); [done|right; split; [done|split; apply u8_range]|].
  rewrite (bindM_Ret _ _ _ _ _ E). eexists _, _. split; [reflexivity|]. split; [simpl; lia|]. split; [|done].
  constructor; [|done]. apply permutation_at; [done|apply u8_range].
Qed.
(** However the generator was seeded and used before, [random_bytes] returns
    as many bytes as asked for, and its table stays a permutation of the bytes. *)
Theorem random_bytes_permutation size r :
  rc4_ok r →
  ∃ bs r', random_bytes size r = Ret (bs, r') ∧ length bs = size ∧ Forall (λ b, 0 ≤ b < 256) bs ∧ inited r' = true ∧ rc4_ok r'.
Proof.
  intros Hok. unfold random_bytes. rewrite (bindM_Ret getM _ r r r) by done. destruct (inited r) eqn:Hin.
  - rewrite (bindM_Ret (retM tt) _ r tt r) by done. by apply bytes_loop_ok.
  - destruct (random_init_ok 0 r) as (r1 & E & Hin1 & Hok1). rewrite (bindM_Ret _ _ _ _ _ E). by apply bytes_loop_ok.
Qed.
Lemma random_bytes_permutation_witness :
  ∃ bs r', random_bytes 3 (Rc4 [] 0 0 false) = Ret (bs, r') ∧ length bs = 3%nat ∧ Forall (λ b, 0 ≤ b < 256) bs ∧ inited r' = true ∧ rc4_ok r'.
Proof. apply random_bytes_permutation. by left. Defined.
