(* ===== verification/Rtc.v ===== *)
(** * devices/rtc.c: the real time clock

    The clock's registers are a parameter: [cmos n r] is what the [n]th read
    finds in register [r].  A date is read until the seconds did not change
    meanwhile. *)

From stdpp Require Import base numbers list.
From S2P Require Import Prelude.
Local Open Scope Z_scope.

Definition RTC_REG_SEC : Z := 0.
Definition RTC_REG_MIN : Z := 2.
Definition RTC_REG_HOUR : Z := 4.
Definition RTC_REG_MDAY : Z := 7.
Definition RTC_REG_MON : Z := 8.
Definition RTC_REG_YEAR : Z := 9.
Definition bcd_to_bin (x : Z) : Z := Z.land x 0x0f + Z.shiftr x 4 * 10.
Definition days_per_month : list Z := [31; 28; 31; 30; 31; 30; 31; 31; 30; 31; 30; 31].
(** The [for] over the months, [n] of them from [i] on; [time] is unsigned. *)
Fixpoint add_months (n : nat) (i time : Z) : outcome Z :=
  match n with
  | O => Ret time
  | S n =>
      match days_per_month !! Z.to_nat (i - 1) with
      | None => Panic
      | Some days => add_months n (i + 1) (u32 (time + i32 (days * 24 * 60 * 60)))
      end
  end.
(** What follows the loop. *)
Definition seconds (sec min hour mday mon year : Z) : outcome Z :=
  let year := (if year <? 70 then year + 100 else year) - 70 in
  let time := u32 (i32 ((year * 365 + (year - 1) ÷ 4) * 24 * 60 * 60)) in
  try time <- add_months (Z.to_nat mon) 1 time;
  let time := if (2 <? mon) && (Z.rem year 4 =? 0) then u32 (time + 24 * 60 * 60) else time in
  let time := u32 (time + i32 ((mday - 1) * 24 * 60 * 60)) in
  let time := u32 (time + i32 (hour * 60 * 60)) in
  let time := u32 (time + i32 (min * 60)) in
  Ret (u32 (time + sec)).
Section clock.
  Context (cmos : nat → Z → Z).
Definition cmos_read (n : nat) (index : Z) : Z := cmos n index.
Fixpoint rtc_get_time (fuel : nat) (n : nat) : outcome Z :=
  match fuel with
  | O => NoFuel
  | S fuel =>
      let sec := bcd_to_bin (cmos_read n RTC_REG_SEC) in
      let min := bcd_to_bin (cmos_read (n + 1) RTC_REG_MIN) in
      let hour := bcd_to_bin (cmos_read (n + 2) RTC_REG_HOUR) in
      let mday := bcd_to_bin (cmos_read (n + 3) RTC_REG_MDAY) in
      let mon := bcd_to_bin (cmos_read (n + 4) RTC_REG_MON) in
      let year := bcd_to_bin (cmos_read (n + 5) RTC_REG_YEAR) in
      if sec =? bcd_to_bin (cmos_read (n + 6) RTC_REG_SEC) then seconds sec min hour mday mon year
      else rtc_get_time fuel (n + 7)
  end.
End clock.

(** ** Specification *)
(** The calendar from 1970 to 2037, where every fourth year is a leap year. *)
Definition leap (year : Z) : bool := year `mod` 4 =? 0.
Definition month_length (year mon : Z) : Z :=
  if (mon =? 2) && leap year then 29 else nth (Z.to_nat (mon - 1)) days_per_month 0.
Fixpoint days_before_year (n : nat) (year : Z) : Z :=
  match n with O => 0 | S n => (if leap year then 366 else 365) + days_before_year n (year + 1) end.
Definition unix_days (year mon mday : Z) : Z :=
  days_before_year (Z.to_nat (year - 1970)) 1970 + foldr Z.add 0 (month_length year <$> seqZ 1 (mon - 1)) + (mday - 1).
Definition unix_time (year mon mday hour min sec : Z) : Z :=
  unix_days year mon mday * 86400 + hour * 3600 + min * 60 + sec.
Definition to_bcd (x : Z) : Z := x `mod` 10 + 16 * (x / 10).
Lemma bcd_roundtrip x : 0 ≤ x < 100 → bcd_to_bin (to_bcd x) = x.
Proof.
  intros Hx. unfold bcd_to_bin, to_bcd. pose proof (Z.mod_pos_bound x 10). pose proof (Z_div_mod_eq_full x 10).
  change 0x0f with (Z.ones 4). rewrite Z.land_ones, Z.shiftr_div_pow2 by lia. change (2 ^ 4) with 16.
  rewrite (Z.mul_comm 16), Z_mod_plus_full, Z_div_plus_full by lia. rewrite Z.mod_small, Z.div_small by lia. lia.
Qed.
(** The days that the code computes for the first of a month, [y] years after
    1970, and how far they are from the calendar. *)
Definition code_days (y mon : Z) : Z :=
  y * 365 + (y - 1) ÷ 4 + foldr Z.add 0 (take (Z.to_nat mon) days_per_month) + (if (2 <? mon) && (Z.rem y 4 =? 0) then 1 else 0).
Lemma code_days_late : Forall (λ y, Forall (λ mon,
    unix_days (1970 + y) mon 1 + 27 ≤ code_days y mon ≤ unix_days (1970 + y) mon 1 + 32 ∧ 0 ≤ code_days y mon ≤ 24855) (seqZ 1 12)) (seqZ 0 68).
Proof. apply (bool_decide_unpack _). vm_compute. done. Qed.
Definition sum (l : list Z) : Z := foldr Z.add 0 l.
Lemma days_range d : d ∈ days_per_month → 0 ≤ d ≤ 31.
Proof. revert d. apply Forall_forall. repeat (constructor; [lia|]). constructor. Qed.
Lemma sum_range l : (∀ d, d ∈ l → 0 ≤ d ≤ 31) → 0 ≤ sum l ≤ 31 * Z.of_nat (length l).
Proof.
  induction l as [|d l IH]; intros H; [simpl; lia|]. cbn [sum foldr length]. fold (sum l).
  pose proof (H d ltac:(left)). pose proof (IH ltac:(intros; apply H; by right)). lia.
Qed.
Lemma add_months_Ret n i time :
  (i + n ≤ 12)%nat → 0 ≤ time → time + 86400 * 31 * Z.of_nat n < 2 ^ 32 →
  add_months n (Z.of_nat i + 1) time = Ret (time + 86400 * sum (take n (drop i days_per_month))).
Proof.
  revert i time. induction n as [|n IH]; intros i time Hn Ht Hb; cbn [add_months]; [rewrite take_0; simpl; f_equal; lia|].
  replace (Z.to_nat (Z.of_nat i + 1 - 1)) with i by lia.
  destruct (lookup_lt_is_Some_2 days_per_month i) as [d Hd]; [simpl; lia|]. rewrite Hd.
  pose proof (days_range d (list_elem_of_lookup_2 _ _ _ Hd)). rewrite (drop_S _ _ _ Hd). cbn [take sum foldr]. fold (sum (take n (drop (S i) days_per_month))).
  replace (Z.of_nat i + 1 + 1) with (Z.of_nat (S i) + 1) by lia. rewrite i32_small by lia. rewrite u32_small by lia.
  rewrite IH by lia. f_equal. lia.
Qed.
Section date.
  Context (y mon mday hour min sec : Z).
  Hypothesis Hy : 0 ≤ y < 68.
  Hypothesis Hmon : 1 ≤ mon ≤ 12.
  Hypothesis Hmday : 1 ≤ mday ≤ 31.
  Hypothesis Hhour : 0 ≤ hour < 24.
  Hypothesis Hmin : 0 ≤ min < 60.
  Hypothesis Hsec : 0 ≤ sec < 60.
Lemma code_days_bounds :
  unix_days (1970 + y) mon 1 + 27 ≤ code_days y mon ≤ unix_days (1970 + y) mon 1 + 32 ∧ 0 ≤ code_days y mon ≤ 24855.
Proof.
  pose proof code_days_late as H. rewrite Forall_forall in H. specialize (H y ltac:(apply elem_of_seqZ; lia)). simpl in H.
  rewrite Forall_forall in H. apply H, elem_of_seqZ. lia.
Qed.
Lemma seconds_Ret :
  seconds sec min hour mday mon ((y + 70) `mod` 100) = Ret (code_days y mon * 86400 + (mday - 1) * 86400 + hour * 3600 + min * 60 + sec).
Proof.
  destruct code_days_bounds as [_ Hcd]. unfold seconds.
  assert ((if (y + 70) `mod` 100 <? 70 then (y + 70) `mod` 100 + 100 else (y + 70) `mod` 100) - 70 = y) as ->
    by (destruct (Z.ltb_spec ((y + 70) `mod` 100) 70); Z.div_mod_to_equations; lia).
  assert (0 ≤ y * 365 + (y - 1) ÷ 4 ≤ 24855) as Hyd.
  { destruct (decide (y = 0)) as [->|]; [done|]. rewrite Z.quot_div_nonneg by lia. Z.div_mod_to_equations; lia. }
  rewrite i32_small, u32_small by lia. pose proof (add_months_Ret (Z.to_nat mon) 0) as Ha. change (Z.of_nat 0 + 1) with 1 in Ha. rewrite drop_0 in Ha. rewrite Ha by lia. cbn [obind].
  set (ms := sum (take (Z.to_nat mon) days_per_month)).
  assert (code_days y mon = y * 365 + (y - 1) ÷ 4 + ms + (if (2 <? mon) && (Z.rem y 4 =? 0) then 1 else 0)) as -> by done.
  assert (0 ≤ ms ≤ 31 * 12) as Hms.
  { pose proof (sum_range (take (Z.to_nat mon) days_per_month)) as Hr. rewrite length_take in Hr. fold ms in Hr. simpl in Hr.
    assert (∀ d, d ∈ take (Z.to_nat mon) days_per_month → 0 ≤ d ≤ 31) as Hd by (intros d (j & Hj & _)%elem_of_take; by eapply days_range, list_elem_of_lookup_2).
    specialize (Hr Hd). lia. }
  clearbody ms. set (yd := y * 365 + (y - 1) ÷ 4) in *. clearbody yd. clear Ha Hcd.
  rewrite !(i32_small ((mday - 1) * 24 * 60 * 60)), (i32_small (hour * 60 * 60)), (i32_small (min * 60)) by lia.
  destruct ((2 <? mon) && (Z.rem y 4 =? 0)).
  all: repeat match goal with |- context [u32 ?x] => lazymatch x with context [u32 _] => fail | _ => rewrite (u32_small x) by lia end end.
  all: f_equal; lia.
Qed.
(** C38. The clock is never right: for every date from 1970 to 2037, when the
    registers hold it and do not change, [rtc_get_time] returns a time that is 27
    to 32 days later than the number of seconds since the epoch. *)
Theorem rtc_get_time_late cmos :
  (∀ n, cmos n RTC_REG_SEC = to_bcd sec ∧ cmos n RTC_REG_MIN = to_bcd min ∧ cmos n RTC_REG_HOUR = to_bcd hour ∧
    cmos n RTC_REG_MDAY = to_bcd mday ∧ cmos n RTC_REG_MON = to_bcd mon ∧ cmos n RTC_REG_YEAR = to_bcd ((y + 70) `mod` 100)) →
  ∃ t, rtc_get_time cmos 1 0 = Ret t ∧
    unix_time (1970 + y) mon mday hour min sec + 27 * 86400 ≤ t ≤ unix_time (1970 + y) mon mday hour min sec + 32 * 86400.
Proof.
  intros Hc. cbn [rtc_get_time Nat.add]. unfold cmos_read.
  rewrite !(proj1 (Hc _)), (proj1 (proj2 (Hc 1%nat))), (proj1 (proj2 (proj2 (Hc 2%nat)))), (proj1 (proj2 (proj2 (proj2 (Hc 3%nat))))),
    (proj1 (proj2 (proj2 (proj2 (proj2 (Hc 4%nat)))))), (proj2 (proj2 (proj2 (proj2 (proj2 (Hc 5%nat)))))).
  rewrite Z.eqb_refl, !bcd_roundtrip by (try (apply Z.mod_pos_bound); lia). rewrite seconds_Ret. eexists. split; [reflexivity|].
  destruct code_days_bounds as [Hb _]. unfold unix_time.
  assert (unix_days (1970 + y) mon mday = unix_days (1970 + y) mon 1 + (mday - 1)) as -> by (unfold unix_days; lia). lia.
Qed.
End date.
Definition demo_cmos (n : nat) (r : Z) : Z :=
  if r =? RTC_REG_SEC then 0x30 else if r =? RTC_REG_MIN then 0x15 else if r =? RTC_REG_HOUR then 0x23
  else if r =? RTC_REG_MDAY then 0x29 else if r =? RTC_REG_MON then 0x02 else 0x20.
(** The 29th of February 2020, 23:15:30. *)
Lemma rtc_get_time_late_witness :
  ∃ t, rtc_get_time demo_cmos 1 0 = Ret t ∧ unix_time 2020 2 29 23 15 30 + 27 * 86400 ≤ t ≤ unix_time 2020 2 29 23 15 30 + 32 * 86400.
Proof. apply (rtc_get_time_late 50 2 29 23 15 30); try lia. intros n. done. Defined.
