(* ===== verification/Vga.v ===== *)
(** * devices/vga.c: the text display

    The frame buffer is 25 rows of 80 characters with an attribute each.  The
    display's cursor registers are part of the state: [cursor] is the position
    they hold.  Rows outside of the buffer are other memory ([Panic]).  The
    interrupt level and the sound of the speaker are left out. *)

From stdpp Require Import base numbers list.
From S2P Require Import Prelude.
Local Open Scope Z_scope.

Definition COL_CNT : Z := 80.
Definition ROW_CNT : Z := 25.
Definition GRAY_ON_BLACK : Z := 0x07.
Abbreviation cell := (Z * Z)%type.
Record vga := Vga { cx : Z; cy : Z; fb : list (list cell); cursor : Z; inited : bool }.
Definition set_cx x (v : vga) : vga := Vga x (cy v) (fb v) (cursor v) (inited v).
Definition set_cy x (v : vga) : vga := Vga (cx v) x (fb v) (cursor v) (inited v).
Definition set_fb x (v : vga) : vga := Vga (cx v) (cy v) x (cursor v) (inited v).
Definition set_cursor x (v : vga) : vga := Vga (cx v) (cy v) (fb v) x (inited v).
Definition get_row (y : Z) : M vga (list cell) := λ v,
  match fb v !! Z.to_nat y with Some r => Ret (r, v) | None => Panic end.
Definition put_cell (y x : Z) (c : cell) : M vga unit :=
  do r <- get_row y;
  run assertM (x <? Z.of_nat (length r));
  modifyM (λ v, set_fb (<[Z.to_nat y := <[Z.to_nat x := c]> r]> (fb v)) v).

(** The loop of [clear_row], [n] columns from [x] on. *)
Fixpoint clear_cells (n : nat) (y x : Z) : M vga unit :=
  match n with O => retM tt | S n => run put_cell y x (32, GRAY_ON_BLACK); clear_cells n y (x + 1) end.
Definition clear_row (y : Z) : M vga unit := clear_cells (Z.to_nat COL_CNT) y 0.
(** The two 16-bit writes put the high and the low byte of the position. *)
Definition move_cursor : M vga unit := modifyM (λ v, set_cursor (u16 (u32 (cx v + COL_CNT * cy v))) v).
Fixpoint clear_rows (n : nat) (y : Z) : M vga unit :=
  match n with O => retM tt | S n => run clear_row y; clear_rows n (y + 1) end.
Definition cls : M vga unit :=
  run clear_rows (Z.to_nat ROW_CNT) 0;
  run modifyM (λ v, set_cx 0 (set_cy 0 v));
  move_cursor.
(** [memmove] moves all rows but the first one up. *)
Definition scroll (rows : list (list cell)) : list (list cell) :=
  firstn (Z.to_nat (ROW_CNT - 1)) (tail rows) ++ skipn (Z.to_nat (ROW_CNT - 1)) rows.
Definition newline : M vga unit :=
  run modifyM (λ v, set_cy (u32 (cy v + 1)) (set_cx 0 v));
  do v <- getM;
  if ROW_CNT <=? cy v then
    run modifyM (λ v, set_fb (scroll (fb v)) (set_cy (ROW_CNT - 1) v));
    clear_row (ROW_CNT - 1)
  else retM tt.
Definition find_cursor (v : vga) : Z * Z := (cursor v `mod` COL_CNT, cursor v / COL_CNT).
Definition init : M vga unit :=
  do v <- getM;
  if inited v then retM tt
  else modifyM (λ v, let '(x, y) := find_cursor v in Vga x y (fb v) (cursor v) true).
(** The [switch] of [vga_putc]. *)
Definition interpret (c : Z) : M vga unit :=
  do v <- getM;
  if c =? 10 then newline                                        (* \n *)
  else if c =? 12 then cls                                       (* \f *)
  else if c =? 8 then if 0 <? cx v then modifyM (set_cx (cx v - 1)) else retM tt   (* \b *)
  else if c =? 13 then modifyM (set_cx 0)                        (* \r *)
  else if c =? 9 then                                            (* \t *)
    let x := (cx v + 1 + 8 - 1) / 8 * 8 in
    run modifyM (set_cx x);
    if COL_CNT <=? x then newline else retM tt
  else if c =? 7 then retM tt                                    (* \a *)
  else
    run put_cell (cy v) (cx v) (u8 c, GRAY_ON_BLACK);
    run modifyM (set_cx (cx v + 1));
    if COL_CNT <=? cx v + 1 then newline else retM tt.
Definition vga_putc (c : Z) : M vga unit :=
  run init;
  run interpret c;
  move_cursor.
(** A string. *)
Fixpoint vga_puts (s : list Z) : M vga unit :=
  match s with [] => retM tt | c :: s => run vga_putc c; vga_puts s end.
