(* ===== verification/VgaSpec.v ===== *)
(** * What the text display shows *)

From stdpp Require Import base numbers list.
From S2P Require Import Prelude Bytes Vga.
Local Open Scope Z_scope.

(** The whole frame buffer, and a cursor on it. *)
Record screen (v : vga) : Prop := {
  sc_rows : length (fb v) = 25%nat;
  sc_cols : Forall (λ r, length r = 80%nat) (fb v);
  sc_x : 0 ≤ cx v < 80;
  sc_y : 0 ≤ cy v < 25;
  sc_inited : inited v = true }.
Definition blank : cell := (32, GRAY_ON_BLACK).
Definition blank_row : list cell := replicate 80 blank.
Definition grid (rows : list (list cell)) : Prop := length rows = 25%nat ∧ Forall (λ r, length r = 80%nat) rows.

Lemma grid_row rows y : grid rows → 0 ≤ y < 25 → ∃ r, rows !! Z.to_nat y = Some r ∧ length r = 80%nat.
Proof.
  intros [Hr Hc] Hy. destruct (lookup_lt_is_Some_2 rows (Z.to_nat y)) as [r Hl]; [lia|]. exists r. split; [done|].
  by eapply (Forall_lookup_1 _ _ _ _ Hc).
Qed.
Lemma grid_insert rows y r : grid rows → length r = 80%nat → grid (<[y := r]> rows).
Proof. intros [Hr Hc] Hl. split; [by rewrite length_insert|by apply Forall_insert]. Qed.
Lemma put_cell_Ret v y x c r :
  fb v !! Z.to_nat y = Some r → x < Z.of_nat (length r) →
  put_cell y x c v = Ret (tt, set_fb (<[Z.to_nat y := <[Z.to_nat x := c]> r]> (fb v)) v).
Proof.
  intros Hr Hx. unfold put_cell. rewrite (bindM_Ret (get_row y) _ v r v) by (unfold get_row; by rewrite Hr).
  by rewrite (bindM_Ret _ _ _ _ _ (assertM_true _ v (proj2 (Z.ltb_lt _ _) Hx))).
Qed.
Lemma clear_cells_Ret n v y x r :
  fb v !! Z.to_nat y = Some r → (x + n = length r)%nat →
  clear_cells n y (Z.of_nat x) v = Ret (tt, set_fb (<[Z.to_nat y := take x r ++ replicate n blank]> (fb v)) v).
Proof.
  revert v x r. induction n as [|n IH]; intros v x r Hr Hn; cbn [clear_cells].
  - rewrite take_ge, app_nil_r by lia. rewrite list_insert_id by done. by destruct v.
  - rewrite (bindM_Ret _ _ _ _ _ (put_cell_Ret v y (Z.of_nat x) blank r Hr ltac:(lia))). rewrite Nat2Z.id.
    replace (Z.of_nat x + 1) with (Z.of_nat (S x)) by lia. pose proof (lookup_lt_Some _ _ _ Hr).
    rewrite (IH _ (S x) (<[x := blank]> r)); [|by cbn [fb set_fb]; apply list_lookup_insert_eq|by rewrite length_insert; lia].
    cbn [fb set_fb]. unfold set_fb. cbn [cx cy cursor inited]. rewrite list_insert_insert_eq. do 4 f_equal.
    rewrite (take_S_r _ _ blank) by (apply list_lookup_insert_eq; lia). rewrite take_insert_ge by lia. by rewrite <-app_assoc.
Qed.
Lemma clear_row_Ret v y : grid (fb v) → 0 ≤ y < 25 → clear_row y v = Ret (tt, set_fb (<[Z.to_nat y := blank_row]> (fb v)) v).
Proof.
  intros Hg Hy. destruct (grid_row _ y Hg Hy) as (r & Hr & Hl). unfold clear_row. change (Z.to_nat COL_CNT) with 80%nat.
  change 0 with (Z.of_nat 0). by rewrite (clear_cells_Ret 80 v y 0 r Hr).
Qed.
Lemma clear_rows_grid n v y :
  grid (fb v) → 0 ≤ y → y + Z.of_nat n ≤ 25 → ∃ rows, clear_rows n y v = Ret (tt, set_fb rows v) ∧ grid rows.
Proof.
  revert v y. induction n as [|n IH]; intros v y Hg Hy Hn; cbn [clear_rows]; [exists (fb v); by destruct v|].
  rewrite (bindM_Ret _ _ _ _ _ (clear_row_Ret v y Hg ltac:(lia))).
  destruct (IH (set_fb (<[Z.to_nat y := blank_row]> (fb v)) v) (y + 1)) as (rows & E & Hg'); [by apply grid_insert|lia..|]. by exists rows.
Qed.
Lemma scroll_rows rows : length rows = 25%nat → scroll rows = tail rows ++ drop 24 rows.
Proof.
  intros H. unfold scroll. change (Z.to_nat (ROW_CNT - 1)) with 24%nat. f_equal. apply take_ge. destruct rows; simpl in *; lia.
Qed.
(** The rows after a new line at the bottom. *)
Definition scrolled (rows : list (list cell)) : list (list cell) := tail rows ++ [blank_row].
Lemma newline_Ret v :
  grid (fb v) → 0 ≤ cy v < 25 →
  newline v = Ret (tt, if cy v =? 24 then set_fb (scrolled (fb v)) (set_cx 0 v) else set_cy (cy v + 1) (set_cx 0 v)).
Proof.
  intros Hg Hy. unfold newline. rewrite (bindM_Ret (modifyM _) _ v tt (set_cy (cy v + 1) (set_cx 0 v))) by (unfold modifyM; by rewrite u32_small by lia).
  rewrite (bindM_Ret getM _ _ _ _ eq_refl). cbn [cy set_cy]. destruct (Z.eqb_spec (cy v) 24) as [E|E].
  - rewrite (proj2 (Z.leb_le _ _)) by (unfold ROW_CNT; lia). destruct Hg as [Hr Hc]. unfold set_fb, set_cy, set_cx, modifyM at 1. cbn [cx cy fb cursor inited].
    rewrite (bindM_Ret _ _ _ tt (Vga 0 24 (tail (fb v) ++ drop 24 (fb v)) (cursor v) (inited v))) by (by rewrite <-scroll_rows).
    assert (∃ rows r, fb v = rows ++ [r] ∧ length rows = 24%nat) as (rows & r & Hfb & Hl).
    { exists (take 24 (fb v)), (nth 24 (fb v) []). rewrite length_take. split; [|lia].
      destruct (lookup_lt_is_Some_2 (fb v) 24) as [x Hx]; [lia|]. rewrite nth_lookup, Hx. cbn [default]. rewrite <-(take_drop 24 (fb v)) at 1.
      f_equal. rewrite (drop_S _ _ _ Hx). f_equal. apply drop_ge. lia. }
    rewrite clear_row_Ret; [|split; cbn [fb]|by unfold ROW_CNT].
    + cbn [fb]. unfold set_fb. cbn [cx cy cursor inited]. rewrite E. do 3 f_equal. unfold scrolled. rewrite Hfb.
      rewrite drop_app_length' by done. change (Z.to_nat (ROW_CNT - 1)) with 24%nat. destruct rows as [|r0 rows]; [done|]. simpl in *.
      rewrite insert_app_r_alt by (rewrite length_app; simpl; lia). rewrite length_app. simpl. by replace (24 - (length rows + 1))%nat with 0%nat by lia.
    + destruct (fb v); simpl in *; [done|]. rewrite length_app, length_drop. simpl. lia.
    + apply Forall_app. split; [by destruct (fb v); inversion Hc|by apply Forall_drop].
  - rewrite (proj2 (Z.leb_gt _ _)) by (unfold ROW_CNT; lia). done.
Qed.
Lemma scrolled_grid rows : grid rows → grid (scrolled rows).
Proof.
  intros [Hr Hc]. unfold scrolled. split; [rewrite length_app; destruct rows; simpl in *; lia|].
  apply Forall_app. split; [by destruct rows; inversion Hc|]. by repeat constructor.
Qed.
Lemma screen_intro v : grid (fb v) → 0 ≤ cx v < 80 → 0 ≤ cy v < 25 → inited v = true → screen v.
Proof. intros [? ?] ? ? ?. by split. Qed.
Lemma screen_grid v : screen v → grid (fb v).
Proof. by intros [? ? ? ? ?]. Qed.
Lemma newline_screen v :
  grid (fb v) → 0 ≤ cy v < 25 → inited v = true → ∃ v', newline v = Ret (tt, v') ∧ screen v'.
Proof.
  intros Hg Hy Hi. rewrite newline_Ret by done. eexists. split; [reflexivity|].
  destruct (Z.eqb_spec (cy v) 24); apply screen_intro; cbn [fb cx cy inited set_fb set_cx set_cy]; try done; try lia. by apply scrolled_grid.
Qed.
Lemma cls_screen v : screen v → ∃ v', cls v = Ret (tt, v') ∧ screen v'.
Proof.
  intros Hs. unfold cls. destruct (clear_rows_grid 25 v 0 (screen_grid v Hs)) as (rows & E & Hg); [done..|].
  rewrite (bindM_Ret _ _ _ _ _ E). eexists. split; [reflexivity|]. apply screen_intro; [done|done|done|apply Hs].
Qed.
Lemma put_cell_screen v c : screen v → ∃ rows, put_cell (cy v) (cx v) c v = Ret (tt, set_fb rows v) ∧ grid rows.
Proof.
  intros Hs. destruct (grid_row _ (cy v) (screen_grid v Hs) (sc_y v Hs)) as (r & Hr & Hl). pose proof (sc_x v Hs).
  rewrite (put_cell_Ret v _ _ c r Hr) by lia. eexists. split; [reflexivity|]. apply grid_insert; [by apply screen_grid|by rewrite length_insert].
Qed.
Lemma interpret_screen v c : screen v → ∃ v', interpret c v = Ret (tt, v') ∧ screen v'.
Proof.
  intros Hs. pose proof (screen_grid v Hs) as Hg. destruct Hs as [Hr Hc Hx Hy Hi] eqn:Es. clear Es. unfold interpret.
  rewrite (bindM_Ret getM _ v v v) by done.
  destruct (c =? 10); [by apply newline_screen|]. destruct (c =? 12); [by apply cls_screen|]. destruct (c =? 8).
  { destruct (Z.ltb_spec 0 (cx v)); eexists; (split; [reflexivity|]); [|done]. apply screen_intro; cbn [fb cx cy inited set_cx]; try done; lia. }
  destruct (c =? 13); [eexists; split; [reflexivity|]; by apply screen_intro|]. destruct (c =? 9).
  { set (x := (cx v + 1 + 8 - 1) / 8 * 8). assert (0 ≤ x) as Hx0 by (unfold x; Z.div_mod_to_equations; lia).
    rewrite (bindM_Ret (modifyM _) _ v tt (set_cx x v)) by done. destruct (Z.leb_spec COL_CNT x).
    - by apply newline_screen.
    - exists (set_cx x v). split; [done|]. by apply screen_intro. }
  destruct (c =? 7); [by exists v|]. destruct (put_cell_screen v (u8 c, GRAY_ON_BLACK) Hs) as (rows & E & Hg'). rewrite (bindM_Ret _ _ _ _ _ E).
  rewrite (bindM_Ret (modifyM _) _ _ tt (set_cx (cx v + 1) (set_fb rows v))) by done. destruct (Z.leb_spec COL_CNT (cx v + 1)).
  - by apply newline_screen.
  - eexists. split; [reflexivity|]. apply screen_intro; cbn [fb cx cy inited set_cx set_fb]; try done. unfold COL_CNT in *. lia.
Qed.
Lemma vga_putc_Ret v c v' :
  screen v → interpret c v = Ret (tt, v') → screen v' → vga_putc c v = Ret (tt, set_cursor (cx v' + 80 * cy v') v').
Proof.
  intros Hs E [_ _ Hx Hy _]. unfold vga_putc. rewrite (bindM_Ret init _ v tt v).
  2: { unfold init. rewrite (bindM_Ret getM _ v v v) by done. by rewrite (sc_inited v Hs). }
  rewrite (bindM_Ret _ _ _ _ _ E). unfold move_cursor, modifyM, COL_CNT. rewrite u32_small by lia. unfold u16. by rewrite Z.mod_small by lia.
Qed.

(** ** Lines of text *)
(** A character that is shown. *)
Definition printable (c : Z) : Prop := 0 ≤ c < 256 ∧ c ∉ [7; 8; 9; 10; 12; 13].
#[global] Instance printable_dec c : Decision (printable c).
Proof. unfold printable. apply _. Defined.
Lemma interpret_printable v c :
  screen v → printable c → cx v < 79 →
  ∃ r, fb v !! Z.to_nat (cy v) = Some r ∧ length r = 80%nat ∧
    interpret c v = Ret (tt, set_cx (cx v + 1) (set_fb (<[Z.to_nat (cy v) := <[Z.to_nat (cx v) := (c, GRAY_ON_BLACK)]> r]> (fb v)) v)).
Proof.
  intros Hs [Hc Hn] Hx. destruct (grid_row _ (cy v) (screen_grid v Hs) (sc_y v Hs)) as (r & Hr & Hl). exists r. split; [done|]. split; [done|].
  pose proof (sc_x v Hs). rewrite !not_elem_of_cons in Hn. destruct Hn as (? & ? & ? & ? & ? & ? & _). unfold interpret.
  rewrite (bindM_Ret getM _ v v v) by done. rewrite !(proj2 (Z.eqb_neq c _)) by done.
  rewrite (bindM_Ret _ _ _ _ _ (put_cell_Ret v (cy v) (cx v) (u8 c, GRAY_ON_BLACK) r Hr ltac:(lia))).
  rewrite (bindM_Ret (modifyM _) _ _ _ _ eq_refl). rewrite (proj2 (Z.leb_gt _ _)) by (unfold COL_CNT; lia).
  unfold u8. by rewrite Z.mod_small by lia.
Qed.
Lemma splice_insert {A} a (x : A) d l : (a < length l)%nat → splice (S a) d (<[a := x]> l) = splice a (x :: d) l.
Proof.
  intros H. unfold splice. rewrite (take_S_r _ _ x) by (by apply list_lookup_insert_eq). rewrite take_insert_ge by lia.
  rewrite drop_insert_lt by lia. rewrite <-app_assoc. cbn [length app]. by replace (S a + length d)%nat with (a + S (length d))%nat by lia.
Qed.
Definition cells (l : list Z) : list cell := (λ c, (c, GRAY_ON_BLACK)) <$> l.
Lemma vga_puts_line l v :
  screen v → Forall printable l → cx v + Z.of_nat (length l) < 80 →
  ∃ r v', fb v !! Z.to_nat (cy v) = Some r ∧ vga_puts l v = Ret (tt, v') ∧ screen v' ∧ cx v' = cx v + Z.of_nat (length l) ∧ cy v' = cy v ∧
    fb v' = <[Z.to_nat (cy v) := splice (Z.to_nat (cx v)) (cells l) r]> (fb v).
Proof.
  revert v. induction l as [|c l IH]; intros v Hs Hp Hx.
  - destruct (grid_row _ (cy v) (screen_grid v Hs) (sc_y v Hs)) as (r & Hr & Hl). exists r, v. split; [done|]. split; [done|]. split; [done|].
    split; [simpl; lia|]. split; [done|]. change (cells []) with (@nil cell). rewrite splice_nil. by rewrite list_insert_id.
  - apply Forall_cons in Hp as [Hc Hp]. cbn [length] in Hx. destruct (interpret_printable v c Hs Hc ltac:(lia)) as (r & Hr & Hl & E).
    pose proof (sc_x v Hs) as Hx0. pose proof (sc_y v Hs) as Hy0. pose proof (lookup_lt_Some _ _ _ Hr) as Hlt. pose proof (screen_grid v Hs) as Hg.
    set (r1 := <[Z.to_nat (cx v) := (c, GRAY_ON_BLACK)]> r) in *. set (v1 := set_cx (cx v + 1) (set_fb (<[Z.to_nat (cy v) := r1]> (fb v)) v)) in *.
    assert (screen v1) as Hs1.
    { apply screen_intro; cbn [v1 fb cx cy inited set_cx set_fb]; [|lia|done|apply Hs]. apply grid_insert; [done|]. unfold r1. by rewrite length_insert. }
    cbn [vga_puts]. rewrite (bindM_Ret _ _ _ _ _ (vga_putc_Ret v c v1 Hs E Hs1)). set (v2 := set_cursor _ v1).
    destruct (IH v2) as (r' & v' & Hr' & E' & Hs' & Hcx & Hcy & Hfb); [by destruct Hs1; split|done|change (cx v2) with (cx v + 1); lia|].
    exists r, v'. split; [done|]. split; [done|]. split; [done|]. cbn [v2 v1 cx cy fb set_cursor set_cx set_fb] in *.
    split; [cbn [length]; lia|]. split; [done|]. rewrite list_lookup_insert_eq in Hr' by done. injection Hr' as <-.
    rewrite Hfb, list_insert_insert_eq. f_equal. unfold r1, cells. rewrite fmap_cons.
    replace (Z.to_nat (cx v + 1)) with (S (Z.to_nat (cx v))) by lia. apply splice_insert. lia.
Qed.
Lemma vga_puts_app s t v v' : vga_puts s v = Ret (tt, v') → vga_puts (s ++ t) v = vga_puts t v'.
Proof.
  revert v. induction s as [|c s IH]; intros v; cbn [vga_puts app]; [by intros [= ->]|].
  intros ([] & v1 & E & H)%bindM_inv. rewrite (bindM_Ret _ _ _ _ _ E). by apply IH.
Qed.
(** A line that fits a row, and the row that shows it. *)
Definition line (l : list Z) : Prop := Forall printable l ∧ (length l < 80)%nat.
#[global] Instance line_dec l : Decision (line l).
Proof. unfold line. apply _. Defined.
Definition render (l : list Z) : list cell := cells l ++ replicate (80 - length l) blank.
Definition text (ls : list (list Z)) : list Z := concat ((λ l, l ++ [10]) <$> ls).
(** The cursor is at the start of the blank last row. *)
Record at_bottom (v : vga) (rows : list (list cell)) : Prop := {
  ab_screen : screen v;
  ab_x : cx v = 0;
  ab_y : cy v = 24;
  ab_rows : length rows = 24%nat;
  ab_fb : fb v = rows ++ [blank_row] }.
Lemma vga_puts_row l v rows :
  at_bottom v rows → line l → ∃ v', vga_puts (l ++ [10]) v = Ret (tt, v') ∧ at_bottom v' (tail rows ++ [render l]) ∧
    cursor v' = cx v' + COL_CNT * cy v'.
Proof.
  intros [Hs Hx Hy Hr Hfb] [Hp Hl]. destruct (vga_puts_line l v Hs Hp) as (r & v1 & Hlk & E & Hs1 & Hx1 & Hy1 & Hfb1); [lia|].
  rewrite (vga_puts_app _ _ _ _ E). cbn [vga_puts]. rewrite Hx in *. rewrite Hy in *. change (Z.to_nat 24) with 24%nat in *. change (Z.to_nat 0) with 0%nat in *.
  rewrite Hfb, lookup_app_r in Hlk by lia. rewrite Hr in Hlk. injection Hlk as <-.
  assert (fb v1 = rows ++ [render l]) as Hfb2.
  { rewrite Hfb1, Hfb, insert_app_r_alt by lia. rewrite Hr. cbn [Nat.sub insert list_insert]. do 2 f_equal. unfold splice, render, blank_row.
    rewrite take_0. cbn [app]. f_equal. unfold cells at 1. rewrite length_fmap. cbn [Nat.add]. rewrite drop_replicate. done. }
  assert (interpret 10 v1 = Ret (tt, set_fb (scrolled (fb v1)) (set_cx 0 v1))) as E1.
  { unfold interpret. rewrite (bindM_Ret getM _ v1 v1 v1) by done. cbn [Z.eqb Pos.eqb]. rewrite newline_Ret by first [by apply screen_grid|rewrite Hy1; lia].
    by rewrite Hy1. }
  assert (screen (set_fb (scrolled (fb v1)) (set_cx 0 v1))) as Hs2.
  { apply screen_intro; cbn [fb cx cy inited set_fb set_cx]; [by apply scrolled_grid, screen_grid|lia|lia|apply Hs1]. }
  rewrite (bindM_Ret _ _ _ _ _ (vga_putc_Ret v1 10 _ Hs1 E1 Hs2)). eexists. split; [reflexivity|]. split; [|done].
  split; cbn [fb cx cy set_fb set_cx set_cursor]; [by destruct Hs2; split|done|done|rewrite length_app; destruct rows; simpl in *; lia|].
  rewrite Hfb2. unfold scrolled. by destruct rows.
Qed.
(** C39. The display scrolls: lines of text written at the bottom of the screen
    appear below what was there, and the screen shows the last 24 rows above the
    blank one with the cursor, whose position the display's registers hold. *)
Theorem vga_shows_lines ls v rows :
  at_bottom v rows → Forall line ls →
  ∃ v', vga_puts (text ls) v = Ret (tt, v') ∧ at_bottom v' (drop (length ls) (rows ++ (render <$> ls))) ∧
    (ls ≠ [] → cursor v' = cx v' + COL_CNT * cy v').
Proof.
  intros Hb Hl. revert v rows Hb. induction Hl as [|l ls Hl Hls IH]; intros v rows Hb.
  { exists v. split; [done|]. split; [|done]. cbn [length fmap list_fmap]. by rewrite drop_0, app_nil_r. }
  destruct (vga_puts_row l v rows Hb Hl) as (v1 & E1 & Hb1 & Hc1). destruct (IH v1 _ Hb1) as (v2 & E2 & Hb2 & Hc2). exists v2.
  unfold text. cbn [fmap list_fmap concat]. rewrite (vga_puts_app _ _ _ _ E1). split; [done|]. split.
  - cbn [length]. pose proof (ab_rows _ _ Hb) as Hr. destruct rows as [|r0 rows]; [done|]. cbn [tail app] in *.
    by rewrite <-app_assoc in Hb2.
  - intros _. destruct ls; [injection E2 as <-; done|by apply Hc2].
Qed.
Definition bottom : vga := Vga 0 24 (replicate 25 blank_row) 1920 true.
Lemma bottom_ok : at_bottom bottom (replicate 24 blank_row).
Proof. split; [split; [done|by repeat constructor|done|done|done]|done..]. Qed.
Lemma vga_shows_lines_witness :
  ∃ v', vga_puts (text [[72; 105]; []; [33]]) bottom = Ret (tt, v') ∧
    at_bottom v' (drop 3 (replicate 24 blank_row ++ (render <$> [[72; 105]; []; [33]]))) ∧
    ([[72; 105]; []; [33]] ≠ [] → cursor v' = cx v' + COL_CNT * cy v').
Proof.
  apply (vga_shows_lines [[72; 105]; []; [33]] bottom _ bottom_ok).
  apply (bool_decide_unpack _). by vm_compute.
Defined.
(** Whatever is written, [vga_putc] stays within the frame buffer, and the
    display's registers hold the position of the cursor. *)
Theorem vga_putc_in_bounds v c :
  screen v → ∃ v', vga_putc c v = Ret (tt, v') ∧ screen v' ∧ cursor v' = cx v' + COL_CNT * cy v'.
Proof.
  intros Hs. destruct (interpret_screen v c Hs) as (v1 & E & Hs1). rewrite (vga_putc_Ret v c v1 Hs E Hs1).
  eexists. split; [reflexivity|]. split; [by destruct Hs1; split|done].
Qed.
