(* ===== verification/Kbd.v ===== *)
(** * devices/kbd.c: the keyboard

    One interrupt for each key pressed or released: the handler reads the
    scancode, one byte or two, and updates the shift state or appends a character
    to the input buffer.  [None] stands for [shutdown_reboot], which does not
    return. *)

From Stdlib Require Import Ascii String.
From stdpp Require Import base numbers list.
From S2P Require Import Prelude StdlibC Stdio.
Local Open Scope Z_scope.

Record kbd := Kbd {
  left_shift : bool; right_shift : bool;
  left_alt : bool; right_alt : bool;
  left_ctrl : bool; right_ctrl : bool;
  caps_lock : bool;
  key_cnt : Z;
  buffer : list Z }.          (* the characters passed to [input_putc] *)
Abbreviation keymap := (list (Z * list Z)).
Definition invariant_keymap : keymap :=
  [(0x01, [27]); (0x0e, [8]); (0x0f, 9 :: str "QWERTYUIOP"); (0x1c, [13]); (0x1e, str "ASDFGHJKL"); (0x2c, str "ZXCVBNM");
   (0x37, str "*"); (0x39, str " "); (0x53, [127])].
Definition unshifted_keymap : keymap :=
  [(0x02, str "1234567890-="); (0x1a, str "[]"); (0x27, str ";'`"); (0x2b, str "\"); (0x33, str ",./")].
Definition shifted_keymap : keymap :=
  [(0x02, str "!@#$%^&*()_+"); (0x1a, str "{}"); (0x27, [58; 34; 126]); (0x2b, str "|"); (0x33, str "<>?")].
Fixpoint map_key (k : keymap) (scancode : Z) : option Z :=
  match k with
  | [] => None
  | (first, chars) :: k =>
      if (first <=? scancode) && (scancode <? first + Z.of_nat (length chars))
      then chars !! Z.to_nat (scancode - first) else map_key k scancode
  end.
(** The table of shift keys: the new state. *)
Definition set_shift (code : Z) (down : bool) (k : kbd) : kbd :=
  let '(Kbd ls rs la ra lc rc caps n b) := k in
  if code =? 0x2a then Kbd down rs la ra lc rc caps n b
  else if code =? 0x36 then Kbd ls down la ra lc rc caps n b
  else if code =? 0x38 then Kbd ls rs down ra lc rc caps n b
  else if code =? 0xe038 then Kbd ls rs la down lc rc caps n b
  else if code =? 0x1d then Kbd ls rs la ra down rc caps n b
  else if code =? 0xe01d then Kbd ls rs la ra lc down caps n b
  else k.
(** The character for a key, before the modifiers. *)
Definition lookup_key (shift : bool) (code : Z) : option Z :=
  match map_key invariant_keymap code with
  | Some c => Some c
  | None => if negb shift then map_key unshifted_keymap code else map_key shifted_keymap code
  end.
Definition modify_key (shift alt ctrl caps : bool) (c : Z) : Z :=
  let c := if ctrl && (0x40 <=? c) && (c <? 0x60) then u8 (c - 0x40)
           else if Bool.eqb shift caps then u8 (tolower c) else c in
  if alt then u8 (c + 0x80) else c.
(** [full]: what [input_full] returns. *)
Definition handle_key (full : bool) (code : Z) (release : bool) (k : kbd) : option kbd :=
  let shift := left_shift k || right_shift k in
  let alt := left_alt k || right_alt k in
  let ctrl := left_ctrl k || right_ctrl k in
  let '(Kbd ls rs la ra lc rc caps n b) := k in
  if code =? 0x3a then
    Some (if negb release then Kbd ls rs la ra lc rc (negb caps) n b else k)
  else match lookup_key shift code with
  | Some c =>
      if release then Some k
      else if (c =? 127) && ctrl && alt then None
      else if full then Some k
      else Some (Kbd ls rs la ra lc rc caps (i64 (n + 1)) (b ++ [modify_key shift alt ctrl caps c]))
  | None => Some (set_shift code (negb release) k)
  end.
(** [data]: the bytes that the reads of the data register return. *)
Definition keyboard_interrupt (full : bool) (data : list Z) (k : kbd) : outcome (option kbd) :=
  match data with
  | [] => Panic
  | code :: data =>
      try code <- (if code =? 0xe0 then match data with [] => Panic | c :: _ => Ret (Z.lor (Z.shiftl code 8) c) end else Ret code);
      let release := negb (Z.land code 0x80 =? 0) in
      let code := Z.land code (u32 (Z.lnot 0x80)) in
      Ret (handle_key full code release k)
  end.
