(* ===== verification/KbdSpec.v ===== *)
(** * What the keyboard types *)

From Stdlib Require Import Ascii String.
From stdpp Require Import base numbers list.
From S2P Require Import Prelude StdlibC Stdio Kbd.
Local Open Scope Z_scope.

(** A key pressed ([false]) or released ([true]). *)
Abbreviation event := (Z * bool)%type.
Definition kbd0 : kbd := Kbd false false false false false false false 0 [].
(** The event that the bytes of an interrupt stand for. *)
Definition decode (data : list Z) : option event :=
  c ← head data; code ← (if c =? 0xe0 then Z.lor 0xe000 <$> data !! 1%nat else Some c);
  Some (Z.land code (u32 (Z.lnot 0x80)), negb (Z.land code 0x80 =? 0)).
(** The state after interrupts, last one first: for each whether the input
    buffer was full then, and the data read. *)
Fixpoint run_keys (ds : list (bool * list Z)) : option kbd :=
  match ds with
  | [] => Some kbd0
  | (full, d) :: ds => k ← run_keys ds; match keyboard_interrupt full d k with Ret r => r | _ => None end
  end.
Lemma keyboard_interrupt_decode full d k :
  keyboard_interrupt full d k = match decode d with Some (code, release) => Ret (handle_key full code release k) | None => Panic end.
Proof.
  unfold keyboard_interrupt, decode. destruct d as [|c d]; [done|]. cbn [head mbind option_bind].
  destruct (Z.eqb_spec c 0xe0) as [->|_]; [|done]. by destruct d.
Qed.
(** Events are listed last one first. *)
(** Whether a key is down: its last event. *)
Fixpoint held (code : Z) (evs : list event) : bool :=
  match evs with [] => false | (c, release) :: evs => if c =? code then negb release else held code evs end.
(** Caps Lock: each time it is pressed. *)
Fixpoint toggled (evs : list event) : bool :=
  match evs with [] => false | (c, release) :: evs => if (c =? 0x3a) && negb release then negb (toggled evs) else toggled evs end.
Definition modifiers (k : kbd) : list bool :=
  [left_shift k; right_shift k; left_alt k; right_alt k; left_ctrl k; right_ctrl k; caps_lock k].
Definition shift_codes : list Z := [0x2a; 0x36; 0x38; 0xe038; 0x1d; 0xe01d].

(** The keys of the tables are not shift keys. *)
Lemma map_key_range k code c : map_key k code = Some c → Exists (λ e, e.1 ≤ code < e.1 + Z.of_nat (length e.2)) k.
Proof.
  induction k as [|[first chars] k IH]; simpl; [done|].
  destruct (Z.leb_spec first code), (Z.ltb_spec code (first + Z.of_nat (length chars))); simpl; intros Hm;
    first [by left|by right; apply IH].
Qed.
Definition no_shift_key (k : keymap) : Prop :=
  Forall (λ e, Forall (λ code, code < e.1 ∨ e.1 + Z.of_nat (length e.2) ≤ code) (0x3a :: shift_codes)) k.
Lemma map_key_shift k code c : no_shift_key k → map_key k code = Some c → code ∉ 0x3a :: shift_codes.
Proof.
  intros Hk Hm%map_key_range Hc. apply Exists_exists in Hm as ([first chars] & Hin & Hr). unfold no_shift_key in Hk. rewrite Forall_forall in Hk.
  specialize (Hk _ Hin). cbn beta in Hk. rewrite Forall_forall in Hk. specialize (Hk _ Hc).
  cbn [fst snd] in Hk, Hr. lia.
Qed.
Lemma lookup_key_shift shift code c : lookup_key shift code = Some c → code ∉ 0x3a :: shift_codes.
Proof.
  unfold lookup_key. intros H.
  assert (no_shift_key invariant_keymap ∧ no_shift_key unshifted_keymap ∧ no_shift_key shifted_keymap) as (H1 & H2 & H3).
  { unfold no_shift_key. split_and!; apply (bool_decide_unpack _); by vm_compute. }
  destruct (map_key invariant_keymap code) as [x|] eqn:E.
  - by apply (map_key_shift _ _ _ H1 E).
  - destruct shift; cbn [negb] in H; [apply (map_key_shift _ _ _ H3 H)|apply (map_key_shift _ _ _ H2 H)].
Qed.
Definition press (code c : Z) (release old : bool) : bool := if code =? c then negb release else old.
Lemma handle_key_modifiers full code release k k' :
  handle_key full code release k = Some k' →
  modifiers k' = [press code 0x2a release (left_shift k); press code 0x36 release (right_shift k); press code 0x38 release (left_alt k);
    press code 0xe038 release (right_alt k); press code 0x1d release (left_ctrl k); press code 0xe01d release (right_ctrl k);
    if (code =? 0x3a) && negb release then negb (caps_lock k) else caps_lock k].
Proof.
  destruct k as [ls rs la ra lc rc caps n b]. unfold handle_key, modifiers. cbn [left_shift right_shift left_alt right_alt left_ctrl right_ctrl caps_lock].
  destruct (Z.eqb_spec code 0x3a) as [->|Hcaps].
  { intros [= <-]. by destruct release. }
  destruct (lookup_key (ls || rs) code) as [c|] eqn:E.
  - apply lookup_key_shift in E. unfold shift_codes in E. rewrite !not_elem_of_cons in E. destruct E as (_ & ? & ? & ? & ? & ? & ? & _).
    unfold press. rewrite !(proj2 (Z.eqb_neq code _)) by done. intros Hk.
    destruct release; [by injection Hk as <-|]. destruct ((c =? 127) && (lc || rc) && (la || ra)); [done|]. by destruct full; injection Hk as <-.
  - intros [= <-]. unfold set_shift, press. destruct (Z.eqb_spec code 0x2a) as [->|]; [done|]. destruct (Z.eqb_spec code 0x36) as [->|]; [done|].
    destruct (Z.eqb_spec code 0x38) as [->|]; [done|]. destruct (Z.eqb_spec code 0xe038) as [->|]; [done|].
    destruct (Z.eqb_spec code 0x1d) as [->|]; [done|]. by destruct (Z.eqb_spec code 0xe01d) as [->|].
Qed.
Lemma run_keys_modifiers ds k :
  run_keys ds = Some k →
  modifiers k = ((λ c, held c (omap (decode ∘ snd) ds)) <$> shift_codes) ++ [toggled (omap (decode ∘ snd) ds)].
Proof.
  revert k. induction ds as [|[full d] ds IH]; intros k; cbn [run_keys]; [by intros [= <-]|].
  intros (k0 & H0 & Hk)%bind_Some. specialize (IH k0 H0). rewrite keyboard_interrupt_decode in Hk. cbn [omap list_omap compose snd].
  destruct (decode d) as [[code release]|]; [|done]. rewrite (handle_key_modifiers _ _ _ _ _ Hk). unfold modifiers in IH.
  cbn [fmap list_fmap shift_codes app] in IH |- *. injection IH as H1 H2 H3 H4 H5 H6 H7. unfold press.
  cbn [held toggled]. by rewrite H1, H2, H3, H4, H5, H6, H7.
Qed.
(** Letters by their keys. *)
Definition letter_keys : list (Z * Z) :=
  zip (seqZ 0x10 10) (str "QWERTYUIOP") ++ zip (seqZ 0x1e 9) (str "ASDFGHJKL") ++ zip (seqZ 0x2c 7) (str "ZXCVBNM").
Lemma letter_lookup code c shift : (code, c) ∈ letter_keys → lookup_key shift code = Some c ∧ 65 ≤ c ≤ 90 ∧ code ≠ 0x3a ∧ decode [code] = Some (code, false).
Proof.
  intros Hin. assert (Forall (λ e, lookup_key false e.1 = Some e.2 ∧ lookup_key true e.1 = Some e.2 ∧ 65 ≤ e.2 ≤ 90 ∧ e.1 ≠ 0x3a ∧ decode [e.1] = Some (e.1, false)) letter_keys) as H.
  { apply (bool_decide_unpack _). by vm_compute. }
  rewrite Forall_forall in H. specialize (H _ Hin). simpl in H. destruct shift; naive_solver.
Qed.
Lemma modify_letter shift alt ctrl caps c :
  65 ≤ c ≤ 90 →
  modify_key shift alt ctrl caps c =
  (if ctrl then c - 64 else if xorb shift caps then c else c + 32) + if alt then 128 else 0.
Proof.
  intros Hc. unfold modify_key.
  assert (isupper c = true) as Hup by (unfold isupper; apply andb_true_iff; split; apply Z.leb_le; lia).
  unfold tolower. rewrite Hup, (proj2 (Z.leb_le 0x40 c)), (proj2 (Z.ltb_lt c 0x60)) by lia. unfold u8.
  destruct ctrl, shift, caps, alt; cbn [andb Bool.eqb xorb]; rewrite ?Z.mod_small; try lia; rewrite Z.mod_small; lia.
Qed.
(** C40. Typing: after any keys, whatever modifier keys are held, pressing the
    key of a letter appends one byte to the input buffer, or nothing when the
    buffer is full.  With a Control key down the byte is the control character of
    the letter; otherwise it is the letter, in upper case exactly when one of a
    Shift key being down and Caps Lock having been pressed an odd number of times
    holds; an Alt key sets the high bit.  A key is down when its last event was a
    press, also when the buffer was full at some of the events. *)
Theorem keyboard_letters ds k full code c :
  let evs := omap (decode ∘ snd) ds in
  let shift := held 0x2a evs || held 0x36 evs in
  let alt := held 0x38 evs || held 0xe038 evs in
  let ctrl := held 0x1d evs || held 0xe01d evs in
  run_keys ds = Some k → (code, c) ∈ letter_keys →
  ∃ k', keyboard_interrupt full [code] k = Ret (Some k') ∧
    buffer k' = buffer k ++ if full then []
      else [(if ctrl then c - 64 else if xorb shift (toggled evs) then c else c + 32) + if alt then 128 else 0].
Proof.
  intros evs shift alt ctrl Hr Hc. pose proof (run_keys_modifiers ds k Hr) as Hm. fold evs in Hm.
  unfold modifiers in Hm. cbn [fmap list_fmap shift_codes app] in Hm. injection Hm as E1 E2 E3 E4 E5 E6 E7.
  unfold shift, alt, ctrl. rewrite <-E1, <-E2, <-E3, <-E4, <-E5, <-E6, <-E7. clear E1 E2 E3 E4 E5 E6 E7.
  destruct k as [ls rs la ra lc rc caps n b]. cbn [left_shift right_shift left_alt right_alt left_ctrl right_ctrl caps_lock buffer].
  destruct (letter_lookup code c (ls || rs) Hc) as (Hl & Hr2 & Hn & Hd). rewrite keyboard_interrupt_decode, Hd. unfold handle_key.
  cbn [left_shift right_shift left_alt right_alt left_ctrl right_ctrl]. rewrite (proj2 (Z.eqb_neq _ _) Hn), Hl.
  rewrite (proj2 (Z.eqb_neq c 127)) by lia. cbn [andb].
  destruct full; (eexists; split; [reflexivity|]); cbn [buffer]; [by rewrite app_nil_r|]. by rewrite modify_letter.
Qed.
(** Shift down, H, Shift up, H while the buffer is full, then Control and H. *)
Lemma keyboard_letters_witness :
  ∃ k', keyboard_interrupt false [0x23] (Kbd false false false false true false false 1 (str "H")) = Ret (Some k') ∧ buffer k' = str "H" ++ [8].
Proof.
  apply (keyboard_letters [(false, [0x1d]); (true, [0x23]); (false, [0xaa]); (false, [0x23]); (false, [0x2a])]
    (Kbd false false false false true false false 1 (str "H")) false 0x23 (ch "H")); [done|].
  apply (list_elem_of_lookup_2 _ 15). done.
Defined.
