(* ===== verification/Intq.v ===== *)
(** * devices/intq.c: queues between threads and interrupt handlers

    All of intq.c runs with interrupts off, so threads are interleaved only where
    a thread blocks: on the queue's lock and in [wait].  The state of a thread in
    an operation is where it stands: about to test the queue ([Loop]), waiting for
    the lock ([LockWait]), blocked in [wait] with the lock held ([Blocked]), or
    unblocked there and not yet run ([Ready]). *)

From stdpp Require Import base numbers list gmap.
From S2P Require Import Prelude.
Local Open Scope Z_scope.

Definition INTQ_BUFSIZE : Z := 64.
Abbreviation thread_id := nat.
Inductive op := Get | Put (byte : Z).
Inductive place := Loop (o : op) | LockWait (o : op) | Blocked (o : op) | Ready (o : op).
Record intq := Intq {
  lock : option thread_id;         (* the lock's holder *)
  not_full : option thread_id;
  not_empty : option thread_id;
  buf : list Z;
  head : Z;
  tail : Z }.
(** The queue and the threads that are in one of its functions. *)
Record monitor := Monitor { queue : intq; calls : gmap thread_id place }.

Definition set_lock x (q : intq) : intq := Intq x (not_full q) (not_empty q) (buf q) (head q) (tail q).
Definition set_not_full x (q : intq) : intq := Intq (lock q) x (not_empty q) (buf q) (head q) (tail q).
Definition set_not_empty x (q : intq) : intq := Intq (lock q) (not_full q) x (buf q) (head q) (tail q).
Definition set_buf x (q : intq) : intq := Intq (lock q) (not_full q) (not_empty q) x (head q) (tail q).
Definition set_head x (q : intq) : intq := Intq (lock q) (not_full q) (not_empty q) (buf q) x (tail q).
Definition set_tail x (q : intq) : intq := Intq (lock q) (not_full q) (not_empty q) (buf q) (head q) x.
Definition on_queue (f : intq → intq) : M monitor unit := modifyM (λ m, Monitor (f (queue m)) (calls m)).
Definition set_place (t : thread_id) (p : place) : M monitor unit := modifyM (λ m, Monitor (queue m) (<[t := p]> (calls m))).
Definition leave (t : thread_id) : M monitor unit := modifyM (λ m, Monitor (queue m) (delete t (calls m))).

(** [junk]: the buffer is not initialised. *)
Definition intq_init (junk : list Z) : intq := Intq None None None junk 0 0.
Definition next (pos : Z) : Z := (pos + 1) `rem` INTQ_BUFSIZE.
Definition intq_empty (q : intq) : bool := head q =? tail q.
Definition intq_full (q : intq) : bool := next (head q) =? tail q.

(** [wait], up to the point where the thread is blocked. *)
Definition wait (t : thread_id) (o : op) : M monitor unit :=
  do m <- getM;
  run assertM (match o with Get => intq_empty (queue m) | Put _ => intq_full (queue m) end);
  run on_queue (match o with Get => set_not_empty (Some t) | Put _ => set_not_full (Some t) end);
  set_place t (Blocked o).
(** [signal (q, &q->not_full)] after a [Get], [signal (q, &q->not_empty)] after
    a [Put]; [thread_unblock] asserts that the thread is blocked. *)
Definition thread_unblock (t : thread_id) : M monitor unit :=
  do m <- getM;
  match calls m !! t with Some (Blocked o) => set_place t (Ready o) | _ => panicM end.
Definition signal (o : op) : M monitor unit :=
  do m <- getM;
  run assertM (match o with Get => negb (intq_full (queue m)) | Put _ => negb (intq_empty (queue m)) end);
  match match o with Get => not_full (queue m) | Put _ => not_empty (queue m) end with
  | None => retM tt
  | Some t => run thread_unblock t; on_queue (match o with Get => set_not_full None | Put _ => set_not_empty None end)
  end.
(** What follows the loops of [intq_getc] and [intq_putc]. *)
Definition transfer (o : op) : M monitor (option Z) :=
  do m <- getM;
  let q := queue m in
  match o with
  | Get =>
      match buf q !! Z.to_nat (tail q) with
      | None => panicM
      | Some byte => run on_queue (set_tail (next (tail q))); run signal Get; retM (Some byte)
      end
  | Put byte =>
      run assertM (head q <? Z.of_nat (length (buf q)));
      run on_queue (λ q, set_head (next (head q)) (set_buf (<[Z.to_nat (head q) := byte]> (buf q)) q));
      run signal (Put byte); retM None
  end.
Definition must_wait (o : op) (q : intq) : bool := match o with Get => intq_empty q | Put _ => intq_full q end.

(** The body of the loop: [lock_acquire], then [wait]. *)
Definition acquire_and_wait (t : thread_id) (o : op) : M monitor unit :=
  do m <- getM;
  match lock (queue m) with
  | Some _ => set_place t (LockWait o)
  | None => run on_queue (set_lock (Some t)); wait t o
  end.
(** [intq_getc] and [intq_putc] of a thread, from the test of the loop to the
    next point where the thread blocks, or to the end of the call. *)
Definition run_loop (t : thread_id) (o : op) : M monitor (option (option Z)) :=
  do m <- getM;
  if must_wait o (queue m) then run acquire_and_wait t o; retM None
  else do r <- transfer o; run leave t; retM (Some r).
(** The thread [t] runs.  [None]: the call has not ended. *)
Definition step (t : thread_id) : M monitor (option (option Z)) :=
  do m <- getM;
  match calls m !! t with
  | Some (Loop o) => run_loop t o
  | Some (LockWait o) =>
      match lock (queue m) with
      | None => run on_queue (set_lock (Some t)); run wait t o; retM None
      | Some _ => retM None                              (* not runnable *)
      end
  | Some (Blocked o) => retM None                        (* not runnable *)
  | Some (Ready o) =>
      run assertM (bool_decide (lock (queue m) = Some t));   (* [lock_release] *)
      run on_queue (set_lock None);
      run_loop t o
  | None => retM None
  end.
(** The same functions in an interrupt handler, where they must not wait. *)
Definition handler (o : op) : M monitor (option Z) :=
  do m <- getM;
  run assertM (negb (must_wait o (queue m)));
  transfer o.
