(* ===== verification/IntqSpec.v ===== *)
(** * An interrupt queue is a bounded first-in first-out queue

    The bytes between [tail] and [head] are the queue's contents.  Traces
    interleave the threads and the interrupt handlers that use the queue in any
    order. *)

From stdpp Require Import base numbers list gmap.
From S2P Require Import Prelude Intq.
Local Open Scope Z_scope.

Record queue_wf (q : intq) : Prop := {
  qw_buf : length (buf q) = 64%nat;
  qw_head : 0 ≤ head q < 64;
  qw_tail : 0 ≤ tail q < 64 }.
Definition count (q : intq) : nat := Z.to_nat ((head q - tail q) `mod` 64).
Definition byte_at (q : intq) (i : nat) : Z := nth (Z.to_nat ((tail q + Z.of_nat i) `mod` 64)) (buf q) 0.
Definition contents (q : intq) : list Z := byte_at q <$> seq 0 (count q).

Lemma next_wrap p : 0 ≤ p < 64 → next p = if decide (p = 63) then 0 else p + 1.
Proof. intros Hp. unfold next, INTQ_BUFSIZE. case_decide; [by subst|]. apply Z.rem_small. lia. Qed.
Lemma diff_wrap a b : 0 ≤ a < 64 → 0 ≤ b < 64 → (a - b) `mod` 64 = if decide (a < b) then a - b + 64 else a - b.
Proof. intros Ha Hb. case_decide; [|apply Z.mod_small; lia]. rewrite <-(Z.mod_small (a - b + 64) 64) by lia. by rewrite <-Zplus_mod_idemp_r, Z_mod_same_full, Z.add_0_r. Qed.
Lemma sum_wrap a i : 0 ≤ a < 64 → 0 ≤ i < 64 → (a + i) `mod` 64 = if decide (a + i < 64) then a + i else a + i - 64.
Proof. intros Ha Hi. case_decide; [apply Z.mod_small; lia|]. rewrite <-(Z.mod_small (a + i - 64) 64) by lia. by rewrite <-Zminus_mod_idemp_r, Z_mod_same_full, Z.sub_0_r. Qed.
Lemma count_bound q : (count q ≤ 63)%nat.
Proof. unfold count. pose proof (Z.mod_pos_bound (head q - tail q) 64). lia. Qed.
Lemma queue_length q : length (contents q) = count q.
Proof. unfold contents. by rewrite length_fmap, length_seq. Qed.
Lemma contents_ext q q' : buf q' = buf q → head q' = head q → tail q' = tail q → contents q' = contents q.
Proof. intros H1 H2 H3. unfold contents, count, byte_at. by rewrite H1, H2, H3. Qed.
Lemma contents_get q :
  queue_wf q → intq_empty q = false →
  let q' := set_tail (next (tail q)) q in
  ∃ b, buf q !! Z.to_nat (tail q) = Some b ∧ contents q = b :: contents q' ∧ queue_wf q' ∧ intq_full q' = false.
Proof.
  intros [Hb Hh Ht] He%Z.eqb_neq q0. subst q0. destruct (lookup_lt_is_Some_2 (buf q) (Z.to_nat (tail q))) as [b Hlk]; [lia|].
  exists b. split; [done|]. set (t' := next (tail q)). assert (t' = if decide (tail q = 63) then 0 else tail q + 1) as Ht' by (by apply next_wrap).
  assert (0 ≤ t' < 64) as Hr by (rewrite Ht'; case_decide; lia).
  split; [|split; [split; cbn [buf head tail set_tail]; [done|lia|lia]|]].
  - unfold contents. assert (count q = S (count (set_tail t' q))) as ->.
    { unfold count. cbn [head tail set_tail]. rewrite !diff_wrap by lia. repeat case_decide; lia. }
    cbn [seq]. rewrite fmap_cons, <-fmap_S_seq, <-list_fmap_compose. f_equal.
    + unfold byte_at. replace (tail q + Z.of_nat 0) with (tail q) by lia. rewrite Z.mod_small by lia. by apply nth_lookup_Some.
    + apply list_fmap_ext. intros _ i _. unfold byte_at, compose. cbn [tail buf set_tail]. do 2 f_equal.
      rewrite Ht'. case_decide as H63; [|f_equal; lia]. rewrite H63. replace (63 + Z.of_nat (S i)) with (Z.of_nat i + 1 * 64) by lia.
      by rewrite Z_mod_plus_full.
  - unfold intq_full. cbn [head tail set_tail]. rewrite next_wrap by lia. apply Z.eqb_neq. rewrite Ht'. repeat case_decide; lia.
Qed.
Lemma contents_put q b :
  queue_wf q → intq_full q = false →
  let q' := set_head (next (head q)) (set_buf (<[Z.to_nat (head q) := b]> (buf q)) q) in
  contents q' = contents q ++ [b] ∧ queue_wf q' ∧ intq_empty q' = false.
Proof.
  intros [Hb Hh Ht] Hf%Z.eqb_neq q0. subst q0. set (h' := next (head q)) in *.
  assert (h' = if decide (head q = 63) then 0 else head q + 1) as Hh' by (by apply next_wrap).
  assert (0 ≤ h' < 64) as Hr by (rewrite Hh'; case_decide; lia).
  split; [|split; [split; cbn [buf head tail set_head set_buf]; [by rewrite length_insert|lia|lia]|by apply Z.eqb_neq]].
  assert (Z.of_nat (count q) = if decide (head q < tail q) then head q - tail q + 64 else head q - tail q) as Hc.
  { unfold count. rewrite diff_wrap by lia. repeat case_decide; lia. }
  unfold contents. set (q' := set_head _ _). assert (count q' = S (count q)) as ->.
  { apply Nat2Z.inj. rewrite Nat2Z.inj_succ, Hc. unfold count, q'. cbn [head tail set_head set_buf]. rewrite diff_wrap by lia. repeat case_decide; lia. }
  rewrite seq_S, fmap_app. cbn [Nat.add fmap list_fmap]. f_equal; [|f_equal].
  - apply list_fmap_ext. intros k i [-> Hk]%lookup_seq. unfold byte_at, q'. cbn [tail buf set_head set_buf].
    rewrite !nth_lookup. rewrite list_lookup_insert_ne; [done|]. cbn [Nat.add]. rewrite sum_wrap by (repeat case_decide; lia). repeat case_decide; lia.
  - unfold byte_at, q'. cbn [tail buf set_head set_buf]. rewrite nth_lookup.
    replace ((tail q + Z.of_nat (count q)) `mod` 64) with (head q) by (rewrite Hc, sum_wrap by (case_decide; lia); repeat case_decide; lia).
    rewrite list_lookup_insert_eq by lia. done.
Qed.

(** ** What the operations do to the contents *)
Definition same_buffer (m m' : monitor) : Prop :=
  buf (queue m') = buf (queue m) ∧ head (queue m') = head (queue m) ∧ tail (queue m') = tail (queue m).
Lemma same_buffer_trans m1 m2 m3 : same_buffer m1 m2 → same_buffer m2 m3 → same_buffer m1 m3.
Proof. unfold same_buffer. intros (? & ? & ?) (? & ? & ?). split_and!; congruence. Qed.
Lemma same_buffer_wf m m' : same_buffer m m' → queue_wf (queue m) → queue_wf (queue m').
Proof. intros (Hb & Hh & Ht) [? ? ?]. split; congruence. Qed.
Lemma same_buffer_contents m m' : same_buffer m m' → contents (queue m') = contents (queue m).
Proof. intros (? & ? & ?). by apply contents_ext. Qed.
Lemma same_buffer_lock m x : same_buffer m (Monitor (set_lock x (queue m)) (calls m)).
Proof. done. Qed.
Definition puts_of (o : op) : list Z := match o with Put b => [b] | Get => [] end.
Lemma signal_buffer o m m' : signal o m = Ret (tt, m') → same_buffer m m'.
Proof.
  unfold signal, thread_unblock, bindM, getM, assertM, on_queue, set_place, modifyM, retM. intros H.
  destruct o; simpl in H; repeat case_match; simplify_eq; by repeat split.
Qed.
Lemma transfer_contents o m r m' :
  queue_wf (queue m) → must_wait o (queue m) = false → transfer o m = Ret (r, m') →
  queue_wf (queue m') ∧ contents (queue m) ++ puts_of o = option_list r ++ contents (queue m').
Proof.
  intros Hwf Hw. unfold transfer. destruct o as [|b]; cbn [must_wait] in Hw; intros (m0 & ? & [= <- <-] & H)%bindM_inv.
  - destruct (contents_get _ Hwf Hw) as (b & Hb & Hc & Hwf' & _). rewrite Hb in H.
    apply bindM_inv in H as ([] & m1 & [= <-] & H). apply bindM_inv in H as ([] & m2 & Hs%signal_buffer & [= <- <-]).
    split; [by eapply same_buffer_wf|]. rewrite (same_buffer_contents _ _ Hs). simpl. by rewrite app_nil_r, Hc.
  - destruct (contents_put _ b Hwf Hw) as (Hc & Hwf' & _).
    apply bindM_inv in H as (? & m1 & [_ [= -> ->]]%assertM_inv & H).
    apply bindM_inv in H as ([] & m2 & [= <-] & H). apply bindM_inv in H as ([] & m3 & Hs%signal_buffer & [= <- <-]).
    split; [by eapply same_buffer_wf|]. rewrite (same_buffer_contents _ _ Hs). simpl. by rewrite Hc.
Qed.
Lemma wait_buffer t o m m' : wait t o m = Ret (tt, m') → same_buffer m m'.
Proof.
  unfold wait, bindM, getM, assertM, on_queue, set_place, modifyM, retM. intros H. destruct o; simpl in H; repeat case_match; simplify_eq; by repeat split.
Qed.
Lemma acquire_and_wait_buffer t o m m' : acquire_and_wait t o m = Ret (tt, m') → same_buffer m m'.
Proof.
  unfold acquire_and_wait. intros (m0 & ? & [= <- <-] & H)%bindM_inv. destruct (lock (queue m)).
  - by injection H as <-.
  - apply bindM_inv in H as ([] & m1 & [= <-] & H). by apply wait_buffer in H.
Qed.
Definition op_of (p : place) : op := match p with Loop o | LockWait o | Blocked o | Ready o => o end.
(** What a step adds to the bytes written and read. *)
Definition moves (m : monitor) (o : op) (r : option (option Z)) (m' : monitor) : Prop :=
  queue_wf (queue m') ∧
  match r with
  | None => contents (queue m') = contents (queue m)
  | Some r => contents (queue m) ++ puts_of o = option_list r ++ contents (queue m')
  end.
Lemma run_loop_moves t o m r m' : queue_wf (queue m) → run_loop t o m = Ret (r, m') → moves m o r m'.
Proof.
  intros Hwf. unfold run_loop. intros (m0 & ? & [= <- <-] & H)%bindM_inv. destruct (must_wait o (queue m)) eqn:E.
  - apply bindM_inv in H as ([] & m1 & Hs%acquire_and_wait_buffer & [= <- <-]).
    split; [by eapply same_buffer_wf|by apply same_buffer_contents].
  - apply bindM_inv in H as (v & m1 & Ht & H). apply bindM_inv in H as (? & m2 & [= <- <-] & [= <- <-]).
    by destruct (transfer_contents o m v m1 Hwf E Ht).
Qed.
Lemma step_moves t p m r m' :
  queue_wf (queue m) → calls m !! t = Some p → step t m = Ret (r, m') → moves m (op_of p) r m'.
Proof.
  intros Hwf Hp. unfold step. intros (m0 & ? & [= <- <-] & H)%bindM_inv. rewrite Hp in H. destruct p as [o|o|o|o]; simpl.
  - by apply run_loop_moves in H.
  - destruct (lock (queue m)); [by injection H as <- <-|].
    apply bindM_inv in H as ([] & m1 & [= <-] & H). apply bindM_inv in H as ([] & m2 & Hs%wait_buffer & [= <- <-]).
    pose proof (same_buffer_trans _ _ _ (same_buffer_lock m (Some t)) Hs). split; [by eapply same_buffer_wf|by apply same_buffer_contents].
  - by injection H as <- <-.
  - apply bindM_inv in H as (? & m1 & [_ [= -> ->]]%assertM_inv & H). apply bindM_inv in H as ([] & m2 & [= <-] & H).
    apply run_loop_moves in H; [done|]. by apply (same_buffer_wf _ _ (same_buffer_lock m None)).
Qed.

(** ** Traces *)
(** The bytes written and read so far, and the state.  [multi]: whether several
    threads may be in the queue's functions at once. *)
Inductive trace (multi : bool) : list Z → list Z → monitor → Prop :=
  | trace_init junk : length junk = 64%nat → trace multi [] [] (Monitor (intq_init junk) ∅)
  | trace_call ps gs m t o :
      trace multi ps gs m → calls m !! t = None → (multi = false → calls m = ∅) →
      trace multi ps gs (Monitor (queue m) (<[t := Loop o]> (calls m)))
  | trace_wait ps gs m t m' : trace multi ps gs m → step t m = Ret (None, m') → trace multi ps gs m'
  | trace_end ps gs m t p r m' :
      trace multi ps gs m → calls m !! t = Some p → step t m = Ret (Some r, m') →
      trace multi (ps ++ puts_of (op_of p)) (gs ++ option_list r) m'
  | trace_handler ps gs m o r m' :
      trace multi ps gs m → handler o m = Ret (r, m') → trace multi (ps ++ puts_of o) (gs ++ option_list r) m'.
Lemma step_idle t m : calls m !! t = None → step t m = Ret (None, m).
Proof. intros H. unfold step, bindM, getM. by rewrite H. Qed.
Lemma trace_contents multi ps gs m : trace multi ps gs m → queue_wf (queue m) ∧ ps = gs ++ contents (queue m).
Proof.
  induction 1 as [junk Hj|ps gs m t o _ [Hwf IH] Ht|ps gs m t m' _ [Hwf IH] Hs|ps gs m t p r m' _ [Hwf IH] Hp Hs|ps gs m o r m' _ [Hwf IH] Hh].
  - split; [split; [done|done|done]|done].
  - done.
  - destruct (calls m !! t) as [p|] eqn:Hp.
    + destruct (step_moves t p m None m' Hwf Hp Hs) as [? ->]. done.
    + rewrite step_idle in Hs by done. by injection Hs as <-.
  - destruct (step_moves t p m (Some r) m' Hwf Hp Hs) as [? Hc]. split; [done|]. by rewrite IH, <-app_assoc, Hc, app_assoc.
  - unfold handler in Hh. apply bindM_inv in Hh as (m0 & ? & [= <- <-] & H).
    apply bindM_inv in H as (? & m1 & [Hw%negb_true_iff [= -> ->]]%assertM_inv & H).
    destruct (transfer_contents o m r m' Hwf Hw H) as [? Hc]. split; [done|]. by rewrite IH, <-app_assoc, Hc, app_assoc.
Qed.

(** ** One thread *)
Definition no_waiters (q : intq) : Prop := not_full q = None ∧ not_empty q = None.
Definition place_ok (q : intq) (t : thread_id) (p : place) : Prop :=
  match p with
  | Loop _ => lock q = None ∧ no_waiters q
  | LockWait _ => False
  | Blocked Get => lock q = Some t ∧ not_full q = None ∧ not_empty q = Some t ∧ intq_empty q = true
  | Blocked (Put _) => lock q = Some t ∧ not_full q = Some t ∧ not_empty q = None ∧ intq_full q = true
  | Ready _ => lock q = Some t ∧ no_waiters q
  end.
Definition solo (m : monitor) : Prop :=
  queue_wf (queue m) ∧
  ((calls m = ∅ ∧ lock (queue m) = None ∧ no_waiters (queue m)) ∨ ∃ t p, calls m = {[t := p]} ∧ place_ok (queue m) t p).
Definition waiter (o : op) (q : intq) : option thread_id := match o with Get => not_full q | Put _ => not_empty q end.
Definition room (o : op) (q : intq) : bool := match o with Get => negb (intq_full q) | Put _ => negb (intq_empty q) end.
Definition clear_waiter (o : op) : intq → intq := match o with Get => set_not_full None | Put _ => set_not_empty None end.
Lemma signal_none o m : room o (queue m) = true → waiter o (queue m) = None → signal o m = Ret (tt, m).
Proof.
  intros Hr Hw. unfold signal. rewrite (bindM_Ret getM _ m m m) by done.
  rewrite (bindM_Ret (assertM _) _ m tt m) by (by destruct o; apply assertM_true). destruct o; simpl in *; by rewrite Hw.
Qed.
Lemma signal_some o o' m t :
  room o (queue m) = true → waiter o (queue m) = Some t → calls m !! t = Some (Blocked o') →
  signal o m = Ret (tt, Monitor (clear_waiter o (queue m)) (<[t := Ready o']> (calls m))).
Proof.
  intros Hr Hw Hc. unfold signal. rewrite (bindM_Ret getM _ m m m) by done.
  rewrite (bindM_Ret (assertM _) _ m tt m) by (by destruct o; apply assertM_true).
  assert (thread_unblock t m = Ret (tt, Monitor (queue m) (<[t := Ready o']> (calls m)))) as Hu
    by (unfold thread_unblock, bindM, getM; by rewrite Hc).
  destruct o; simpl in *; rewrite Hw, (bindM_Ret _ _ _ _ _ Hu); done.
Qed.
(** The buffer after a transfer, before the signal. *)
Lemma transfer_moved m o :
  queue_wf (queue m) → must_wait o (queue m) = false →
  ∃ r q', transfer o m = (run signal o; retM r) (Monitor q' (calls m)) ∧ queue_wf q' ∧ room o q' = true ∧
    lock q' = lock (queue m) ∧ not_full q' = not_full (queue m) ∧ not_empty q' = not_empty (queue m).
Proof.
  intros Hwf Hw. unfold transfer. rewrite (bindM_Ret getM _ m m m) by done. destruct o as [|b]; cbn [must_wait] in Hw.
  - destruct (contents_get _ Hwf Hw) as (b & Hb & _ & Hwf' & Hfull). rewrite Hb. eexists _, _. split; [reflexivity|].
    split; [done|]. split; [|done]. simpl. by rewrite Hfull.
  - destruct (contents_put _ b Hwf Hw) as (_ & Hwf' & Hemp). rewrite (bindM_Ret (assertM _) _ m tt m).
    2: { apply assertM_true, Z.ltb_lt. destruct Hwf. lia. }
    eexists _, _. split; [reflexivity|]. split; [done|]. split; [|done]. simpl. by rewrite Hemp.
Qed.
(** A transfer when nobody waits for it: the buffer changes, nothing else. *)
Lemma transfer_plain m o :
  queue_wf (queue m) → no_waiters (queue m) → must_wait o (queue m) = false →
  ∃ r q', transfer o m = Ret (r, Monitor q' (calls m)) ∧ queue_wf q' ∧ lock q' = lock (queue m) ∧ no_waiters q'.
Proof.
  intros Hwf [Hf He] Hw. destruct (transfer_moved m o Hwf Hw) as (r & q' & -> & Hwf' & Hr & Hl & Hf' & He').
  rewrite (bindM_Ret _ _ _ _ _ (signal_none o (Monitor q' (calls m)) Hr ltac:(destruct o; simpl; congruence))).
  exists r, q'. split; [done|]. split; [done|]. split; [done|]. split; congruence.
Qed.
(** A transfer that wakes the thread in [wait]. *)
Lemma transfer_wakes m t o o' :
  queue_wf (queue m) → calls m = {[t := Blocked o']} → place_ok (queue m) t (Blocked o') → must_wait o (queue m) = false →
  ∃ r q', transfer o m = Ret (r, Monitor q' {[t := Ready o']}) ∧ queue_wf q' ∧ place_ok q' t (Ready o').
Proof.
  intros Hwf Hc Hp Hw. destruct (transfer_moved m o Hwf Hw) as (r & q' & -> & Hwf' & Hr & Hl & Hf & He).
  assert (waiter o q' = Some t ∧ lock q' = Some t ∧ no_waiters (clear_waiter o q')) as (Hwt & Hlt & Hn).
  { destruct o as [|b], o' as [|b']; cbn [must_wait place_ok] in *; destruct Hp as (? & ? & ? & ?); try congruence;
      (split; [simpl; congruence|]; split; [congruence|]; split; simpl; congruence). }
  rewrite (bindM_Ret _ _ _ _ _ (signal_some o o' (Monitor q' (calls m)) t Hr Hwt ltac:(cbn [calls]; rewrite Hc; apply lookup_singleton_eq))).
  exists r, (clear_waiter o q'). cbn [queue calls]. rewrite Hc, insert_singleton_eq. split; [done|].
  split; [destruct o, Hwf'; by split|]. split; [by destruct o|done].
Qed.
Lemma handler_solo m o : solo m → must_wait o (queue m) = false → ∃ r m', handler o m = Ret (r, m') ∧ solo m'.
Proof.
  intros [Hwf Hs] Hw. assert (handler o m = transfer o m) as ->.
  { unfold handler. rewrite (bindM_Ret getM _ m m m) by done. by rewrite (bindM_Ret _ _ _ _ _ (assertM_true _ m (proj2 (negb_true_iff _) Hw))). }
  destruct Hs as [(Hc & Hl & Hn)|(t & p & Hc & Hp)].
  - destruct (transfer_plain m o Hwf Hn Hw) as (r & q' & E & Hwf' & Hl' & Hn'). exists r, (Monitor q' (calls m)).
    split; [done|]. split; [done|]. left. cbn [calls queue]. by rewrite Hc, Hl'.
  - destruct p as [o'|o'|o'|o']; [|done| |].
    1,3: destruct Hp as [Hl Hn]; destruct (transfer_plain m o Hwf Hn Hw) as (r & q' & E & Hwf' & Hl' & Hn'); exists r, (Monitor q' (calls m));
      split; [done|]; split; [done|]; right; eexists t, _; (split; [exact Hc|]); cbn [queue place_ok]; by rewrite Hl'.
    destruct (transfer_wakes m t o o' Hwf Hc Hp Hw) as (r & q' & E & Hwf' & Hp'). eexists _, _. split; [done|]. split; [done|]. right. by exists t, (Ready o').
Qed.
Lemma wait_Ret m t o :
  must_wait o (queue m) = true →
  wait t o m = Ret (tt, Monitor ((match o with Get => set_not_empty (Some t) | Put _ => set_not_full (Some t) end) (queue m)) (<[t := Blocked o]> (calls m))).
Proof.
  intros Hw. unfold wait. rewrite (bindM_Ret getM _ m m m) by done. by rewrite (bindM_Ret (assertM _) _ m tt m) by (destruct o; by apply assertM_true).
Qed.
Lemma run_loop_solo m t o :
  queue_wf (queue m) → (∃ p, calls m = {[t := p]}) → lock (queue m) = None → no_waiters (queue m) →
  ∃ r m', run_loop t o m = Ret (r, m') ∧ solo m'.
Proof.
  intros Hwf [p Hc] Hl Hn. unfold run_loop. rewrite (bindM_Ret getM _ m m m) by done. destruct (must_wait o (queue m)) eqn:Hw.
  - unfold acquire_and_wait. rewrite bindM_assoc, (bindM_Ret getM _ m m m), Hl by done.
    set (m1 := Monitor (set_lock (Some t) (queue m)) (calls m)).
    rewrite bindM_assoc, (bindM_Ret (on_queue _) _ m tt m1), (bindM_Ret _ _ _ _ _ (wait_Ret m1 t o ltac:(by destruct o))) by done.
    eexists _, _. split; [reflexivity|]. cbn [m1 queue calls]. rewrite Hc, insert_singleton_eq.
    split; [destruct Hwf, o; by split|]. right. exists t, (Blocked o). split; [done|]. destruct Hn. by destruct o.
  - destruct (transfer_plain m o Hwf Hn Hw) as (r & q' & E & Hwf' & Hl' & Hn'). rewrite (bindM_Ret _ _ _ _ _ E).
    eexists (Some r), (Monitor q' ∅). split.
    + unfold bindM, leave, modifyM. cbn [queue calls]. by rewrite Hc, delete_singleton_eq.
    + split; [done|]. left. cbn [calls queue]. by rewrite Hl'.
Qed.
Lemma step_solo m t : solo m → ∃ r m', step t m = Ret (r, m') ∧ solo m'.
Proof.
  intros Hs. destruct (calls m !! t) as [p|] eqn:Ht; [|rewrite step_idle by done; by exists None, m].
  destruct Hs as [Hwf [[Hc _]|(t' & p' & Hc & Hp)]]; [by rewrite Hc in Ht|].
  rewrite Hc in Ht. apply lookup_singleton_Some in Ht as [-> ->]. unfold step. rewrite (bindM_Ret getM _ m m m) by done.
  rewrite Hc, lookup_singleton_eq. destruct p as [o|o|o|o]; [|done| |].
  - destruct Hp as [Hl Hn]. apply run_loop_solo; eauto.
  - exists None, m. split; [done|]. split; [done|]. right. by exists t, (Blocked o).
  - destruct Hp as [Hl Hn]. rewrite (bindM_Ret _ _ _ _ _ (assertM_true _ m (bool_decide_eq_true_2 _ Hl))).
    rewrite (bindM_Ret (on_queue _) _ m tt (Monitor (set_lock None (queue m)) (calls m))) by done.
    apply run_loop_solo; [by apply (same_buffer_wf _ _ (same_buffer_lock m None))|by eexists|done|done].
Qed.
Lemma trace_solo ps gs m : trace false ps gs m → solo m.
Proof.
  induction 1 as [junk Hj|ps gs m t o _ IH Ht Hm|ps gs m t m' _ IH Hs|ps gs m t p r m' _ IH Hp Hs|ps gs m o r m' _ IH Hh].
  - split; [by split|]. by left.
  - specialize (Hm eq_refl). destruct IH as [Hwf [(_ & Hl & Hn)|(t' & p' & Hc & _)]].
    + split; [done|]. right. exists t, (Loop o). cbn [calls queue]. by rewrite Hm.
    + rewrite Hm in Hc. apply (f_equal (lookup t')) in Hc. by rewrite lookup_singleton_eq in Hc.
  - destruct (step_solo m t IH) as (r & m1 & E & ?). rewrite E in Hs. by injection Hs as -> ->.
  - destruct (step_solo m t IH) as (r' & m1 & E & ?). rewrite E in Hs. by injection Hs as -> ->.
  - assert (must_wait o (queue m) = false) as Hw.
    { unfold handler in Hh. apply bindM_inv in Hh as (m0 & ? & [= <- <-] & H). by apply bindM_inv in H as (? & m1 & [Hw%negb_true_iff _]%assertM_inv & _). }
    destruct (handler_solo m o IH Hw) as (r' & m1 & E & ?). rewrite E in Hh. by injection Hh as -> ->.
Qed.

(** ** Properties *)
(** C36. First in, first out, and bounded: however threads and interrupt handlers
    interleave, the bytes written so far are the bytes read so far followed by the
    contents of the queue, at most 63 bytes. *)
Theorem intq_fifo multi ps gs m :
  trace multi ps gs m → ps = gs ++ contents (queue m) ∧ (length (contents (queue m)) < Z.to_nat INTQ_BUFSIZE)%nat.
Proof.
  intros [_ Hc]%trace_contents. split; [done|]. rewrite queue_length. pose proof (count_bound (queue m)).
  change (Z.to_nat INTQ_BUFSIZE) with 64%nat. lia.
Qed.
(** C37. With one thread at a time in its functions, a queue shared with
    interrupt handlers is safe: no assertion fails in the thread, nor in a handler
    that tests the queue first, and the thread is blocked only while there is
    nothing to do for it (no wakeup is lost). *)
Theorem intq_one_thread ps gs m :
  trace false ps gs m →
  (∀ t, ∃ r m', step t m = Ret (r, m')) ∧
  (∀ o, must_wait o (queue m) = false → ∃ r m', handler o m = Ret (r, m')) ∧
  (∀ t o, calls m !! t = Some (Blocked o) → must_wait o (queue m) = true).
Proof.
  intros Hs%trace_solo. split; [|split].
  - intros t. destruct (step_solo m t Hs) as (r & m' & ? & _). eauto.
  - intros o Hw. destruct (handler_solo m o Hs Hw) as (r & m' & ? & _). eauto.
  - intros t o Ht. destruct Hs as [_ [[Hc _]|(t' & p & Hc & Hp)]]; rewrite Hc in Ht; [done|].
    apply lookup_singleton_Some in Ht as [-> ->]. destruct o; naive_solver.
Qed.
Definition queue0 : monitor := Monitor (intq_init (replicate 64 0)) ∅.
(** A thread waits for a byte, and an interrupt handler delivers it. *)
Lemma one_reader : trace false [7] [] (Monitor (Intq (Some 0%nat) None None (<[0%nat := 7]> (replicate 64 0)) 1 0) {[0%nat := Ready Get]}).
Proof.
  pose proof (trace_call false [] [] queue0 0 Get (trace_init _ (replicate 64 0) eq_refl) eq_refl (λ _, eq_refl)) as T1.
  pose proof (trace_wait false _ _ _ 0 _ T1 eq_refl) as T2. exact (trace_handler false _ _ _ (Put 7) None _ T2 eq_refl).
Qed.
Lemma intq_fifo_witness : [7] = [] ++ contents (queue (Monitor (Intq (Some 0%nat) None None (<[0%nat := 7]> (replicate 64 0)) 1 0) {[0%nat := Ready Get]})).
Proof. apply (intq_fifo false _ _ _ one_reader). Defined.
Lemma intq_one_thread_witness :
  ∃ r m', step 0 (Monitor (Intq (Some 0%nat) None None (<[0%nat := 7]> (replicate 64 0)) 1 0) {[0%nat := Ready Get]}) = Ret (r, m').
Proof. apply (intq_one_thread _ _ _ one_reader). Defined.
(** The first thread has been unblocked, the second waits for the lock. *)
Definition two_readers : monitor :=
  Monitor (Intq (Some 0%nat) None None (<[1%nat := 6]> (<[0%nat := 5]> (replicate 64 0))) 2 0)
    (<[0%nat := Ready Get]> (<[1%nat := LockWait Get]> {[0%nat := Blocked Get]})).
Lemma two_readers_trace : trace true [5; 6] [] two_readers.
Proof.
  assert (∀ q : gmap thread_id place, true = false → q = ∅) as Hm by done.
  pose proof (trace_call true [] [] queue0 0 Get (trace_init _ (replicate 64 0) eq_refl) eq_refl (Hm _)) as T1.
  pose proof (trace_wait true _ _ _ 0 _ T1 eq_refl) as T2. pose proof (trace_call true _ _ _ 1 Get T2 eq_refl (Hm _)) as T3.
  pose proof (trace_wait true _ _ _ 1 _ T3 eq_refl) as T4. pose proof (trace_handler true _ _ _ (Put 5) None _ T4 eq_refl) as T5.
  exact (trace_handler true _ _ _ (Put 6) None _ T5 eq_refl).
Qed.
(** Two threads that read from a queue can bring the system down: the second
    waits for the lock while the first waits for a byte; when two bytes arrive
    before the first thread runs, the second thread acquires the lock and asserts
    in [wait] that the queue is empty, although it tested that before it waited. *)
Theorem intq_two_readers : ∃ ps gs m, trace true ps gs m ∧ step 1 m = Panic.
Proof.
  destruct (step 0 two_readers) as [[[r|] m]| |] eqn:Hs; try (by vm_compute in Hs).
  exists ([5; 6] ++ []), ([] ++ option_list r), m. split.
  - eapply (trace_end true _ _ two_readers 0 (Ready Get)); [apply two_readers_trace|reflexivity|exact Hs].
  - vm_compute in Hs. injection Hs as <- <-. vm_compute. reflexivity.
Qed.
