(* ===== verification/Exec.v ===== *)
(** * userprog/process.c: the command line of a process

    [process_execute] takes the name it looks up from a command line, and
    [argument_passing] puts the words of the command line on the stack of the new
    process.  Both work on byte memory, where the stack, the command line and the
    kernel's buffers are.  Variables of the kernel's own stack frame are values;
    [memcpy] from such a variable stores its bytes.  [None] stands for a call of
    [exit (EXIT_FAIL)], which does not return. *)

From stdpp Require Import base numbers list gmap.
From S2P Require Import Prelude Bytes Memory CString.
Local Open Scope N_scope.

Definition STACK_LIMIT : Z := 4096.
Definition ARGC : nat := 16.
Definition FILE_NAME_LEN_LIMIT : N := 15.

(** The stack pointer and [bytes_used]. *)
Abbreviation stack := (addr * Z)%type.
Definition check_stack_overflow (st : stack) : M mem (option stack) :=
  if (STACK_LIMIT <? snd st)%Z then retM None else retM (Some st).
(** [PUSH_STACK], from memory and from a variable with the bytes [bs]. *)
Definition PUSH_STACK (st : stack) (from : addr) (size : N) : M mem (option stack) :=
  let esp := fst st - size in
  run memcpy esp from (N.to_nat size);
  check_stack_overflow (esp, i32 (snd st + Z.of_N size)).
Fixpoint store_bytes (p : addr) (bs : list Z) : M mem unit :=
  match bs with [] => retM tt | b :: bs => run store p b; store_bytes (p + 1) bs end.
Definition push_variable (st : stack) (bs : list Z) : M mem (option stack) :=
  let esp := fst st - N.of_nat (length bs) in
  run store_bytes esp bs;
  check_stack_overflow (esp, i32 (snd st + Z.of_nat (length bs))).
(** A variable of 32 bits. *)
Definition word_bytes (v : Z) : list Z := to_le 4 v.

(** The loop over the words; [argArr] has room for [ARGC] of them. *)
Fixpoint tokenize (fuel : nat) (s : option addr) (d save_ptr : addr) (argArr : list addr) : M mem (list addr) :=
  match fuel with
  | O => noFuel
  | S fuel =>
      do '(token, save_ptr) <- strtok_r s d save_ptr;
      match token with
      | None => retM argArr
      | Some token =>
          if (length argArr <? ARGC)%nat then tokenize fuel None d save_ptr (argArr ++ [token]) else panicM
      end
  end.
(** The loop that pushes the words, last one first; [addrArr] collects their
    places. *)
Fixpoint push_args (args : list addr) (st : stack) (addrArr : list addr) : M mem (option (stack * list addr)) :=
  match args with
  | [] => retM (Some (st, addrArr))
  | a :: args =>
      do len <- strlen a;
      may 'st <- PUSH_STACK st a (len + 1);
      push_args args st (fst st :: addrArr)
  end.
Fixpoint push_addrs (addrs : list addr) (st : stack) : M mem (option stack) :=
  match addrs with
  | [] => retM (Some st)
  | a :: addrs => may 'st <- push_variable st (word_bytes (Z.of_N a)); push_addrs addrs st
  end.
(** What is pushed once the words are known. *)
Definition push_all (argArr : list addr) (esp : addr) : M mem (option addr) :=
  may '(st, addrArr) <- push_args (rev argArr) (esp, 0%Z) [];
  let addr := fst st / 4 * 4 in
  let addr_diff := fst st - addr in
  may 'st <- push_variable st (take (N.to_nat addr_diff) (word_bytes 0));
  may 'st <- push_variable st (word_bytes 0);
  may 'st <- push_addrs (rev addrArr) st;
  let addr_argv := fst st in
  may 'st <- push_variable st (word_bytes (Z.of_N addr_argv));
  let st := (fst st - 4, snd st) in
  run store_bytes (fst st) (word_bytes (Z.of_nat (length argArr)));
  may 'st <- push_variable st (word_bytes 0);
  retM (Some (fst st)).
(** [s]: the array for the copy of the command line, which has [cmdLen] bytes
    although [strlcpy] may write [cmdLen + 1]: the copy writes the byte behind the
    array, in the kernel's stack frame; [d]: the string of the delimiter;
    [memory]: whether [malloc] returns memory for [current_file_name]. *)
Definition argument_passing (memory : bool) (s d esp file_name : addr) : M mem (option addr) :=
  run strlen file_name;
  if negb memory then retM None
  else
    do cmdLen <- strlen file_name;
    run strlcpy s file_name (cmdLen + 1);
    do argArr <- tokenize (S (N.to_nat cmdLen)) (Some s) d null [];
    push_all argArr esp.

(** The part of [process_execute] that finds the name under which it looks for
    the program and which it gives the new thread: [file_name_copy] and
    [command_name] are its arrays. *)
Definition command_name (file_name_copy command d file_name : addr) : M mem unit :=
  run strlcpy file_name_copy file_name FILE_NAME_LEN_LIMIT;
  do '(token, _) <- strtok_r (Some file_name_copy) d null;
  run strlcpy command (default null token) FILE_NAME_LEN_LIMIT;
  retM tt.
