(* ===== verification/ExecSpec.v ===== *)
(** * The stack of a new process

    What [argument_passing] leaves on the stack is what a C program's [main]
    expects: [argc], [argv], the array of pointers and the words they point to. *)

From stdpp Require Import base numbers list gmap.
From S2P Require Import Prelude Bytes Memory CString CStringSpec Exec.
Local Open Scope N_scope.

Lemma store_bytes_Ret p bs m : mapped m p (length bs) → store_bytes p bs m = Ret (tt, write_bytes p bs m).
Proof.
  revert p m. induction bs as [|b bs IH]; intros p m Hm; [done|]. apply mapped_S in Hm as [[x Hx] Hm]. cbn [store_bytes write_bytes].
  rewrite (bindM_Ret _ _ _ _ _ (store_Ret m p b ltac:(eauto))), IH by (by apply mapped_insert). rewrite write_bytes_insert by lia. done.
Qed.

(** ** A stack that grows down from [top] *)
Section stack.
  Context (m1 : mem) (top : addr) (room : nat).
  Hypothesis Htop : N.of_nat room < top.
  Hypothesis Hmap : mapped m1 (top - N.of_nat room) room.
  Hypothesis Hlim : (Z.of_nat room ≤ STACK_LIMIT)%Z.
(** The stack pointer and the memory when [bs] is on the stack. *)
Definition sp (bs : list Z) : addr := top - N.of_nat (length bs).
Definition img (bs : list Z) : mem := write_bytes (sp bs) bs m1.
Lemma img_app new bs : (length (new ++ bs) ≤ room)%nat → img (new ++ bs) = write_bytes (sp (new ++ bs)) new (img bs).
Proof.
  intros Hl. unfold img. rewrite write_bytes_app. do 2 f_equal. unfold sp. rewrite length_app in *. lia.
Qed.
Lemma img_mapped bs new : (length (new ++ bs) ≤ room)%nat → mapped (img bs) (sp (new ++ bs)) (length new).
Proof.
  intros Hl i Hi. unfold img. rewrite lookup_write_bytes. unfold sp in *. rewrite length_app in *. rewrite decide_False by lia.
  specialize (Hmap (room - length new - length bs + i)%nat ltac:(lia)).
  replace (top - N.of_nat (length new + length bs) + N.of_nat i) with (top - N.of_nat room + N.of_nat (room - length new - length bs + i)) by lia.
  done.
Qed.
Lemma img_above new bs a : (length (new ++ bs) ≤ room)%nat → sp bs ≤ a → img (new ++ bs) !! a = img bs !! a.
Proof. intros Hl Ha. rewrite img_app by done. apply write_bytes_out. unfold sp in *. rewrite length_app in *. lia. Qed.
Lemma img_outside bs a : (length bs ≤ room)%nat → outside (top - N.of_nat room) room a → img bs !! a = m1 !! a.
Proof. intros Hl Ha. apply write_bytes_out. unfold sp, outside in *. lia. Qed.
Lemma sp_app new bs : sp (new ++ bs) = sp bs - N.of_nat (length new).
Proof. clear. unfold sp. rewrite length_app. lia. Qed.
Lemma check_Ret (st : stack) m : (snd st ≤ STACK_LIMIT)%Z → check_stack_overflow st m = Ret (Some st, m).
Proof. intros H. unfold check_stack_overflow. rewrite (proj2 (Z.ltb_ge _ _)) by lia. done. Qed.

(** The bytes counted are at most those on the stack. *)
Definition counted (used : Z) (bs : list Z) : Prop := (0 ≤ used ≤ Z.of_nat (length bs))%Z.
Lemma push_variable_Ret used bs new :
  (length (new ++ bs) ≤ room)%nat → counted used bs →
  ∃ used', push_variable (sp bs, used) new (img bs) = Ret (Some (sp (new ++ bs), used'), img (new ++ bs)) ∧ counted used' (new ++ bs).
Proof.
  intros Hl Hu. unfold push_variable. cbn [fst snd]. rewrite <-sp_app.
  rewrite (bindM_Ret _ _ _ _ _ (store_bytes_Ret _ _ _ (img_mapped bs new Hl))), <-img_app by done.
  exists (i32 (used + Z.of_nat (length new))). unfold counted, STACK_LIMIT in *. rewrite length_app in *. rewrite i32_small by lia.
  split; [|lia]. apply check_Ret. cbn [snd]. unfold STACK_LIMIT. lia.
Qed.
Lemma push_bind {A} used bs new :
  (length new + length bs ≤ room)%nat → counted used bs →
  ∃ used', (∀ f : stack → M mem (option A), bindE (push_variable (sp bs, used) new) f (img bs) = f (sp (new ++ bs), used') (img (new ++ bs))) ∧
    counted used' (new ++ bs).
Proof.
  intros Hl Hu. destruct (push_variable_Ret used bs new) as (u' & E & Hu'); [by rewrite length_app|done|].
  exists u'. split; [|done]. intros f. unfold bindE. by rewrite (bindM_Ret _ _ _ _ _ E).
Qed.
(** The [n] bytes at [p] are not on the stack. *)
Definition off_stack (p : addr) (n : nat) : Prop := p + N.of_nat n ≤ top - N.of_nat room ∨ top ≤ p.
Lemma off_stack_img bs p n a :
  off_stack p n → (length bs ≤ room)%nat → p ≤ a < p + N.of_nat n → img bs !! a = m1 !! a.
Proof. intros Ho Hl Ha. apply img_outside; [done|]. unfold off_stack, outside in *. lia. Qed.
Lemma push_stack_Ret used bs from new :
  (length (new ++ bs) ≤ room)%nat → counted used bs → bytes_at m1 from new → from ≠ null → off_stack from (length new) →
  ∃ used', PUSH_STACK (sp bs, used) from (N.of_nat (length new)) (img bs) = Ret (Some (sp (new ++ bs), used'), img (new ++ bs)) ∧
    counted used' (new ++ bs).
Proof.
  intros Hl Hu Hb Hf Hout. unfold PUSH_STACK. cbn [fst snd]. rewrite <-sp_app, Nat2N.id.
  assert (bytes_at (img bs) from new) as Hb'.
  { eapply bytes_at_ext; [|exact Hb]. intros a Ha. eapply off_stack_img; [done|rewrite length_app in Hl; lia|done]. }
  rewrite (bindM_Ret _ _ _ (sp (new ++ bs)) (img (new ++ bs))).
  - exists (i32 (used + Z.of_nat (length new))). unfold counted, STACK_LIMIT in *. rewrite nat_N_Z. rewrite length_app in *.
    rewrite i32_small by lia. split; [|lia]. apply check_Ret. cbn [snd]. unfold STACK_LIMIT. lia.
  - rewrite img_app by done. apply memcpy_Ret; [done|by apply img_mapped|left; split; [unfold sp, null in *; rewrite length_app in *; lia|done]|].
    unfold sp, off_stack in *. rewrite length_app in *. lia.
Qed.

(** ** The words *)
(** The word [w] is on the stack, at [p]. *)
Definition placed (bs : list Z) (p : addr) (w : list Z) : Prop :=
  sp bs ≤ p ∧ cstr (img bs) p w.
Lemma placed_push new bs p w : (length (new ++ bs) ≤ room)%nat → placed bs p w → placed (new ++ bs) p w.
Proof.
  intros Hl [Hp Hc]. split; [rewrite sp_app; lia|]. eapply cstr_ext; [|exact Hc]. intros a Ha. apply img_above; [done|lia].
Qed.
Definition text (ws : list (list Z)) : nat := sum_list_with (λ w, S (length w)) ws.
Lemma push_args_Ret args ws used bs addrs old :
  Forall2 (cstr m1) args ws → Forall2 (λ a w, a ≠ null ∧ off_stack a (S (length w))) args ws →
  (text ws + length bs ≤ room)%nat → counted used bs → Forall2 (placed bs) addrs old →
  ∃ used' new addrs', push_args args (sp bs, used) addrs (img bs) = Ret (Some ((sp (new ++ bs), used'), addrs'), img (new ++ bs)) ∧
    counted used' (new ++ bs) ∧ length new = text ws ∧ Forall2 (placed (new ++ bs)) addrs' (rev ws ++ old).
Proof.
  intros Hc Ho. revert used bs addrs old. induction Hc as [|a w args ws Ha Hc IH]; intros used bs addrs old Hr Hu Hd; cbn [push_args].
  { exists used, [], addrs. by rewrite app_nil_l. }
  inversion_clear Ho as [|? ? ? ? [Ha0 Hao] Ho']. unfold text in Hr. cbn [sum_list_with] in Hr. fold (text ws) in Hr.
  assert (cstr (img bs) a w) as Ha'.
  { eapply cstr_ext; [|exact Ha]. intros y Hy. eapply off_stack_img; [exact Hao|lia|lia]. }
  rewrite (bindM_Ret _ _ _ _ _ (strlen_Ret _ _ _ Ha' Ha0)). set (nw := w ++ [0%Z]).
  assert (length nw = S (length w)) as Hnw by (unfold nw; rewrite length_app; simpl; lia).
  assert ((length (nw ++ bs) ≤ room)%nat) as Hl by (rewrite length_app; lia).
  destruct (push_stack_Ret used bs a nw Hl Hu (proj1 Ha) Ha0) as (u1 & E1 & Hu1); [by rewrite Hnw|].
  replace (N.of_nat (length w) + 1) with (N.of_nat (length nw)) by lia. unfold bindE. rewrite (bindM_Ret _ _ _ _ _ E1). cbn [fst].
  destruct (IH Ho' u1 (nw ++ bs) (sp (nw ++ bs) :: addrs) (w :: old)) as (u2 & new & addrs' & E2 & Hu2 & Hn & Hp).
  - rewrite length_app. lia.
  - done.
  - constructor; [|eapply Forall2_impl; [exact Hd|]; intros; by apply placed_push].
    split; [lia|]. split; [|apply Ha]. rewrite img_app by done. apply write_bytes_at.
  - rewrite app_assoc in E2, Hu2, Hp. exists u2, (new ++ nw), addrs'. split; [done|]. split; [done|]. split; [|cbn [rev]; rewrite <-(app_assoc (rev ws)); exact Hp].
    rewrite length_app, Hn, Hnw. unfold text. cbn [sum_list_with]. lia.
Qed.
Lemma push_addrs_Ret addrs used bs :
  (4 * length addrs + length bs ≤ room)%nat → counted used bs →
  ∃ used' , push_addrs addrs (sp bs, used) (img bs) =
      Ret (Some (sp (concat (word_bytes ∘ Z.of_N <$> rev addrs) ++ bs), used'), img (concat (word_bytes ∘ Z.of_N <$> rev addrs) ++ bs)) ∧
    counted used' (concat (word_bytes ∘ Z.of_N <$> rev addrs) ++ bs).
Proof.
  revert used bs. induction addrs as [|a addrs IH]; intros used bs Hr Hu; [by exists used|]. cbn [push_addrs length] in *.
  set (nw := word_bytes (Z.of_N a)). assert (length nw = 4%nat) as Hn by apply to_le_length.
  destruct (push_variable_Ret used bs nw) as (u1 & E1 & Hu1); [rewrite length_app; lia|done|]. unfold bindE. rewrite (bindM_Ret _ _ _ _ _ E1).
  destruct (IH u1 (nw ++ bs)) as (u2 & E2 & Hu2); [rewrite length_app; lia|done|]. exists u2. rewrite app_assoc in E2, Hu2.
  cbn [rev]. rewrite fmap_app, concat_app. cbn [fmap list_fmap concat]. rewrite app_nil_r. split; [exact E2|exact Hu2].
Qed.

(** ** The whole stack *)
(** A 32-bit word of memory. *)
Definition word_at (m : mem) (p : addr) (v : Z) : Prop := bytes_at m p (word_bytes v).
End stack.
Lemma word_bytes_length v : length (word_bytes v) = 4%nat.
Proof. apply to_le_length. Qed.
Lemma concat_words_length (addrs : list addr) : length (concat (word_bytes ∘ Z.of_N <$> addrs)) = (4 * length addrs)%nat.
Proof. induction addrs as [|a addrs IH]; [done|]. cbn [fmap list_fmap concat length]. rewrite length_app, IH. unfold compose. rewrite word_bytes_length. lia. Qed.
Lemma bytes_at_concat m p (addrs : list addr) i a :
  bytes_at m p (concat (word_bytes ∘ Z.of_N <$> addrs)) → addrs !! i = Some a → word_at m (p + 4 * N.of_nat i) (Z.of_N a).
Proof.
  revert p i. induction addrs as [|x addrs IH]; intros p i; [done|]. cbn [fmap list_fmap concat]. rewrite bytes_at_app. intros [Hx Hr].
  destruct i as [|i]; cbn [lookup list_lookup].
  - intros [= <-]. by rewrite N.mul_0_r, N.add_0_r.
  - intros Ha. specialize (IH _ _ Hr Ha). unfold compose in IH. rewrite word_bytes_length in IH.
    by replace (p + 4 * N.of_nat (S i)) with (p + N.of_nat 4 + 4 * N.of_nat i) by lia.
Qed.
Lemma Forall2_rev {A B} (P : A → B → Prop) l k : Forall2 P l k → Forall2 P (rev l) (rev k).
Proof. intros H. rewrite !rev_alt. by apply Forall2_reverse. Qed.
Lemma text_rev ws : text (rev ws) = text ws.
Proof. unfold text. by rewrite <-Permutation_rev. Qed.
Definition pad (n : N) : list Z := take (N.to_nat n) (word_bytes 0).
Lemma pad_length n : n < 4 → length (pad n) = N.to_nat n.
Proof. intros Hn. unfold pad. rewrite length_take, word_bytes_length. lia. Qed.
Section layout.
  Context (m1 : mem) (top : addr) (room : nat) (argArr : list addr) (ws : list (list Z)).
  Hypothesis Htop : N.of_nat room < top.
  Hypothesis Hmap : mapped m1 (top - N.of_nat room) room.
  Hypothesis Hlim : (Z.of_nat room ≤ STACK_LIMIT)%Z.
  Hypothesis Hargs : Forall2 (cstr m1) argArr ws.
  Hypothesis Hoff : Forall2 (λ a w, a ≠ null ∧ off_stack top room a (S (length w))) argArr ws.
  Hypothesis Hroom : (text ws + 4 * length ws + 19 ≤ room)%nat.
(** What is on the stack, from the stack pointer up. *)
Definition frame_bytes (addrs : list addr) (strs : list Z) : list Z :=
  let pd := pad (sp top strs `mod` 4) in
  let ptrs := concat (word_bytes ∘ Z.of_N <$> addrs) ++ word_bytes 0 ++ pd ++ strs in
  word_bytes 0 ++ word_bytes (Z.of_nat (length ws)) ++ word_bytes (Z.of_N (sp top ptrs)) ++ ptrs.
Lemma frame_bytes_length addrs strs : length (frame_bytes addrs strs) = (16 + 4 * length addrs + N.to_nat (sp top strs `mod` 4) + length strs)%nat.
Proof.
  unfold frame_bytes. rewrite !length_app, !word_bytes_length, concat_words_length, pad_length; [lia|]. apply N.mod_lt. lia.
Qed.
Lemma push_all_Ret :
  ∃ addrs strs, push_all argArr top m1 = Ret (Some (sp top (frame_bytes addrs strs)), img m1 top (frame_bytes addrs strs)) ∧
    (length (frame_bytes addrs strs) ≤ room)%nat ∧ Forall2 (placed m1 top strs) addrs ws.
Proof.
  unfold push_all. assert (length argArr = length ws) as Hlen by (by eapply Forall2_length).
  destruct (push_args_Ret m1 top room Htop Hmap Hlim (rev argArr) (rev ws) 0 [] [] []) as (u1 & strs & addrs & E1 & Hu1 & Hn & Hpl).
  { by apply Forall2_rev. }
  { by apply (Forall2_rev (λ a w, a ≠ null ∧ off_stack top room a (S (length w)))). }
  { rewrite text_rev. simpl. lia. }
  { done. }
  { constructor. }
  rewrite !app_nil_r in *. rewrite rev_involutive, text_rev in *.
  assert (sp top [] = top) as Hsp by (unfold sp; simpl; lia). assert (img m1 top [] = m1) as Him by done. rewrite Hsp, Him in E1.
  assert (length addrs = length ws) as Hla by (by eapply Forall2_length). unfold bindE at 1. rewrite (bindM_Ret _ _ _ _ _ E1). cbn [fst snd].
  replace (sp top strs - sp top strs / 4 * 4) with (sp top strs `mod` 4) by (rewrite N.Div0.mod_eq; lia).
  fold (pad (sp top strs `mod` 4)). pose proof (N.mod_lt (sp top strs) 4 ltac:(done)) as Hm4.
  pose proof (pad_length _ Hm4) as Hpd. set (pd := pad _) in *.
  pose proof word_bytes_length as Hw. pose proof (concat_words_length addrs) as Hcw.
  destruct (push_bind (A := addr) m1 top room Htop Hmap Hlim u1 strs pd) as (u2 & E2 & Hu2); [lia|done|]. rewrite E2.
  destruct (push_bind (A := addr) m1 top room Htop Hmap Hlim u2 (pd ++ strs) (word_bytes 0)) as (u3 & E3 & Hu3); [rewrite ?length_app, Hw; lia|done|]. rewrite E3.
  destruct (push_addrs_Ret m1 top room Htop Hmap Hlim (rev addrs) u3 (word_bytes 0 ++ pd ++ strs)) as (u4 & E4 & Hu4);
    [rewrite length_rev, !length_app, Hw; lia|done|].
  rewrite rev_involutive in *. unfold bindE at 1. rewrite (bindM_Ret _ _ _ _ _ E4). cbn [fst snd]. set (b4 := concat _ ++ _) in *.
  assert ((length b4 ≤ text ws + 4 * length ws + 7)%nat) as Hb4 by (unfold b4; rewrite !length_app, Hcw, Hw; lia).
  destruct (push_bind (A := addr) m1 top room Htop Hmap Hlim u4 b4 (word_bytes (Z.of_N (sp top b4)))) as (u5 & E5 & Hu5); [rewrite Hw; lia|done|].
  rewrite E5.   cbn [fst snd]. set (b5 := word_bytes _ ++ b4) in *. set (b6 := word_bytes (Z.of_nat (length argArr)) ++ b5).
  assert (length b5 = 4 + length b4 ∧ length b6 = 8 + length b4)%nat as [Hb5 Hb6] by (unfold b6, b5; rewrite !length_app, !Hw; lia).
  replace (sp top b5 - 4) with (sp top b6) by (unfold b6; rewrite sp_app, Hw; lia).
  rewrite (bindM_Ret _ _ _ tt (img m1 top b6)).
  2: { unfold b6 at 2. rewrite (img_app m1 top room) by (fold b6; lia). apply store_bytes_Ret. eapply img_mapped; [done|done|fold b6; lia]. }
  destruct (push_bind (A := addr) m1 top room Htop Hmap Hlim u5 b6 (word_bytes 0)) as (u6 & E6 & _);
    [rewrite Hw; lia|unfold counted in *; lia|]. rewrite E6. exists addrs, strs.
  replace (frame_bytes addrs strs) with (word_bytes 0 ++ b6) by (unfold b6, b5; by rewrite Hlen).
  split; [done|]. split; [rewrite length_app, Hw; lia|done].
Qed.
(** What [main] finds at its stack pointer. *)
Definition main_frame (m : mem) (esp : addr) : Prop :=
  esp `mod` 4 = 0 ∧ word_at m esp 0 ∧ word_at m (esp + 4) (Z.of_nat (length ws)) ∧ word_at m (esp + 8) (Z.of_N (esp + 12)) ∧
  word_at m (esp + 12 + 4 * N.of_nat (length ws)) 0 ∧
  ∀ i w, ws !! i = Some w → ∃ p, word_at m (esp + 12 + 4 * N.of_nat i) (Z.of_N p) ∧ esp < p ∧ cstr m p w.
Lemma frame_bytes_main addrs strs :
  (length (frame_bytes addrs strs) ≤ room)%nat → Forall2 (placed m1 top strs) addrs ws →
  main_frame (img m1 top (frame_bytes addrs strs)) (sp top (frame_bytes addrs strs)).
Proof.
  intros Hl Hpl. pose proof (Forall2_length _ _ _ Hpl) as Hla. pose proof (frame_bytes_length addrs strs) as Hlen.
  set (fb := frame_bytes addrs strs) in *. pose proof (N.mod_lt (sp top strs) 4 ltac:(done)) as Hm4.
  assert (sp top fb = 4 * (sp top strs / 4 - N.of_nat (4 + length ws))) as Hesp.
  { pose proof (N.Div0.mod_eq (sp top strs) 4) as Hdm. clear Hm4. generalize dependent (sp top strs `mod` 4). intros r Hlen Hdm.
    transitivity (top - N.of_nat (length fb)); [done|]. rewrite Hlen. pose proof (N.Div0.mul_div_le (sp top strs) 4). unfold sp in *. lia. }
  pose proof (write_bytes_at (sp top fb) fb m1) as Hb. change (write_bytes (sp top fb) fb m1) with (img m1 top fb) in Hb.
  set (esp := sp top fb) in *. set (m := img m1 top fb) in *. unfold fb, frame_bytes in Hb. rewrite !bytes_at_app, !word_bytes_length, concat_words_length in Hb.
  destruct Hb as (H0 & H1 & H2 & H3 & H4 & _). change (N.of_nat 4) with 4 in *.
  replace (esp + 4 + 4) with (esp + 8) in * by lia. replace (esp + 8 + 4) with (esp + 12) in * by lia.
  split; [|split; [done|split; [done|split; [|split]]]].
  - rewrite Hesp, N.mul_comm. apply N.Div0.mod_mul.
  - unfold word_at. set (ptrs := concat _ ++ _) in H2. assert (length fb = 12 + length ptrs)%nat as Hfp
      by (unfold fb, frame_bytes; fold ptrs; rewrite 3!length_app, !word_bytes_length; lia).
    replace (esp + 12) with (sp top ptrs); [done|]. unfold esp, sp. lia.
  - unfold word_at. by replace (4 * N.of_nat (length ws)) with (N.of_nat (4 * length addrs)) by lia.
  - intros i w Hi. destruct (Forall2_lookup_r _ _ _ _ _ Hpl Hi) as (p & Hp & [Hsp Hc]). exists p. split; [by eapply bytes_at_concat|].
    assert (∃ new, fb = new ++ strs) as [new Hfb] by (eexists; unfold fb, frame_bytes; rewrite !app_assoc; reflexivity).
    assert (length strs < length fb)%nat as Hlt by (rewrite Hlen; generalize (N.to_nat (sp top strs `mod` 4)); clear; lia). split; [clear -Hsp Hlt Hl Htop; unfold esp, sp in *; lia|]. unfold m. rewrite Hfb in Hl |- *. by eapply placed_push.
Qed.
End layout.

(** ** Properties *)
Lemma tokenize_Ret n o d save arr m ts m' :
  strtok_all n o d save m = Ret (ts, m') → (length arr + length ts ≤ ARGC)%nat → tokenize n o d save arr m = Ret (arr ++ ts, m').
Proof.
  revert o save arr m ts. induction n as [|n IH]; intros o save arr m ts; [done|]. cbn [strtok_all tokenize].
  intros ([t sv] & m1 & E & H)%bindM_inv Hl. rewrite (bindM_Ret _ _ _ _ _ E). destruct t as [t|].
  - apply bindM_inv in H as (ts' & m2 & E2 & [= <- <-]). cbn [length] in Hl. rewrite (proj2 (Nat.ltb_lt _ _)) by lia.
    rewrite (IH _ _ _ _ _ E2) by (rewrite length_app; simpl; lia). by rewrite <-app_assoc.
  - injection H as <- <-. by rewrite app_nil_r.
Qed.
(** C34. The stack of a new process: for a command line of at most [ARGC] words
    that fit the page of the stack, and when [malloc] succeeds, [argument_passing]
    returns and the aligned stack pointer it returns is at a null return address,
    followed by [argc] and [argv], where [argv] points to the addresses of the
    words and a null pointer.  The array [s] has as many bytes as the command line
    has characters, so that the terminator of the copy overflows it: the byte
    behind the array, whatever it held, is 0 afterwards.  No other memory but the
    stack and the array changes. *)
Theorem argument_passing_stack m s d top fn cmd room :
  let ws := words [32%Z] cmd in
  cstr m fn cmd → bytes cmd → cstr m d [32%Z] → fn ≠ null → s ≠ null → d ≠ null →
  (length ws ≤ ARGC)%nat → (text ws + 4 * length ws + 19 ≤ room)%nat → (Z.of_nat room ≤ STACK_LIMIT)%Z →
  N.of_nat room < top → mapped m (top - N.of_nat room) room →
  mapped m s (length cmd) → is_Some (m !! (s + N.of_nat (length cmd))) →
  s + N.of_nat (S (length cmd)) ≤ fn ∨ fn + N.of_nat (length cmd) < s →
  s + N.of_nat (S (length cmd)) ≤ d ∨ d + 1 < s →
  off_stack top room s (S (length cmd)) →
  ∃ esp m', argument_passing true s d top fn m = Ret (Some esp, m') ∧ main_frame ws m' esp ∧
    top - N.of_nat room ≤ esp ∧ m' !! (s + N.of_nat (length cmd)) = Some 0%Z ∧
    ∀ a, outside (top - N.of_nat room) room a → outside s (length cmd) a → a ≠ s + N.of_nat (length cmd) → m' !! a = m !! a.
Proof.
  intros ws Hfn Hb Hd Hfn0 Hs0 Hd0 Hargc Hroom Hlim Htop Hmap Hms' Hx Hsf Hsd Hoff. unfold argument_passing. cbn [negb].
  assert (mapped m s (S (length cmd))) as Hms.
  { intros i Hi. destruct (decide (i = length cmd)) as [->|]; [done|apply Hms'; lia]. }
  pose proof (strlen_Ret m fn cmd Hfn Hfn0) as El. rewrite (bindM_Ret _ _ _ _ _ El), (bindM_Ret _ _ _ _ _ El).
  destruct (strlcpy_bounded m s fn (N.of_nat (length cmd) + 1) cmd) as (m1 & E1 & Hc1 & Hfr1); try done; try lia.
  { by replace (N.to_nat (N.of_nat (length cmd) + 1)) with (S (length cmd)) by lia. }
  rewrite (bindM_Ret _ _ _ _ _ E1). replace (N.to_nat (N.of_nat (length cmd) + 1)) with (S (length cmd)) in * by lia.
  unfold truncated in Hc1. rewrite take_ge in Hc1 by lia. rewrite Nat2N.id.
  destruct (strtok_all_Ret d [32%Z] Hd0 (S (length cmd)) (Some s) null s m1 cmd) as (ts & m2 & E2 & Hts & Hfr2); try done; try lia.
  { eapply cstr_ext; [|exact Hd]. intros a Ha. apply Hfr1. unfold outside. simpl in Ha. lia. }
  { intros a Ha. unfold outside. simpl in Ha. lia. }
  fold ws in Hts. pose proof (Forall2_length _ _ _ Hts) as Hlts.
  rewrite (bindM_Ret _ _ _ _ _ (tokenize_Ret _ _ _ _ [] _ _ _ E2 ltac:(rewrite Hlts; exact Hargc))).
  rewrite app_nil_l. destruct (push_all_Ret m2 top room ts ws) as (addrs & strs & E3 & Hl & Hpl).
  - done.
  - intros i Hi. rewrite Hfr2, Hfr1; [by apply Hmap|unfold outside, off_stack in *; lia..].
  - done.
  - eapply Forall2_impl; [exact Hts|]. by intros t w [? _].
  - eapply Forall2_impl; [exact Hts|]. intros t w (_ & ? & ?). unfold null, off_stack in *. lia.
  - done.
  - eexists _, _. split; [exact E3|]. split; [by eapply frame_bytes_main|]. split; [unfold sp; lia|]. split.
    + rewrite (img_outside m2 top room) by (done || (unfold outside, off_stack in *; lia)).
      rewrite Hfr2 by (unfold outside; lia). destruct Hc1 as [Hc1 _]. apply bytes_at_app in Hc1 as [_ Hc1].
      specialize (Hc1 0%nat 0%Z eq_refl). by rewrite N.add_0_r in Hc1.
    + intros a Ha1 Ha2 Ha3. rewrite (img_outside m2 top room) by done.
      rewrite Hfr2, Hfr1; [done|unfold outside in *; lia..].
Qed.
Definition exec_mem : mem :=
  write_bytes 50 [32; 0]%Z (write_bytes 100 [108; 115; 32; 45; 108; 0]%Z
    (write_bytes 200 (replicate 6 7%Z) (write_bytes 1000 (replicate 64 0%Z) ∅))).
Lemma argument_passing_stack_witness :
  ∃ esp m', argument_passing true 200 50 1064 100 exec_mem = Ret (Some esp, m') ∧
    main_frame [[108; 115]; [45; 108]]%Z m' esp ∧ 1000 ≤ esp ∧ m' !! 205 = Some 0%Z ∧
    ∀ a, outside 1000 64 a → outside 200 5 a → a ≠ 205 → m' !! a = exec_mem !! a.
Proof.
  apply (argument_passing_stack exec_mem 200 50 1064 100 [108; 115; 32; 45; 108]%Z 64).
  - rewrite !cstr_cons, cstr_nil. repeat split; done.
  - repeat constructor; done.
  - rewrite !cstr_cons, cstr_nil. repeat split; done.
  - done.
  - done.
  - done.
  - vm_compute. lia.
  - vm_compute. lia.
  - done.
  - done.
  - intros i Hi. change (1064 - N.of_nat 64) with 1000. unfold exec_mem. rewrite !lookup_write_bytes. rewrite !(decide_False (P := _ ≤ 1000 + N.of_nat i < _)) by (simpl; lia).
    rewrite decide_True by (rewrite length_replicate; lia). apply lookup_lt_is_Some. rewrite length_replicate. lia.
  - intros i Hi. simpl in Hi. unfold exec_mem. rewrite !lookup_write_bytes. rewrite 2!(decide_False (P := _ ≤ 200 + N.of_nat i < _)) by (simpl; lia).
    rewrite decide_True by (simpl; lia). apply lookup_lt_is_Some. simpl. lia.
  - vm_compute. eauto.
  - right. done.
  - right. done.
  - left. done.
Defined.

(** C35. The name that [process_execute] looks up before it creates a thread, and
    gives the thread, is the first word of the first 14 characters of the command
    line.  (What [start_process] loads is the first word of the whole line.)  When
    these characters have no word, as for the empty line, the kernel stops: a user
    program that calls [exec] with such a line brings the system down. *)
Theorem command_name_first_word m copy command d fn cmd :
  let line := take 14 cmd in
  cstr m fn cmd → bytes cmd → cstr m d [32%Z] → fn ≠ null → copy ≠ null → d ≠ null → command ≠ null →
  mapped m copy 15 → mapped m command 15 →
  copy + 15 ≤ fn ∨ fn + N.of_nat (length cmd) < copy → copy + 15 ≤ d ∨ d + 1 < copy → command + 15 ≤ copy ∨ copy + 15 ≤ command →
  match words [32%Z] line with
  | w :: _ => ∃ m', command_name copy command d fn m = Ret (tt, m') ∧ cstr m' command w
  | [] => command_name copy command d fn m = Panic
  end.
Proof.
  intros line Hfn Hb Hd Hfn0 Hc0 Hd0 Hcm0 Hmc Hmm Hcf Hcd Hcc. unfold command_name.
  destruct (strlcpy_bounded m copy fn FILE_NAME_LEN_LIMIT cmd) as (m1 & E1 & Hc1 & Hfr1); try done.
  rewrite (bindM_Ret _ _ _ _ _ E1). change (truncated FILE_NAME_LEN_LIMIT cmd) with line in Hc1. change (N.to_nat FILE_NAME_LEN_LIMIT) with 15%nat in Hfr1.
  assert (length line ≤ 14)%nat as Hll by (unfold line; rewrite length_take; lia).
  destruct (strtok_r_step d [32%Z] Hd0 (Some copy) null copy m1 line) as
    [(sv & E & Hw)|(q & sv & m2 & tok & s' & E & Hw & Ht & _ & _ & _ & _ & _ & [Hq1 Hq2] & _ & Hfr2)]; try done.
  { eapply cstr_ext; [|exact Hd]. intros a Ha. apply Hfr1. unfold outside. simpl in Ha. lia. }
  { unfold bytes, line. by apply Forall_take. }
  { rewrite Hw, (bindM_Ret _ _ _ _ _ E). cbn [default]. unfold strlcpy at 1, bindM at 1 2. rewrite (assert_ptr_Ret m1 command Hcm0). done. }
  rewrite Hw, (bindM_Ret _ _ _ _ _ E). cbn [default].
  destruct (strlcpy_bounded m2 command q FILE_NAME_LEN_LIMIT tok) as (m3 & E3 & Hc3 & _); try done.
  - unfold null in *. lia.
  - change (N.to_nat FILE_NAME_LEN_LIMIT) with 15%nat. intros i Hi. rewrite Hfr2, Hfr1; [by apply Hmm|unfold outside; lia..].
  - unfold FILE_NAME_LEN_LIMIT. lia.
  - rewrite (bindM_Ret _ _ _ _ _ E3). exists m3. split; [done|]. unfold truncated in Hc3. rewrite take_ge in Hc3; [done|].
    change (N.to_nat (FILE_NAME_LEN_LIMIT - 1)) with 14%nat. lia.
Qed.
Definition name_mem (line : list Z) : mem :=
  write_bytes 50 [32; 0]%Z (write_bytes 100 line (write_bytes 200 (replicate 30 0%Z) ∅)).
Lemma name_mem_mapped line p : length line = 4%nat → p = 200 ∨ p = 215 → mapped (name_mem line) p 15.
Proof.
  intros Hl Hp i Hi. unfold name_mem. rewrite !lookup_write_bytes. rewrite 2!(decide_False (P := _ ≤ p + N.of_nat i < _)) by (simpl; lia).
  rewrite decide_True by (rewrite length_replicate; lia). apply lookup_lt_is_Some. rewrite length_replicate. lia.
Qed.
Lemma command_name_first_word_witness :
  (∃ m', command_name 200 215 50 100 (name_mem [108; 32; 99; 0]%Z) = Ret (tt, m') ∧ cstr m' 215 [108]%Z) ∧
  command_name 200 215 50 100 (name_mem [32; 32; 32; 0]%Z) = Panic.
Proof.
  split.
  - apply (command_name_first_word (name_mem [108; 32; 99; 0]%Z) 200 215 50 100 [108; 32; 99]%Z); try done;
      rewrite ?cstr_cons, ?cstr_nil; try (by repeat split); try (apply name_mem_mapped; [done|lia]); try (simpl; lia). repeat constructor; done.
  - apply (command_name_first_word (name_mem [32; 32; 32; 0]%Z) 200 215 50 100 [32; 32; 32]%Z); try done;
      rewrite ?cstr_cons, ?cstr_nil; try (by repeat split); try (apply name_mem_mapped; [done|lia]); try (simpl; lia). repeat constructor; done.
Defined.
