(* ===== verification/Swap.v ===== *)
(** * vm/swap.c: pages on the swap device

    The interface between the swap code and the block layer is the class
    [Storage]: sectors that can be read and written.  The block device of
    devices/block.c implements it in SwapSpec.  Pages are passed as their 4096
    bytes.  The locks of swap.c are left out: calls run one at a time. *)

From stdpp Require Import base numbers list gmap.
From S2P Require Import Prelude Bytes Bitmap.
Local Open Scope Z_scope.

(** ** The interface of a device *)
Class Storage (D : Type) := {
  st_size : D → outcome Z;                        (* [block_size] *)
  st_read : Z → M D (list Z);                     (* [block_read] *)
  st_write : Z → list Z → M D unit }.             (* [block_write] *)
(** What the device promises: [st_ok] holds and keeps holding, and sectors
    below [st_cap] behave as an array; an access past them panics. *)
Class StorageLaws (D : Type) `{Storage D} := {
  st_ok : D → Prop;
  st_cap : D → Z;
  st_sector : D → Z → option (list Z);
  st_cap_size d : st_ok d → st_size d = Ret (st_cap d) ∧ 0 ≤ st_cap d < 2 ^ 32;
  st_read_Ret d s : st_ok d → 0 ≤ s < st_cap d →
    ∃ bs d', st_sector d s = Some bs ∧ st_read s d = Ret (bs, d') ∧ st_ok d' ∧ st_cap d' = st_cap d ∧
      ∀ s', 0 ≤ s' < st_cap d → st_sector d' s' = st_sector d s';
  st_write_Ret d s bs : st_ok d → 0 ≤ s < st_cap d →
    ∃ d', st_write s bs d = Ret (tt, d') ∧ st_ok d' ∧ st_cap d' = st_cap d ∧
      ∀ s', 0 ≤ s' < st_cap d → st_sector d' s' = if decide (s' = s) then Some bs else st_sector d s';
  st_write_Panic d s bs : st_ok d → st_cap d ≤ s → st_write s bs d = Panic }.

(** ** swap.c *)
(** [PGSIZE / BLOCK_SECTOR_SIZE]. *)
Definition SECTOR_COUNT : Z := 4096 / 512.
Record swap_entry := SwapEntry { uspage : Z; t_blongs_to : Z; blockSector : Z }.
#[global] Instance swap_entry_eq_dec : EqDecision swap_entry.
Proof. solve_decision. Defined.
Record swap (D : Type) := Swap { dev : D; bmap : bitmap; swap_table : list swap_entry }.
Arguments Swap {D} dev bmap swap_table.
Arguments dev {D}.
Arguments bmap {D}.
Arguments swap_table {D}.

Section swap.
  Context {D : Type} {St : Storage D}.
Definition on_dev {A} (f : M D A) : M (swap D) A := λ w,
  match f (dev w) with
  | Ret (a, d) => Ret (a, Swap d (bmap w) (swap_table w))
  | Panic => Panic
  | NoFuel => NoFuel
  end.
Definition set_bmap (b : bitmap) : M (swap D) unit := modifyM (λ w, Swap (dev w) b (swap_table w)).
Definition set_swap_table (l : list swap_entry) : M (swap D) unit := modifyM (λ w, Swap (dev w) (bmap w) l).
(** [header], [array] and [junk]: the allocations of [bitmap_create]; without
    memory, [bitmap_set_all] follows a null pointer. *)
Definition init_swap_block (header array : bool) (junk : list Z) : M (swap D) unit :=
  do w <- getM;
  do sz <- liftO (st_size (dev w));
  do b <- liftO (bitmap_create header array junk (u32 (sz * 4)));
  match b with
  | None => panicM
  | Some b => do b <- liftO (bitmap_set_all b false); set_bmap b
  end.
(** The loops over the sectors of a page, from [i] on, [n] of them. *)
Fixpoint write_sectors (n : nat) (start i : Z) (page : list Z) : M (swap D) unit :=
  match n with
  | O => retM tt
  | S n => run on_dev (st_write (u32 (start + i)) (slice (Z.to_nat (i * 512)) 512 page)); write_sectors n start (i + 1) page
  end.
Fixpoint read_sectors (n : nat) (start i : Z) : M (swap D) (list Z) :=
  match n with
  | O => retM []
  | S n => do bs <- on_dev (st_read (u32 (start + i))); do r <- read_sectors n start (i + 1); retM (bs ++ r)
  end.
Definition write_to_swap (page : list Z) : M (swap D) Z :=
  do w <- getM;
  do start <- liftO (bitmap_scan (bmap w) 0 SECTOR_COUNT false);
  do b <- liftO (bitmap_set_multiple (bmap w) start SECTOR_COUNT true);
  run set_bmap b;
  run write_sectors (Z.to_nat SECTOR_COUNT) start 0 page;
  retM start.
Definition is_entry (cur upage : Z) (e : swap_entry) : bool := (uspage e =? upage) && (t_blongs_to e =? cur).
Fixpoint find_entry (cur upage : Z) (l : list swap_entry) : option swap_entry :=
  match l with [] => None | e :: l => if is_entry cur upage e then Some e else find_entry cur upage l end.
Definition lookup_swap (cur upage : Z) : M (swap D) (option swap_entry) :=
  do w <- getM; retM (find_entry cur upage (swap_table w)).
(** [list_remove] of the entry that was found. *)
Fixpoint remove_entry (cur upage : Z) (l : list swap_entry) : list swap_entry :=
  match l with [] => [] | e :: l => if is_entry cur upage e then l else e :: remove_entry cur upage l end.
Definition read_from_swap (cur upage : Z) : M (swap D) (list Z) :=
  do e <- lookup_swap cur upage;
  match e with
  | None => panicM
  | Some e =>
      let start := blockSector e in
      do w <- getM;
      do b <- liftO (bitmap_set_multiple (bmap w) start SECTOR_COUNT false);
      run set_bmap b;
      run set_swap_table (remove_entry cur upage (swap_table w));
      read_sectors (Z.to_nat SECTOR_COUNT) start 0
  end.
(** The part of [frame_evict] that puts a page on the device and records it. *)
Definition swap_out (owner upage : Z) (page : list Z) : M (swap D) unit :=
  do s <- write_to_swap page;
  do w <- getM;
  set_swap_table (swap_table w ++ [SwapEntry upage owner s]).
End swap.
