(* ===== verification/SwapSpec.v ===== *)
(** * The swap space is a map from pages to their contents

    Proved against the interface of a storage device; a block device of
    devices/block.c is such a device. *)

From stdpp Require Import base numbers list gmap.
From S2P Require Import Prelude Bytes Bitmap Swap Block BlockSpec.
Local Open Scope Z_scope.

Lemma elem_of_snoc {A} (x y : A) l : x ∈ l ++ [y] ↔ x ∈ l ∨ x = y.
Proof. by rewrite elem_of_app, list_elem_of_singleton. Qed.

Section spec.
  Context {D : Type} `{StorageLaws D}.
  Implicit Types w : swap D.
(** Entry [e] keeps [page] in eight sectors of its own. *)
Definition holds w (e : swap_entry) (page : list Z) : Prop :=
  ∀ i, 0 ≤ i < 8 → st_sector (dev w) (blockSector e + i) = Some (slice (Z.to_nat (i * 512)) 512 page).
Definition key (e : swap_entry) : Z * Z := (t_blongs_to e, uspage e).
(** The pages kept, by owner and address: every entry has a slot of eight
    sectors of its own, and the bits set are those of the slots. *)
Record swap_rel w (m : gmap (Z * Z) (list Z)) : Prop := {
  sr_dev : st_ok (dev w);
  sr_bmap : bitmap_wf (bmap w);
  sr_fit : st_cap (dev w) ≤ bit_cnt (bmap w);
  sr_keys : NoDup (key <$> swap_table w);
  sr_slots e : e ∈ swap_table w → 0 ≤ blockSector e ∧ blockSector e + 8 ≤ st_cap (dev w) ∧ blockSector e `mod` 8 = 0;
  sr_bits i : 0 ≤ i < bit_cnt (bmap w) → bit (bmap w) i = true ↔ ∃ e, e ∈ swap_table w ∧ blockSector e ≤ i < blockSector e + 8;
  sr_disjoint e e' : e ∈ swap_table w → e' ∈ swap_table w → e ≠ e' → blockSector e ≠ blockSector e';
  sr_content e : e ∈ swap_table w → ∃ page, m !! key e = Some page ∧ length page = 4096%nat ∧ holds w e page;
  sr_dom k page : m !! k = Some page → k ∈ key <$> swap_table w }.
Lemma write_sectors_Ret n w start i page :
  st_ok (dev w) → 0 ≤ start → 0 ≤ i → start + i + Z.of_nat n ≤ st_cap (dev w) →
  ∃ d', write_sectors n start i page w = Ret (tt, Swap d' (bmap w) (swap_table w)) ∧ st_ok d' ∧ st_cap d' = st_cap (dev w) ∧
    ∀ s, 0 ≤ s < st_cap (dev w) → st_sector d' s =
      if decide (start + i ≤ s < start + i + Z.of_nat n) then Some (slice (Z.to_nat ((s - start) * 512)) 512 page) else st_sector (dev w) s.
Proof.
  revert w i. induction n as [|n IH]; intros w i Hok Hs Hi Hn.
  - exists (dev w). split; [by destruct w|]. split; [done|]. split; [done|]. intros s Hs'. rewrite decide_False by lia. done.
  - destruct (st_cap_size _ Hok) as [_ Hcap]. cbn [write_sectors]. rewrite u32_small by lia.
    destruct (st_write_Ret (dev w) (start + i) (slice (Z.to_nat (i * 512)) 512 page) Hok) as (d1 & H1 & Hok1 & Hc1 & Hs1); [lia|].
    rewrite (bindM_Ret (on_dev _) _ w tt (Swap d1 (bmap w) (swap_table w))) by (unfold on_dev; by rewrite H1).
    destruct (IH (Swap d1 (bmap w) (swap_table w)) (i + 1)) as (d' & Hd & Hok' & Hc' & Hs'); [done|lia..|simpl; lia|].
    exists d'. split; [done|]. split; [done|]. split; [simpl in *; lia|]. intros s Hss. simpl in *. rewrite Hs', Hs1 by lia.
    destruct (decide (s = start + i)) as [->|Hne].
    + rewrite decide_False by lia. rewrite !decide_True by lia. do 3 f_equal. lia.
    + repeat case_decide; try lia; done.
Qed.
Lemma read_sectors_Ret n w start i page :
  st_ok (dev w) → 0 ≤ start → 0 ≤ i → start + i + Z.of_nat n ≤ st_cap (dev w) →
  (∀ j, i ≤ j < i + Z.of_nat n → st_sector (dev w) (start + j) = Some (slice (Z.to_nat (j * 512)) 512 page)) →
  ∃ d', read_sectors n start i w = Ret (slice (Z.to_nat (i * 512)) (512 * n) page, Swap d' (bmap w) (swap_table w)) ∧ st_ok d' ∧
    st_cap d' = st_cap (dev w) ∧ ∀ s, 0 ≤ s < st_cap (dev w) → st_sector d' s = st_sector (dev w) s.
Proof.
  revert w i. induction n as [|n IH]; intros w i Hok Hs Hi Hn Hp.
  - exists (dev w). split; [|done]. unfold slice. rewrite Nat.mul_0_r, take_0. by destruct w.
  - destruct (st_cap_size _ Hok) as [_ Hcap]. cbn [read_sectors]. rewrite u32_small by lia.
    destruct (st_read_Ret (dev w) (start + i) Hok) as (bs & d1 & Hbs & H1 & Hok1 & Hc1 & Hs1); [lia|].
    rewrite Hp in Hbs by lia. injection Hbs as <-.
    rewrite (bindM_Ret (on_dev _) _ w (slice (Z.to_nat (i * 512)) 512 page) (Swap d1 (bmap w) (swap_table w))) by (unfold on_dev; by rewrite H1).
    destruct (IH (Swap d1 (bmap w) (swap_table w)) (i + 1)) as (d' & Hd & Hok' & Hc' & Hs'); [done|lia..|simpl; lia| |].
    { intros j Hj. simpl. rewrite Hs1 by lia. apply Hp. lia. }
    rewrite (bindM_Ret _ _ _ _ _ Hd). exists d'. split.
    + unfold retM. do 2 f_equal. replace (Z.to_nat ((i + 1) * 512)) with (Z.to_nat (i * 512) + 512)%nat by lia. rewrite slice_app. f_equal. lia.
    + split; [done|]. split; [simpl in *; lia|]. intros s Hss. simpl in *. rewrite Hs', Hs1 by lia. done.
Qed.

(** ** Entries *)
Lemma find_entry_key t u l : find_entry t u l = None ↔ (t, u) ∉ key <$> l.
Proof.
  induction l as [|e l IH]; [set_solver|]. simpl. unfold is_entry, key. rewrite not_elem_of_cons.
  destruct (Z.eqb_spec (uspage e) u), (Z.eqb_spec (t_blongs_to e) t); simpl; naive_solver.
Qed.
Lemma find_entry_Some t u l e :
  NoDup (key <$> l) → e ∈ l → key e = (t, u) →
  find_entry t u l = Some e ∧ ∀ e', e' ∈ remove_entry t u l ↔ e' ∈ l ∧ e' ≠ e.
Proof.
  induction l as [|x l IH]; intros Hnd He Hk; [by apply not_elem_of_nil in He|]. rewrite fmap_cons, NoDup_cons in Hnd. destruct Hnd as [Hx Hnd].
  assert (is_entry t u x = true ↔ key x = (t, u)) as Hix
    by (unfold is_entry, key; rewrite andb_true_iff, !Z.eqb_eq; naive_solver). simpl.
  apply elem_of_cons in He as [<-|He].
  - rewrite (proj2 Hix Hk). split; [done|]. intros e'. rewrite elem_of_cons. split; [|naive_solver].
    intros He'. split; [by right|]. intros ->. apply Hx, list_elem_of_fmap. by exists e.
  - destruct (is_entry t u x) eqn:E.
    { destruct Hx. rewrite (proj1 Hix eq_refl), <-Hk. apply list_elem_of_fmap. by exists e. }
    destruct (IH Hnd He Hk) as [-> Hr]. split; [done|]. intros e'. rewrite !elem_of_cons, Hr. split; [|naive_solver].
    intros [->|?]; [|naive_solver]. split; [by left|]. intros ->. by pose proof (proj2 Hix Hk).
Qed.
Lemma remove_entry_sub t u l : sublist (remove_entry t u l) l.
Proof. induction l as [|e l IH]; simpl; [done|]. destruct (is_entry t u e); [by apply sublist_cons|by apply sublist_skip]. Qed.

Lemma swap_size w m : swap_rel w m → base.size m = length (swap_table w).
Proof.
  intros R. rewrite <-size_dom. replace (dom m) with (list_to_set (C := gset (Z * Z)) (key <$> swap_table w)).
  - rewrite size_list_to_set by apply R. apply length_fmap.
  - apply set_eq. intros k. rewrite elem_of_list_to_set, elem_of_dom. split.
    + intros (e & -> & He)%list_elem_of_fmap. destruct (sr_content _ _ R e He) as (page & ? & _). by exists page.
    + intros [page Hp]. by eapply sr_dom.
Qed.

(** ** Slots *)
(** Numbers below [n] that are not all in a list shorter than [n]. *)
Lemma pigeonhole (l : list Z) n : Z.of_nat (length l) < n → ∃ q, 0 ≤ q < n ∧ q ∉ l.
Proof.
  intros Hl. destruct (decide (Exists (λ q, q ∉ l) (seqZ 0 n))) as [(q & Hq & Hn)%Exists_exists|Hno].
  - apply elem_of_seqZ in Hq. exists q. split; [lia|done].
  - assert (seqZ 0 n ⊆+ l) as Hs%submseteq_length; [|rewrite length_seqZ in Hs; lia].
    apply NoDup_submseteq; [apply NoDup_seqZ|]. intros q Hq. destruct (decide (q ∈ l)) as [|Hn]; [done|].
    destruct Hno. apply Exists_exists. eauto.
Qed.
Lemma pigeonhole_full (l : list Z) n q :
  Z.of_nat (length l) = n → NoDup l → (∀ x, x ∈ l → 0 ≤ x < n) → 0 ≤ q < n → q ∈ l.
Proof.
  intros Hl Hnd Hin Hq. assert (l ≡ₚ seqZ 0 n) as ->; [|apply elem_of_seqZ; lia].
  apply submseteq_length_Permutation; [|rewrite length_seqZ; lia]. apply NoDup_submseteq; [done|]. intros x Hx.
  apply elem_of_seqZ. apply Hin in Hx. lia.
Qed.
(** A free bit is in a free slot. *)
Lemma slot_of_bit w m i :
  swap_rel w m → 0 ≤ i < bit_cnt (bmap w) → bit (bmap w) i = false →
  ∀ j, 8 * (i / 8) ≤ j < 8 * (i / 8) + 8 → j < bit_cnt (bmap w) → bit (bmap w) j = false.
Proof.
  intros R Hi Hb j Hj Hjb. apply not_true_iff_false. intros (e & He & Hr)%(sr_bits _ _ R); [|Z.div_mod_to_equations; lia].
  destruct (sr_slots _ _ R e He) as (_ & _ & Hm). apply not_true_iff_false in Hb. apply Hb, (sr_bits _ _ R); [lia|].
  exists e. split; [done|]. Z.div_mod_to_equations; lia.
Qed.
Lemma free_slot w m :
  swap_rel w m → Z.of_nat (length (swap_table w)) < st_cap (dev w) / 8 →
  ∃ q, 0 ≤ q ∧ 8 * q + 8 ≤ st_cap (dev w) ∧ all_bits (bmap w) (8 * q) 8 false.
Proof.
  intros R Hlen. destruct (pigeonhole ((λ e, blockSector e / 8) <$> swap_table w) (st_cap (dev w) / 8)) as (q & Hq & Hn).
  { by rewrite length_fmap. }
  exists q. split; [lia|]. pose proof (Z_div_mod_eq_full (st_cap (dev w)) 8). pose proof (Z.mod_pos_bound (st_cap (dev w)) 8). pose proof (sr_fit _ _ R). split; [lia|]. intros i Hi.
  apply not_true_iff_false. intros (e & He & Hr)%(sr_bits _ _ R); [|lia]. apply Hn, list_elem_of_fmap. exists e. split; [|done].
  destruct (sr_slots _ _ R e He) as (_ & _ & Hm). Z.div_mod_to_equations; lia.
Qed.
Lemma scan_slot w m :
  swap_rel w m → Z.of_nat (length (swap_table w)) < st_cap (dev w) / 8 →
  ∃ r, bitmap_scan (bmap w) 0 8 false = Ret r ∧ 0 ≤ r ∧ r + 8 ≤ st_cap (dev w) ∧ r `mod` 8 = 0 ∧ all_bits (bmap w) r 8 false.
Proof.
  intros R Hlen. destruct (free_slot w m R Hlen) as (q & Hq & Hqc & Hfree). pose proof (sr_bmap _ _ R) as Hwf. pose proof (sr_fit _ _ R).
  destruct (bitmap_scan_spec (bmap w) 0 8 false Hwf) as (r & Hr & Hscan); [destruct Hwf; lia|lia|].
  destruct Hscan as [(Hr0 & Hrb & Hall & Hfirst)|[_ Hno]]; [|destruct (Hno (8 * q)); [lia..|done]].
  exists r. split; [done|]. split; [done|].
  assert (r ≤ 8 * q) by (destruct (Z.le_gt_cases r (8 * q)) as [|]; [done|destruct (Hfirst (8 * q)); [lia|done]]).
  split; [lia|]. split; [|done]. destruct (decide (r `mod` 8 = 0)) as [|Hne]; [done|]. pose proof (Z_div_mod_eq_full r 8).
  pose proof (Z.mod_pos_bound r 8). destruct (Hfirst (8 * (r / 8))); [lia|]. intros i Hi.
  eapply (slot_of_bit w m r); [done|lia|apply Hall; lia|lia|lia].
Qed.

(** ** The relation is kept *)
Lemma rel_add w m t u page r d' b' :
  swap_rel w m → length page = 4096%nat → m !! (t, u) = None →
  0 ≤ r → r + 8 ≤ st_cap (dev w) → r `mod` 8 = 0 → all_bits (bmap w) r 8 false →
  st_ok d' → st_cap d' = st_cap (dev w) → updates_range (bmap w) r 8 true b' →
  (∀ s, 0 ≤ s < st_cap (dev w) → st_sector d' s =
    if decide (r ≤ s < r + 8) then Some (slice (Z.to_nat ((s - r) * 512)) 512 page) else st_sector (dev w) s) →
  swap_rel (Swap d' b' (swap_table w ++ [SwapEntry u t r])) (<[(t, u) := page]> m).
Proof.
  intros R Hlen Hm Hr Hrc Hr8 Hfree Hok Hcap (Hwf' & Hc' & Hbit') Hsec. pose proof (sr_fit _ _ R).
  assert (∀ e', e' ∈ swap_table w → blockSector e' + 8 ≤ r ∨ r + 8 ≤ blockSector e') as Hdis.
  { intros e' He'. destruct (sr_slots _ _ R e' He') as (? & ? & Hm8). destruct (decide (blockSector e' = r)) as [Heq|]; [|Z.div_mod_to_equations; lia].
    pose proof (Hfree r ltac:(lia)) as Hf. apply not_true_iff_false in Hf. destruct Hf. apply (sr_bits _ _ R); [lia|]. exists e'. split; [done|lia]. }
  assert (∀ e', e' ∈ swap_table w → key e' ≠ (t, u)) as Hkey.
  { intros e' He' Hk. destruct (sr_content _ _ R e' He') as (pg & Hpg & _). congruence. }
  split; cbn [dev bmap swap_table]; [done|done|lia|..].
  - rewrite fmap_app, NoDup_app. split; [apply R|]. split; [|apply NoDup_singleton]. intros x (e' & -> & He')%list_elem_of_fmap.
    simpl. rewrite list_elem_of_singleton. by apply Hkey.
  - rewrite Hcap. intros e' [He'| ->]%elem_of_snoc; [by apply (sr_slots _ _ R)|done].
  - intros i Hi. rewrite Hbit' by lia. destruct (Z.leb_spec r i), (Z.ltb_spec i (r + 8)); simpl.
    2-4: rewrite (sr_bits _ _ R) by lia; split; [intros (e & He & ?); exists e; split; [apply elem_of_snoc; by left|done]|].
    2-4: intros (e & [He| ->]%elem_of_snoc & Hin); [by exists e|simpl in Hin; lia].
    split; [|done]. intros _. exists (SwapEntry u t r). split; [apply elem_of_snoc; by right|simpl; lia].
  - intros e1 e2 [He1| ->]%elem_of_snoc [He2| ->]%elem_of_snoc Hne; simpl;
      [by apply (sr_disjoint _ _ R)|pose proof (Hdis e1 He1); lia|pose proof (Hdis e2 He2); lia|done].
  - intros e' [He'| ->]%elem_of_snoc.
    + destruct (sr_content _ _ R e' He') as (pg & Hpg & Hl & Hh). exists pg. rewrite lookup_insert_ne by (intros Heq; by apply (Hkey e')).
      split; [done|]. split; [done|]. intros i Hi. destruct (sr_slots _ _ R e' He') as (? & ? & _). pose proof (Hdis e' He'). cbn [dev].
      rewrite Hsec, decide_False by lia. by apply Hh.
    + exists page. split; [apply lookup_insert_eq|]. split; [done|]. intros i Hi. cbn [dev blockSector].
      rewrite Hsec, decide_True by lia. do 3 f_equal. lia.
  - intros k pg Hk. rewrite fmap_app, elem_of_app. rewrite lookup_insert in Hk. case_decide; [right; subst; by left|left; by eapply sr_dom].
Qed.
Lemma rel_remove w m e d' b' :
  swap_rel w m → e ∈ swap_table w → st_ok d' → st_cap d' = st_cap (dev w) → updates_range (bmap w) (blockSector e) 8 false b' →
  (∀ s, 0 ≤ s < st_cap (dev w) → st_sector d' s = st_sector (dev w) s) →
  swap_rel (Swap d' b' (remove_entry (t_blongs_to e) (uspage e) (swap_table w))) (delete (key e) m).
Proof.
  intros R He Hok Hcap (Hwf' & Hc' & Hbit') Hsec. pose proof (sr_fit _ _ R).
  destruct (find_entry_Some (t_blongs_to e) (uspage e) _ e (sr_keys _ _ R) He eq_refl) as [Hfind Hrem].
  destruct (sr_slots _ _ R e He) as (Hb0 & Hbc & Hb8).
  split; cbn [dev bmap swap_table]; [done|done|lia|..].
  - eapply sublist_NoDup; [apply R|]. apply fmap_sublist, remove_entry_sub.
  - intros e' [He' _]%Hrem. rewrite Hcap. by apply (sr_slots _ _ R).
  - intros i Hi. rewrite Hbit' by lia. destruct (Z.leb_spec (blockSector e) i), (Z.ltb_spec i (blockSector e + 8)); simpl.
    2-4: rewrite (sr_bits _ _ R) by lia; split; [intros (e' & He' & ?); exists e'; split; [apply Hrem; split; [done|intros ->; lia]|done]|].
    2-4: intros (e' & [He' _]%Hrem & Hin); by exists e'.
    split; [done|]. intros (e' & [He' Hne]%Hrem & Hin). destruct (sr_slots _ _ R e' He') as (_ & _ & Hm).
    pose proof (sr_disjoint _ _ R e' e He' He Hne). Z.div_mod_to_equations; lia.
  - intros e1 e2 [He1 _]%Hrem [He2 _]%Hrem. by apply (sr_disjoint _ _ R).
  - intros e' [He' Hne]%Hrem. destruct (sr_content _ _ R e' He') as (pg & Hpg & Hl & Hh'). exists pg.
    destruct (sr_slots _ _ R e' He') as (? & ? & _). rewrite lookup_delete_ne.
    + split; [done|]. split; [done|]. intros i Hi. cbn [dev]. rewrite Hsec by lia. by apply Hh'.
    + intros Heq. apply Hne.
      destruct (find_entry_Some (t_blongs_to e) (uspage e) _ e' (sr_keys _ _ R) He' (eq_sym Heq)) as [Hf' _]. congruence.
  - intros k pg [Hne Hk']%lookup_delete_Some. apply (sr_dom _ _ R) in Hk' as (e' & -> & He')%list_elem_of_fmap. apply list_elem_of_fmap. exists e'.
    split; [done|]. apply Hrem. split; [done|]. congruence.
Qed.

(** ** Swapping out and in *)
Lemma swap_out_Ret w m t u page :
  swap_rel w m → length page = 4096%nat → m !! (t, u) = None → Z.of_nat (base.size m) < st_cap (dev w) / 8 →
  ∃ w', swap_out t u page w = Ret (tt, w') ∧ swap_rel w' (<[(t, u) := page]> m) ∧ st_cap (dev w') = st_cap (dev w) ∧
    bit_cnt (bmap w') = bit_cnt (bmap w).
Proof.
  intros R Hlen Hm Hsz. rewrite (swap_size w) in Hsz by done. unfold swap_out, write_to_swap. change SECTOR_COUNT with 8.
  destruct (scan_slot w m R Hsz) as (r & Hr & Hr0 & Hrc & Hr8 & Hfree). pose proof (sr_fit _ _ R).
  destruct (bitmap_set_multiple_spec (bmap w) (sr_bmap _ _ R) r 8 ltac:(lia) true) as (b' & Hb' & Hup).
  rewrite bindM_assoc, (bindM_Ret getM _ w w w) by done. rewrite bindM_assoc, (bindM_Ret (liftO _) _ w r w) by (by rewrite Hr).
  rewrite bindM_assoc, (bindM_Ret (liftO _) _ w b' w) by (by rewrite Hb').
  rewrite bindM_assoc, (bindM_Ret (set_bmap b') _ w tt (Swap (dev w) b' (swap_table w))) by done.
  destruct (write_sectors_Ret 8 (Swap (dev w) b' (swap_table w)) r 0 page (sr_dev _ _ R) Hr0) as (d' & Hd & Hok & Hcap & Hsec); [lia|simpl; lia|].
  change (Z.to_nat 8) with 8%nat. rewrite bindM_assoc, (bindM_Ret _ _ _ _ _ Hd). cbn [dev bmap swap_table] in *.
  eexists. split; [reflexivity|]. split; [|by destruct Hup as (_ & ? & _)]. rewrite Z.add_0_r in Hsec. by apply (rel_add w).
Qed.
Lemma swap_in_Ret w m t u page :
  swap_rel w m → m !! (t, u) = Some page →
  ∃ w', read_from_swap t u w = Ret (page, w') ∧ swap_rel w' (delete (t, u) m) ∧ st_cap (dev w') = st_cap (dev w) ∧
    bit_cnt (bmap w') = bit_cnt (bmap w).
Proof.
  intros R Hm. pose proof (sr_dom _ _ R _ _ Hm) as (e & [= -> ->] & He)%list_elem_of_fmap.
  destruct (find_entry_Some _ _ _ e (sr_keys _ _ R) He eq_refl) as [Hfind _]. destruct (sr_slots _ _ R e He) as (Hb0 & Hbc & _).
  destruct (sr_content _ _ R e He) as (pg & Hpg & Hlen & Hh). unfold key in Hpg. rewrite Hm in Hpg. injection Hpg as <-.
  unfold read_from_swap, lookup_swap. change SECTOR_COUNT with 8. pose proof (sr_fit _ _ R).
  rewrite (bindM_Ret _ _ w (Some e) w) by (unfold bindM; simpl; by rewrite Hfind). rewrite (bindM_Ret getM _ w w w) by done.
  destruct (bitmap_set_multiple_spec (bmap w) (sr_bmap _ _ R) (blockSector e) 8 ltac:(lia) false) as (b' & Hb' & Hup).
  rewrite (bindM_Ret (liftO _) _ w b' w) by (by rewrite Hb').
  rewrite (bindM_Ret (set_bmap b') _ w tt (Swap (dev w) b' (swap_table w))) by done.
  set (l' := remove_entry _ _ (swap_table w)).
  rewrite (bindM_Ret (set_swap_table l') _ _ tt (Swap (dev w) b' l')) by done.
  destruct (read_sectors_Ret 8 (Swap (dev w) b' l') (blockSector e) 0 page (sr_dev _ _ R) Hb0) as (d' & Hd & Hok & Hcap & Hsec); [lia|simpl; lia| |].
  { intros j Hj. apply Hh. lia. }
  change (Z.to_nat 8) with 8%nat. rewrite Hd. change (slice (Z.to_nat (0 * 512)) (512 * 8) page) with (slice 0 4096 page).
  rewrite <-Hlen, slice_all. eexists. split; [reflexivity|]. cbn [dev bmap swap_table] in *. split; [by apply (rel_remove w)|].
  by destruct Hup as (_ & ? & _).
Qed.
Lemma slots_full w m q :
  swap_rel w m → Z.of_nat (length (swap_table w)) = st_cap (dev w) / 8 → 0 ≤ q < st_cap (dev w) / 8 →
  ∃ e, e ∈ swap_table w ∧ blockSector e / 8 = q.
Proof.
  intros R Hlen Hq. assert (q ∈ (λ e, blockSector e / 8) <$> swap_table w) as (e & -> & He)%list_elem_of_fmap; [|by exists e].
  apply (pigeonhole_full _ (st_cap (dev w) / 8)); [by rewrite length_fmap| | |done].
  - apply NoDup_fmap_2_strong; [|eapply NoDup_fmap_1, R]. intros e1 e2 He1 He2 Hd.
    destruct (decide (e1 = e2)) as [|Hne]; [done|]. destruct (sr_disjoint _ _ R e1 e2 He1 He2 Hne).
    destruct (sr_slots _ _ R e1 He1) as (_ & _ & ?), (sr_slots _ _ R e2 He2) as (_ & _ & ?). Z.div_mod_to_equations; lia.
  - intros x (e & -> & He)%list_elem_of_fmap. destruct (sr_slots _ _ R e He) as (? & ? & ?). Z.div_mod_to_equations; lia.
Qed.
(** Every slot of the device is in use, and the bitmap, of four bits per
    sector, still has room. *)
Lemma swap_full w m page :
  swap_rel w m → 0 < st_cap (dev w) → st_cap (dev w) `mod` 8 = 0 → Z.of_nat (base.size m) = st_cap (dev w) / 8 →
  8 ≤ bit_cnt (bmap w) - st_cap (dev w) → write_to_swap page w = Panic.
Proof.
  intros R Hpos Hc8 Hsz Hroom. rewrite (swap_size w) in Hsz by done. pose proof (sr_bmap _ _ R) as Hwf.
  assert (all_bits (bmap w) 0 (st_cap (dev w)) true) as Hall.
  { intros i Hi. apply (sr_bits _ _ R); [lia|]. destruct (slots_full w m (i / 8) R Hsz) as (e & He & Hie); [Z.div_mod_to_equations; lia|].
    exists e. split; [done|]. destruct (sr_slots _ _ R e He) as (? & ? & ?). Z.div_mod_to_equations; lia. }
  unfold write_to_swap. change SECTOR_COUNT with 8. rewrite (bindM_Ret getM _ w w w) by done.
  destruct (bitmap_scan_spec (bmap w) 0 8 false Hwf) as (r & Hr & Hscan); [lia|lia|]. rewrite (bindM_Ret (liftO _) _ w r w) by (by rewrite Hr).
  destruct Hscan as [(Hr0 & Hrb & Hfree & _)|[-> _]].
  - assert (st_cap (dev w) ≤ r) as Hge.
    { destruct (Z.le_gt_cases (st_cap (dev w)) r) as [|Hlt]; [done|]. pose proof (Hall r ltac:(lia)). pose proof (Hfree r ltac:(lia)). congruence. }
    destruct (bitmap_set_multiple_spec (bmap w) Hwf r 8 ltac:(lia) true) as (b' & Hb' & _). rewrite (bindM_Ret (liftO _) _ w b' w) by (by rewrite Hb').
    pose proof (wf_cnt _ Hwf) as Hc. unfold ELEM_BITS in Hc.
    change (Z.to_nat 8) with 8%nat. unfold set_bmap, bindM at 1. cbn [modifyM write_sectors]. unfold bindM, on_dev. cbn [dev].
    rewrite Z.add_0_r, u32_small by lia. rewrite st_write_Panic; [done|apply R|lia].
  - pose proof (wf_cnt _ Hwf) as Hc. unfold bitmap_set_multiple, ELEM_BITS, BITMAP_ERROR in *.
    rewrite (proj2 (Z.leb_gt _ _)) by lia. done.
Qed.

(** ** The swap space as a map *)
Inductive page_op := SwapOut (t u : Z) (page : list Z) | SwapIn (t u : Z).
Definition spec_op (slots : Z) (o : page_op) (m : gmap (Z * Z) (list Z)) : option (option (list Z) * gmap (Z * Z) (list Z)) :=
  match o with
  | SwapOut t u page =>
      if bool_decide (m !! (t, u) = None ∧ length page = 4096%nat ∧ Z.of_nat (base.size m) < slots)
      then Some (None, <[(t, u) := page]> m) else None
  | SwapIn t u => page ← m !! (t, u); Some (Some page, delete (t, u) m)
  end.
Fixpoint spec_run (slots : Z) (ops : list page_op) (m : gmap (Z * Z) (list Z)) : option (list (option (list Z)) * gmap (Z * Z) (list Z)) :=
  match ops with
  | [] => Some ([], m)
  | o :: ops => '(r, m) ← spec_op slots o m; '(rs, m) ← spec_run slots ops m; Some (r :: rs, m)
  end.
Definition code_op (o : page_op) : M (swap D) (option (list Z)) :=
  match o with
  | SwapOut t u page => run swap_out t u page; retM None
  | SwapIn t u => do page <- read_from_swap t u; retM (Some page)
  end.
Fixpoint code_run (ops : list page_op) : M (swap D) (list (option (list Z))) :=
  match ops with
  | [] => retM []
  | o :: ops => do r <- code_op o; do rs <- code_run ops; retM (r :: rs)
  end.
Lemma code_op_Ret w m o r m' :
  swap_rel w m → spec_op (st_cap (dev w) / 8) o m = Some (r, m') →
  ∃ w', code_op o w = Ret (r, w') ∧ swap_rel w' m' ∧ st_cap (dev w') = st_cap (dev w) ∧ bit_cnt (bmap w') = bit_cnt (bmap w).
Proof.
  intros R. destruct o as [t u page|t u]; simpl.
  - case_bool_decide as Hg; [|done]. intros [= <- <-]. destruct Hg as (? & ? & ?).
    destruct (swap_out_Ret w m t u page) as (w' & E & Hrel); [done..|]. exists w'. by rewrite (bindM_Ret _ _ _ _ _ E).
  - intros (page & Hp & [= <- <-])%bind_Some. destruct (swap_in_Ret w m t u page) as (w' & E & Hrel); [done..|].
    exists w'. by rewrite (bindM_Ret _ _ _ _ _ E).
Qed.
Lemma code_run_Ret ops w m rs m' :
  swap_rel w m → spec_run (st_cap (dev w) / 8) ops m = Some (rs, m') →
  ∃ w', code_run ops w = Ret (rs, w') ∧ swap_rel w' m' ∧ st_cap (dev w') = st_cap (dev w) ∧ bit_cnt (bmap w') = bit_cnt (bmap w).
Proof.
  revert w m rs. induction ops as [|o ops IH]; intros w m rs R; cbn [spec_run code_run].
  - intros [= <- <-]. by exists w.
  - intros ([r m1] & Ho & ([rs' m2] & Hs & [= <- <-])%bind_Some)%bind_Some.
    destruct (code_op_Ret w m o r m1 R Ho) as (w1 & E1 & R1 & Hc1 & Hb1). rewrite <-Hc1 in Hs.
    destruct (IH w1 m1 rs' R1 Hs) as (w2 & E2 & R2 & Hc2 & Hb2). exists w2.
    rewrite (bindM_Ret _ _ _ _ _ E1), (bindM_Ret _ _ _ _ _ E2). split; [done|]. split; [done|]. split; congruence.
Qed.

(** ** Properties *)
Section device.
  Context (d : D) (junk : list Z) (old : bitmap).
  Hypothesis Hdev : st_ok d.
  Hypothesis Hcap : 0 < st_cap d ≤ 2 ^ 30 - 8.
  Hypothesis Hjunk : Z.of_nat (length junk) = elem_cnt (4 * st_cap d).
  Hypothesis Hwords : Forall word junk.
Lemma init_swap_block_Ret :
  ∃ w, init_swap_block true true junk (Swap d old []) = Ret (tt, w) ∧ swap_rel w ∅ ∧ st_cap (dev w) = st_cap d ∧
    bit_cnt (bmap w) = 4 * st_cap d.
Proof.
  destruct (st_cap_size d Hdev) as [Hsz _]. unfold init_swap_block. rewrite (bindM_Ret getM _ _ _ _ eq_refl). cbn [dev].
  rewrite (bindM_Ret (liftO _) _ _ (st_cap d) (Swap d old [])) by (by rewrite Hsz). rewrite u32_small by lia. rewrite Z.mul_comm.
  assert (bitmap_wf (Bitmap (4 * st_cap d) junk)) as Hwf by (split; simpl; [unfold ELEM_BITS; lia|done|done]).
  destruct (bitmap_set_all_spec _ false Hwf) as (b & Hb & Hwf1 & Hc1 & _).
  rewrite (bindM_Ret (liftO _) _ _ (Some b) (Swap d old [])) by (unfold bitmap_create; simpl; by rewrite Hb).
  destruct (bitmap_set_all_spec b false Hwf1) as (b' & Hb' & Hwf' & Hc' & Hbit).
  rewrite (bindM_Ret (liftO _) _ _ b' (Swap d old [])) by (by rewrite Hb'). simpl in Hc1. eexists. split; [reflexivity|].
  split; [|cbn [dev bmap]; split; congruence].
  split; cbn [dev bmap swap_table]; [done|done|lia|constructor|by intros ? ?%not_elem_of_nil| |by intros ? ? ?%not_elem_of_nil|
    by intros ? ?%not_elem_of_nil|by intros k page ?%lookup_empty_Some].
  intros i Hi. rewrite Hbit by lia. replace ((0 <=? i) && (i <? 0 + bit_cnt b)) with true by (symmetry; apply andb_true_iff; split; [apply Z.leb_le|apply Z.ltb_lt]; lia).
  split; [done|]. by intros (e & ?%not_elem_of_nil & _).
Qed.
(** C33. The swap space of vm/swap.c is a map from pages of threads to their
    contents, with room for as many pages as fit the device: after
    [init_swap_block], any sequence of evictions and reads that such a map
    allows succeeds, and every read yields the bytes that were swapped out. *)
Theorem swap_refinement ops rs m :
  spec_run (st_cap d / 8) ops ∅ = Some (rs, m) →
  ∃ w, (run init_swap_block true true junk; code_run ops) (Swap d old []) = Ret (rs, w) ∧ swap_rel w m.
Proof.
  intros Hs. destruct init_swap_block_Ret as (w0 & E0 & R0 & Hc0 & _). rewrite <-Hc0 in Hs.
  destruct (code_run_Ret ops w0 ∅ rs m R0 Hs) as (w & E & R & _). exists w. by rewrite (bindM_Ret _ _ _ _ _ E0).
Qed.
(** When every slot of the device is in use the next eviction stops the
    kernel: the bitmap has four bits for every sector of the device, so the
    scan succeeds and the write behind the end of the device fails an
    assertion. *)
Theorem swap_exhausted ops rs m page :
  spec_run (st_cap d / 8) ops ∅ = Some (rs, m) → st_cap d `mod` 8 = 0 → Z.of_nat (base.size m) = st_cap d / 8 →
  (run init_swap_block true true junk; run code_run ops; write_to_swap page) (Swap d old []) = Panic.
Proof.
  intros Hs Hc8 Hfull. destruct init_swap_block_Ret as (w0 & E0 & R0 & Hc0 & Hb0). rewrite (bindM_Ret _ _ _ _ _ E0). rewrite <-Hc0 in Hs.
  destruct (code_run_Ret ops w0 ∅ rs m R0 Hs) as (w & E & R & Hc & Hb). rewrite (bindM_Ret _ _ _ _ _ E).
  assert (st_cap (dev w) = st_cap d) as Hcw by congruence.
  apply (swap_full w m); rewrite ?Hcw; [done|lia|done|done|]. rewrite Hb, Hb0. Z.div_mod_to_equations; lia.
Qed.
End device.
End spec.

(** ** A block device is a storage device *)
#[export] Instance block_storage (b : bptr) : Storage devices := {
  st_size d := match block_size b d with Ret (n, _) => Ret n | Panic => Panic | NoFuel => NoFuel end;
  st_read := block_read b;
  st_write := block_write b }.
(** Every sector of the device is a sector of its own on some disk. *)
Definition capacity (b : bptr) (d : devices) : Z := from_option size 0 (all_blocks d !! b).
Definition sector_of (b : bptr) (d : devices) (s : Z) : option bsector := locate d b s ≫= sector_at d.
Record usable (b : bptr) (d : devices) : Prop := {
  us_block : is_Some (all_blocks d !! b);
  us_size : 0 ≤ capacity b d < 2 ^ 32;
  us_writable : writable (length (all_blocks d)) (all_blocks d) b;
  us_locate s : 0 ≤ s < capacity b d →
    ∃ k p l, locate d b s = Some (k, p) ∧ 0 ≤ p ∧ disks d !! k = Some l ∧ p < Z.of_nat (length l);
  us_inj s s' : 0 ≤ s < capacity b d → 0 ≤ s' < capacity b d → locate d b s = locate d b s' → s = s' }.
Section block.
  Context (b : bptr) (d d' : devices).
  Hypothesis Hsame : same_devices d d'.
Lemma capacity_same : capacity b d' = capacity b d.
Proof.
  destruct Hsame as [Hg _]. unfold capacity. apply (f_equal (lookup b)) in Hg. unfold geometries in Hg. rewrite !list_lookup_fmap in Hg.
  apply (f_equal (from_option size 0)) in Hg. by destruct (all_blocks d !! b), (all_blocks d' !! b).
Qed.
Lemma usable_same : usable b d → (∀ k l, disks d !! k = Some l → ∃ l', disks d' !! k = Some l' ∧ length l' = length l) → usable b d'.
Proof.
  intros [[blk Hb] U2 U3 U4 U5] Hdisks. pose proof capacity_same as Hc. destruct Hsame as [Hg _]. split.
  - destruct (geometries_lookup _ _ _ _ Hg Hb) as (blk' & ? & _). by exists blk'.
  - by rewrite Hc.
  - apply (f_equal length) in Hg as Hlen. unfold geometries in Hlen. rewrite !length_fmap in Hlen. rewrite Hlen. by eapply writable_geometries.
  - intros s. rewrite Hc, (same_devices_locate d) by done. intros (k & p & l & ? & ? & Hl & ?)%U4.
    destruct (Hdisks k l Hl) as (l' & ? & Hlen). exists k, p, l'. rewrite Hlen. done.
  - intros s s'. rewrite Hc, (same_devices_locate d d' b s), (same_devices_locate d d' b s') by done. apply U5.
Qed.
End block.
Lemma block_storage_read b d s :
  usable b d → 0 ≤ s < capacity b d →
  ∃ bs d', sector_of b d s = Some bs ∧ block_read b s d = Ret (bs, d') ∧ usable b d' ∧ capacity b d' = capacity b d ∧
    ∀ s', 0 ≤ s' < capacity b d → sector_of b d' s' = sector_of b d s'.
Proof.
  intros U Hs. destruct (us_locate _ _ U s Hs) as (k & p & l & Hloc & Hp & Hl & Hpl).
  destruct (lookup_lt_is_Some_2 l (Z.to_nat p)) as [bs Hbs]; [lia|].
  assert (sector_at d (k, p) = Some bs) as Hat by (unfold sector_at; simpl; by rewrite Hl).
  destruct (block_read_Ret d b s (k, p) bs Hloc Hat) as (d' & E & Hsd & Hd). exists bs, d'.
  split; [unfold sector_of; by rewrite Hloc|]. split; [done|]. split; [apply (usable_same b d); [done|done|intros k' l' Hk'; exists l'; by rewrite Hd]|].
  split; [by apply capacity_same|]. intros s' _. unfold sector_of, sector_at. rewrite (same_devices_locate d) by done. by rewrite Hd.
Qed.
Lemma block_storage_write b d s bs :
  usable b d → 0 ≤ s < capacity b d →
  ∃ d', block_write b s bs d = Ret (tt, d') ∧ usable b d' ∧ capacity b d' = capacity b d ∧
    ∀ s', 0 ≤ s' < capacity b d → sector_of b d' s' = if decide (s' = s) then Some bs else sector_of b d s'.
Proof.
  intros U Hs. destruct (us_locate _ _ U s Hs) as (k & p & l & Hloc & Hp & Hl & Hpl).
  destruct (block_write_n_Ret _ d b s k p l bs Hloc (us_writable _ _ U) Hl) as (d' & E & Hsd & Hd); [lia|].
  exists d'. split; [unfold block_write; by rewrite (bindM_Ret getM _ d d d)|]. split; [|split; [by apply capacity_same|]].
  - apply (usable_same b d); [done|done|]. intros k' l' Hk'. rewrite Hd, lookup_insert. destruct (decide (k = k')) as [<-|]; [|by exists l'].
    eexists. split; [done|]. rewrite length_insert. congruence.
  - intros s' Hs'. destruct (us_locate _ _ U s' Hs') as (k' & p' & l' & Hloc' & Hp' & Hl' & _).
    unfold sector_of. rewrite (same_devices_locate d), Hloc' by done. unfold sector_at. simpl. rewrite Hd, lookup_insert.
    destruct (decide (s' = s)) as [->|Hne].
    + rewrite Hloc in Hloc'. injection Hloc' as <- <-. rewrite decide_True by done. simpl. apply list_lookup_insert_eq. lia.
    + destruct (decide (k = k')) as [<-|]; [|done]. simpl. rewrite Hl. simpl. apply list_lookup_insert_ne. intros Heq.
      apply Hne, (us_inj _ _ U); [done..|]. rewrite Hloc, Hloc'. do 2 f_equal. lia.
Qed.
#[export] Program Instance block_laws (b : bptr) : @StorageLaws devices (block_storage b) := {
  st_ok := usable b; st_cap := capacity b; st_sector := sector_of b }.
Next Obligation.
  intros b d U. split; [|apply U]. destruct (us_block _ _ U) as [blk Hb]. unfold capacity. simpl. unfold block_size, get_block, bindM. by rewrite Hb.
Qed.
Next Obligation. intros b d s. apply block_storage_read. Qed.
Next Obligation. intros b d s bs. apply block_storage_write. Qed.
Next Obligation.
  intros b d s bs U Hs. destruct (us_block _ _ U) as [blk Hb]. unfold capacity in Hs. rewrite Hb in Hs. simpl in Hs. simpl.
  unfold block_write. rewrite (bindM_Ret getM _ d d d) by done. destruct (length (all_blocks d)); cbn [block_write_n];
    (rewrite (bindM_Ret (get_block b) _ d blk d) by (unfold get_block; by rewrite Hb));
    unfold check_sector, assertM, bindM at 1; by rewrite (proj2 (Z.ltb_ge _ _) Hs).
Qed.

(** A swap partition of two slots behind the first sector of a disk. *)
Definition swap_devices : devices := Devices
  [Block [104] BLOCK_RAW 17 (Disk 0) 0 0; Block [49] BLOCK_SWAP 16 (Partition 0 1) 0 0]
  [None; None; None; Some 1%nat] {[0%nat := replicate 17 (replicate 512 0)]}.
Lemma swap_devices_locate s : 0 ≤ s < 16 → locate swap_devices 1 s = Some (0%nat, s + 1).
Proof.
  intros Hs. unfold locate. cbn -[u32]. rewrite (proj2 (Z.ltb_lt s 16)) by lia. rewrite u32_small by lia.
  rewrite (proj2 (Z.ltb_lt (1 + s) 17)) by lia. do 2 f_equal. lia.
Qed.
Lemma swap_devices_usable : usable 1 swap_devices.
Proof.
  split.
  - by eexists.
  - done.
  - repeat split; done.
  - intros s Hs. change (capacity 1 swap_devices) with 16 in Hs. exists 0%nat, (s + 1), (replicate 17 (replicate 512 0)).
    rewrite swap_devices_locate by done. split; [done|]. split; [lia|]. split; [done|]. rewrite length_replicate. lia.
  - intros s s'. change (capacity 1 swap_devices) with 16. intros Hs Hs'. rewrite !swap_devices_locate by done. intros [= ?]. lia.
Qed.
#[local] Instance swap_storage : Storage devices := block_storage 1.
#[local] Instance swap_laws : StorageLaws devices := block_laws 1.
Definition page_of (x : Z) : list Z := replicate 4096 x.
Lemma swap_refinement_witness :
  ∃ w, (run init_swap_block true true [0; 0];
        code_run [SwapOut 1 8192 (page_of 5); SwapOut 2 8192 (page_of 6); SwapIn 1 8192; SwapOut 1 4096 (page_of 7); SwapIn 2 8192])
       (Swap swap_devices (Bitmap 0 []) []) = Ret ([None; None; Some (page_of 5); None; Some (page_of 6)], w) ∧
    swap_rel w {[(1, 4096) := page_of 7]}.
Proof.
  apply (swap_refinement swap_devices [0; 0] (Bitmap 0 [])).
  - apply swap_devices_usable.
  - done.
  - done.
  - rewrite !Forall_cons, Forall_nil. unfold word. lia.
  - vm_compute. reflexivity.
Defined.
Lemma swap_exhausted_witness :
  (run init_swap_block true true [0; 0];
   run code_run [SwapOut 1 8192 (page_of 5); SwapOut 2 8192 (page_of 6)]; write_to_swap (page_of 7))
  (Swap swap_devices (Bitmap 0 []) []) = Panic.
Proof.
  apply (swap_exhausted swap_devices [0; 0] (Bitmap 0 [])) with (rs := [None; None]) (m := {[(1, 8192) := page_of 5; (2, 8192) := page_of 6]}).
  - apply swap_devices_usable.
  - done.
  - done.
  - rewrite !Forall_cons, Forall_nil. unfold word. lia.
  - vm_compute. reflexivity.
  - done.
  - vm_compute. reflexivity.
Defined.
