(* ===== verification/Vm.v ===== *)
(** * vm/frame.c, vm/page.c and the page fault handler of userprog/exception.c

    Virtual memory over the machine (Palloc, Pagedir), the swap space (Swap) and
    the file system (Inode).  The frame table is a [struct list], on the heap of
    KList: a frame is known by the address of its [f_elem].  A supplemental page
    table is the hash table of Hash; its elements are pairs of the key [upage]
    and the address of the [struct spage].  A thread is known by a number.  A
    call that ends the process ([exit], [thread_exit]) returns [None].  Calls run
    one at a time.  The lock [page_fault_lock] is part of the state, because the
    handler ends processes without releasing it; the other locks of these files,
    which are released on every path but those that end the process in
    [frame_evict], are left out.  Left out as well are
    the fields [for_lazy_load] and [md] of [struct spage], which are never used,
    and the assignment to the saved kernel stack pointer [stack], which the next
    context switch overwrites. *)

From stdpp Require Import base numbers list gmap.
From S2P Require Import Prelude Bytes KList Bitmap Hash Inode Palloc Pagedir Swap.
Local Open Scope Z_scope.

(** ** State *)
Record struct_frame := Frame { upage : Z; kpage : option Z; owner_thread : Z }.
Record spage := Spage {
  file_sp : option ptr; offset : Z; sp_upage : Z; sp_kpage : option Z; read_bytes : Z; zero_bytes : Z;
  writable : bool; has_load_in : bool; position_in_swap : Z; in_swap_table : bool }.
Abbreviation pelem := (Z * ptr)%type.
(** [cur] is the running thread, [pagedir] and [spage_table] are fields of the
    threads; [oracle] says which of the coming allocations succeed (all, when it
    is empty), and addresses from [fresh] on are not in use; [page_fault_lock] is
    the holder of the lock of exception.c. *)
Record vm (D : Type) := Vm {
  mach : machine; swp : swap D; links : heap; frames : gmap loc struct_frame;
  spage_table : gmap Z (hash pelem); spages : gmap ptr spage; fsys : fs;
  cur : Z; pagedir : gmap Z Z; in_syscall : bool; num : Z; for_stack_growth : bool;
  page_fault_cnt : Z; oracle : list bool; fresh : loc; page_fault_lock : option Z }.
Arguments Vm {D}. Arguments mach {D}. Arguments swp {D}. Arguments links {D}. Arguments frames {D}.
Arguments spage_table {D}. Arguments spages {D}. Arguments fsys {D}. Arguments cur {D}. Arguments pagedir {D}.
Arguments in_syscall {D}. Arguments num {D}. Arguments for_stack_growth {D}. Arguments page_fault_cnt {D}.
Arguments oracle {D}. Arguments fresh {D}. Arguments page_fault_lock {D}.

Definition frame_table : loc := 1%N.
Definition PF_P : Z := 0x1.
Definition SEL_KCSEG : Z := 0x08.
Definition SEL_UCSEG : Z := 0x1b.
(** The part of a trap frame that the handlers read. *)
Record intr_frame := IntrFrame { error_code : Z; esp : Z; cs : Z }.

Section vm.
  Context {D : Type} {St : Storage D}.
  Implicit Types v : vm D.
Definition set_mach x v : vm D :=
  Vm x (swp v) (links v) (frames v) (spage_table v) (spages v) (fsys v) (cur v) (pagedir v) (in_syscall v) (num v) (for_stack_growth v) (page_fault_cnt v) (oracle v) (fresh v) (page_fault_lock v).
Definition set_swp x v : vm D :=
  Vm (mach v) x (links v) (frames v) (spage_table v) (spages v) (fsys v) (cur v) (pagedir v) (in_syscall v) (num v) (for_stack_growth v) (page_fault_cnt v) (oracle v) (fresh v) (page_fault_lock v).
Definition set_links x v : vm D :=
  Vm (mach v) (swp v) x (frames v) (spage_table v) (spages v) (fsys v) (cur v) (pagedir v) (in_syscall v) (num v) (for_stack_growth v) (page_fault_cnt v) (oracle v) (fresh v) (page_fault_lock v).
Definition set_frames x v : vm D :=
  Vm (mach v) (swp v) (links v) x (spage_table v) (spages v) (fsys v) (cur v) (pagedir v) (in_syscall v) (num v) (for_stack_growth v) (page_fault_cnt v) (oracle v) (fresh v) (page_fault_lock v).
Definition set_spage_table x v : vm D :=
  Vm (mach v) (swp v) (links v) (frames v) x (spages v) (fsys v) (cur v) (pagedir v) (in_syscall v) (num v) (for_stack_growth v) (page_fault_cnt v) (oracle v) (fresh v) (page_fault_lock v).
Definition set_spages x v : vm D :=
  Vm (mach v) (swp v) (links v) (frames v) (spage_table v) x (fsys v) (cur v) (pagedir v) (in_syscall v) (num v) (for_stack_growth v) (page_fault_cnt v) (oracle v) (fresh v) (page_fault_lock v).
Definition set_fsys x v : vm D :=
  Vm (mach v) (swp v) (links v) (frames v) (spage_table v) (spages v) x (cur v) (pagedir v) (in_syscall v) (num v) (for_stack_growth v) (page_fault_cnt v) (oracle v) (fresh v) (page_fault_lock v).
Definition set_cur x v : vm D :=
  Vm (mach v) (swp v) (links v) (frames v) (spage_table v) (spages v) (fsys v) x (pagedir v) (in_syscall v) (num v) (for_stack_growth v) (page_fault_cnt v) (oracle v) (fresh v) (page_fault_lock v).
Definition set_num x v : vm D :=
  Vm (mach v) (swp v) (links v) (frames v) (spage_table v) (spages v) (fsys v) (cur v) (pagedir v) (in_syscall v) x (for_stack_growth v) (page_fault_cnt v) (oracle v) (fresh v) (page_fault_lock v).
Definition set_page_fault_cnt x v : vm D :=
  Vm (mach v) (swp v) (links v) (frames v) (spage_table v) (spages v) (fsys v) (cur v) (pagedir v) (in_syscall v) (num v) (for_stack_growth v) x (oracle v) (fresh v) (page_fault_lock v).
Definition set_oracle x v : vm D :=
  Vm (mach v) (swp v) (links v) (frames v) (spage_table v) (spages v) (fsys v) (cur v) (pagedir v) (in_syscall v) (num v) (for_stack_growth v) (page_fault_cnt v) x (fresh v) (page_fault_lock v).
Definition set_fresh x v : vm D :=
  Vm (mach v) (swp v) (links v) (frames v) (spage_table v) (spages v) (fsys v) (cur v) (pagedir v) (in_syscall v) (num v) (for_stack_growth v) (page_fault_cnt v) (oracle v) x (page_fault_lock v).
Definition set_page_fault_lock x v : vm D :=
  Vm (mach v) (swp v) (links v) (frames v) (spage_table v) (spages v) (fsys v) (cur v) (pagedir v) (in_syscall v) (num v) (for_stack_growth v) (page_fault_cnt v) (oracle v) (fresh v) x.

(** The components. *)
Definition on_mach {A} : M machine A → M (vm D) A := zoom mach set_mach.
Definition on_swap {A} : M (swap D) A → M (vm D) A := zoom swp set_swp.
Definition on_links {A} : M heap A → M (vm D) A := zoom links set_links.
Definition on_files {A} : M fs A → M (vm D) A := zoom fsys set_fsys.
Definition exit_ {A} : M (vm D) (option A) := retM None.
(** Whether an allocation succeeds. *)
Definition malloc_ok : M (vm D) bool := λ v,
  match oracle v with [] => Ret (true, v) | ok :: r => Ret (ok, set_oracle r v) end.
Definition new_address : M (vm D) loc := λ v, Ret (fresh v, set_fresh (fresh v + 1)%N v).
Definition get_frame (f : loc) : M (vm D) struct_frame := λ v,
  match frames v !! f with Some x => Ret (x, v) | None => Panic end.
Definition put_frame (f : loc) (x : struct_frame) : M (vm D) unit := modifyM (λ v, set_frames (<[f := x]> (frames v)) v).
(** A new [struct frame], with its list element. *)
Definition new_frame : M (vm D) loc :=
  do f <- new_address; run modifyM (λ v, set_links (<[f := ListElem NULL NULL]> (links v)) v); retM f.
Definition free_frame (f : loc) : M (vm D) unit :=
  modifyM (λ v, set_links (delete f (links v)) (set_frames (delete f (frames v)) v)).
Definition get_pagedir (t : Z) : M (vm D) Z := λ v,
  match pagedir v !! t with Some pd => Ret (pd, v) | None => Panic end.
(** The bytes of a page. *)
Definition page_bytes (pg : page) : list Z := concat (to_le 4 <$> pg).
Definition load_page (kp : Z) : M (vm D) (list Z) := λ v,
  match pages (mach v) !! kp with Some pg => Ret (page_bytes pg, v) | None => Panic end.
Definition store_page (kp : Z) (bs : list Z) : M (vm D) unit := λ v,
  match pages (mach v) !! kp with
  | Some pg => Ret (tt, set_mach (set_pages (<[kp := words_of 1024 (splice 0 bs (page_bytes pg))]> (pages (mach v))) (mach v)) v)
  | None => Panic
  end.

(** ** frame.c *)
Definition frame_init : M (vm D) unit := on_links (list_init frame_table).
Definition is_stack (addr : Z) : M (vm D) bool :=
  do v <- getM; retM (u32 (PHYS_BASE - num v * PGSIZE) <? addr).
(** The inner [while] of [get_frame_to_evict]: [e] does not move on. *)
Fixpoint scan_frames (fuel : nat) (e : loc) : M (vm D) (option loc) :=
  match fuel with
  | O => λ _, NoFuel
  | S fuel =>
      do tl <- on_links (list_tail frame_table);
      if (e =? tl)%N then retM None
      else
        do f <- get_frame e;
        do pd <- get_pagedir (owner_thread f);
        do accessed <- on_mach (pagedir_is_accessed pd (upage f));
        if negb accessed then
          run on_links (list_remove e);
          run on_links (list_push_back frame_table e);
          retM (Some e)
        else
          run on_mach (pagedir_set_accessed pd (upage f) false);
          scan_frames fuel e
  end.
Fixpoint evict_rounds (fuel : nat) (frame_to_evict : option loc) (round_count : Z) (found : bool) : M (vm D) (option loc) :=
  match fuel with
  | O => λ _, NoFuel
  | S fuel =>
      if found then retM frame_to_evict
      else
        do e <- on_links (list_begin frame_table);
        do r <- scan_frames (S fuel) e;
        let frame_to_evict := match r with Some _ => r | None => frame_to_evict end in
        let found := match frame_to_evict with Some _ => true | None => found end in
        let round_count := round_count + 1 in
        evict_rounds fuel frame_to_evict round_count (if round_count =? 2 then true else found)
  end.
Definition get_frame_to_evict (fuel : nat) : M (vm D) (option loc) := evict_rounds fuel None 1 false.
Definition frame_delete (f : loc) : M (vm D) unit :=
  do x <- get_frame f;
  do pd <- get_pagedir (owner_thread x);
  run on_mach (pagedir_clear_page pd (upage x));
  run on_mach (palloc_free_page (kpage x));
  run on_links (list_remove f);
  free_frame f.
(** The [while] of [frame_evict].  Without a frame, the kernel reads at a null
    pointer: a page fault that ends the process. *)
Fixpoint skip_stack (fuel : nat) (this_frame : option loc) : M (vm D) (option loc) :=
  match fuel, this_frame with
  | O, _ => λ _, NoFuel
  | S fuel, None => exit_
  | S fuel, Some f =>
      do x <- get_frame f;
      do stk <- is_stack (upage x);
      if negb (is_user_vaddr (upage x)) || stk then
        run on_links (list_push_back frame_table f);
        do this_frame <- get_frame_to_evict (S fuel);
        skip_stack fuel this_frame
      else retM (Some f)
  end.
Definition frame_evict (fuel : nat) : M (vm D) (option unit) :=
  do this_frame <- get_frame_to_evict fuel;
  do ok <- malloc_ok;
  if negb ok then exit_
  else
    may f <- skip_stack fuel this_frame;
    do x <- get_frame f;
    do bs <- load_page (default 0 (kpage x));
    run on_swap (swap_out (owner_thread x) (upage x) bs);
    run frame_delete f;
    retM (Some tt).
Definition frame_create (fuel : nat) (flags : Z) (t : Z) (up : Z) : M (vm D) (option loc) :=
  do ok <- malloc_ok;
  if negb ok then exit_
  else
    do f <- new_frame;
    do kp <- on_mach (palloc_get_page flags);
    run put_frame f (Frame up kp t);
    may _ <- (match kp with
              | Some _ => retM (Some tt)
              | None =>
                  may _ <- frame_evict fuel;
                  do kp <- on_mach (palloc_get_page flags);
                  run put_frame f (Frame up kp t); retM (Some tt)
              end);
    run on_links (list_push_back frame_table f);
    retM (Some f).
Fixpoint lookup_frame_loop (fuel : nat) (e : loc) (up : Z) : M (vm D) (option loc) :=
  match fuel with
  | O => λ _, NoFuel
  | S fuel =>
      do tl <- on_links (list_end frame_table);
      if (e =? tl)%N then retM None
      else
        do x <- get_frame e;
        if upage x =? up then retM (Some e)
        else do e <- on_links (get_next e); lookup_frame_loop fuel e up
  end.
Definition lookup_frame (up : Z) : M (vm D) (option loc) :=
  do e <- on_links (list_begin frame_table); do v <- getM; lookup_frame_loop (budget (links v)) e up.

(** ** process.c: the running process *)
(** [tss_update] is left out. *)
Definition process_activate : M (vm D) unit := do v <- getM; on_mach (pagedir_activate (pagedir v !! cur v)).
Definition install_page (up kp : Z) (w : bool) : M (vm D) bool :=
  do v <- getM;
  do pd <- get_pagedir (cur v);
  do r <- on_mach (pagedir_get_page pd up);
  match r with Some _ => retM false | None => on_mach (pagedir_set_page pd up kp w) end.

(** ** page.c *)
Definition page_hash (p : pelem) : Z := hash_bytes (to_le 4 (fst p)).
Definition page_less (a b : pelem) : bool := fst a <? fst b.
Definition get_table : M (vm D) (hash pelem) := λ v,
  match spage_table v !! cur v with Some h => Ret (h, v) | None => Panic end.
Definition put_table (h : hash pelem) : M (vm D) unit :=
  modifyM (λ v, set_spage_table (<[cur v := h]> (spage_table v)) v).
Definition get_spage (p : ptr) : M (vm D) spage := λ v,
  match spages v !! p with Some x => Ret (x, v) | None => Panic end.
Definition put_spage (p : ptr) (x : spage) : M (vm D) unit := modifyM (λ v, set_spages (<[p := x]> (spages v)) v).
Definition set_kpage (kp : option Z) (x : spage) : spage :=
  Spage (file_sp x) (offset x) (sp_upage x) kp (read_bytes x) (zero_bytes x) (writable x) (has_load_in x) (position_in_swap x) (in_swap_table x).
Definition set_loaded (x : spage) : spage :=
  Spage (file_sp x) (offset x) (sp_upage x) (sp_kpage x) (read_bytes x) (zero_bytes x) (writable x) true (position_in_swap x) (in_swap_table x).
(** Without memory for the buckets [hash_init] leaves a table that no call may
    use; its result is not tested. *)
Definition spage_init (junk : list (list pelem)) : M (vm D) unit :=
  do ok <- malloc_ok;
  match hash_init ok junk with
  | Some h => put_table h
  | None => modifyM (λ v, set_spage_table (delete (cur v) (spage_table v)) v)
  end.
(** The loop over the table that looks for a page to share. *)
Fixpoint share_loop (fuel : nat) (i : hash_iterator) (file : ptr) (up : Z) (w : bool) (new_page : ptr) : M (vm D) (option unit) :=
  match fuel with
  | O => λ _, NoFuel
  | S fuel =>
      do h <- get_table;
      do r <- liftO (hash_next h i);
      match fst r with
      | None => retM (Some tt)
      | Some (_, p) =>
          do sp <- get_spage p;
          if bool_decide (file_sp sp = Some file) && negb (writable sp) then
            do x <- get_spage new_page;
            run put_spage new_page (set_kpage (sp_kpage sp) x);
            match sp_kpage sp with
            | None => retM (Some tt)
            | Some kp => do ok <- install_page up kp w; if negb ok then exit_ else retM (Some tt)
            end
          else share_loop fuel (snd r) file up w new_page
      end
  end.
(** [junk]: what the new structure holds as its [kpage]. *)
Definition create_spage (junk : option Z) (file : option ptr) (ofs up rd zr : Z) (w : bool) : M (vm D) (option ptr) :=
  do ok <- malloc_ok;
  if negb ok then exit_
  else
    do p <- new_address;
    run put_spage p (Spage file ofs up junk rd zr w false 0 false);
    do h <- get_table;
    do ok <- malloc_ok;
    do r <- liftO (hash_insert page_hash page_less ok h (up, p));
    run put_table (snd r);
    match file with
    | None => retM (Some p)
    | Some file =>
        may _ <- (if negb w then
                    do h <- get_table; share_loop (S (S (Z.to_nat (Hash.elem_cnt h)))) (hash_first h) file up w p
                  else retM (Some tt));
        run on_files (file_seek file 0);
        retM (Some p)
    end.
Definition lookup_spage (up : Z) : M (vm D) (option ptr) :=
  do h <- get_table;
  do e <- liftO (hash_find page_hash page_less h (up, NULL));
  retM (snd <$> e).
Definition spage_destroy (up : Z) : M (vm D) unit :=
  do p <- lookup_spage up;
  match p with
  | None => retM tt
  | Some p =>
      do x <- get_spage p;
      do h <- get_table;
      do ok <- malloc_ok;
      do r <- liftO (hash_delete page_hash page_less ok h (sp_upage x, p));
      run put_table (snd r);
      modifyM (λ v, set_spages (delete p (spages v)) v)
  end.
(** The new stack pointer, or failure. *)
Definition setup_stack (fuel : nat) (junk : option Z) : M (vm D) (option (option Z)) :=
  do v <- getM;
  may f <- frame_create fuel (Z.lor PAL_ZERO PAL_USER) (cur v) (PHYS_BASE - PGSIZE);
  do x <- get_frame f;
  match kpage x with
  | None => retM (Some None)
  | Some kp =>
      do ok <- install_page (PHYS_BASE - PGSIZE) kp true;
      if ok then
        may s <- create_spage junk None 0 (PHYS_BASE - PGSIZE) 0 0 false;
        do y <- get_spage s;
        run put_spage s (set_kpage (Some kp) y);
        retM (Some (Some PHYS_BASE))
      else
        run on_mach (palloc_free_page (Some kp));
        retM (Some None)
  end.

(** ** exception.c *)
Definition kill (f : intr_frame) : M (vm D) (option unit) :=
  if cs f =? SEL_UCSEG then exit_
  else if cs f =? SEL_KCSEG then panicM
  else exit_.
(** [lock_acquire] and [lock_release] on [page_fault_lock].  A lock that another
    thread holds when a fault begins is held by a process that ended inside the
    handler: nobody releases it, and the thread waits forever. *)
Definition acquire_fault_lock : M (vm D) unit := λ v,
  match page_fault_lock v with
  | None => Ret (tt, set_page_fault_lock (Some (cur v)) v)
  | Some t => if t =? cur v then Ret (tt, v) else NoFuel
  end.
Definition release_fault_lock : M (vm D) unit :=
  do v <- getM;
  run assertM (bool_decide (page_fault_lock v = Some (cur v)));
  modifyM (set_page_fault_lock None).
(** Growing the stack, the branch for addresses without a supplemental page. *)
Definition grow_stack (fuel : nat) (junk : option Z) : M (vm D) (option unit) :=
  do v <- getM;
  let top := u32 (PHYS_BASE - num v * PGSIZE) in
  may f <- frame_create fuel PAL_USER (cur v) top;
  do x <- get_frame f;
  match kpage x with
  | None => retM (Some tt)
  | Some kp =>
      if 2048 <? num v then exit_
      else
        do ok <- install_page top kp true;
        if ok then
          may s <- create_spage junk None 0 top 0 0 false;
          do y <- get_spage s;
          run put_spage s (set_kpage (Some kp) y);
          run modifyM (λ v, set_num (num v + 1) v);
          retM (Some tt)
        else
          run on_mach (palloc_free_page (Some kp)); exit_
  end.
(** The [while] that loads the pages of a segment. *)
Fixpoint load_pages (n fuel : nat) (p file : ptr) (w : bool) (rd zr up : Z) : M (vm D) (option unit) :=
  if negb ((0 <? rd) || (0 <? zr)) then retM (Some tt)
  else match n with
  | O => λ _, NoFuel
  | S n =>
      let page_read_bytes := if rd <? PGSIZE then rd else PGSIZE in
      let page_zero_bytes := PGSIZE - page_read_bytes in
      do v <- getM;
      may f <- frame_create fuel PAL_USER (cur v) up;
      do x <- get_frame f;
      do sp <- get_spage p;
      run put_spage p (set_loaded (set_kpage (kpage x) sp));
      match kpage x with
      | None => exit_
      | Some kp =>
          do bs <- on_files (file_read file page_read_bytes);
          run store_page kp bs;
          if negb (Z.of_nat (length bs) =? page_read_bytes) then
            run on_mach (palloc_free_page (Some kp)); exit_
          else
            run store_page kp (bs ++ replicate (Z.to_nat page_zero_bytes) 0);
            do ok <- install_page up kp w;
            if negb ok then run on_mach (palloc_free_page (Some kp)); exit_
            else load_pages n fuel p file w (rd - page_read_bytes) (u32 (zr - page_zero_bytes)) (u32 (up + PGSIZE))
      end
  end.
(** [kill] does not return, so that faults in user mode and in the kernel both
    end with its first call; the message is left out. *)
Definition page_fault (n fuel : nat) (junk : option Z) (f : intr_frame) (fault_addr : Z) : M (vm D) (option unit) :=
  run acquire_fault_lock;
  run modifyM (λ v, set_page_fault_cnt (i64 (page_fault_cnt v + 1)) v);
  let not_present := Z.land (error_code f) PF_P =? 0 in
  let up := pg_round_down fault_addr in
  if negb (is_user_vaddr fault_addr) || (fault_addr =? 0) || (PHYS_BASE <=? fault_addr) || (fault_addr <? 0x08048000) then exit_
  else
    do v <- getM;
    do e <- on_swap (lookup_swap (cur v) up);
    do r <- (match e with
             | None => retM (Some false)
             | Some e =>
                 if t_blongs_to e =? cur v then
                   do pd <- get_pagedir (cur v);
                   do kp <- on_mach (pagedir_get_page pd up);
                   match kp with
                   | None =>
                       may fr <- frame_create fuel PAL_USER (cur v) up;
                       do x <- get_frame fr;
                       let kp := default 0 (kpage x) in
                       run install_page up kp true;
                       do bs <- on_swap (read_from_swap (cur v) up);
                       run store_page kp bs;
                       run release_fault_lock;
                       retM (Some true)
                   | Some kp =>
                       do bs <- on_swap (read_from_swap (cur v) up);
                       run store_page kp bs; retM (Some false)
                   end
                 else retM (Some false)
             end);
    match r with
    | None => exit_
    | Some true => retM (Some tt)
    | Some false =>
        do s_page <- lookup_spage up;
        match s_page with
        | None =>
            do v <- getM;
            if (u32 (esp f - 32) <=? fault_addr) && negb (for_stack_growth v) then
              may _ <- grow_stack fuel junk; run release_fault_lock; retM (Some tt)
            else exit_
        | Some p =>
            do sp <- get_spage p;
            if not_present then
              match file_sp sp with
              | None => panicM
              | Some file =>
                  run on_files (file_seek file (offset sp));
                  may _ <- load_pages n fuel p file (writable sp) (read_bytes sp) (zero_bytes sp) (sp_upage sp);
                  run release_fault_lock; retM (Some tt)
              end
            else
              do v <- getM;
              if in_syscall v then exit_ else kill f
        end
    end.
End vm.
