(* ===== verification/VmMach.v ===== *)
(** * Pages of user memory: how the allocator and the page tables treat them

    The machine as virtual memory uses it: frames are pages of the user pool,
    page tables are pages of the kernel pool, so that changing a table never
    changes a frame. *)

From stdpp Require Import base numbers list gmap.
From S2P Require Import Prelude Bitmap Palloc Pagedir PagedirSpec.
Local Open Scope Z_scope.

Implicit Types m : machine.
Definition user_page m (p : Z) : Prop :=
  ∃ k, 0 ≤ k < bit_cnt (used_map (user_pool m)) ∧ p = pool_page (user_pool m) k.
Definition user_used m (p : Z) : Prop :=
  ∃ k, 0 ≤ k < bit_cnt (used_map (user_pool m)) ∧ p = pool_page (user_pool m) k ∧ in_use (user_pool m) k = true.
(** [Ds]: the page directories; the user pool lies behind the kernel pool. *)
Record machine_ok (Ds : list Z) m : Prop := {
  mo_inv : vm_inv Ds m;
  mo_user : pool_wf (user_pool m);
  mo_apart p : user_page m p → ¬ kernel_page m p;
  mo_ram p : user_page m p → (p - PHYS_BASE) / 4096 < init_ram_pages m;
  mo_dir : init_page_dir m ∉ Ds;
  mo_pages p : user_page m p → ∃ pg, pages m !! p = Some pg ∧ length pg = 1024%nat }.
Lemma user_used_page m p : user_used m p → user_page m p.
Proof. intros (k & Hk & Hp & _). by exists k. Qed.
Lemma user_page_valid m p : pool_wf (user_pool m) → user_page m p → valid_page p.
Proof.
  intros [Hw Hb [q Hq] He] (k & Hk & ->). unfold pool_page in *. change PGSIZE with 4096 in *. split; [lia|]. exists (q + k). lia.
Qed.

(** ** What a change of page tables keeps *)
Record keeps (Ds : list Z) m m' : Prop := {
  kp_ok : machine_ok Ds m';
  kp_pool : user_pool m' = user_pool m;
  kp_pages p : user_page m p → pages m' !! p = pages m !! p;
  kp_active : active m' = active m;
  kp_walk pd va : pd ∈ Ds → user va → walk m pd va ≠ None → walk m' pd va ≠ None }.
Lemma keeps_page Ds m m' p : keeps Ds m m' → user_page m' p ↔ user_page m p.
Proof. intros K. unfold user_page. by rewrite (kp_pool _ _ _ K). Qed.
Lemma keeps_used Ds m m' p : keeps Ds m m' → user_used m' p ↔ user_used m p.
Proof. intros K. unfold user_used. by rewrite (kp_pool _ _ _ K). Qed.
Lemma keeps_trans Ds m1 m2 m3 : keeps Ds m1 m2 → keeps Ds m2 m3 → keeps Ds m1 m3.
Proof.
  intros K1 K2. split; [apply K2| | | |].
  - by rewrite (kp_pool _ _ _ K2), (kp_pool _ _ _ K1).
  - intros p Hp. rewrite (kp_pages _ _ _ K2), (kp_pages _ _ _ K1); [done..|]. by apply (keeps_page Ds m1).
  - by rewrite (kp_active _ _ _ K2), (kp_active _ _ _ K1).
  - intros pd va Hpd Hu Hw. by apply (kp_walk _ _ _ K2), (kp_walk _ _ _ K1).
Qed.
Lemma walk_table m pd va : wf_pd m pd → user va → walk m pd va ≠ None ↔ ∃ e, entry m pd (pd_no va) = Some e ∧ e ≠ 0.
Proof.
  intros Hwf Hu. pose proof (pd_no_user va Hu) as Hi. destruct (page_ok_entry m pd (pd_no va) (wp_dir _ _ Hwf)) as [e He]; [lia|].
  split.
  - intros Hw. exists e. split; [done|]. intros ->. by rewrite (walk_user _ _ _ 0) in Hw.
  - intros (e' & He' & Hne). rewrite He in He'. injection He' as <-. destruct (walk_entry m pd va e Hwf Hu He Hne) as (w & -> & _). done.
Qed.
(** A change that is confined to one directory. *)
Lemma confined_keeps Ds m m' pd :
  machine_ok Ds m → pd ∈ Ds → confined m pd m' → vm_inv Ds m' → cr3 m' = cr3 m → init_page_dir m' = init_page_dir m →
  keeps Ds m m'.
Proof.
  intros Hok Hpd C Hinv Hcr Hdir. pose proof (cf_pools _ _ _ C) as (Hk & Hup & Hram).
  pose proof (vi_wf _ _ (mo_inv _ _ Hok)) as Hwf.
  assert (∀ p, user_page m p → pages m' !! p = pages m !! p) as Hpg
    by (intros p Hp; apply (confined_user m pd); [by apply Hwf|done|by apply (mo_apart _ _ Hok)]).
  assert (∀ p, user_page m' p ↔ user_page m p) as Hus by (intros p; unfold user_page; by rewrite Hup).
  split; [split| | | |].
  - done.
  - rewrite Hup. apply Hok.
  - intros p Hp%Hus. rewrite Hk. by apply (mo_apart _ _ Hok).
  - intros p Hp%Hus. rewrite Hram. by apply (mo_ram _ _ Hok).
  - rewrite Hdir. apply Hok.
  - intros p Hp%Hus. rewrite Hpg by done. by apply (mo_pages _ _ Hok).
  - done.
  - done.
  - unfold active. by rewrite Hcr.
  - intros pd' va Hpd' Hu. destruct (decide (pd' = pd)) as [->|Hne].
    + rewrite !walk_table by (try done; try apply Hinv; by try apply Hwf). intros (e & He & Hne). exists e. split; [|done].
      apply (cf_table _ _ _ C); [by apply pd_no_user|done..].
    + destruct (confined_other m pd m' pd' C) as (_ & _ & _ & Hw); [by apply Hwf|by apply (vi_sep _ _ (mo_inv _ _ Hok))|]. by rewrite Hw.
Qed.
Lemma confined_mapping Ds m m' pd pd' va :
  machine_ok Ds m → pd ∈ Ds → pd' ∈ Ds → pd' ≠ pd → confined m pd m' → user va → mapping m' pd' va = mapping m pd' va.
Proof.
  intros Hok Hpd Hpd' Hne C Hu. destruct (confined_other m pd m' pd' C) as (_ & _ & _ & Hw);
    [by apply (vi_wf _ _ (mo_inv _ _ Hok))|by apply (vi_sep _ _ (mo_inv _ _ Hok))|]. unfold mapping, translate. by rewrite Hw.
Qed.

(** ** The accessed bit *)
Definition accessed m (pd va : Z) : bool := match walk m pd va with Some e => has_flag e PTE_A | None => false end.
Lemma is_accessed_Ret m pd va : wf_pd m pd → user va → pagedir_is_accessed pd va m = Ret (accessed m pd va, m).
Proof.
  intros Hwf Hu. pose proof (pd_no_user va Hu) as Hi. destruct (page_ok_entry m pd (pd_no va) (wp_dir _ _ Hwf)) as [e He]; [lia|].
  unfold pagedir_is_accessed, test_flag, accessed. rewrite (bindM_Ret _ _ _ _ _ (lookup_page_false m pd va e Hwf Hu He)).
  destruct (Z.eqb_spec e 0) as [->|Hne]; [by rewrite (walk_user _ _ _ 0)|].
  destruct (walk_entry m pd va e Hwf Hu He Hne) as (w & -> & Hl). by rewrite (bindM_Ret _ _ _ _ _ Hl).
Qed.
(** All mappings stay. *)
Definition same_mappings (Ds : list Z) m m' : Prop := ∀ pd va, pd ∈ Ds → user va → mapping m' pd va = mapping m pd va.
Lemma clear_accessed Ds m pd va :
  machine_ok Ds m → pd ∈ Ds → user va →
  ∃ m', pagedir_set_accessed pd va false m = Ret (tt, m') ∧ keeps Ds m m' ∧ same_mappings Ds m m' ∧ accessed m' pd va = false.
Proof.
  intros Hok Hpd Hu. pose proof (mo_inv _ _ Hok) as Hinv. pose proof (vi_wf _ _ Hinv pd Hpd) as Hwf.
  destruct (set_flag_Ret m pd va PTE_A false Hwf (inv_cr3 _ _ Hinv) Hu) as (m' & Hr & Hch); [done..|].
  exists m'. split; [done|]. assert (vm_inv Ds m') as Hinv' by (eapply step_inv; [done|]; by eapply step_set_accessed).
  split; [apply (confined_keeps _ _ _ pd); try done; apply Hch|]. split.
  - intros pd' va' Hpd' Hu'. destruct (decide (pd' = pd)) as [->|Hne].
    + rewrite (ch_mapping _ _ _ _ _ Hch) by done. by destruct (same_page va' va).
    + apply (confined_mapping Ds m m' pd); try done. apply Hch.
  - unfold accessed. destruct (walk m' pd va) as [w'|] eqn:Ew; [|done].
    pose proof (pd_no_user va Hu) as Hi. destruct (page_ok_entry m pd (pd_no va) (wp_dir _ _ Hwf)) as [e He]; [lia|].
    unfold set_flag in Hr. rewrite (bindM_Ret _ _ _ _ _ (lookup_page_false m pd va e Hwf Hu He)) in Hr.
    destruct (Z.eqb_spec e 0) as [He0|Hne]; [injection Hr as <-; rewrite (walk_user _ _ _ e) in Ew by done; by rewrite He0 in Ew|].
    destruct (walk_entry m pd va e Hwf Hu He Hne) as (w & Hw & Hl). rewrite (bindM_Ret _ _ _ _ _ Hl) in Hr.
    destruct (store_pte m pd va e (Z.land w (u32 (Z.lnot PTE_A))) Hwf Hu He Hne) as (ps & Hst & _ & _ & Hw').
    rewrite (bindM_Ret _ _ _ _ _ Hst), invalidate_Ret in Hr by apply (inv_cr3 _ _ Hinv). injection Hr as <-.
    rewrite (proj1 (flushed_frame _ pd pd)), Hw', decide_True in Ew by done. injection Ew as <-. unfold has_flag.
    rewrite <-Z.land_assoc. change (Z.land (u32 (Z.lnot PTE_A)) PTE_A) with 0. by rewrite Z.land_0_r.
Qed.

(** ** Mapping and unmapping *)
Definition on_page (pd pd' va u : Z) : Prop := pd' = pd ∧ va / 4096 = u / 4096.
#[global] Instance on_page_dec pd pd' va u : Decision (on_page pd pd' va u).
Proof. unfold on_page. apply _. Defined.
Lemma unmap_page Ds m pd u :
  machine_ok Ds m → pd ∈ Ds → user u → (4096 | u) →
  ∃ m', pagedir_clear_page pd u m = Ret (tt, m') ∧ keeps Ds m m' ∧
    ∀ pd' va, pd' ∈ Ds → user va → mapping m' pd' va = if decide (on_page pd pd' va u) then None else mapping m pd' va.
Proof.
  intros Hok Hpd Hu Hal. pose proof (mo_inv _ _ Hok) as Hinv. pose proof (vi_wf _ _ Hinv pd Hpd) as Hwf.
  destruct (pagedir_clear_page_Ret m pd u Hwf (inv_cr3 _ _ Hinv) Hu Hal) as (m' & Hr & Hch & _). exists m'. split; [done|].
  assert (vm_inv Ds m') as Hinv' by (eapply step_inv; [done|]; by eapply step_clear_page).
  split; [apply (confined_keeps _ _ _ pd); try done; apply Hch|]. intros pd' va Hpd' Hva. unfold on_page. destruct (decide (pd' = pd)) as [->|Hne].
  - rewrite (ch_mapping _ _ _ _ _ Hch) by done. unfold same_page. destruct (Z.eqb_spec (va / 4096) (u / 4096)).
    + by rewrite decide_True.
    + by rewrite decide_False by tauto.
  - rewrite decide_False by tauto. apply (confined_mapping Ds m m' pd); try done. apply Hch.
Qed.
Lemma mapping_translate m pd va : mapping m pd va = None ↔ translate m pd va = None.
Proof. unfold mapping. by destruct (translate m pd va). Qed.
Lemma map_page Ds m pd u kp w :
  machine_ok Ds m → pd ∈ Ds → user u → (4096 | u) → user_page m kp → mapping m pd u = None → walk m pd u ≠ None →
  ∃ m', pagedir_set_page pd u kp w m = Ret (true, m') ∧ keeps Ds m m' ∧
    ∀ pd' va, pd' ∈ Ds → user va → mapping m' pd' va =
      if decide (on_page pd pd' va u) then Some (Z.land (user_pte kp w) MAP) else mapping m pd' va.
Proof.
  intros Hok Hpd Hu Hal Hkp Hn%mapping_translate Hw. pose proof (mo_inv _ _ Hok) as Hinv. pose proof (vi_wf _ _ Hinv pd Hpd) as Hwf.
  assert (can_map m pd u kp) as Hc.
  { split; try done; [by apply (user_page_valid m), Hkp; apply Hok|by apply (mo_ram _ _ Hok)|].
    intros ->. by apply (mo_dir _ _ Hok). }
  destruct (pagedir_set_page_Ret m pd u kp w Hwf (vi_pool _ _ Hinv) Hc) as (ok & m' & Hr & Hcpu & Hpw & Hwf' & Hcf & Htr & Hok').
  specialize (Hok' Hw) as ->. exists m'. split; [done|]. assert (vm_inv Ds m') as Hinv' by (eapply step_inv; [done|]; by eapply step_set_page).
  destruct Hcpu as (_ & Hdir & Hcr & _). split; [by apply (confined_keeps _ _ _ pd)|].
  intros pd' va Hpd' Hva. unfold on_page. destruct (decide (pd' = pd)) as [->|Hne].
  - unfold mapping. rewrite Htr by done. unfold same_page. destruct (Z.eqb_spec (va / 4096) (u / 4096)).
    + by rewrite decide_True.
    + by rewrite decide_False by tauto.
  - rewrite decide_False by tauto. by apply (confined_mapping Ds m m' pd).
Qed.
Lemma get_page_None Ds m pd u :
  machine_ok Ds m → pd ∈ Ds → user u → mapping m pd u = None → pagedir_get_page pd u m = Ret (None, m).
Proof.
  intros Hok Hpd Hu Hn%mapping_translate. rewrite pagedir_get_page_Ret, Hn; [done|by apply (vi_wf _ _ (mo_inv _ _ Hok))|done|by rewrite Hn].
Qed.

(** ** Allocating and freeing frames *)
(** Changes outside the kernel pool. *)
Lemma vm_inv_user Ds m m' :
  vm_inv Ds m → kernel_pool m' = kernel_pool m → cr3 m' = cr3 m → tlb m' = tlb m →
  (∀ p, kernel_page m p → pages m' !! p = pages m !! p) →
  vm_inv Ds m' ∧ ∀ pd va, pd ∈ Ds → user va → walk m' pd va = walk m pd va.
Proof.
  intros Hinv Hk Hcr Htl Hp. assert (∀ p, used m' p ↔ used m p) as Hus by (intros p; unfold used; by rewrite Hk).
  assert (∀ pd, pd ∈ Ds → wf_pd m' pd ∧ (∀ p, owns m' pd p ↔ owns m pd p) ∧ ∀ va, user va → walk m' pd va = walk m pd va) as Hpd.
  { intros pd Hpd. pose proof (vi_wf _ _ Hinv pd Hpd) as Hwf. apply frame_pd; [done| |by intros p ?%Hus].
    intros p Ho. by apply Hp, used_kernel, (owns_used m pd). }
  assert (active m' = active m) as Ha by (unfold active; by rewrite Hcr).
  split; [|intros pd va Hd; by apply Hpd]. split.
  - rewrite Hk. apply Hinv.
  - intros pd Hd. by apply Hpd.
  - intros pd pd' Hd Hd' Hne p Ho Ho'. apply (vi_sep _ _ Hinv pd pd' Hd Hd' Hne p); by apply Hpd.
  - rewrite Ha. apply Hinv.
  - intros va e Hu. rewrite Htl, Ha. intros He. unfold mapping, translate. rewrite (proj2 (proj2 (Hpd _ (vi_active _ _ Hinv)))) by done.
    by apply (vi_tlb _ _ Hinv).
Qed.
(** The state after a frame was taken or returned. *)
Record reserves (Ds : list Z) m m' (q : Z → Prop) : Prop := {
  rs_ok : machine_ok Ds m';
  rs_page p : user_page m' p ↔ user_page m p;
  rs_used p : user_used m' p ↔ q p;
  rs_active : active m' = active m;
  rs_walk pd va : pd ∈ Ds → user va → walk m' pd va = walk m pd va }.
Lemma reserves_intro Ds m m' k v :
  machine_ok Ds m → same_cpu m m' → kernel_pool m' = kernel_pool m → 0 ≤ k < bit_cnt (used_map (user_pool m)) →
  marked (user_pool m) k 1 v (user_pool m') →
  (∀ p, p ≠ pool_page (user_pool m) k → pages m' !! p = pages m !! p) →
  (∃ pg, pages m' !! pool_page (user_pool m) k = Some pg ∧ length pg = 1024%nat) →
  reserves Ds m m' (λ p, if decide (p = pool_page (user_pool m) k) then v = true else user_used m p).
Proof.
  intros Hok (Hram & Hdir & Hcr & Htl) Hk Hkr (Hwf & Hb & Hc & Hu) Hp Hpk.
  assert (∀ p, user_page m' p ↔ user_page m p) as Hus by (intros p; unfold user_page, pool_page; by rewrite Hb, Hc).
  assert (user_page m (pool_page (user_pool m) k)) as Hkp by (by exists k).
  destruct (vm_inv_user Ds m m') as [Hinv Hw]; [apply Hok|done|done|done| |].
  { intros p Hkn. apply Hp. intros ->. by apply (mo_apart _ _ Hok) in Hkp. }
  split; [split| | | |]; try done.
  - intros p Hpu%Hus Hn. apply (mo_apart _ _ Hok p Hpu). unfold kernel_page in *. by rewrite Hk in Hn.
  - intros p Hpu%Hus. rewrite Hram. by apply (mo_ram _ _ Hok).
  - rewrite Hdir. apply Hok.
  - intros p Hpu%Hus. destruct (decide (p = pool_page (user_pool m) k)) as [->|Hne]; [done|]. rewrite Hp by done. by apply (mo_pages _ _ Hok).
  - intros p. unfold user_used. rewrite Hc. unfold pool_page in *. rewrite Hb. split.
    + intros (j & Hj & -> & Hin). rewrite Hu in Hin by done. case_decide as Hd.
      * assert (j = k) as -> by (change PGSIZE with 4096 in Hd; lia). rewrite (proj2 (Z.leb_le k k)), (proj2 (Z.ltb_lt k (k + 1))) in Hin by lia. done.
      * exists j. split; [done|]. split; [done|]. destruct ((k <=? j) && (j <? k + 1)) eqn:E; [|done]. destruct Hd. f_equal. f_equal.
        apply andb_prop in E as [?%Z.leb_le ?%Z.ltb_lt]. lia.
    + case_decide as Hd.
      * intros ->. exists k. split; [done|]. split; [done|]. rewrite Hu by done. by rewrite (proj2 (Z.leb_le k k)), (proj2 (Z.ltb_lt k (k + 1))) by lia.
      * intros (j & Hj & -> & Hin). exists j. split; [done|]. split; [done|]. rewrite Hu by done.
        destruct ((k <=? j) && (j <? k + 1)) eqn:E; [|done]. destruct Hd. f_equal. f_equal. apply andb_prop in E as [?%Z.leb_le ?%Z.ltb_lt]. lia.
  - unfold active. by rewrite Hcr.
Qed.
Lemma take_frame Ds m :
  machine_ok Ds m →
  ∃ r m', palloc_get_page PAL_USER m = Ret (r, m') ∧ pages m' = pages m ∧
    match r with
    | None => reserves Ds m m' (user_used m) ∧ ∀ p, user_page m p → user_used m p
    | Some kp => user_page m kp ∧ ¬ user_used m kp ∧ reserves Ds m m' (λ p, if decide (p = kp) then true = true else user_used m p)
    end.
Proof.
  intros Hok. destruct (palloc_get_multiple_spec PAL_USER 1 m) as (r & m' & Hr & Hcpu & Hk & Hm); [apply Hok|done|done|].
  exists r, m'. split; [done|]. change (has_flag PAL_USER PAL_USER) with true in *. change (has_flag PAL_USER PAL_ZERO) with false in *.
  cbn [negb pool_of] in Hk, Hm. destruct r as [kp|].
  - destruct Hm as (k & -> & [(Hk0 & Hk1 & Hfree) _] & Hmk & _ & Hpg). split; [done|].
    assert (user_page m (pool_page (user_pool m) k)) as Hup by (exists k; split; [lia|done]). split; [done|]. split.
    + intros (j & Hj & Heq & Hin). unfold pool_page in Heq. change PGSIZE with 4096 in Heq. assert (j = k) as -> by lia. by rewrite Hfree in Hin by lia.
    + apply (reserves_intro Ds m m' k true); try done; [lia|intros p _; by rewrite Hpg|]. rewrite Hpg. by apply (mo_pages _ _ Hok).
  - destruct Hm as (Hno & Hup & Hpg). split; [done|]. destruct Hcpu as (Hram & Hdir & Hcr & Htl).
    destruct (vm_inv_user Ds m m') as [Hinv Hw]; [apply Hok|done|done|done|intros p _; by rewrite Hpg|]. split.
    + split; [split| | | |]; try done; unfold user_page, user_used, kernel_page, active in *; rewrite ?Hup, ?Hk, ?Hram, ?Hdir, ?Hpg, ?Hcr; try apply Hok; done.
    + intros p (k & Hkr & ->). exists k. split; [done|]. split; [done|]. destruct (in_use (user_pool m) k) eqn:E; [done|].
      destruct (Hno k). split; [lia|]. split; [lia|]. intros j Hj. by replace j with k by lia.
Qed.
Lemma from_pool_page p pg :
  pool_wf p → valid_page pg → page_from_pool p pg = true → ∃ k, 0 ≤ k < bit_cnt (used_map p) ∧ pg = pool_page p k.
Proof.
  intros [Hw Hb [q Hq] He] [Hv [r Hr]] Hf. pose proof (wf_cnt _ Hw) as Hc. unfold ELEM_BITS in Hc.
  unfold page_from_pool, pg_no, bitmap_size, pool_page, PHYS_BASE in *.
  change PGSIZE with 4096 in *. change PGBITS with 12 in Hf. rewrite !Z.shiftr_div_pow2 in Hf by lia. change (2 ^ 12) with 4096 in Hf.
  rewrite Hr, Hq, !Z.div_mul in Hf by lia. rewrite u32_small in Hf by lia. apply andb_prop in Hf as [H1%Z.leb_le H2%Z.ltb_lt].
  exists (r - q). lia.
Qed.
Lemma return_frame Ds m kp :
  machine_ok Ds m → user_page m kp →
  ∃ m', palloc_free_page (Some kp) m = Ret (tt, m') ∧ (∀ p, p ≠ kp → pages m' !! p = pages m !! p) ∧
    reserves Ds m m' (λ p, if decide (p = kp) then false = true else user_used m p).
Proof.
  intros Hok Hup. pose proof (mo_user _ _ Hok) as Hwf. pose proof (user_page_valid m kp Hwf Hup) as Hval.
  assert (page_from_pool (kernel_pool m) kp = false) as Hnk.
  { apply not_true_is_false. intros (k & Hk & Heq)%from_pool_page; [|apply Hok|done]. apply (mo_apart _ _ Hok kp Hup). by exists k. }
  destruct Hup as (k & Hk & ->). set (p := user_pool m) in *. destruct (page_from_pool_page p k Hwf Hk) as (H1 & H2 & H3 & H4).
  unfold palloc_free_page, palloc_free_multiple. rewrite (bindM_Ret (assertM _) _ m tt m) by (apply assertM_true; by rewrite H3).
  rewrite (proj2 (Z.eqb_neq 1 0)) by done. rewrite (bindM_Ret getM _ m m m) by done. fold p. rewrite Hnk, H1.
  rewrite (bindM_Ret (retM true) _ m true m) by done. rewrite (bindM_Ret (get_pool true) _ m p m) by done. rewrite H2.
  pose proof Hwf as [Hw Hpb Hal He]. pose proof (wf_cnt _ Hw) as Hcnt. unfold ELEM_BITS in Hcnt.
  destruct (fill_pages_Ret 1 (pool_page p k) 0xcccccccc m) as (ps & Hf & Hps & Ho); [done|unfold pool_page in *; change PGSIZE with 4096 in *; lia|].
  rewrite (bindM_Ret _ _ _ _ _ Hf). rewrite u32_small by lia.
  destruct (bitmap_set_multiple_spec (used_map p) Hw k 1) with (v := false) as (b' & Hs & Hu); [lia|].
  rewrite (bindM_Ret (liftO _) _ _ b' (set_pages ps m)) by (unfold liftO; by rewrite Hs). eexists. split; [reflexivity|].
  assert (∀ a, a ≠ pool_page p k → ps !! a = pages m !! a) as Hoth
    by (intros a Ha; apply Ho; intros j Hj ->; apply Ha; replace j with 0 by lia; lia).
  split; [done|]. apply (reserves_intro Ds m _ k false); try done; [by apply marked_range|].
  simpl. exists (replicate 1024 0xcccccccc). split; [|by rewrite length_replicate]. specialize (Hps 0 ltac:(lia)). by rewrite Z.mul_0_r, Z.add_0_r in Hps.
Qed.
Lemma mapping_walk m m' pd va : walk m' pd va = walk m pd va → mapping m' pd va = mapping m pd va.
Proof. unfold mapping, translate. by intros ->. Qed.
Lemma mapped_walk m pd va e : mapping m pd va = Some e → walk m pd va ≠ None.
Proof. unfold mapping, translate. by destruct (walk m pd va). Qed.
(** Unmapping a page and returning its frame. *)
Lemma drop_frame Ds m pd u kp :
  machine_ok Ds m → pd ∈ Ds → user u → (4096 | u) → user_page m kp →
  ∃ m1 m2, pagedir_clear_page pd u m = Ret (tt, m1) ∧ palloc_free_page (Some kp) m1 = Ret (tt, m2) ∧
    machine_ok Ds m2 ∧ active m2 = active m ∧ (∀ p, user_page m2 p ↔ user_page m p) ∧
    (∀ p, user_used m2 p ↔ user_used m p ∧ p ≠ kp) ∧
    (∀ p, user_page m p → p ≠ kp → pages m2 !! p = pages m !! p) ∧
    (∀ pd' va, pd' ∈ Ds → user va → mapping m2 pd' va = if decide (on_page pd pd' va u) then None else mapping m pd' va) ∧
    (∀ pd' va, pd' ∈ Ds → user va → walk m pd' va ≠ None → walk m2 pd' va ≠ None).
Proof.
  intros Hok Hpd Hu Hal Hkp. destruct (unmap_page Ds m pd u Hok Hpd Hu Hal) as (m1 & H1 & K & Hmap).
  destruct (return_frame Ds m1 kp (kp_ok _ _ _ K)) as (m2 & H2 & Hpg & [R1 R2 R3 R4 R5]); [by apply (keeps_page Ds m)|].
  exists m1, m2. split; [done|]. split; [done|]. split; [done|]. split; [by rewrite R4, (kp_active _ _ _ K)|].
  split; [intros p; by rewrite R2, (keeps_page Ds m m1)|]. split.
  { intros p. rewrite R3. case_decide as Hd; [naive_solver|]. rewrite (keeps_used Ds m m1) by done. tauto. }
  split; [intros p Hp Hne; by rewrite Hpg, (kp_pages _ _ _ K)|]. split.
  - intros pd' va Hpd' Hva. rewrite (mapping_walk m1 m2) by (by apply R5). by apply Hmap.
  - intros pd' va Hpd' Hva Hw. rewrite R5 by done. by apply (kp_walk _ _ _ K).
Qed.

(** ** Changes that no process notices *)
Record extends (Ds : list Z) m m' : Prop := {
  ex_ok : machine_ok Ds m';
  ex_used p : user_used m p → user_used m' p ∧ pages m' !! p = pages m !! p;
  ex_map : same_mappings Ds m m';
  ex_walk pd va : pd ∈ Ds → user va → walk m pd va ≠ None → walk m' pd va ≠ None }.
Lemma extends_refl Ds m : machine_ok Ds m → extends Ds m m.
Proof. by split. Qed.
Lemma keeps_extends Ds m m' : keeps Ds m m' → same_mappings Ds m m' → extends Ds m m'.
Proof.
  intros K Hm. split; [apply K| |done|apply K]. intros p Hp. split; [by apply (keeps_used Ds m)|]. by apply (kp_pages _ _ _ K), user_used_page.
Qed.
Lemma reserves_extends Ds m m' q :
  reserves Ds m m' q → (∀ p, user_used m p → q p) → pages m' = pages m → extends Ds m m'.
Proof.
  intros R Hq Hp. split; [apply R| | |].
  - intros p Hu. split; [by apply (rs_used _ _ _ _ R), Hq|by rewrite Hp].
  - intros pd va Hpd Hu. by apply mapping_walk, (rs_walk _ _ _ _ R).
  - intros pd va Hpd Hu. by rewrite (rs_walk _ _ _ _ R).
Qed.

(** ** Writing to a frame *)
Lemma write_frame Ds m kp pg :
  machine_ok Ds m → user_page m kp → length pg = 1024%nat →
  let m' := set_pages (<[kp := pg]> (pages m)) m in
  machine_ok Ds m' ∧ ∀ pd va, pd ∈ Ds → user va → walk m' pd va = walk m pd va.
Proof.
  intros Hok Hkp Hl m'. destruct (vm_inv_user Ds m m') as [Hinv Hw]; [apply Hok|done|done|done| |].
  { intros p Hp. apply lookup_insert_ne. intros <-. by apply (mo_apart _ _ Hok) in Hkp. }
  split; [|done]. split; try apply Hok; [done|]. intros p Hp. simpl. destruct (decide (p = kp)) as [->|Hne].
  - rewrite lookup_insert_eq. eauto.
  - rewrite lookup_insert_ne by done. by apply (mo_pages _ _ Hok).
Qed.

(** ** Switching directories, and accesses of user programs *)
Record unnoticed (Ds : list Z) m m' : Prop := {
  un_extends : extends Ds m m';
  un_used p : user_used m' p → user_used m p;
  un_page p : user_page m p → user_page m' p }.
Lemma activate_Ret Ds m pd :
  machine_ok Ds m → pd ∈ Ds → ∃ m', pagedir_activate (Some pd) m = Ret (tt, m') ∧ unnoticed Ds m m' ∧ active m' = pd.
Proof.
  intros Hok Hpd. pose proof (mo_inv _ _ Hok) as Hinv. destruct (used_valid m pd) as [Hv _]; [apply Hinv| |].
  { apply (owns_used m pd); [by apply Hinv|by left]. }
  assert (pagedir_activate (Some pd) m = Ret (tt, set_tlb ∅ (set_cr3 (pd - PHYS_BASE) m))) as Hr.
  { unfold pagedir_activate. rewrite (bindM_Ret getM _ m m m) by done.
    by rewrite (bindM_Ret (liftO _) _ m (pd - PHYS_BASE) m) by (unfold liftO; simpl; rewrite vtop_Ret; [done|lia]). }
  eexists. split; [exact Hr|]. split; [|unfold active; simpl; lia]. split; [|done|done].
  split; [|done|done|done]. pose proof (inv_activate Ds m _ pd Hinv Hpd Hr) as Hinv'. destruct Hok. by split.
Qed.
Lemma access_Ret Ds m va write :
  machine_ok Ds m → user va →
  ∃ m', mmu_access va write m = Ret (mapping m (active m) va, m') ∧ unnoticed Ds m m' ∧ active m' = active m.
Proof.
  intros Hok Hu. pose proof (mo_inv _ _ Hok) as Hinv. destruct (tlb m !! (va / 4096)) as [e|] eqn:Et.
  - exists m. unfold mmu_access. rewrite Et, (vi_tlb _ _ Hinv va e Hu Et). split; [done|]. split; [|done]. split; [by apply extends_refl|done..].
  - destruct (mmu_access_Ret m va write) as (m' & Hr & Hwf & Hcf & _ & Hcr & Hdir & Hmap & _); [by apply Hinv, Hinv|done|done|].
    exists m'. split; [done|]. destruct (inv_access Ds m m' va write _ Hinv Hu Hr) as [Hinv' _].
    assert (keeps Ds m m') as K by (apply (confined_keeps _ _ _ (active m)); try done; apply Hinv). split; [|apply K].
    split; [|by intros p ?%(keeps_used Ds m)|by intros p ?%(keeps_page Ds m m')]. apply keeps_extends; [done|]. intros pd va' Hpd Hu'.
    destruct (decide (pd = active m)) as [->|Hne]; [by apply Hmap|]. apply (confined_mapping Ds m m' (active m)); try done. apply Hinv.
Qed.
(** A user entry, without its accessed and dirty bits. *)
Lemma user_entry kp w : valid_page kp → Z.land (user_pte kp w) MAP = user_pte kp w.
Proof.
  intros Hv. pose proof (phys_aligned kp Hv) as [q Hq]. destruct Hv as [Hv _]. unfold user_pte.
  assert (0 ≤ q * 4096 < 2 ^ 30) as Hr by (rewrite <-Hq; unfold PHYS_BASE in *; lia). rewrite Hq. clear Hq Hv.
  set (f := if w then 7 else 5). assert (0 ≤ f < 8 ∧ Z.land f MAP = f) as [Hf Hfm] by (by destruct w).
  rewrite <-lor_flags by (first [lia|by exists q]). rewrite Z.land_lor_distr_l, Hfm. f_equal.
  change MAP with (Z.lor 0xfffff000 7). rewrite Z.land_lor_distr_r, land_page by lia. rewrite Z.div_mul by lia.
  change 7 with (Z.ones 3). rewrite Z.land_ones by lia. change (2 ^ 3) with 8. replace (q * 4096) with (q * 512 * 8) by lia. rewrite Z.mod_mul by lia. apply Z.lor_0_r.
Qed.
Lemma user_entry_page kp w : valid_page kp → table_of (user_pte kp w) = kp.
Proof. intros Hv. unfold user_pte. by rewrite table_of_flags by (first [done|destruct w; lia]). Qed.
Lemma user_entry_writable kp : valid_page kp → has_flag (user_pte kp true) PTE_W = true.
Proof.
  intros Hv. pose proof (phys_aligned kp Hv) as Ha. destruct Hv as [Hv _]. unfold user_pte, PHYS_BASE in *. change PTE_W with (2 ^ 1).
  by rewrite flag_low by (first [done|lia]).
Qed.
