(* ===== verification/VmSpec.v ===== *)
(** * Virtual memory is transparent

    Evicting frames and bringing pages back on page faults does not change what a
    process finds in its memory: the pages in frames and the pages on the swap
    device together behave as one flat memory, as long as the frame to evict does
    not hold a stack page. *)

From stdpp Require Import base numbers list gmap.
From S2P Require Import Prelude Bytes KList KListRepr Bitmap Hash Inode Palloc Pagedir PagedirSpec Block BlockSpec Swap SwapSpec Vm VmMach.
Local Open Scope Z_scope.

(** ** The bytes of a page *)
Lemma words_of_bytes n bs : length bs = (4 * n)%nat → Forall (λ b, 0 ≤ b < 256) bs → concat (to_le 4 <$> words_of n bs) = bs.
Proof.
  revert bs. induction n as [|n IH]; intros bs Hl Hb; [by destruct bs|]. cbn [words_of fmap list_fmap concat].
  rewrite IH by (rewrite ?length_drop; try lia; by apply Forall_drop).
  assert (length (take 4 bs) = 4%nat) as Ht by (rewrite length_take; lia).
  pose proof (to_le_le 4 (take 4 bs)) as Hle. rewrite Hle; [apply take_drop|done|by apply Forall_take].
Qed.
Lemma page_bytes_length pg : length pg = 1024%nat → length (page_bytes pg) = 4096%nat.
Proof.
  intros Hl. transitivity (4 * length pg)%nat; [|lia]. clear Hl. unfold page_bytes.
  induction pg as [|w pg IH]; [done|]. cbn [fmap list_fmap concat]. rewrite length_app, to_le_length, IH. simpl. lia.
Qed.
Lemma page_bytes_range pg : Forall (λ b, 0 ≤ b < 256) (page_bytes pg).
Proof. unfold page_bytes. apply Forall_concat, Forall_forall. intros bs (w & -> & _)%list_elem_of_fmap. apply to_le_bytes. Qed.
Lemma splice_whole {A} (d l : list A) : length d = length l → splice 0 d l = d.
Proof. intros Hl. unfold splice. rewrite take_0, drop_ge by lia. by rewrite app_nil_r. Qed.

Lemma take_S_elem {A} k (l : list A) x : x ∈ take k l → x ∈ take (S k) l.
Proof. intros Hx. apply list_elem_of_lookup in Hx as [i [Hi Hk]%lookup_take_Some]. apply list_elem_of_lookup. exists i. rewrite lookup_take_lt by lia. done. Qed.
Lemma elem_of_take {A} k (l : list A) x : x ∈ take k l → x ∈ l.
Proof. intros Hx. rewrite <-(take_drop k l). apply elem_of_app. by left. Qed.
Section paging.
  (** [rw]: the pages, by owner and address, that are mapped for writing. *)
  Context {D : Type} `{StorageLaws D} (Ds : list Z) (rw : Z * Z → bool).
  Implicit Types (v : vm D) (sm : gmap (Z * Z) (list Z)) (fl L : list loc).
(** ** Frames and swapped pages *)
Definition fkey (x : struct_frame) : Z * Z := (owner_thread x, upage x).
(** A frame holds a page that is mapped in its owner's page directory, for
    writing too if it is one of the writable pages. *)
Definition mapped_to (m : machine) (pd : Z) (x : struct_frame) (kp : Z) : Prop :=
  ∃ w, mapping m pd (upage x) = Some (Z.land (user_pte kp w) MAP) ∧ (rw (fkey x) = true → w = true).
Record frame_ok v (x : struct_frame) (kp : Z) : Prop := {
  fo_kpage : kpage x = Some kp;
  fo_used : user_used (mach v) kp;
  fo_pd : ∃ pd, pagedir v !! owner_thread x = Some pd ∧ pd ∈ Ds ∧ mapped_to (mach v) pd x kp;
  fo_user : user (upage x);
  fo_aligned : (4096 | upage x) }.
(** [fl]: the frames in use; [sm]: the pages on the swap device, by owner and
    address. *)
Record resident v fl sm : Prop := {
  rd_mach : machine_ok Ds (mach v);
  rd_frames l : l ∈ fl → ∃ x kp, frames v !! l = Some x ∧ frame_ok v x kp;
  rd_keys l l' x x' : l ∈ fl → l' ∈ fl → frames v !! l = Some x → frames v !! l' = Some x' → fkey x = fkey x' → l = l';
  rd_kpages l l' x x' : l ∈ fl → l' ∈ fl → frames v !! l = Some x → frames v !! l' = Some x' → kpage x = kpage x' → l = l';
  rd_swap : swap_rel (swp v) sm;
  rd_swapped t u bs : sm !! (t, u) = Some bs → Forall (λ b, 0 ≤ b < 256) bs ∧
    ∃ pd, pagedir v !! t = Some pd ∧ pd ∈ Ds ∧ user u ∧ (4096 | u) ∧ mapping (mach v) pd u = None ∧ walk (mach v) pd u ≠ None;
  rd_inj t t' pd : pagedir v !! t = Some pd → pagedir v !! t' = Some pd → t = t' }.
Record table v L : Prop := {
  tb_list : list_repr (links v) frame_table L;
  tb_fresh l : l ∈ nodes frame_table L → (l < fresh v)%N }.
(** What a process finds in a page. *)
Definition contents v fl sm (k : Z * Z) (bs : list Z) : Prop :=
  sm !! k = Some bs ∨
  ∃ l x kp pg, l ∈ fl ∧ frames v !! l = Some x ∧ fkey x = k ∧ kpage x = Some kp ∧ pages (mach v) !! kp = Some pg ∧ bs = page_bytes pg.
Lemma keeps_refl m : machine_ok Ds m → keeps Ds m m.
Proof. by split. Qed.
Lemma frame_page v x kp : frame_ok v x kp → machine_ok Ds (mach v) → ∃ pg, pages (mach v) !! kp = Some pg ∧ length pg = 1024%nat.
Proof. intros Hx Hok. apply (mo_pages _ _ Hok), user_used_page, Hx. Qed.
(** A change of the machine that no process notices. *)
Lemma resident_step v v' fl sm :
  resident v fl sm → extends Ds (mach v) (mach v') →
  (∀ l, l ∈ fl → frames v' !! l = frames v !! l) → swp v' = swp v → pagedir v' = pagedir v →
  resident v' fl sm ∧ ∀ k bs, contents v' fl sm k bs ↔ contents v fl sm k bs.
Proof.
  intros R K Hf Hs Hp. pose proof (ex_map _ _ _ K) as Hm. split; [split|].
  - apply K.
  - intros l Hl. rewrite Hf by done. destruct (rd_frames _ _ _ R l Hl) as (x & kp & Hx & [F1 F2 (pd & F3 & F4 & F5) F6 F7]).
    exists x, kp. split; [done|]. split; [done|by apply (ex_used _ _ _ K)| |done..]. exists pd. unfold mapped_to. rewrite Hp, Hm by done. done.
  - intros l l' x x' Hl Hl'. rewrite !Hf by done. by apply (rd_keys _ _ _ R).
  - intros l l' x x' Hl Hl'. rewrite !Hf by done. by apply (rd_kpages _ _ _ R).
  - rewrite Hs. apply R.
  - intros t u bs Hsm. destruct (rd_swapped _ _ _ R t u bs Hsm) as (Hb & pd & H1 & H2 & H3 & H4 & H5 & H6). split; [done|].
    exists pd. rewrite Hp, Hm by done. do 5 (split; [done|]). by apply (ex_walk _ _ _ K).
  - rewrite Hp. apply (rd_inj _ _ _ R).
  - intros k bs. unfold contents. apply or_iff_compat_l.
    split; intros (l & x & kp & pg & Hl & Hx & Hk & Hkp & Hpg & Hbs); exists l, x, kp, pg; rewrite Hf in * by done;
      destruct (rd_frames _ _ _ R l Hl) as (x' & kp' & Hx' & Hok); rewrite Hx in Hx'; injection Hx' as <-;
      rewrite (fo_kpage _ _ _ Hok) in Hkp; injection Hkp as <-; destruct (ex_used _ _ _ K _ (fo_used _ _ _ Hok)) as [_ Hpp];
      do 3 (split; [done|]); (split; [apply Hok|]); (split; [|done]); congruence.
Qed.
(** Functions that only read their part of the state. *)
Lemma on_mach_read {A} (f : M machine A) v a : f (mach v) = Ret (a, mach v) → on_mach f v = Ret (a, v).
Proof. intros Hf. etrans; [by apply zoom_Ret|by destruct v]. Qed.
Lemma on_links_read {A} (f : M heap A) v a : f (links v) = Ret (a, links v) → on_links f v = Ret (a, v).
Proof. intros Hf. etrans; [by apply zoom_Ret|by destruct v]. Qed.
Lemma on_swap_read {A} (f : M (swap D) A) v a : f (swp v) = Ret (a, swp v) → on_swap f v = Ret (a, v).
Proof. intros Hf. etrans; [by apply zoom_Ret|by destruct v]. Qed.
Lemma get_frame_Ret v l x : frames v !! l = Some x → get_frame l v = Ret (x, v).
Proof. unfold get_frame. by intros ->. Qed.
Lemma get_pagedir_Ret v t pd : pagedir v !! t = Some pd → get_pagedir t v = Ret (pd, v).
Proof. unfold get_pagedir. by intros ->. Qed.

(** ** Choosing a frame *)
Lemma move_to_back h l fl :
  list_repr h frame_table (l :: fl) →
  ∃ n h1 h', list_remove l h = Ret (n, h1) ∧ list_push_back frame_table l h1 = Ret (tt, h') ∧ list_repr h' frame_table (fl ++ [l]) ∧ dom h' = dom h.
Proof.
  intros Hr. destruct (list_remove_repr h frame_table [] l fl Hr) as (h1 & H1 & Hr1 & Hf1). eexists _, h1.
  assert (l ∈ nodes frame_table (l :: fl)) as Hin by (rewrite elem_of_nodes; right; left; by left).
  destruct (list_push_back_repr h1 frame_table fl Hr1 l) as (h' & H2 & Hr2 & Hf2).
  - by apply (list_repr_not_null h frame_table (l :: fl)).
  - eapply frame_is_Some; [exact Hf1|]. by apply (list_repr_is_Some _ _ _ _ Hr).
  - destruct Hr as [Hnd _]. revert Hnd. rewrite elem_of_nodes. unfold nodes. rewrite NoDup_cons, <-app_comm_cons, NoDup_cons, !not_elem_of_cons, !not_elem_of_app, list_elem_of_singleton.
    intros ((Hh & _) & (Hl & Ht) & _). rewrite not_elem_of_cons in Ht. naive_solver.
  - exists h'. split; [done|]. split; [done|]. split; [done|]. by rewrite (proj1 Hf2), (proj1 Hf1).
Qed.
Lemma scan_accessed v l x pd fl fuel m1 :
  list_repr (links v) frame_table (l :: fl) → frames v !! l = Some x → pagedir v !! owner_thread x = Some pd →
  pagedir_is_accessed pd (upage x) (mach v) = Ret (false, m1) →
  ∃ h', scan_frames (S fuel) l v = Ret (Some l, set_links h' (set_mach m1 v)) ∧ list_repr h' frame_table (fl ++ [l]) ∧ dom h' = dom (links v).
Proof.
  intros Hr Hx Hpd Ha. destruct (move_to_back _ _ _ Hr) as (n & h1 & h' & H1 & H2 & Hr' & Hd). exists h'. split; [|done].
  cbn [scan_frames]. rewrite (bindM_Ret (on_links (list_tail frame_table)) _ v (tail frame_table) v) by (by apply on_links_read).
  assert ((l =? tail frame_table)%N = false) as ->.
  { apply N.eqb_neq. intros ->. destruct Hr as [Hnd _]. unfold nodes in Hnd. rewrite NoDup_cons, <-app_comm_cons, NoDup_cons in Hnd.
    destruct Hnd as (_ & Hn & _). apply Hn, elem_of_app. right. by left. }
  rewrite (bindM_Ret (get_frame l) _ v x v) by (by apply get_frame_Ret).
  rewrite (bindM_Ret (get_pagedir _) _ v pd v) by (by apply get_pagedir_Ret).
  rewrite (bindM_Ret (on_mach _) _ v false (set_mach m1 v)) by (by apply zoom_Ret). cbn [negb].
  rewrite (bindM_Ret (on_links _) _ _ n (set_links h1 (set_mach m1 v))) by (by apply zoom_Ret).
  by rewrite (bindM_Ret (on_links _) _ _ tt (set_links h' (set_mach m1 v))) by exact (zoom_Ret links set_links _ (set_links h1 (set_mach m1 v)) _ _ H2).
Qed.
Lemma get_frame_to_evict_Ret v l fl sm fuel :
  resident v (l :: fl) sm → list_repr (links v) frame_table (l :: fl) →
  ∃ m' h', get_frame_to_evict (S (S fuel)) v = Ret (Some l, set_links h' (set_mach m' v)) ∧
    keeps Ds (mach v) m' ∧ same_mappings Ds (mach v) m' ∧ list_repr h' frame_table (fl ++ [l]) ∧ dom h' = dom (links v).
Proof.
  intros R Hr. destruct (rd_frames _ _ _ R l) as (x & kp & Hx & [F1 F2 (pd & F3 & F4 & F5) F6 F7]); [by left|].
  pose proof (rd_mach _ _ _ R) as Hok. pose proof (vi_wf _ _ (mo_inv _ _ Hok) pd F4) as Hwf.
  assert (∃ m' h', scan_frames (S (S fuel)) l v = Ret (Some l, set_links h' (set_mach m' v)) ∧
    keeps Ds (mach v) m' ∧ same_mappings Ds (mach v) m' ∧ list_repr h' frame_table (fl ++ [l]) ∧ dom h' = dom (links v)) as (m' & h' & Hs & Hrest).
  { pose proof (is_accessed_Ret (mach v) pd (upage x) Hwf F6) as Ha. destruct (accessed (mach v) pd (upage x)) eqn:Eacc.
    - destruct (clear_accessed Ds (mach v) pd (upage x) Hok F4 F6) as (m' & Hc & K & Hm & Hacc).
      set (v1 := set_mach m' v). pose proof (is_accessed_Ret m' pd (upage x)) as Ha'. rewrite Hacc in Ha'.
      destruct (scan_accessed v1 l x pd fl fuel m') as (h' & Hs & Hr' & Hd); [done..|apply Ha'; [by apply (vi_wf _ _ (mo_inv _ _ (kp_ok _ _ _ K)))|done]|].
      exists m', h'. split; [|done]. cbn [scan_frames].
      rewrite (bindM_Ret (on_links (list_tail frame_table)) _ v (tail frame_table) v) by (by apply on_links_read).
      assert ((l =? tail frame_table)%N = false) as Hlt.
      { cbn [scan_frames] in Hs. rewrite (bindM_Ret (on_links (list_tail frame_table)) _ v1 (tail frame_table) v1) in Hs by done. by destruct (l =? tail frame_table)%N. }
      rewrite Hlt. rewrite (bindM_Ret (get_frame l) _ v x v) by (by apply get_frame_Ret).
      rewrite (bindM_Ret (get_pagedir _) _ v pd v) by (by apply get_pagedir_Ret).
      rewrite (bindM_Ret (on_mach _) _ v true v) by (by apply on_mach_read). cbn [negb].
      rewrite (bindM_Ret (on_mach _) _ v tt v1) by (by apply zoom_Ret). exact Hs.
    - destruct (scan_accessed v l x pd fl (S fuel) (mach v)) as (h' & Hs & Hr' & Hd); [done..|].
      exists (mach v), h'. split; [done|]. split; [by apply keeps_refl|]. done. }
  exists m', h'. split; [|done]. unfold get_frame_to_evict. cbn [evict_rounds].
  rewrite (bindM_Ret (on_links _) _ v l v) by (by apply on_links_read, (cursor_begin _ _ _ Hr)).
  by rewrite (bindM_Ret _ _ _ _ _ Hs).
Qed.

(** ** Evicting a frame *)
Lemma aligned_page u u' : (4096 | u) → (4096 | u') → u / 4096 = u' / 4096 → u = u'.
Proof. intros [q ->] [r ->]. rewrite !Z.div_mul by lia. by intros ->. Qed.
(** No page is both in a frame and on the swap device. *)
Lemma resident_disjoint v fl sm l x : resident v fl sm → l ∈ fl → frames v !! l = Some x → sm !! fkey x = None.
Proof.
  intros R Hl Hx. destruct (sm !! fkey x) as [bs|] eqn:E; [|done]. destruct (rd_frames _ _ _ R l Hl) as (x' & kp & Hx' & Hok).
  rewrite Hx in Hx'. injection Hx' as <-. destruct (fo_pd _ _ _ Hok) as (pd & Hpd & _ & w & Hmap & _).
  destruct (rd_swapped _ _ _ R _ _ _ E) as (_ & pd' & Hpd' & _ & _ & _ & Hmap' & _). rewrite Hpd in Hpd'. injection Hpd' as <-. by rewrite Hmap in Hmap'.
Qed.
(** The state after the frame [l] with the page [kp] has been moved to the
    swap device. *)
Lemma resident_evict v v' l fl sm x kp pg pd :
  resident v (l :: fl) sm → NoDup (l :: fl) → frames v !! l = Some x → frame_ok v x kp → pagedir v !! owner_thread x = Some pd → pd ∈ Ds →
  pages (mach v) !! kp = Some pg →
  machine_ok Ds (mach v') → (∀ p, user_page (mach v') p ↔ user_page (mach v) p) →
  (∀ p, user_used (mach v') p ↔ user_used (mach v) p ∧ p ≠ kp) →
  (∀ p, user_page (mach v) p → p ≠ kp → pages (mach v') !! p = pages (mach v) !! p) →
  (∀ pd' va, pd' ∈ Ds → user va → mapping (mach v') pd' va = if decide (on_page pd pd' va (upage x)) then None else mapping (mach v) pd' va) →
  (∀ pd' va, pd' ∈ Ds → user va → walk (mach v) pd' va ≠ None → walk (mach v') pd' va ≠ None) →
  swap_rel (swp v') (<[fkey x := page_bytes pg]> sm) → pagedir v' = pagedir v → (∀ f, f ≠ l → frames v' !! f = frames v !! f) →
  resident v' fl (<[fkey x := page_bytes pg]> sm) ∧
  ∀ k bs, contents v' fl (<[fkey x := page_bytes pg]> sm) k bs ↔ contents v (l :: fl) sm k bs.
Proof.
  intros R [Hnl Hnd]%NoDup_cons Hx Hok Hpd Hpds Hpg Hmo Hup Hus Hpgs Hmap Hw Hsw Hpdir Hfr.
  assert (∀ f, f ∈ fl → f ≠ l) as Hne by (intros f Hf ->; done).
  assert (∀ f x' kp', f ∈ fl → frames v !! f = Some x' → kpage x' = Some kp' → kp' ≠ kp) as Hkp.
  { intros f x' kp' Hf Hx' Hk' ->. apply (Hne f Hf). apply (rd_kpages _ _ _ R f l x' x); [by right|by left|done..|].
    by rewrite Hk', (fo_kpage _ _ _ Hok). }
  split; [split|].
  - done.
  - intros f Hf. destruct (rd_frames _ _ _ R f) as (x' & kp' & Hx' & Hok'); [by right|]. exists x', kp'. rewrite Hfr by auto. split; [done|].
    pose proof Hok' as [F1 F2 (pd' & F3 & F4 & F5) F6 F7]. split; [done| | |done|done].
    + apply Hus. split; [done|]. by apply (Hkp f x').
    + exists pd'. rewrite Hpdir. split; [done|]. split; [done|]. unfold mapped_to. rewrite Hmap, decide_False; [done| |done..].
      intros [-> Hpage]. apply (Hne f Hf). apply (rd_keys _ _ _ R f l x' x); [by right|by left|done..|]. unfold fkey.
      f_equal; [by eapply (rd_inj _ _ _ R)|]. apply aligned_page; [done|apply Hok|done].
  - intros f f' y y' Hf Hf'. rewrite !Hfr by auto. apply (rd_keys _ _ _ R); by right.
  - intros f f' y y' Hf Hf'. rewrite !Hfr by auto. apply (rd_kpages _ _ _ R); by right.
  - done.
  - intros t u bs Hsm. rewrite Hpdir. destruct (decide ((t, u) = fkey x)) as [Hk|Hk].
    + rewrite Hk, lookup_insert_eq in Hsm. injection Hsm as <-. injection Hk as -> ->. split; [apply page_bytes_range|].
      exists pd. split; [done|]. split; [done|]. split; [apply Hok|]. split; [apply Hok|]. split.
      * rewrite Hmap by (first [done|apply Hok]). by rewrite decide_True.
      * apply Hw; [done|apply Hok|]. destruct (fo_pd _ _ _ Hok) as (pd' & Hp' & _ & w & Hm & _). rewrite Hpd in Hp'. injection Hp' as <-. by eapply mapped_walk.
    + rewrite lookup_insert_ne in Hsm by done. destruct (rd_swapped _ _ _ R t u bs Hsm) as (Hb & pd' & H1 & H2 & H3 & H4 & H5 & H6).
      split; [done|]. exists pd'. do 4 (split; [done|]). split; [|by apply Hw]. rewrite Hmap by done. by case_decide.
  - rewrite Hpdir. apply (rd_inj _ _ _ R).
  - intros k bs. unfold contents. split.
    + intros [Hsm|(f & x' & kp' & pg' & Hf & Hx' & Hk & Hkp' & Hpg' & ->)].
      * destruct (decide (k = fkey x)) as [->|Hk]; [|left; by rewrite lookup_insert_ne in Hsm].
        rewrite lookup_insert_eq in Hsm. injection Hsm as <-. right. exists l, x, kp, pg. split; [by left|]. by rewrite (fo_kpage _ _ _ Hok).
      * right. exists f, x', kp', pg'. rewrite Hfr in Hx' by auto. split; [by right|]. do 3 (split; [done|]). split; [|done].
        rewrite <-(Hpgs kp'); [done| |by apply (Hkp f x')]. destruct (rd_frames _ _ _ R f) as (y & q & Hy & Hoky); [by right|].
        rewrite Hx' in Hy. injection Hy as <-. rewrite (fo_kpage _ _ _ Hoky) in Hkp'. injection Hkp' as <-. by apply user_used_page, Hoky.
    + intros [Hsm|(f & x' & kp' & pg' & Hf & Hx' & Hk & Hkp' & Hpg' & ->)].
      * left. rewrite lookup_insert_ne; [done|]. intros <-. by rewrite (resident_disjoint v (l :: fl) sm l x R ltac:(by left) Hx) in Hsm.
      * apply elem_of_cons in Hf as [->|Hf].
        -- rewrite Hx in Hx'. injection Hx' as <-. rewrite (fo_kpage _ _ _ Hok) in Hkp'. injection Hkp' as <-.
           rewrite Hpg in Hpg'. injection Hpg' as <-. left. by rewrite <-Hk, lookup_insert_eq.
        -- right. exists f, x', kp', pg'. rewrite Hfr by auto. do 4 (split; [done|]). split; [|done].
           rewrite Hpgs; [done| |by apply (Hkp f x')]. destruct (rd_frames _ _ _ R f) as (y & q & Hy & Hoky); [by right|].
           rewrite Hx' in Hy. injection Hy as <-. rewrite (fo_kpage _ _ _ Hoky) in Hkp'. injection Hkp' as <-. by apply user_used_page, Hoky.
Qed.
Lemma load_page_Ret v kp pg : pages (mach v) !! kp = Some pg → load_page kp v = Ret (page_bytes pg, v).
Proof. unfold load_page. by intros ->. Qed.
Lemma skip_stack_Ret v l x fuel :
  frames v !! l = Some x → user (upage x) → upage x ≤ u32 (PHYS_BASE - num v * PGSIZE) → skip_stack (S fuel) (Some l) v = Ret (Some l, v).
Proof.
  intros Hx [_ Hu] Hs. cbn [skip_stack]. rewrite (bindM_Ret _ _ _ _ _ (get_frame_Ret _ _ _ Hx)).
  rewrite (bindM_Ret (is_stack _) _ v false v).
  - unfold is_user_vaddr. by rewrite (proj2 (Z.ltb_lt _ _) Hu).
  - unfold is_stack. rewrite (bindM_Ret getM _ v v v) by done. unfold retM. by rewrite (proj2 (Z.ltb_ge _ _) Hs).
Qed.
Lemma frame_delete_Ret v l fl x pd kp :
  machine_ok Ds (mach v) → list_repr (links v) frame_table (fl ++ [l]) → frames v !! l = Some x → frame_ok v x kp →
  pagedir v !! owner_thread x = Some pd → pd ∈ Ds →
  ∃ m' h', frame_delete l v = Ret (tt, set_links (delete l h') (set_frames (delete l (frames v)) (set_mach m' v))) ∧
    list_repr h' frame_table fl ∧ dom h' = dom (links v) ∧
    machine_ok Ds m' ∧ active m' = active (mach v) ∧ (∀ p, user_page m' p ↔ user_page (mach v) p) ∧
    (∀ p, user_used m' p ↔ user_used (mach v) p ∧ p ≠ kp) ∧
    (∀ p, user_page (mach v) p → p ≠ kp → pages m' !! p = pages (mach v) !! p) ∧
    (∀ pd' va, pd' ∈ Ds → user va → mapping m' pd' va = if decide (on_page pd pd' va (upage x)) then None else mapping (mach v) pd' va) ∧
    (∀ pd' va, pd' ∈ Ds → user va → walk (mach v) pd' va ≠ None → walk m' pd' va ≠ None).
Proof.
  intros Hmo Hr Hx Hok Hpd Hpds.
  destruct (drop_frame Ds (mach v) pd (upage x) kp Hmo Hpds (fo_user _ _ _ Hok) (fo_aligned _ _ _ Hok)) as (m1 & m2 & H1 & H2 & Hrest);
    [by apply user_used_page, Hok|].
  destruct (list_remove_repr (links v) frame_table fl l [] Hr) as (h' & H3 & Hr' & Hf). rewrite app_nil_r in Hr'.
  exists m2, h'. split; [|split; [done|]; split; [apply Hf|done]]. unfold frame_delete. rewrite (bindM_Ret _ _ _ _ _ (get_frame_Ret _ _ _ Hx)).
  rewrite (bindM_Ret _ _ _ _ _ (get_pagedir_Ret _ _ _ Hpd)).
  rewrite (bindM_Ret (on_mach _) _ v tt (set_mach m1 v)) by exact (zoom_Ret mach set_mach _ v _ _ H1). rewrite (fo_kpage _ _ _ Hok).
  rewrite (bindM_Ret (on_mach _) _ _ tt (set_mach m2 v)) by exact (zoom_Ret mach set_mach _ (set_mach m1 v) _ _ H2).
  by rewrite (bindM_Ret (on_links _) _ _ _ (set_links h' (set_mach m2 v))) by exact (zoom_Ret links set_links _ (set_mach m2 v) _ _ H3).
Qed.
(** Only the machine, the swap space and the frame table change. *)
Definition vm_with v (m : machine) (w : swap D) (h : heap) (fr : gmap loc struct_frame) : vm D :=
  set_mach m (set_swp w (set_links h (set_frames fr v))).
Lemma frame_evict_Ret v l fl sm x fuel :
  resident v (l :: fl) sm → list_repr (links v) frame_table (l :: fl) → oracle v = [] → frames v !! l = Some x →
  upage x ≤ u32 (PHYS_BASE - num v * PGSIZE) → Z.of_nat (base.size sm) < st_cap (dev (swp v)) / 8 →
  ∃ m' w' h' bs, let v' := vm_with v m' w' h' (delete l (frames v)) in
    frame_evict (S (S fuel)) v = Ret (Some tt, v') ∧
    resident v' fl (<[fkey x := bs]> sm) ∧ list_repr h' frame_table fl ∧ dom h' = dom (links v) ∖ {[l]} ∧
    st_cap (dev w') = st_cap (dev (swp v)) ∧ active m' = active (mach v) ∧
    (∀ p, user_page m' p ↔ user_page (mach v) p) ∧ (∀ p, user_used m' p ↔ user_used (mach v) p ∧ Some p ≠ kpage x) ∧
    ∀ k b, contents v' fl (<[fkey x := bs]> sm) k b ↔ contents v (l :: fl) sm k b.
Proof.
  intros R Hr Ho Hx Hs Hcap. assert (NoDup (l :: fl)) as Hnd.
  { destruct Hr as [Hnd _]. unfold nodes in Hnd. rewrite NoDup_cons in Hnd. destruct Hnd as [_ Hnd]. by rewrite NoDup_app in Hnd; destruct Hnd. }
  destruct (get_frame_to_evict_Ret v l fl sm fuel R Hr) as (m1 & h1 & Hg & K & Hm & Hr1 & Hd1).
  set (v1 := set_links h1 (set_mach m1 v)) in *. destruct (resident_step v v1 (l :: fl) sm R (keeps_extends _ _ _ K Hm)) as [R1 Hc1]; [done..|].
  destruct (rd_frames _ _ _ R1 l) as (x' & kp & Hx' & Hok); [by left|]. assert (frames v1 !! l = Some x) as Hx1 by done.
  rewrite Hx1 in Hx'. injection Hx' as <-. destruct (fo_pd _ _ _ Hok) as (pd & Hpd & Hpds & _).
  destruct (frame_page v1 x kp Hok (rd_mach _ _ _ R1)) as (pg & Hpg & Hlen).
  destruct (swap_out_Ret (swp v1) sm (owner_thread x) (upage x) (page_bytes pg)) as (w' & Hw & Hsw & Hcap' & _);
    [apply R1|by apply page_bytes_length|by apply (resident_disjoint v1 (l :: fl) sm l x R1); [left|]|done|].
  set (v2 := set_swp w' v1).
  assert (frame_ok v2 x kp) as Hok2 by (by destruct Hok).
  destruct (frame_delete_Ret v2 l fl x pd kp (rd_mach _ _ _ R1) Hr1 Hx1 Hok2 Hpd Hpds) as (m' & h' & Hdel & Hr' & Hd' & Hmo & Hact & Hup & Hus & Hpgs & Hmap & Hwk).
  exists m', w', (delete l h'), (page_bytes pg). cbv zeta. set (v' := vm_with v m' w' (delete l h') (delete l (frames v))).
  destruct (resident_evict v1 v' l fl sm x kp pg pd R1 Hnd Hx1 Hok Hpd Hpds Hpg) as [R' Hc]; try done.
  { intros f Hf. by apply lookup_delete_ne. }
  split; [|split; [done|split; [|split; [|split; [done|split; [|split; [|split]]]]]]].
  - unfold frame_evict. rewrite (bindM_Ret _ _ _ _ _ Hg). fold v1. rewrite (bindM_Ret malloc_ok _ v1 true v1) by (unfold malloc_ok; simpl; by rewrite Ho).
    cbn [negb]. rewrite (bindE_Ret _ _ _ _ _ (skip_stack_Ret v1 l x (S fuel) Hx1 (fo_user _ _ _ Hok) Hs)).
    rewrite (bindM_Ret _ _ _ _ _ (get_frame_Ret _ _ _ Hx1)). rewrite (fo_kpage _ _ _ Hok). cbn [default from_option id].
    rewrite (bindM_Ret _ _ _ _ _ (load_page_Ret _ _ _ Hpg)).
    rewrite (bindM_Ret (on_swap _) _ v1 tt v2) by exact (zoom_Ret swp set_swp _ v1 _ _ Hw). by rewrite (bindM_Ret _ _ _ _ _ Hdel).
  - destruct Hr' as [Hn' Hl']. split; [done|]. eapply linked_frame; [|exact Hl']. intros a Ha. apply lookup_delete_ne. intros <-.
    destruct Hr1 as [Hn1 _]. revert Hn1 Ha. unfold nodes. rewrite <-app_assoc, !elem_of_cons, elem_of_app, NoDup_cons, NoDup_app. cbn [app]. rewrite NoDup_cons.
    set_solver.
  - by rewrite dom_delete_L, Hd', <-Hd1.
  - simpl. rewrite Hact. apply (kp_active _ _ _ K).
  - intros p. rewrite Hup. by apply (keeps_page Ds (mach v)).
  - intros p. rewrite Hus, (fo_kpage _ _ _ Hok). pose proof (keeps_used Ds (mach v) m1 p K). naive_solver.
  - intros k b. by rewrite Hc, Hc1.
Qed.

(** ** Taking a frame *)
Lemma add_frame v fl sm f kp m' t u :
  resident v fl sm → list_repr (links v) frame_table fl → is_Some (links v !! f) → f ∉ nodes frame_table fl → f ≠ NULL →
  ¬ user_used (mach v) kp → pages m' = pages (mach v) →
  reserves Ds (mach v) m' (λ p, if decide (p = kp) then true = true else user_used (mach v) p) →
  let x := Frame u (Some kp) t in
  ∃ h', let v' := vm_with v m' (swp v) h' (<[f := x]> (frames v)) in
    on_links (list_push_back frame_table f) (set_frames (<[f := x]> (frames v)) (set_mach m' v)) = Ret (tt, v') ∧
    resident v' fl sm ∧ list_repr h' frame_table (fl ++ [f]) ∧ dom h' = dom (links v) ∧ user_used m' kp ∧
    (∀ l y, l ∈ fl → frames v' !! l = Some y → kpage y ≠ Some kp) ∧
    ∀ k b, contents v' fl sm k b ↔ contents v fl sm k b.
Proof.
  intros R Hr Hf Hn Hnull Hfree Hpg Hres x. destruct (list_push_back_repr _ _ _ Hr f Hnull Hf Hn) as (h' & H1 & Hr' & Hd & _).
  assert (∀ l, l ∈ fl → l ≠ f) as Hne by (intros l Hl ->; apply Hn, elem_of_nodes; auto).
  exists h'. cbv zeta. set (v' := vm_with _ _ _ _ _). destruct (resident_step v v' fl sm R) as [R' Hc]; [| |done|done|].
  { apply (reserves_extends _ _ _ _ Hres); [|done]. intros p Hp. by case_decide. }
  { intros l Hl. by apply lookup_insert_ne, not_eq_sym, Hne. }
  split; [exact (zoom_Ret links set_links _ (set_frames _ (set_mach m' v)) _ _ H1)|].
  split; [done|]. split; [done|]. split; [done|]. split; [|split; [|done]].
  - apply (rs_used _ _ _ _ Hres). by rewrite decide_True.
  - intros l y Hl Hy Hk. simpl in Hy. rewrite lookup_insert_ne in Hy by (by apply not_eq_sym, Hne).
    destruct (rd_frames _ _ _ R l Hl) as (y' & kp' & Hy' & Hok). rewrite Hy in Hy'. injection Hy' as <-.
    rewrite (fo_kpage _ _ _ Hok) in Hk. injection Hk as ->. by apply Hfree, Hok.
Qed.
(** The frames in [fl], in the order of the frame table, and the pages in [sm]
    on the swap device make up the memory [mem] of the processes.  Every page of
    the user pool that is in use belongs to a frame. *)
Record represents v fl sm (mem : gmap (Z * Z) (list Z)) : Prop := {
  rp_res : resident v fl sm;
  rp_list : list_repr (links v) frame_table fl;
  rp_fresh a : is_Some (links v !! a) → (a < fresh v)%N;
  rp_owned p : user_used (mach v) p → ∃ l x, l ∈ fl ∧ frames v !! l = Some x ∧ kpage x = Some p;
  rp_some : ∃ p, user_page (mach v) p;
  rp_mem k bs : mem !! k = Some bs ↔ contents v fl sm k bs;
  rp_keys t u bs : mem !! (t, u) = Some bs → 0x08048000 ≤ u }.
(** The same when allocations succeed and the swap device could hold everything. *)
Record paging v fl sm (mem : gmap (Z * Z) (list Z)) : Prop := {
  pg_res : resident v fl sm;
  pg_list : list_repr (links v) frame_table fl;
  pg_fresh a : is_Some (links v !! a) → (a < fresh v)%N;
  pg_oracle : oracle v = [];
  pg_owned p : user_used (mach v) p → ∃ l x, l ∈ fl ∧ frames v !! l = Some x ∧ kpage x = Some p;
  pg_some : ∃ p, user_page (mach v) p;
  pg_mem k bs : mem !! k = Some bs ↔ contents v fl sm k bs;
  pg_keys t u bs : mem !! (t, u) = Some bs → 0x08048000 ≤ u;
  pg_room : Z.of_nat (base.size mem) ≤ st_cap (dev (swp v)) / 8 }.
Lemma represents_paging v fl sm mem :
  represents v fl sm mem → oracle v = [] → Z.of_nat (base.size mem) ≤ st_cap (dev (swp v)) / 8 → paging v fl sm mem.
Proof. by intros []. Qed.
Lemma paging_represents v fl sm mem : paging v fl sm mem → represents v fl sm mem.
Proof. by intros []. Qed.
(** The highest address that [is_stack] does not take for a part of the stack. *)
Definition stack_base v : Z := u32 (PHYS_BASE - num v * PGSIZE).
(** The first frame of the table holds a stack page. *)
Definition stack_first v fl : Prop :=
  ∃ l fl1 x, fl = l :: fl1 ∧ frames v !! l = Some x ∧ stack_base v < upage x.
(** The first [k] frames of the table hold no stack pages. *)
Definition lead (k : nat) v fl : Prop :=
  (k ≤ length fl)%nat ∧ ∀ l x, l ∈ take k fl → frames v !! l = Some x → upage x ≤ stack_base v.
(** All frames are in use. *)
Definition full (m : machine) : Prop := ∀ p, user_page m p → user_used m p.
Lemma full_dec m : machine_ok Ds m → full m ∨ ¬ full m.
Proof.
  intros Hok. destruct (take_frame Ds m Hok) as ([kp|] & m' & _ & _ & Hr); [right|left; exact (proj2 Hr)].
  destruct Hr as (Hp & Hfree & _). intros Hf. by apply Hfree, Hf.
Qed.
Lemma stack_first_dec v fl : stack_first v fl ∨ ∀ l fl1 x, fl = l :: fl1 → frames v !! l = Some x → upage x ≤ stack_base v.
Proof.
  destruct fl as [|l fl]; [by right|]. destruct (frames v !! l) as [x|] eqn:E; [|right; congruence].
  destruct (Z.lt_ge_cases (stack_base v) (upage x)); [left; by exists l, fl, x|right; intros l' fl1 x' [= <- <-] ?; congruence].
Qed.
Lemma lead_first k v fl : lead (S k) v fl → ¬ stack_first v fl.
Proof.
  intros [_ Hl] (l & fl1 & x & -> & Hx & Hs). specialize (Hl l x ltac:(by left) Hx). lia.
Qed.
Lemma lead_same k v v' fl : frames v' = frames v → num v' = num v → lead k v fl → lead k v' fl.
Proof. intros Hf Hn. unfold lead, stack_base. by rewrite Hf, Hn. Qed.
Lemma lead_snoc k v fl f : lead k v fl → lead k v (fl ++ [f]).
Proof. intros [H1 H2]. split; [rewrite length_app; lia|]. by rewrite take_app_le. Qed.
Lemma lead_less k v fl : lead (S k) v fl → lead k v fl.
Proof. intros [H1 H2]. split; [lia|]. intros l x Hl. by apply H2, take_S_elem. Qed.
Lemma paging_room v l fl sm mem : paging v (l :: fl) sm mem → Z.of_nat (base.size sm) < st_cap (dev (swp v)) / 8.
Proof.
  intros P. pose proof (pg_room _ _ _ _ P). pose proof (pg_res _ _ _ _ P) as R. destruct (rd_frames _ _ _ R l) as (x & kp & Hx & Hok); [by left|].
  destruct (frame_page _ _ _ Hok (rd_mach _ _ _ R)) as (pg & Hpg & _).
  assert (mem !! fkey x = Some (page_bytes pg)) as Hm.
  { apply (pg_mem _ _ _ _ P). right. exists l, x, kp, pg. split; [by left|]. by rewrite (fo_kpage _ _ _ Hok). }
  assert (sm ⊂ mem) as Hsub%map_subset_size; [|lia]. split.
  - apply map_subseteq_spec. intros k b Hk. apply (pg_mem _ _ _ _ P). by left.
  - intros Hs. pose proof (lookup_weaken _ _ _ _ Hm Hs) as Hin. by rewrite (resident_disjoint v (l :: fl) sm l x R ltac:(by left) Hx) in Hin.
Qed.
(** What [frame_create] leaves: a frame [f] for the page [u] of [t], which is
    not mapped yet. *)
Record created v v' fl sm (f : loc) (kp : Z) (t u : Z) fl' sm' : Prop := {
  cr_res : resident v' fl' sm';
  cr_list : list_repr (links v') frame_table (fl' ++ [f]);
  cr_fresh a : is_Some (links v' !! a) → (a < fresh v')%N;
  cr_frame : frames v' !! f = Some (Frame u (Some kp) t);
  cr_used : user_used (mach v') kp;
  cr_new l y : l ∈ fl' → frames v' !! l = Some y → kpage y ≠ Some kp;
  cr_owned p : user_used (mach v') p → p = kp ∨ ∃ l x, l ∈ fl' ∧ frames v' !! l = Some x ∧ kpage x = Some p;
  cr_pages p : user_page (mach v') p ↔ user_page (mach v) p;
  cr_swapped : sm ⊆ sm';
  cr_cap : st_cap (dev (swp v')) = st_cap (dev (swp v));
  cr_contents k b : contents v' fl' sm' k b ↔ contents v fl sm k b;
  cr_rest : cur v' = cur v ∧ pagedir v' = pagedir v ∧ oracle v' = oracle v ∧ num v' = num v ∧ active (mach v') = active (mach v);
  cr_lock : page_fault_lock v' = page_fault_lock v;
  cr_lead k : lead (S k) v fl → lead k v' fl' }.
Section create.
  Context v fl sm mem (P : paging v fl sm mem).
Let f := fresh v.
Let h0 := <[f := ListElem NULL NULL]> (links v).
Let v0 := set_links h0 (set_fresh (f + 1)%N v).
Lemma fresh_not_node : (f ∉ nodes frame_table fl) ∧ f ≠ NULL.
Proof.
  assert (∀ a, is_Some (links v !! a) → a ≠ f) as Hf by (intros a Ha ->; pose proof (pg_fresh _ _ _ _ P f Ha); lia).
  split.
  - intros Hin. apply (Hf f); [|done]. by apply (list_repr_is_Some _ _ _ _ (pg_list _ _ _ _ P)).
  - pose proof (pg_fresh _ _ _ _ P (head frame_table)) as Hh. intros Hn. unfold f in Hn. rewrite Hn in Hh.
    apply (N.nlt_0_r (head frame_table)), Hh, (list_repr_is_Some _ _ _ _ (pg_list _ _ _ _ P)), elem_of_nodes. by left.
Qed.
Lemma new_frame_Ret : new_frame v = Ret (f, v0).
Proof. by destruct v. Qed.
Lemma new_frame_list : list_repr h0 frame_table fl.
Proof.
  destruct (pg_list _ _ _ _ P) as [Hn Hl]. split; [done|]. eapply linked_frame; [|exact Hl]. intros a Ha.
  apply lookup_insert_ne. intros <-. by destruct fresh_not_node.
Qed.
Lemma new_frame_fresh a : is_Some (h0 !! a) → (a < f + 1)%N.
Proof.
  destruct (decide (a = f)) as [->|Hne]; [lia|]. unfold h0. rewrite lookup_insert_ne by done. intros Ha%(pg_fresh _ _ _ _ P). unfold f. lia.
Qed.
(** A free frame. *)
Lemma create_free t u fuel kp m' :
  palloc_get_page PAL_USER (mach v) = Ret (Some kp, m') → pages m' = pages (mach v) → ¬ user_used (mach v) kp →
  reserves Ds (mach v) m' (λ p, if decide (p = kp) then true = true else user_used (mach v) p) →
  ∃ v', frame_create fuel PAL_USER t u v = Ret (Some f, v') ∧ created v v' fl sm f kp t u fl sm.
Proof.
  intros Hp Hpg Hfree Hres. destruct fresh_not_node as [Hn Hnull].
  destruct (resident_step v v0 fl sm (pg_res _ _ _ _ P)) as [R0 Hc0]; [apply extends_refl, (pg_res _ _ _ _ P)|done..|].
  destruct (add_frame v0 fl sm f kp m' t u R0 new_frame_list) as (h' & Hpush & R' & Hr' & Hd & Hu & Hk & Hc); [|done..|].
  { simpl. unfold h0. rewrite lookup_insert_eq. by eexists. }
  eexists. split; [unfold frame_create|split].
  - rewrite (bindM_Ret malloc_ok _ v true v) by (unfold malloc_ok; by rewrite (pg_oracle _ _ _ _ P)). cbn [negb].
    rewrite (bindM_Ret _ _ _ _ _ new_frame_Ret). rewrite (bindM_Ret (on_mach _) _ v0 (Some kp) (set_mach m' v0)) by exact (zoom_Ret mach set_mach _ v0 _ _ Hp).
    rewrite (bindM_Ret (put_frame _ _) _ _ tt (set_frames (<[f := Frame u (Some kp) t]> (frames v0)) (set_mach m' v0))) by done.
    rewrite (bindE_Ret (retM (Some tt)) _ _ tt (set_frames (<[f := Frame u (Some kp) t]> (frames v0)) (set_mach m' v0))) by done.
    by rewrite (bindM_Ret _ _ _ _ _ Hpush).
  - done.
  - done.
  - simpl. intros a. rewrite <-elem_of_dom, Hd, elem_of_dom. apply new_frame_fresh.
  - apply lookup_insert_eq.
  - done.
  - done.
  - intros p. simpl. rewrite (rs_used _ _ _ _ Hres). case_decide as Hpk; [by left|]. intros (l & x & Hl & Hx & Hkx)%(pg_owned _ _ _ _ P). right.
    exists l, x. split; [done|]. split; [|done]. rewrite lookup_insert_ne; [done|]. intros <-. apply Hn, elem_of_nodes. auto.
  - intros p. by apply (rs_page _ _ _ _ Hres).
  - done.
  - done.
  - intros k b. by rewrite Hc, Hc0.
  - do 4 (split; [done|]). apply Hres.
  - done.
  - intros k [H1 H2]. split; [lia|]. intros l x Hl. simpl. rewrite lookup_insert_ne.
    + intros Hx. apply (H2 l x); [|done]. by apply (take_S_elem k).
    + intros <-. apply Hn, elem_of_nodes. right. left. by eapply elem_of_take.
Qed.
(** No free frame: the first one of the table is evicted. *)
Lemma create_full t u fuel m1 l fl1 :
  fl = l :: fl1 → palloc_get_page PAL_USER (mach v) = Ret (None, m1) → pages m1 = pages (mach v) →
  reserves Ds (mach v) m1 (user_used (mach v)) → (∀ p, user_page (mach v) p → user_used (mach v) p) →
  (∀ x, frames v !! l = Some x → upage x ≤ stack_base v) →
  ∃ v' fl' sm' kp, frame_create (S (S fuel)) PAL_USER t u v = Ret (Some f, v') ∧ created v v' fl sm f kp t u fl' sm'.
Proof.
  intros Hfl Hp Hpg Hres Hfull Hstk. destruct fresh_not_node as [Hn Hnull]. set (y := Frame u None t).
  pose proof (pg_res _ _ _ _ P) as R. set (v1 := set_frames (<[f := y]> (frames v0)) (set_mach m1 v0)).
  assert (∀ a, a ∈ fl → a ≠ f) as Hne by (intros a Ha ->; apply Hn, elem_of_nodes; auto).
  destruct (resident_step v v1 fl sm R) as [R1 Hc1]; [by apply (reserves_extends _ _ _ _ Hres)| |done|done|].
  { intros a Ha. by apply lookup_insert_ne, not_eq_sym, Hne. }
  destruct (rd_frames _ _ _ R l) as (x & kp0 & Hx & Hok); [rewrite Hfl; by left|]. assert (l ≠ f) as Hlf by (apply Hne; rewrite Hfl; by left).
  assert (frames v1 !! l = Some x) as Hx1 by (simpl; by rewrite lookup_insert_ne by done).
  destruct (frame_page _ _ _ Hok (rd_mach _ _ _ R)) as (pg & Hpgx & _).
  assert (mem !! fkey x = Some (page_bytes pg)) as Hmx.
  { apply (pg_mem _ _ _ _ P). right. exists l, x, kp0, pg. split; [rewrite Hfl; by left|]. by rewrite (fo_kpage _ _ _ Hok). }
  pose proof P as P'. rewrite Hfl in P'. pose proof new_frame_list as Hr0. rewrite Hfl in R1, Hr0.
  destruct (frame_evict_Ret v1 l fl1 sm x fuel R1 Hr0) as (m2 & w2 & h2 & bs & Hev & R2 & Hr2 & Hd2 & Hcap & Hact & Hup & Hus & Hc2);
    [exact (pg_oracle _ _ _ _ P)|done|by apply Hstk|exact (paging_room _ _ _ _ _ P')|].
  set (v2 := vm_with v1 m2 w2 h2 (delete l (frames v1))) in *.
  destruct (take_frame Ds m2 (rd_mach _ _ _ R2)) as (r & m3 & Hp3 & Hpg3 & Hr3). destruct r as [kp|].
  2: { exfalso. destruct Hr3 as [_ Hr3]. apply (proj1 (Hus kp0)); [|by rewrite (fo_kpage _ _ _ Hok)]. apply Hr3, Hup, (rs_page _ _ _ _ Hres), user_used_page, Hok. }
  destruct Hr3 as (Hkp & Hfree & Hres3).
  destruct (add_frame v2 fl1 (<[fkey x := bs]> sm) f kp m3 t u R2 Hr2) as (h' & Hpush & R' & Hr' & Hd & Hu & Hk & Hc); [| |done..|].
  { rewrite <-elem_of_dom. simpl. rewrite Hd2. simpl. unfold h0. rewrite dom_insert_L. set_solver. }
  { intros Hin. apply Hn. rewrite Hfl. revert Hin. rewrite !elem_of_nodes, elem_of_cons. tauto. }
  eexists _, fl1, _, kp. split; [|split].
  - unfold frame_create. rewrite (bindM_Ret malloc_ok _ v true v) by (unfold malloc_ok; by rewrite (pg_oracle _ _ _ _ P)). cbn [negb].
    rewrite (bindM_Ret _ _ _ _ _ new_frame_Ret). rewrite (bindM_Ret (on_mach _) _ v0 None (set_mach m1 v0)) by exact (zoom_Ret mach set_mach _ v0 _ _ Hp).
    rewrite (bindM_Ret (put_frame _ _) _ _ tt v1) by done.
    rewrite (bindE_Ret _ _ v1 tt (set_frames (<[f := Frame u (Some kp) t]> (frames v2)) (set_mach m3 v2))).
    + by rewrite (bindM_Ret _ _ _ _ _ Hpush).
    + rewrite (bindE_Ret _ _ _ _ _ Hev). fold v2.
      by rewrite (bindM_Ret (on_mach _) _ v2 (Some kp) (set_mach m3 v2)) by exact (zoom_Ret mach set_mach _ v2 _ _ Hp3).
  - done.
  - done.
  - simpl. intros a. rewrite <-elem_of_dom, Hd. simpl. rewrite Hd2, elem_of_difference, elem_of_dom. intros [Ha _]. by apply new_frame_fresh.
  - apply lookup_insert_eq.
  - done.
  - done.
  - intros p. simpl. rewrite (rs_used _ _ _ _ Hres3). case_decide as Hpk; [by left|]. rewrite Hus. intros [Hpu Hpx]. right.
    apply (rs_used _ _ _ _ Hres), (pg_owned _ _ _ _ P) in Hpu as (l' & x' & Hl' & Hx' & Hkx'). exists l', x'.
    assert (l' ≠ l) as Hl by (intros ->; congruence). rewrite Hfl in Hl'. split; [set_solver|]. split; [|done].
    rewrite lookup_insert_ne, lookup_delete_ne, lookup_insert_ne; [done|..]; try done; apply not_eq_sym, Hne; by rewrite Hfl.
  - intros p. simpl. rewrite (rs_page _ _ _ _ Hres3), Hup. apply (rs_page _ _ _ _ Hres).
  - apply insert_subseteq. rewrite <-Hfl in R1. by apply (resident_disjoint v fl sm l x R); [rewrite Hfl; left|].
  - done.
  - intros k b. rewrite Hc, Hc2. rewrite <-Hfl. by rewrite Hc1.
  - do 4 (split; [done|]). simpl. rewrite (rs_active _ _ _ _ Hres3), Hact. apply Hres.
  - done.
  - intros k [L1 L2]. rewrite Hfl in L1, L2. simpl in L1. split; [lia|]. intros a z Ha.
    assert (a ∈ fl1) as Hin by (by eapply elem_of_take).
    assert (a ≠ l) as Hal.
    { intros ->. destruct (pg_list _ _ _ _ P) as [Hnd _]. rewrite Hfl in Hnd. unfold nodes in Hnd.
      rewrite NoDup_cons, <-app_comm_cons, NoDup_cons in Hnd. set_solver. }
    simpl. rewrite lookup_insert_ne, lookup_delete_ne, lookup_insert_ne;
      [|apply not_eq_sym, Hne; rewrite Hfl; by right|done|apply not_eq_sym, Hne; rewrite Hfl; by right].
    apply L2. simpl. by right.
Qed.
Lemma frame_create_Ret t u fuel :
  (full (mach v) → ¬ stack_first v fl) →
  ∃ v' fl' sm' kp, frame_create (S (S fuel)) PAL_USER t u v = Ret (Some f, v') ∧ created v v' fl sm f kp t u fl' sm'.
Proof.
  intros Hstk. destruct (take_frame Ds (mach v) (rd_mach _ _ _ (pg_res _ _ _ _ P))) as (r & m1 & Hp & Hpg & Hr). destruct r as [kp|].
  - destruct Hr as (_ & Hfree & Hres). destruct (create_free t u (S (S fuel)) kp m1) as (v' & H1 & H2); [done..|]. eauto 10.
  - destruct Hr as [Hres Hfull]. destruct (pg_some _ _ _ _ P) as [p Hp0]. destruct (pg_owned _ _ _ _ P p (Hfull p Hp0)) as (l & x & Hl & _).
    assert (∃ l0 fl1, fl = l0 :: fl1) as (l0 & fl1 & Hfl) by (clear -Hl; destruct fl; [by apply not_elem_of_nil in Hl|eauto]).
    apply (create_full t u fuel m1 l0 fl1); try done. destruct (stack_first_dec v fl) as [Hs|Hs]; [by destruct (Hstk Hfull)|].
    intros y Hy. by apply (Hs l0 fl1).
Qed.
End create.

(** ** Bringing a page back *)
Lemma resident_add v v' l fl sm kp pg pd t u bs :
  resident v fl sm → l ∉ fl → sm !! (t, u) = Some bs → pagedir v !! t = Some pd →
  frames v' !! l = Some (Frame u (Some kp) t) → (∀ f, f ∈ fl → frames v' !! f = frames v !! f) →
  user_used (mach v) kp → (∀ f y, f ∈ fl → frames v !! f = Some y → kpage y ≠ Some kp) →
  machine_ok Ds (mach v') → (∀ p, user_used (mach v') p ↔ user_used (mach v) p) →
  (∀ p, user_used (mach v) p → p ≠ kp → pages (mach v') !! p = pages (mach v) !! p) →
  pages (mach v') !! kp = Some pg → page_bytes pg = bs →
  (∀ pd' va, pd' ∈ Ds → user va → mapping (mach v') pd' va =
    if decide (on_page pd pd' va u) then Some (Z.land (user_pte kp true) MAP) else mapping (mach v) pd' va) →
  (∀ pd' va, pd' ∈ Ds → user va → walk (mach v) pd' va ≠ None → walk (mach v') pd' va ≠ None) →
  swap_rel (swp v') (delete (t, u) sm) → pagedir v' = pagedir v →
  resident v' (fl ++ [l]) (delete (t, u) sm) ∧
  ∀ k b, contents v' (fl ++ [l]) (delete (t, u) sm) k b ↔ contents v fl sm k b.
Proof.
  intros R Hl Hsm Hpd Hfl Hfr Hkp Hnew Hmo Hus Hpgs Hpg Hbs Hmap Hwk Hsw Hpdir.
  destruct (rd_swapped _ _ _ R _ _ _ Hsm) as (_ & pd0 & Hpd0 & Hpds & Hu & Hal & _). rewrite Hpd in Hpd0. injection Hpd0 as <-.
  assert (∀ f y, f ∈ fl → frames v !! f = Some y → fkey y ≠ (t, u)) as Hkey.
  { intros f y Hf Hy Heq. pose proof (resident_disjoint v fl sm f y R Hf Hy) as Hd. by rewrite Heq, Hsm in Hd. }
  split; [split|].
  - done.
  - intros f [Hf|Hf]%elem_of_snoc.
    + destruct (rd_frames _ _ _ R f Hf) as (y & kp' & Hy & [F1 F2 (pd' & F3 & F4 & F5) F6 F7]). exists y, kp'. rewrite Hfr by done. split; [done|].
      split; [done|by apply Hus| |done..]. exists pd'. rewrite Hpdir. split; [done|]. split; [done|]. unfold mapped_to. rewrite Hmap, decide_False; [done| |done..].
      intros [-> Hp]. apply (Hkey f y Hf Hy). unfold fkey. f_equal; [by eapply (rd_inj _ _ _ R)|by apply aligned_page].
    + subst f. eexists _, kp. split; [done|]. split; [done|by apply Hus| |done..]. exists pd. rewrite Hpdir. split; [done|]. split; [done|].
      exists true. simpl. rewrite Hmap by done. by rewrite decide_True.
  - intros f f' y y' [Hf| ->]%elem_of_snoc [Hf'| ->]%elem_of_snoc; rewrite ?Hfl, ?Hfr by done; [by apply (rd_keys _ _ _ R)| | |done].
    + intros Hy [= <-] Hk. by destruct (Hkey f y Hf Hy).
    + intros [= <-] Hy' Hk. by destruct (Hkey f' y' Hf' Hy').
  - intros f f' y y' [Hf| ->]%elem_of_snoc [Hf'| ->]%elem_of_snoc; rewrite ?Hfl, ?Hfr by done; [by apply (rd_kpages _ _ _ R)| | |done].
    + intros Hy [= <-] Hk. by destruct (Hnew f y Hf Hy).
    + intros [= <-] Hy' Hk. by destruct (Hnew f' y' Hf' Hy').
  - done.
  - intros t' u' b [Hne Hs]%lookup_delete_Some. destruct (rd_swapped _ _ _ R t' u' b Hs) as (Hb & pd' & H1 & H2 & H3 & H4 & H5 & H6).
    split; [done|]. exists pd'. rewrite Hpdir. do 4 (split; [done|]). split; [|by apply Hwk]. rewrite Hmap, decide_False; [done| |done..].
    intros [-> Hp]. apply Hne. f_equal; [by eapply (rd_inj _ _ _ R)|by apply aligned_page].
  - rewrite Hpdir. apply (rd_inj _ _ _ R).
  - intros k b. unfold contents. assert (∀ f y kp', f ∈ fl → frames v !! f = Some y → kpage y = Some kp' → pages (mach v') !! kp' = pages (mach v) !! kp') as Hsame.
    { intros f y kp' Hf Hy Hk. apply Hpgs; [|intros ->; by apply (Hnew f y)]. destruct (rd_frames _ _ _ R f Hf) as (y' & q & Hy' & Hok).
      rewrite Hy in Hy'. injection Hy' as <-. rewrite (fo_kpage _ _ _ Hok) in Hk. injection Hk as <-. apply Hok. }
    split.
    + intros [[_ Hs]%lookup_delete_Some|(f & y & kp' & pg' & Hf & Hy & Hk & Hkp' & Hpg' & ->)]; [by left|]. apply elem_of_snoc in Hf as [Hf| ->].
      * rewrite Hfr in Hy by done. right. exists f, y, kp', pg'. by rewrite <-(Hsame f y kp').
      * rewrite Hfl in Hy. injection Hy as <-. injection Hkp' as <-. rewrite Hpg in Hpg'. injection Hpg' as <-. left. by rewrite <-Hk, Hbs.
    + intros [Hs|(f & y & kp' & pg' & Hf & Hy & Hk & Hkp' & Hpg' & ->)].
      * destruct (decide (k = (t, u))) as [->|Hne]; [|left; by rewrite lookup_delete_ne]. rewrite Hsm in Hs. injection Hs as <-.
        right. exists l, (Frame u (Some kp) t), kp, pg. split; [apply elem_of_snoc; auto|]. done.
      * right. exists f, y, kp', pg'. rewrite Hfr, (Hsame f y kp') by done. split; [apply elem_of_snoc; auto|done].
Qed.
Lemma paging_step v v' fl sm mem :
  paging v fl sm mem → extends Ds (mach v) (mach v') →
  links v' = links v → frames v' = frames v → swp v' = swp v → pagedir v' = pagedir v → oracle v' = oracle v → num v' = num v → fresh v' = fresh v →
  (∀ p, user_used (mach v') p → user_used (mach v) p) → (∀ p, user_page (mach v) p → user_page (mach v') p) → paging v' fl sm mem.
Proof.
  intros P E Hl Hf Hs Hp Ho Hn Hfr Hus Hup. destruct (resident_step v v' fl sm (pg_res _ _ _ _ P) E) as [R Hc]; [by rewrite Hf|done|done|].
  destruct P as [_ P2 P3 P4 P5 [p0 P6] P7 P8 P9]. split; rewrite ?Hl, ?Hf, ?Hs, ?Ho, ?Hn, ?Hfr; try done; eauto.
  intros k bs. by rewrite Hc.
Qed.
Lemma pg_round va : 0 ≤ va < 2 ^ 32 → pg_round_down va = va / 4096 * 4096.
Proof. apply pg_round_down_div. Qed.
Lemma lookup_swap_Ret v fl sm t u bs :
  resident v fl sm → sm !! (t, u) = Some bs → ∃ e, on_swap (lookup_swap t u) v = Ret (Some e, v) ∧ t_blongs_to e = t.
Proof.
  intros R Hs. pose proof (sr_dom _ _ (rd_swap _ _ _ R) _ _ Hs) as (e & [= -> ->] & He)%list_elem_of_fmap. exists e. split; [|done].
  destruct (find_entry_Some _ _ _ e (sr_keys _ _ (rd_swap _ _ _ R)) He eq_refl) as [Hf _].
  apply on_swap_read. unfold lookup_swap. rewrite (bindM_Ret getM _ _ (swp v) (swp v)) by done. unfold retM. by rewrite Hf.
Qed.
Lemma install_page_Ret v pd u kp :
  machine_ok Ds (mach v) → pagedir v !! cur v = Some pd → pd ∈ Ds → user u → (4096 | u) → user_page (mach v) kp →
  mapping (mach v) pd u = None → walk (mach v) pd u ≠ None →
  ∃ m', install_page u kp true v = Ret (true, set_mach m' v) ∧ keeps Ds (mach v) m' ∧
    ∀ pd' va, pd' ∈ Ds → user va → mapping m' pd' va =
      if decide (on_page pd pd' va u) then Some (Z.land (user_pte kp true) MAP) else mapping (mach v) pd' va.
Proof.
  intros Hok Hpd Hpds Hu Hal Hkp Hn Hw. destruct (map_page Ds (mach v) pd u kp true Hok Hpds Hu Hal Hkp Hn Hw) as (m' & Hr & Hrest).
  exists m'. split; [|done]. unfold install_page. rewrite (bindM_Ret getM _ v v v) by done.
  rewrite (bindM_Ret _ _ _ _ _ (get_pagedir_Ret _ _ _ Hpd)).
  rewrite (bindM_Ret (on_mach _) _ v None v) by (apply on_mach_read; by apply (get_page_None Ds)).
  exact (zoom_Ret mach set_mach _ v _ _ Hr).
Qed.
Lemma store_page_Ret v kp pg bs :
  pages (mach v) !! kp = Some pg → length pg = 1024%nat → length bs = 4096%nat →
  store_page kp bs v = Ret (tt, set_mach (set_pages (<[kp := words_of 1024 bs]> (pages (mach v))) (mach v)) v).
Proof.
  intros Hp Hl Hb. unfold store_page. rewrite Hp. by rewrite splice_whole by (by rewrite page_bytes_length).
Qed.
Lemma words_of_length n bs : length (words_of n bs) = n.
Proof. revert bs. induction n as [|n IH]; intros bs; [done|]. simpl. by rewrite IH. Qed.
#[local] Opaque words_of.
(** The rest of the handler, once there is a frame. *)
Lemma swap_in_frame v v1 fl sm mem f kp fl1 sm1 u bs :
  paging v fl sm mem → created v v1 fl sm f kp (cur v) u fl1 sm1 → sm !! (cur v, u) = Some bs →
  ∃ m2 w3 m4 pd, install_page u kp true v1 = Ret (true, set_mach m2 v1) ∧
    on_swap (read_from_swap (cur v) u) (set_mach m2 v1) = Ret (bs, set_swp w3 (set_mach m2 v1)) ∧
    store_page kp bs (set_swp w3 (set_mach m2 v1)) = Ret (tt, set_mach m4 (set_swp w3 v1)) ∧
    paging (set_mach m4 (set_swp w3 v1)) (fl1 ++ [f]) (delete (cur v, u) sm1) mem ∧ active m4 = active (mach v) ∧
    pagedir v !! cur v = Some pd ∧ mapping m4 pd u = Some (Z.land (user_pte kp true) MAP).
Proof.
  intros P C Hs. pose proof (cr_res _ _ _ _ _ _ _ _ _ _ C) as R1. destruct (cr_rest _ _ _ _ _ _ _ _ _ _ C) as (Hcur & Hpdir & Hor & Hnum & Hact).
  assert (sm1 !! (cur v, u) = Some bs) as Hs1 by (eapply lookup_weaken; [done|apply C]).
  destruct (rd_swapped _ _ _ R1 _ _ _ Hs1) as (Hb & pd & Hpd & Hpds & Hu & Hal & Hn & Hw).
  pose proof (user_used_page _ _ (cr_used _ _ _ _ _ _ _ _ _ _ C)) as Hkp.
  destruct (install_page_Ret v1 pd u kp (rd_mach _ _ _ R1)) as (m2 & Hi & K & Hmap); [by rewrite Hcur|done..|].
  destruct (swap_in_Ret (swp v1) sm1 (cur v) u bs (rd_swap _ _ _ R1) Hs1) as (w3 & Hr & Hsw & Hcap & _).
  pose proof (kp_ok _ _ _ K) as Hok2. destruct (mo_pages _ _ Hok2 kp) as (pg & Hpg & Hlen); [by apply (keeps_page Ds (mach v1))|].
  assert (length bs = 4096%nat) as Hbl.
  { pose proof (sr_dom _ _ (rd_swap _ _ _ R1) _ _ Hs1) as (e & He & Hin)%list_elem_of_fmap. destruct (sr_content _ _ (rd_swap _ _ _ R1) e Hin) as (b & Hb' & Hl & _). rewrite <-He, Hs1 in Hb'. by injection Hb' as <-. }
  destruct (write_frame Ds m2 kp (words_of 1024 bs) Hok2) as [Hok4 Hw4]; [by apply (keeps_page Ds (mach v1))|apply words_of_length|].
  set (m4 := set_pages (<[kp := words_of 1024 bs]> (pages m2)) m2) in *. exists m2, w3, m4, pd.
  split; [done|]. split; [exact (zoom_Ret swp set_swp _ (set_mach m2 v1) _ _ Hr)|].
  split; [exact (store_page_Ret (set_swp w3 (set_mach m2 v1)) kp pg bs Hpg Hlen Hbl)|].
  assert (∀ pd' va, pd' ∈ Ds → user va → mapping m4 pd' va = if decide (on_page pd pd' va u) then Some (Z.land (user_pte kp true) MAP) else mapping (mach v1) pd' va) as Hmap4
    by (intros pd' va Hpd' Hva; rewrite (mapping_walk m2 m4) by (by apply Hw4); by apply Hmap).
  assert (∀ p, user_used m4 p ↔ user_used (mach v1) p) as Hus by (intros p; apply (keeps_used Ds (mach v1) m2 p K)).
  assert (f ∉ fl1) as Hf.
  { destruct (cr_list _ _ _ _ _ _ _ _ _ _ C) as [Hnd _]. unfold nodes in Hnd. rewrite NoDup_cons, <-app_assoc, NoDup_app in Hnd. set_solver. }
  destruct (resident_add v1 (set_mach m4 (set_swp w3 v1)) f fl1 sm1 kp (words_of 1024 bs) pd (cur v) u bs R1) as [R4 Hc4]; try done.
  - apply C.
  - apply C.
  - apply C.
  - intros p Hp Hne. simpl. rewrite lookup_insert_ne by done. apply (kp_pages _ _ _ K). by apply user_used_page.
  - apply lookup_insert_eq.
  - by apply words_of_bytes.
  - intros pd' va Hpd' Hva Hwk. change (walk m4 pd' va ≠ None). rewrite Hw4 by done. by apply (kp_walk _ _ _ K).
  - split; [|split; [|split]].
    + split; simpl; try apply C; [done|by rewrite Hor; apply (pg_oracle _ _ _ _ P)| | | | |].
      * intros p [->|(l & x & Hl & Hx & Hk)]%Hus%(cr_owned _ _ _ _ _ _ _ _ _ _ C).
        -- exists f. eexists. split; [apply elem_of_snoc; auto|]. split; [apply C|done].
        -- exists l, x. split; [apply elem_of_snoc; auto|done].
      * destruct (pg_some _ _ _ _ P) as [p Hp]. exists p. apply (keeps_page Ds (mach v1) m2 p K). by apply C.
      * intros k b. rewrite Hc4, (cr_contents _ _ _ _ _ _ _ _ _ _ C). apply P.
      * apply P.
      * rewrite Hcap, (cr_cap _ _ _ _ _ _ _ _ _ _ C). apply P.
    + change (active m2 = active (mach v)). by rewrite (kp_active _ _ _ K).
    + by rewrite <-Hpdir.
    + rewrite Hmap4 by done. by rewrite decide_True.
Qed.
(** A fault on a page that is on the swap device. *)
Lemma page_fault_swapped n fuel junk fr v fl sm mem va bs :
  paging v fl sm mem → page_fault_lock v = None → user va → sm !! (cur v, va / 4096 * 4096) = Some bs →
  (full (mach v) → ¬ stack_first v fl) →
  ∃ v' fl' sm' pd kp, page_fault n (S (S fuel)) junk fr va v = Ret (Some tt, v') ∧ paging v' fl' sm' mem ∧
    page_fault_lock v' = None ∧ (∀ k, lead (S k) v fl → lead k v' fl') ∧
    cur v' = cur v ∧ pagedir v' = pagedir v ∧ num v' = num v ∧ active (mach v') = active (mach v) ∧
    pagedir v !! cur v = Some pd ∧ mapping (mach v') pd va = Some (Z.land (user_pte kp true) MAP).
Proof.
  intros P Hlk Hu Hs Hstk. pose proof Hu as [Hu0 Hu1]. unfold PHYS_BASE in Hu1. set (u := va / 4096 * 4096) in *.
  set (v00 := set_page_fault_lock (Some (cur v)) v). set (v0 := set_page_fault_cnt (i64 (page_fault_cnt v + 1)) v00).
  assert (paging v0 fl sm mem) as P0 by (apply (paging_step v); try done; apply extends_refl, (pg_res _ _ _ _ P)).
  assert (mem !! (cur v, u) = Some bs) as Hm by (apply (pg_mem _ _ _ _ P); by left). pose proof (pg_keys _ _ _ _ P _ _ _ Hm) as Hlow.
  assert (u ≤ va < u + 4096) as Hva by (unfold u; Z.div_mod_to_equations; lia).
  destruct (lookup_swap_Ret v0 fl sm (cur v) u bs (pg_res _ _ _ _ P0) Hs) as (e & He & Het).
  destruct (frame_create_Ret v0 fl sm mem P0 (cur v) u fuel Hstk) as (v1 & fl1 & sm1 & kp & Hcr & C).
  destruct (swap_in_frame v0 v1 fl sm mem _ kp fl1 sm1 u bs P0 C Hs) as (m2 & w3 & m4 & pd & Hi & Hr & Hst & P4 & Hact & Hpd & Hmap).
  destruct (cr_rest _ _ _ _ _ _ _ _ _ _ C) as (Hcur & Hpdir & _ & Hnum & _).
  destruct (rd_swapped _ _ _ (pg_res _ _ _ _ P) _ _ _ Hs) as (_ & pd' & Hpd' & Hpds & Huu & _ & Hn & _).
  change (pagedir v !! cur v = Some pd) in Hpd. rewrite Hpd in Hpd'. injection Hpd' as <-.
  set (v4 := set_mach m4 (set_swp w3 v1)) in *. set (v5 := set_page_fault_lock None v4).
  assert (paging v5 (fl1 ++ [fresh v0]) (delete (cur v0, u) sm1) mem) as P5
    by (apply (paging_step v4); try done; apply extends_refl, (pg_res _ _ _ _ P4)).
  exists v5. eexists _, _, pd, kp. split; [|split; [exact P5|split; [done|split]]].
  - unfold page_fault. rewrite (bindM_Ret acquire_fault_lock _ v tt v00) by (unfold acquire_fault_lock; by rewrite Hlk).
    rewrite (bindM_Ret (modifyM _) _ v00 tt v0) by done. rewrite pg_round by lia. fold u.
    replace (negb (is_user_vaddr va) || (va =? 0) || (PHYS_BASE <=? va) || (va <? 0x08048000)) with false.
    2: { unfold is_user_vaddr, PHYS_BASE. rewrite (proj2 (Z.ltb_lt va 0xc0000000)), (proj2 (Z.eqb_neq va 0)), (proj2 (Z.leb_gt 0xc0000000 va)), (proj2 (Z.ltb_ge va 0x08048000)) by lia. done. }
    rewrite (bindM_Ret getM _ v0 v0 v0) by done. rewrite (bindM_Ret _ _ _ _ _ He). cbn beta iota. rewrite Het, Z.eqb_refl.
    rewrite (bindM_Ret _ _ v0 (Some true) v5); [done|].
    rewrite (bindM_Ret _ _ _ _ _ (get_pagedir_Ret v0 _ _ Hpd)).
    rewrite (bindM_Ret (on_mach _) _ v0 None v0) by (apply on_mach_read; apply (get_page_None Ds); [apply (pg_res _ _ _ _ P)|done..]).
    rewrite (bindE_Ret _ _ _ _ _ Hcr). rewrite (bindM_Ret _ _ _ _ _ (get_frame_Ret _ _ _ (cr_frame _ _ _ _ _ _ _ _ _ _ C))). cbn [kpage default from_option id].
    rewrite (bindM_Ret _ _ _ _ _ Hi), (bindM_Ret _ _ _ _ _ Hr), (bindM_Ret _ _ _ _ _ Hst). fold v4.
    rewrite (bindM_Ret release_fault_lock _ v4 tt v5); [done|]. unfold release_fault_lock. rewrite (bindM_Ret getM _ v4 v4 v4) by done.
    rewrite bool_decide_eq_true_2; [done|]. change (page_fault_lock v1 = Some (cur v1)). rewrite Hcur. apply (cr_lock _ _ _ _ _ _ _ _ _ _ C).
  - intros k Hk. apply (lead_same k v1); [done..|]. apply lead_snoc, (cr_lead _ _ _ _ _ _ _ _ _ _ C). exact Hk.
  - do 4 (split; [done|]). split; [done|]. rewrite <-Hmap. apply mapping_same_page; [done..|].
    unfold u. by rewrite Z.div_mul.
Qed.

(** ** Memory accesses of processes *)
(** Where a page of memory is. *)
Lemma page_present v fl sm mem t va bs pd :
  paging v fl sm mem → mem !! (t, va / 4096 * 4096) = Some bs → pagedir v !! t = Some pd → user va →
  sm !! (t, va / 4096 * 4096) = Some bs ∧ mapping (mach v) pd va = None ∨
  ∃ l x kp pg, l ∈ fl ∧ frames v !! l = Some x ∧ fkey x = (t, va / 4096 * 4096) ∧ frame_ok v x kp ∧
    pages (mach v) !! kp = Some pg ∧ page_bytes pg = bs ∧ length pg = 1024%nat ∧
    ∃ w, mapping (mach v) pd va = Some (user_pte kp w) ∧ (rw (t, va / 4096 * 4096) = true → w = true).
Proof.
  intros P Hm Hpd Hu. assert (va / 4096 = va / 4096 * 4096 / 4096) as Hp by (by rewrite Z.div_mul). pose proof (pg_res _ _ _ _ P) as R.
  apply (pg_mem _ _ _ _ P) in Hm as [Hs|(l & x & kp & pg & Hl & Hx & Hk & Hkp & Hpg & ->)].
  - left. split; [done|]. destruct (rd_swapped _ _ _ R _ _ _ Hs) as (_ & pd' & Hpd' & _ & Hu' & _ & Hn & _). rewrite Hpd in Hpd'. injection Hpd' as <-.
    by rewrite (mapping_same_page _ _ _ _ Hu' Hu Hp).
  - right. destruct (rd_frames _ _ _ R l Hl) as (x' & kp' & Hx' & Hok). rewrite Hx in Hx'. injection Hx' as <-.
    rewrite (fo_kpage _ _ _ Hok) in Hkp. injection Hkp as ->. exists l, x, kp, pg. do 6 (split; [done|]).
    destruct (frame_page _ _ _ Hok (rd_mach _ _ _ R)) as (pg' & Hpg' & Hlen). rewrite Hpg in Hpg'. injection Hpg' as <-. split; [done|].
    destruct (fo_pd _ _ _ Hok) as (pd' & Hpd' & _ & w & Hmap & Hrw). exists w. split; [|by rewrite <-Hk]. injection Hk as Ht Hux.
    rewrite Ht, Hpd in Hpd'. injection Hpd' as <-. rewrite Hux in Hmap. pose proof (fo_user _ _ _ Hok) as Hu'. rewrite Hux in Hu'. rewrite (mapping_same_page _ _ _ _ Hu' Hu Hp), Hmap.
    f_equal. apply user_entry, (user_page_valid (mach v)); [apply R|by apply user_used_page, Hok].
Qed.
Lemma paging_user v fl sm mem t va bs :
  paging v fl sm mem → mem !! (t, va / 4096 * 4096) = Some bs →
  user va ∧ length bs = 4096%nat ∧ Forall (λ b, 0 ≤ b < 256) bs ∧ ∃ pd, pagedir v !! t = Some pd ∧ pd ∈ Ds.
Proof.
  intros P Hm. pose proof (pg_res _ _ _ _ P) as R.
  assert (user (va / 4096 * 4096) → user va) as Huser by (unfold user, PHYS_BASE; Z.div_mod_to_equations; lia).
  apply (pg_mem _ _ _ _ P) in Hm as [Hs|(l & x & kp & pg & Hl & Hx & Hk & Hkp & Hpg & ->)].
  - destruct (rd_swapped _ _ _ R _ _ _ Hs) as (Hb & pd & Hpd & Hpds & Hu & _). split; [auto|]. split; [|eauto].
    pose proof (sr_dom _ _ (rd_swap _ _ _ R) _ _ Hs) as (e & He & Hin)%list_elem_of_fmap.
    destruct (sr_content _ _ (rd_swap _ _ _ R) e Hin) as (b & Hb' & Hl & _). rewrite <-He, Hs in Hb'. by injection Hb' as <-.
  - destruct (rd_frames _ _ _ R l Hl) as (x' & kp' & Hx' & Hok). rewrite Hx in Hx'. injection Hx' as <-.
    rewrite (fo_kpage _ _ _ Hok) in Hkp. injection Hkp as ->. destruct (frame_page _ _ _ Hok (rd_mach _ _ _ R)) as (pg' & Hpg' & Hlen).
    rewrite Hpg in Hpg'. injection Hpg' as <-. pose proof (fo_user _ _ _ Hok) as Hu. destruct (fo_pd _ _ _ Hok) as (pd & Hpd & Hpds & _).
    injection Hk as Ht Hux. rewrite Hux in Hu. rewrite Ht in Hpd. split; [auto|]. split; [by apply page_bytes_length|]. split; [apply page_bytes_range|eauto].
Qed.
(** An access of the running process to the page of [va], and the page faults
    it causes; the result is the page that was reached. *)
Fixpoint touch (tries : nat) (fr : intr_frame) (va : Z) (write : bool) : M (vm D) (option Z) :=
  match tries with
  | O => λ _, NoFuel
  | S tries =>
      do r <- on_mach (mmu_access va write);
      let ok := match r with Some e => negb write || has_flag e PTE_W | None => false end in
      match r, ok with
      | Some e, true => retM (Some (table_of e))
      | _, _ => may _ <- page_fault 0 2 None fr va; touch tries fr va write
      end
  end.
Lemma touch_present v fl sm mem t va bs pd write tries fr :
  paging v fl sm mem → mem !! (t, va / 4096 * 4096) = Some bs → pagedir v !! t = Some pd → active (mach v) = pd → user va →
  sm !! (t, va / 4096 * 4096) = None → (write = true → rw (t, va / 4096 * 4096) = true) →
  ∃ m' l x kp pg, touch (S tries) fr va write v = Ret (Some kp, set_mach m' v) ∧ paging (set_mach m' v) fl sm mem ∧ l ∈ fl ∧
    frames v !! l = Some x ∧ fkey x = (t, va / 4096 * 4096) ∧ frame_ok (set_mach m' v) x kp ∧ pages m' !! kp = Some pg ∧ page_bytes pg = bs ∧ length pg = 1024%nat.
Proof.
  intros P Hm Hpd Ha Hu Hs Hwr. destruct (access_Ret Ds (mach v) va write (rd_mach _ _ _ (pg_res _ _ _ _ P)) Hu) as (m' & Hr & [E U1 U2] & _).
  assert (paging (set_mach m' v) fl sm mem) as P' by (by apply (paging_step v)).
  destruct (page_present (set_mach m' v) fl sm mem t va bs pd P' Hm Hpd Hu) as [[Hs' _]|(l & x & kp & pg & Hl & Hx & Hk & Hok & Hpg & Hbs & Hlen & w & Hmap & Hrw)]; [congruence|].
  exists m', l, x, kp, pg. split; [|done]. cbn [touch]. rewrite (bindM_Ret (on_mach _) _ v _ (set_mach m' v)) by exact (zoom_Ret mach set_mach _ v _ _ Hr).
  assert (valid_page kp) as Hv by (apply (user_page_valid m'); [apply (pg_res _ _ _ _ P')|apply user_used_page, Hok]).
  rewrite Ha. destruct (paging_user _ _ _ _ _ _ _ P Hm) as (_ & _ & _ & pd' & Hpd' & Hpds). rewrite Hpd in Hpd'. injection Hpd' as <-.
  rewrite <-(ex_map _ _ _ E pd va Hpds Hu). simpl in Hmap. rewrite Hmap.
  assert (negb write || has_flag (user_pte kp w) PTE_W = true) as ->.
  { destruct write; [|done]. rewrite Hrw by auto. by apply user_entry_writable. }
  by rewrite user_entry_page.
Qed.
Lemma touch_Ret v fl sm mem va bs pd write fr :
  paging v fl sm mem → mem !! (cur v, va / 4096 * 4096) = Some bs → pagedir v !! cur v = Some pd → active (mach v) = pd → user va →
  page_fault_lock v = None → (write = true → rw (cur v, va / 4096 * 4096) = true) →
  (is_Some (sm !! (cur v, va / 4096 * 4096)) → full (mach v) → ¬ stack_first v fl) →
  ∃ v' fl' sm' l x kp pg, touch 2 fr va write v = Ret (Some kp, v') ∧ paging v' fl' sm' mem ∧
    page_fault_lock v' = None ∧ (∀ k, lead (S k) v fl → lead k v' fl') ∧ l ∈ fl' ∧
    frames v' !! l = Some x ∧ fkey x = (cur v, va / 4096 * 4096) ∧ frame_ok v' x kp ∧ pages (mach v') !! kp = Some pg ∧ page_bytes pg = bs ∧ length pg = 1024%nat.
Proof.
  intros P Hm Hpd Ha Hu Hlk Hwr Hstk. destruct (sm !! (cur v, va / 4096 * 4096)) as [bs'|] eqn:Hs.
  2: { destruct (touch_present v fl sm mem (cur v) va bs pd write 1 fr P Hm Hpd Ha Hu Hs Hwr) as (m' & l & x & kp & pg & H1 & H2 & Hrest).
       exists (set_mach m' v), fl, sm, l, x, kp, pg. do 3 (split; [done|]). split; [|done]. intros k Hk. by apply lead_less. }
  destruct (access_Ret Ds (mach v) va write (rd_mach _ _ _ (pg_res _ _ _ _ P)) Hu) as (m1 & Hr & [E U1 U2] & Hact1).
  set (v1 := set_mach m1 v). assert (paging v1 fl sm mem) as P1 by (by apply (paging_step v)).
  destruct (page_fault_swapped 0 0 None fr v1 fl sm mem va bs' P1 Hlk Hu Hs) as (v2 & fl2 & sm2 & pd' & kp' & Hf & P2 & Hlk2 & Hld & Hcur & Hpdir & _ & Hact & Hpd' & Hmap).
  { intros Hfull. apply Hstk; [eauto|]. intros p Hp. by apply U1, Hfull, U2. }
  assert (pd' = pd) as -> by (change (pagedir v !! cur v = Some pd') in Hpd'; congruence).
  assert (pagedir v2 !! cur v = Some pd) as Hpd2 by (by rewrite Hpdir).
  assert (sm2 !! (cur v, va / 4096 * 4096) = None) as Hs2.
  { destruct (page_present v2 fl2 sm2 mem (cur v) va bs pd P2 Hm Hpd2 Hu) as [[_ Hn]|(l & x & kp & pg & Hl & Hx & Hk & _)]; [congruence|].
    rewrite <-Hk. by apply (resident_disjoint v2 fl2 sm2 l x (pg_res _ _ _ _ P2)). }
  destruct (touch_present v2 fl2 sm2 mem (cur v) va bs pd write 0 fr P2 Hm Hpd2) as (m' & l & x & kp & pg & Ht & P3 & Hrest);
    [rewrite Hact; change (active m1 = pd); congruence|done|done|done|].
  exists (set_mach m' v2), fl2, sm2, l, x, kp, pg. split; [|done]. cbn [touch] in Ht |- *.
  rewrite (bindM_Ret (on_mach _) _ v _ v1) by exact (zoom_Ret mach set_mach _ v _ _ Hr). rewrite Ha.
  destruct (page_present v fl sm mem (cur v) va bs pd P Hm Hpd Hu) as [[_ Hn]|(l' & x' & q & pg' & Hl & Hx & Hk & _)].
  - rewrite Hn. by rewrite (bindE_Ret _ _ _ _ _ Hf).
  - pose proof (resident_disjoint v fl sm l' x' (pg_res _ _ _ _ P) Hl Hx) as Hd. by rewrite Hk, Hs in Hd.
Qed.
(** Changing the contents of a frame. *)
Lemma paging_write v fl sm mem l x kp pg :
  paging v fl sm mem → l ∈ fl → frames v !! l = Some x → frame_ok v x kp → length pg = 1024%nat →
  paging (set_mach (set_pages (<[kp := pg]> (pages (mach v))) (mach v)) v) fl sm (<[fkey x := page_bytes pg]> mem).
Proof.
  intros P Hl Hx Hok Hlen. pose proof (pg_res _ _ _ _ P) as R. set (v' := set_mach _ v).
  destruct (write_frame Ds (mach v) kp pg (rd_mach _ _ _ R)) as [Hmo Hw]; [by apply user_used_page, Hok|done|].
  assert (same_mappings Ds (mach v) (mach v')) as Hmap by (intros pd va Hpd Hu; by apply mapping_walk, Hw).
  destruct (frame_page _ _ _ Hok (rd_mach _ _ _ R)) as (pg0 & Hpg0 & _).
  assert (is_Some (mem !! fkey x)) as Hin.
  { exists (page_bytes pg0). apply (pg_mem _ _ _ _ P). right. exists l, x, kp, pg0. by rewrite (fo_kpage _ _ _ Hok). }
  destruct P as [P1 P2 P3 P4 P5 P6 P7 P8 P9]. split; try done.
  - split; [done| |apply R|apply R|apply R| |apply R].
    + intros f Hf. destruct (rd_frames _ _ _ R f Hf) as (y & q & Hy & [F1 F2 (pd & F3 & F4 & F5) F6 F7]). exists y, q. split; [done|].
      split; try done. exists pd. unfold mapped_to. by rewrite (Hmap pd (upage y)).
    + intros t u bs Hs. destruct (rd_swapped _ _ _ R t u bs Hs) as (Hb & pd & H1 & H2 & H3 & H4 & H5 & H6). split; [done|]. exists pd.
      do 4 (split; [done|]). split; [by rewrite (Hmap pd u)|]. change (walk (mach v') pd u ≠ None). by rewrite Hw.
  - intros k b. assert (contents v' fl sm k b ↔ if decide (k = fkey x) then b = page_bytes pg else contents v fl sm k b) as ->.
    { unfold contents. case_decide as Hk.
      - subst k. split.
        + intros [Hs|(f & y & q & pg' & Hf & Hy & Hk & Hq & Hpg' & ->)]; [by rewrite (resident_disjoint v fl sm l x R Hl Hx) in Hs|].
          assert (f = l) as -> by (by apply (rd_keys _ _ _ R f l y x)). change (frames v !! l = Some y) in Hy. rewrite Hx in Hy. injection Hy as <-.
          rewrite (fo_kpage _ _ _ Hok) in Hq. injection Hq as <-. simpl in Hpg'. rewrite lookup_insert_eq in Hpg'. by injection Hpg' as <-.
        + intros ->. right. exists l, x, kp, pg. do 3 (split; [done|]). split; [apply Hok|]. split; [apply lookup_insert_eq|done].
      - apply or_iff_compat_l. split; intros (f & y & q & pg' & Hf & Hy & Hfk & Hq & Hpg' & Hb); exists f, y, q, pg'; do 4 (split; [done|]); (split; [|done]).
        all: assert (q ≠ kp) as Hqk by (intros ->; apply Hk; rewrite <-Hfk; f_equal;
          assert (f = l) as -> by (apply (rd_kpages _ _ _ R f l y x); [done..|by rewrite Hq, (fo_kpage _ _ _ Hok)]); simpl in Hy; congruence).
        + simpl in Hpg'. by rewrite lookup_insert_ne in Hpg' by done.
        + simpl. by rewrite lookup_insert_ne. }
    case_decide as Hk; [subst k; rewrite lookup_insert_eq; naive_solver|]. rewrite lookup_insert_ne by done. apply P7.
  - intros t u bs. destruct (decide ((t, u) = fkey x)) as [Hk|Hk]; [|rewrite lookup_insert_ne by done; apply P8].
    intros _. destruct Hin as [b0 Hb0]. rewrite <-Hk in Hb0. by apply (P8 _ _ _ Hb0).
  - change (Z.of_nat (base.size (<[fkey x := page_bytes pg]> mem)) ≤ st_cap (dev (swp v)) / 8). by rewrite map_size_insert_Some.
Qed.

(** ** The flat memory *)
(** Byte accesses of a process; the flat memory maps an owner and a page
    address to the bytes of the page.  Only writable pages are stored to. *)
Inductive mem_op := Load (t va : Z) | Store (t va b : Z).
Definition page_key (t va : Z) : Z * Z := (t, va / 4096 * 4096).
Definition page_offset (va : Z) : nat := Z.to_nat (va `mod` 4096).
Definition mem_step (o : mem_op) (mem : gmap (Z * Z) (list Z)) : option (Z * gmap (Z * Z) (list Z)) :=
  match o with
  | Load t va => bs ← mem !! page_key t va; b ← bs !! page_offset va; Some (b, mem)
  | Store t va b =>
      bs ← mem !! page_key t va;
      if decide (0 ≤ b < 256 ∧ rw (page_key t va) = true) then Some (0, <[page_key t va := <[page_offset va := b]> bs]> mem) else None
  end.
Fixpoint mem_run (ops : list mem_op) (mem : gmap (Z * Z) (list Z)) : option (list Z * gmap (Z * Z) (list Z)) :=
  match ops with
  | [] => Some ([], mem)
  | o :: ops => '(r, mem) ← mem_step o mem; '(rs, mem) ← mem_run ops mem; Some (r :: rs, mem)
  end.
(** The same accesses on the machine: a switch to the process, an access
    through the page tables with the page faults it causes, and the byte of the
    frame that it reaches. *)
Definition switch_to (t : Z) : M (vm D) unit := run modifyM (set_cur t); process_activate.
Definition vm_access (fr : intr_frame) (o : mem_op) : M (vm D) (option Z) :=
  match o with
  | Load t va =>
      run switch_to t; may kp <- touch 2 fr va false;
      do bs <- load_page kp; retM (Some (nth (page_offset va) bs 0))
  | Store t va b =>
      run switch_to t; may kp <- touch 2 fr va true;
      do bs <- load_page kp; run store_page kp (<[page_offset va := b]> bs); retM (Some 0)
  end.
Fixpoint vm_run (fr : intr_frame) (ops : list mem_op) : M (vm D) (option (list Z)) :=
  match ops with
  | [] => retM (Some [])
  | o :: ops => may r <- vm_access fr o; may rs <- vm_run fr ops; retM (Some (r :: rs))
  end.
Lemma switch_to_Ret v fl sm mem t pd :
  paging v fl sm mem → pagedir v !! t = Some pd → pd ∈ Ds →
  ∃ v', switch_to t v = Ret (tt, v') ∧ paging v' fl sm mem ∧ cur v' = t ∧ pagedir v' = pagedir v ∧ active (mach v') = pd ∧
    (full (mach v') → full (mach v)) ∧ frames v' = frames v ∧ num v' = num v ∧ page_fault_lock v' = page_fault_lock v.
Proof.
  intros P Hpd Hpds. destruct (activate_Ret Ds (mach v) pd (rd_mach _ _ _ (pg_res _ _ _ _ P)) Hpds) as (m' & Hr & [E U1 U2] & Ha).
  exists (set_mach m' (set_cur t v)). split; [|split; [by apply (paging_step v)|do 3 (split; [done|]); split; [|done]; intros Hf p Hp; by apply U1, Hf, U2]].
  unfold switch_to. rewrite (bindM_Ret (modifyM _) _ v tt (set_cur t v)) by done. unfold process_activate.
  rewrite (bindM_Ret getM _ _ (set_cur t v) (set_cur t v)) by done. cbn [cur pagedir set_cur]. rewrite Hpd.
  exact (zoom_Ret mach set_mach _ (set_cur t v) _ _ Hr).
Qed.
Definition op_key (o : mem_op) : Z * Z := match o with Load t va | Store t va _ => page_key t va end.
(** The next access needs a frame, none is free, and the frame to evict holds a
    stack page. *)
Definition stuck v fl sm (o : mem_op) : Prop :=
  is_Some (sm !! op_key o) ∧ full (mach v) ∧ stack_first v fl.
Lemma stuck_dec v fl sm o : machine_ok Ds (mach v) → stuck v fl sm o ∨ (is_Some (sm !! op_key o) → full (mach v) → ¬ stack_first v fl).
Proof.
  intros Hok. unfold stuck. destruct (sm !! op_key o) as [bs|]; [|right; by intros [? ?]].
  destruct (full_dec _ Hok); [|by right]. destruct (stack_first_dec v fl) as [?|Hn]; [by left; eauto|right].
  intros _ _ (l & fl1 & x & -> & Hx & Hs). specialize (Hn l fl1 x eq_refl Hx). lia.
Qed.
Lemma vm_access_Ret fr o v fl sm mem r mem' :
  paging v fl sm mem → page_fault_lock v = None → mem_step o mem = Some (r, mem') →
  (is_Some (sm !! op_key o) → full (mach v) → ¬ stack_first v fl) →
  ∃ v' fl' sm', vm_access fr o v = Ret (Some r, v') ∧ paging v' fl' sm' mem' ∧ page_fault_lock v' = None ∧
    ∀ k, lead (S k) v fl → lead k v' fl'.
Proof.
  intros P Hlk Ho Hstk. destruct o as [t va|t va b]; simpl in Ho, Hstk; apply bind_Some in Ho as (bs & Hm & Ho);
    destruct (paging_user v fl sm mem t va bs P Hm) as (Hu & Hlen & Hby & pd & Hpd & Hpds);
    destruct (switch_to_Ret v fl sm mem t pd P Hpd Hpds) as (v1 & Hsw & P1 & Hcur & Hpdir & Hact & Hfull & Hfr & Hnum & Hl1);
    (assert (pagedir v1 !! cur v1 = Some pd) as Hpd1 by (by rewrite Hcur, Hpdir)); unfold page_key in Hm, Hstk; rewrite <-Hcur in Hm; unfold vm_access;
    rewrite (bindM_Ret _ _ _ _ _ Hsw); rewrite Hlk in Hl1;
    (assert (is_Some (sm !! (cur v1, va / 4096 * 4096)) → full (mach v1) → ¬ stack_first v1 fl) as Hstk1
      by (rewrite Hcur; intros Hx Hf; unfold stack_first, stack_base; rewrite Hfr, Hnum; apply Hstk; auto)).
  - apply bind_Some in Ho as (b & Hb & [= <- <-]).
    destruct (touch_Ret v1 fl sm mem va bs pd false fr P1 Hm Hpd1 Hact Hu Hl1 ltac:(done) Hstk1)
      as (v2 & fl2 & sm2 & l & x & kp & pg & Ht & P2 & Hlk2 & Hld & Hl & Hx & Hk & Hok & Hpg & Hbs & _).
    rewrite (bindE_Ret _ _ _ _ _ Ht), (bindM_Ret _ _ _ _ _ (load_page_Ret _ _ _ Hpg)), Hbs. exists v2, fl2, sm2.
    split; [|split; [done|split; [done|]]]; [unfold retM; do 3 f_equal; by apply nth_lookup_Some|].
    intros k Hk'. by apply Hld, (lead_same _ v).
  - destruct (decide (0 ≤ b < 256 ∧ rw (page_key t va) = true)) as [[Hbr Hw]|]; [|done]. injection Ho as <- <-.
    unfold page_key in Hw. rewrite <-Hcur in Hw.
    destruct (touch_Ret v1 fl sm mem va bs pd true fr P1 Hm Hpd1 Hact Hu Hl1 ltac:(done) Hstk1)
      as (v2 & fl2 & sm2 & l & x & kp & pg & Ht & P2 & Hlk2 & Hld & Hl & Hx & Hk & Hok & Hpg & Hbs & Hpl).
    rewrite (bindE_Ret _ _ _ _ _ Ht), (bindM_Ret _ _ _ _ _ (load_page_Ret _ _ _ Hpg)), Hbs. set (bs' := <[page_offset va := b]> bs).
    assert (length bs' = 4096%nat) as Hl' by (unfold bs'; by rewrite length_insert).
    rewrite (bindM_Ret _ _ _ _ _ (store_page_Ret v2 kp pg bs' Hpg Hpl Hl')). eexists _, fl2, sm2. split; [done|].
    pose proof (paging_write v2 fl2 sm2 mem l x kp (words_of 1024 bs') P2 Hl Hx Hok (words_of_length _ _)) as P3.
    rewrite Hk, Hcur in P3. unfold page_bytes in P3. rewrite words_of_bytes in P3; [|done|by apply Forall_insert].
    split; [done|]. split; [done|]. intros k Hk'. by apply (Hld k), (lead_same _ v).
Qed.
(** The run up to the first access that is stuck. *)
Lemma vm_run_Ret fr ops v fl sm mem rs mem' :
  paging v fl sm mem → page_fault_lock v = None → mem_run ops mem = Some (rs, mem') →
  ∃ n v' fl' sm' mem1, vm_run fr (take n ops) v = Ret (Some (take n rs), v') ∧
    mem_run (take n ops) mem = Some (take n rs, mem1) ∧ paging v' fl' sm' mem1 ∧
    (n = length ops ∨ ∃ o, ops !! n = Some o ∧ stuck v' fl' sm' o) ∧ (lead (length ops) v fl → n = length ops).
Proof.
  revert v fl sm mem rs. induction ops as [|o ops IH]; intros v fl sm mem rs P Hlk; cbn [mem_run].
  { intros [= <- <-]. exists 0%nat, v, fl, sm, mem. split_and!; try done. by left. }
  intros ([r mem1] & H1 & ([rs1 mem2] & H2 & [= <- <-])%bind_Some)%bind_Some.
  destruct (stuck_dec v fl sm o (rd_mach _ _ _ (pg_res _ _ _ _ P))) as [Hst|Hst].
  { exists 0%nat, v, fl, sm, mem. split_and!; try done; [right; by exists o|]. intros Hl%lead_first. by destruct Hst as (_ & _ & ?). }
  destruct (vm_access_Ret fr o v fl sm mem r mem1 P Hlk H1 Hst) as (v1 & fl1 & sm1 & Hr & P1 & Hlk1 & Hld).
  destruct (IH v1 fl1 sm1 mem1 rs1 P1 Hlk1 H2) as (n & v2 & fl2 & sm2 & mem3 & Hrs & Hm & P2 & Hn & Hl).
  exists (S n), v2, fl2, sm2, mem3. change (take (S n) (o :: ops)) with (o :: take n ops).
  change (take (S n) (r :: rs1)) with (r :: take n rs1). cbn [vm_run mem_run]. split; [|split; [|split; [done|split]]].
  - rewrite (bindE_Ret _ _ _ _ _ Hr). by rewrite (bindE_Ret _ _ _ _ _ Hrs).
  - rewrite H1. cbn [mbind option_bind]. by rewrite Hm.
  - destruct Hn as [->|?]; [by left|by right].
  - intros Hk%Hld%Hl. simpl. by rewrite Hk.
Qed.
(** C6. Paging is transparent: for every sequence of byte accesses of the
    processes to their pages that stores to writable pages only, each access gets
    the result that one flat memory, with a private page for every process and
    address, would give; page faults, evictions and swapping never lose or mix up
    a page, end a process or stop the kernel.  This holds when allocations
    succeed, all pages fit on the swap device and nobody holds [page_fault_lock],
    for any number of read-only pages and of stack pages in the frame table, up to
    the first access, if any, that is [stuck]: its page is on the swap device, no
    frame is free and the first frame of the table, which the code would evict,
    holds a stack page.  No access is stuck while there are at least as many
    frames in front of the first stack page as accesses. *)
Theorem paging_refinement fr ops v fl sm mem rs mem' :
  represents v fl sm mem → oracle v = [] → page_fault_lock v = None →
  Z.of_nat (base.size mem) ≤ st_cap (dev (swp v)) / 8 → mem_run ops mem = Some (rs, mem') →
  ∃ n v' fl' sm' mem1, vm_run fr (take n ops) v = Ret (Some (take n rs), v') ∧
    mem_run (take n ops) mem = Some (take n rs, mem1) ∧ represents v' fl' sm' mem1 ∧
    (n = length ops ∨ ∃ o, ops !! n = Some o ∧ stuck v' fl' sm' o) ∧
    (lead (length ops) v fl → n = length ops).
Proof.
  intros R Ho Hlk Hroom Hm. pose proof (represents_paging _ _ _ _ R Ho Hroom) as P.
  destruct (vm_run_Ret fr ops v fl sm mem rs mem' P Hlk Hm) as (n & v' & fl' & sm' & mem1 & H1 & H2 & H3 & H4).
  exists n, v', fl', sm', mem1. do 2 (split; [done|]). split; [by apply paging_represents|done].
Qed.
End paging.

(** ** Example: a process on a machine with three frames *)
(** The frames hold a read-only page, a writable page and the stack, in this
    order; another page is on the swap device. *)
Definition pd1 : Z := 0xc0100000.
Definition dirs2 : list Z := [0xc0100000; 0xc0102000].
Definition user_frames : list Z := [0xc0200000; 0xc0201000; 0xc0202000].
Definition small_machine : machine :=
  set_user_pool (Pool (Bitmap 3 [7]) 0xc0200000)
    (set_pages (<[0xc0200000 := zero_page]> (<[0xc0201000 := zero_page]> (<[0xc0202000 := zero_page]> (pages two_pds)))) two_pds).
Ltac in_frames := unfold user_frames; repeat first [apply list_elem_of_here | apply list_elem_of_further].
Lemma small_user p : user_page small_machine p ↔ p ∈ user_frames.
Proof.
  unfold user_frames. rewrite !elem_of_cons. split.
  - intros (k & Hk & ->). simpl in Hk. unfold pool_page. simpl. change PGSIZE with 4096.
    assert (k = 0 ∨ k = 1 ∨ k = 2) as [->|[->| ->]] by lia; auto.
  - intros [->|[->|[->|[]%not_elem_of_nil]]]; [by exists 0|by exists 1|by exists 2].
Qed.
Lemma small_used p : user_used small_machine p ↔ p ∈ user_frames.
Proof.
  split; [by intros ?%user_used_page%small_user|]. unfold user_frames. rewrite !elem_of_cons.
  intros [->|[->|[->|[]%not_elem_of_nil]]]; [by exists 0|by exists 1|by exists 2].
Qed.
Lemma small_apart p : p ∈ user_frames → ¬ kernel_page small_machine p.
Proof.
  intros Hp (k & Hk & Heq). simpl in Hk. unfold pool_page in Heq. simpl in Heq. change PGSIZE with 4096 in Heq.
  unfold user_frames in Hp. rewrite !elem_of_cons in Hp. destruct Hp as [?|[?|[?|[]%not_elem_of_nil]]]; lia.
Qed.
Lemma small_pages p : p ∈ user_frames → pages small_machine !! p = Some zero_page.
Proof.
  unfold user_frames. rewrite !elem_of_cons. intros [->|[->|[->|[]%not_elem_of_nil]]]; simpl.
  - apply lookup_insert_eq.
  - rewrite lookup_insert_ne by done. apply lookup_insert_eq.
  - rewrite !lookup_insert_ne by done. apply lookup_insert_eq.
Qed.
Lemma small_machine_ok : machine_ok dirs2 small_machine ∧ ∀ pd va, pd ∈ dirs2 → user va → walk small_machine pd va = walk two_pds pd va.
Proof.
  destruct (vm_inv_user dirs2 two_pds small_machine) as [Hinv Hw]; [apply two_pds_inv|done|done|done| |].
  { intros p Hp. assert (p ∉ user_frames) as Hn by (intros Hin; by apply (small_apart p Hin)).
    unfold user_frames in Hn. rewrite !not_elem_of_cons in Hn. simpl. by rewrite !lookup_insert_ne by naive_solver. }
  split; [|done]. split; [done| | | | |].
  - split; simpl; [split; simpl; [done|done|by repeat constructor]|done|by exists 0xc0200|done].
  - intros p Hp%small_user. by apply small_apart.
  - intros p Hp%small_user. unfold user_frames in Hp. rewrite !elem_of_cons in Hp. by destruct Hp as [->|[->|[->|[]%not_elem_of_nil]]].
  - apply (bool_decide_unpack _). by vm_compute.
  - intros p Hp%small_user. exists zero_page. split; [by apply small_pages|done].
Qed.
(** Mapping one more page. *)
Definition map_new (u kp : Z) (w : bool) (m : machine) : option machine :=
  match pagedir_set_page pd1 u kp w m with Ret (true, m') => Some m' | _ => None end.
Lemma map_new_Some u kp w m m' :
  map_new u kp w m = Some m' → machine_ok dirs2 m → user_page m kp → user u → (4096 | u) → mapping m pd1 u = None →
  keeps dirs2 m m' ∧ ∀ va, user va → mapping m' pd1 va = if same_page va u then Some (Z.land (user_pte kp w) MAP) else mapping m pd1 va.
Proof.
  intros Hm Hok Hkp Hu Hal Hn. pose proof (mo_inv _ _ Hok) as Hinv. assert (pd1 ∈ dirs2) as Hpd by by left.
  assert (can_map m pd1 u kp) as Hc.
  { split; [done|done|by apply (user_page_valid m); [apply Hok|]|by apply (mo_ram _ _ Hok)| |].
    - intros Heq. apply (mo_dir _ _ Hok). by rewrite <-Heq.
    - unfold mapping in Hn. by destruct (translate m pd1 u). }
  destruct (pagedir_set_page_Ret m pd1 u kp w (vi_wf _ _ Hinv pd1 Hpd) (vi_pool _ _ Hinv) Hc)
    as (ok & m1 & Hr & (_ & Hdir & Hcr & _) & Hpw & Hwf & Hcf & Htr & _).
  unfold map_new in Hm. rewrite Hr in Hm. destruct ok; [|done]. injection Hm as ->.
  pose proof (inv_set_page dirs2 _ _ _ _ _ _ _ Hinv Hpd Hc Hr) as Hinv'. split.
  - exact (confined_keeps dirs2 m m' pd1 Hok Hpd Hcf Hinv' Hcr Hdir).
  - intros va Hva. unfold mapping. rewrite Htr by done. simpl. by destruct (same_page va u).
Qed.
Lemma small_mapped :
  ∃ m, machine_ok dirs2 m ∧ (∀ p, user_page m p ↔ p ∈ user_frames) ∧ (∀ p, user_used m p ↔ p ∈ user_frames) ∧
    (∀ p, p ∈ user_frames → pages m !! p = Some zero_page) ∧
    mapping m pd1 0x8048000 = Some (Z.land (user_pte 0xc0200000 false) MAP) ∧
    mapping m pd1 0x804a000 = Some (Z.land (user_pte 0xc0201000 true) MAP) ∧
    mapping m pd1 0xbffff000 = Some (Z.land (user_pte 0xc0202000 true) MAP) ∧
    mapping m pd1 0x8049000 = None ∧ walk m pd1 0x8049000 ≠ None.
Proof.
  destruct small_machine_ok as [Hok Hw]. assert (pd1 ∈ dirs2) as Hpd by by left.
  assert (∀ va, user va → mapping small_machine pd1 va = None) as Hnone.
  { intros va Hva. unfold mapping, translate. rewrite Hw by done. pose proof (two_pds_unmapped pd1 va) as Hu. unfold translate in Hu. by rewrite Hu. }
  assert (match m1 ← map_new 0x8048000 0xc0200000 false small_machine; m2 ← map_new 0x804a000 0xc0201000 true m1;
    map_new 0xbffff000 0xc0202000 true m2 with Some _ => true | None => false end = true) as Hv by by vm_compute.
  destruct (map_new 0x8048000 0xc0200000 false small_machine) as [m1|] eqn:E1; [|done]. cbn [mbind option_bind] in Hv.
  destruct (map_new 0x804a000 0xc0201000 true m1) as [m2|] eqn:E2; [|done]. cbn [mbind option_bind] in Hv.
  destruct (map_new 0xbffff000 0xc0202000 true m2) as [m3|] eqn:E3; [|done]. clear Hv.
  destruct (map_new_Some _ _ _ _ _ E1 Hok) as [K1 M1]; [apply small_user; in_frames|done|by exists 0x8048|by apply Hnone|].
  destruct (map_new_Some _ _ _ _ _ E2 (kp_ok _ _ _ K1)) as [K2 M2];
    [apply (keeps_page _ _ _ _ K1), small_user; in_frames|done|by exists 0x804a|rewrite M1 by done; by apply Hnone|].
  destruct (map_new_Some _ _ _ _ _ E3 (kp_ok _ _ _ K2)) as [K3 M3];
    [apply (keeps_page _ _ _ _ K2), (keeps_page _ _ _ _ K1), small_user; in_frames|done|by exists 0xbffff|rewrite M2, M1 by done; by apply Hnone|].
  pose proof (keeps_trans _ _ _ _ (keeps_trans _ _ _ _ K1 K2) K3) as K.
  assert (mapping m3 pd1 0x8048000 = Some (Z.land (user_pte 0xc0200000 false) MAP)) as Hfirst by (by rewrite M3, M2, M1).
  exists m3. split; [apply K|]. split; [intros p; rewrite <-small_user; apply (keeps_page _ _ _ _ K)|].
  split; [intros p; rewrite <-small_used; apply (keeps_used _ _ _ _ K)|].
  split; [intros p Hp; rewrite (kp_pages _ _ _ K) by (by apply small_user); by apply small_pages|].
  split; [done|]. split; [by rewrite M3, M2|]. split; [by rewrite M3|]. split; [rewrite M3, M2, M1 by done; by apply Hnone|].
  pose proof (vi_wf _ _ (mo_inv _ _ (kp_ok _ _ _ K)) pd1 Hpd) as Hwf.
  apply mapped_walk in Hfirst. by apply walk_table in Hfirst; [apply walk_table|..].
Qed.
#[local] Instance demo_storage : Storage Block.devices := block_storage 1.
#[local] Instance demo_laws : StorageLaws Block.devices := block_laws 1.
Definition small_links : heap :=
  <[1%N := ListElem 0 32]> (<[32%N := ListElem 1 40]> (<[40%N := ListElem 32 48]> (<[48%N := ListElem 40 9]> {[9%N := ListElem 48 0]}))).
Lemma small_links_repr : list_repr small_links frame_table [32%N; 40%N; 48%N].
Proof. split; [by apply (bool_decide_unpack _); vm_compute|]. repeat split; try done; by vm_compute. Qed.
(** A swap partition of four slots behind the first sector of a disk. *)
Definition wide_devices : Block.devices := Block.Devices
  [Block.Block [104] Block.BLOCK_RAW 33 (Block.Disk 0) 0 0; Block.Block [49] Block.BLOCK_SWAP 32 (Block.Partition 0 1) 0 0]
  [None; None; None; Some 1%nat] {[0%nat := replicate 33 (replicate 512 0)]}.
Lemma wide_devices_locate s : 0 ≤ s < 32 → BlockSpec.locate wide_devices 1 s = Some (0%nat, s + 1).
Proof.
  intros Hs. unfold BlockSpec.locate. cbn -[u32]. rewrite (proj2 (Z.ltb_lt s 32)) by lia. rewrite u32_small by lia.
  rewrite (proj2 (Z.ltb_lt (1 + s) 33)) by lia. do 2 f_equal. lia.
Qed.
Lemma wide_devices_usable : usable 1 wide_devices.
Proof.
  split.
  - by eexists.
  - done.
  - repeat split; done.
  - intros s Hs. change (capacity 1 wide_devices) with 32 in Hs. exists 0%nat, (s + 1), (replicate 33 (replicate 512 0)).
    rewrite wide_devices_locate by done. split; [done|]. split; [lia|]. split; [done|]. rewrite length_replicate. lia.
  - intros s s'. change (capacity 1 wide_devices) with 32. intros Hs Hs'. rewrite !wide_devices_locate by done. intros [= ?]. lia.
Qed.
Lemma small_swap : ∃ w, swap_rel w {[(1, 0x8049000) := page_of 9]} ∧ st_cap (dev w) = 32.
Proof.
  destruct (init_swap_block_Ret wide_devices [0; 0; 0; 0] (Bitmap 0 [])) as (w0 & _ & R0 & Hc & _);
    [apply wide_devices_usable|done|done|rewrite !Forall_cons, Forall_nil; unfold word; lia|].
  change (st_cap wide_devices) with 32 in Hc. destruct (swap_out_Ret w0 ∅ 1 0x8049000 (page_of 9) R0) as (w & _ & R & Hc' & _);
    [apply length_replicate|done|by rewrite Hc|]. exists w. by rewrite Hc'.
Qed.
Definition small_rw (k : Z * Z) : bool := negb (bool_decide (k = (1, 0x8048000))).
Definition small_memory : gmap (Z * Z) (list Z) :=
  {[(1, 0x8048000) := page_bytes zero_page; (1, 0x804a000) := page_bytes zero_page; (1, 0xbffff000) := page_bytes zero_page; (1, 0x8049000) := page_of 9]}.
Definition small_frames : gmap loc struct_frame :=
  {[32%N := Frame 0x8048000 (Some 0xc0200000) 1; 40%N := Frame 0x804a000 (Some 0xc0201000) 1; 48%N := Frame 0xbffff000 (Some 0xc0202000) 1]}.
Definition small_vm (m : machine) (w : swap Block.devices) : vm Block.devices :=
  Vm m w small_links small_frames ∅ ∅ (Fs [] (Bitmap 0 []) None [] ∅ ∅ ∅ 0 []) 1 {[1 := pd1; 2 := 0xc0102000]} false 2 false 0 [] 64 None.
Lemma small_frames_lookup l x :
  small_frames !! l = Some x ↔
  (l = 32%N ∧ x = Frame 0x8048000 (Some 0xc0200000) 1) ∨ (l = 40%N ∧ x = Frame 0x804a000 (Some 0xc0201000) 1) ∨ (l = 48%N ∧ x = Frame 0xbffff000 (Some 0xc0202000) 1).
Proof. unfold small_frames. rewrite !lookup_insert_Some, lookup_singleton_Some. intuition (subst; congruence). Qed.
Lemma small_represents m w :
  machine_ok dirs2 m → (∀ p, user_page m p ↔ p ∈ user_frames) → (∀ p, user_used m p ↔ p ∈ user_frames) →
  (∀ p, p ∈ user_frames → pages m !! p = Some zero_page) →
  mapping m pd1 0x8048000 = Some (Z.land (user_pte 0xc0200000 false) MAP) →
  mapping m pd1 0x804a000 = Some (Z.land (user_pte 0xc0201000 true) MAP) →
  mapping m pd1 0xbffff000 = Some (Z.land (user_pte 0xc0202000 true) MAP) →
  mapping m pd1 0x8049000 = None → walk m pd1 0x8049000 ≠ None →
  swap_rel w {[(1, 0x8049000) := page_of 9]} →
  represents dirs2 small_rw (small_vm m w) [32%N; 40%N; 48%N] {[(1, 0x8049000) := page_of 9]} small_memory.
Proof.
  intros Hok Hup Hus Hpg H1 H2 H3 Hn Hwk Hsw. assert (pd1 ∈ dirs2) as Hpd by by left.
  assert (∀ l x, frames (small_vm m w) !! l = Some x → l ∈ [32%N; 40%N; 48%N] ∧ ∃ kp, kp ∈ user_frames ∧ frame_ok dirs2 small_rw (small_vm m w) x kp) as Hfr.
  { intros l x Hx%small_frames_lookup. destruct Hx as [[-> ->]|[[-> ->]|[-> ->]]]; (split; [in_frames|]).
    - exists 0xc0200000. split; [in_frames|]. split; [done|apply Hus; in_frames| |done|by exists 0x8048]. exists pd1. do 2 (split; [done|]). by exists false.
    - exists 0xc0201000. split; [in_frames|]. split; [done|apply Hus; in_frames| |done|by exists 0x804a]. exists pd1. do 2 (split; [done|]). by exists true.
    - exists 0xc0202000. split; [in_frames|]. split; [done|apply Hus; in_frames| |done|by exists 0xbffff]. exists pd1. do 2 (split; [done|]). by exists true. }
  split; [split| | | | | |].
  - done.
  - intros l Hl. assert (is_Some (small_frames !! l)) as [x Hx].
    { rewrite !elem_of_cons in Hl. destruct Hl as [->|[->|[->|[]%not_elem_of_nil]]]; by eexists. }
    destruct (Hfr l x Hx) as (_ & kp & _ & Hf). eauto.
  - intros l l' x x' _ _ Hx%small_frames_lookup Hx'%small_frames_lookup. unfold fkey. naive_solver.
  - intros l l' x x' _ _ Hx%small_frames_lookup Hx'%small_frames_lookup. naive_solver.
  - done.
  - intros t u bs [[= <- <-] <-]%lookup_singleton_Some. split; [by apply Forall_replicate|]. exists pd1. do 3 (split; [done|]). split; [by exists 0x8049|done].
  - intros t t' pd. simpl. unfold pd1. rewrite !lookup_insert_Some, !lookup_singleton_Some. intuition congruence.
  - apply small_links_repr.
  - intros a. unfold small_vm, small_links. simpl. rewrite !lookup_insert_is_Some, lookup_singleton_is_Some. lia.
  - intros p Hp%Hus. unfold user_frames in Hp. rewrite !elem_of_cons in Hp. simpl.
    destruct Hp as [->|[->|[->|[]%not_elem_of_nil]]]; [exists 32%N|exists 40%N|exists 48%N]; eexists; (split; [in_frames|]); by split.
  - exists 0xc0200000. apply Hup. in_frames.
  - intros k bs. unfold small_memory, contents. rewrite !lookup_insert_Some, !lookup_singleton_Some. split.
    + intros [[<- <-]|[_ [[<- <-]|[_ [[<- <-]|[_ [<- <-]]]]]]]; [right; exists 32%N|right; exists 40%N|right; exists 48%N|by left];
        eexists _, _, zero_page; (split; [in_frames|]); split_and!; try done; apply Hpg; in_frames.
    + intros [[<- <-]|(l & x & kp & pg & Hl & Hx & <- & Hkp & Hp & ->)]; [by right; split; [done|right; split; [done|right]]|].
      destruct (Hfr l x Hx) as (_ & kp' & Hin & Hf). rewrite (fo_kpage _ _ _ _ _ Hf) in Hkp. injection Hkp as ->.
      change (pages m !! kp = Some pg) in Hp. rewrite (Hpg kp Hin) in Hp. injection Hp as <-.
      apply small_frames_lookup in Hx as [[_ ->]|[[_ ->]|[_ ->]]]; [by left|right; split; [done|by left]|].
      right. split; [done|]. right. split; [done|]. by left.
  - intros t u bs. unfold small_memory. rewrite !lookup_insert_Some, lookup_singleton_Some.
    intros [[[= <- <-] _]|[_ [[[= <- <-] _]|[_ [[[= <- <-] _]|[_ [[= <- <-] _]]]]]]]; lia.
Qed.
Lemma small_lead m w : lead 2 (small_vm m w) [32%N; 40%N; 48%N].
Proof.
  split; [simpl; lia|]. intros l x Hl Hx%small_frames_lookup. cbn [take] in Hl. change (stack_base (small_vm m w)) with 0xbfffe000.
  destruct Hx as [[-> ->]|[[-> ->]|[-> ->]]]; [done|done|]. rewrite !elem_of_cons in Hl. by destruct Hl as [?|[?|[]%not_elem_of_nil]].
Qed.
(** The first access evicts the read-only page, the second one brings it back. *)
Lemma paging_refinement_witness :
  ∃ m w v', vm_run (IntrFrame 4 0xbffffff0 SEL_UCSEG) [Load 1 0x8049001; Load 1 0x8048123] (small_vm m w) = Ret (Some [9; 0], v').
Proof.
  destruct small_mapped as (m & H1 & H2 & H3 & H4 & H5 & H6 & H7 & H8 & H9), small_swap as (w & Hsw & Hcap). exists m, w.
  destruct (paging_refinement dirs2 small_rw (IntrFrame 4 0xbffffff0 SEL_UCSEG) [Load 1 0x8049001; Load 1 0x8048123]
    (small_vm m w) [32%N; 40%N; 48%N] {[(1, 0x8049000) := page_of 9]} small_memory [9; 0] small_memory)
    as (n & v' & fl' & sm' & mem1 & Hr & _ & _ & _ & Hn).
  - by apply small_represents.
  - done.
  - done.
  - change (Z.of_nat (base.size small_memory) ≤ st_cap (dev w) / 8). rewrite Hcap. by vm_compute.
  - by vm_compute.
  - rewrite (Hn (small_lead m w)) in Hr. by exists v'.
Defined.
